(** * VapourSynth core (src/core/vscore.cpp): a shallow embedding

    The development follows the layout of [vscore.cpp]: the memory pool
    ([MemoryUse]), plane data and frames ([VSPlaneData], [VSFrameRef]),
    the argument-string parser and plugin functions ([VSPluginFunction],
    [VSPlugin]), audio formats and audio nodes ([VSCore], [VSNode]).

    Part I holds the embedding, Part II the lemmas and theorems.

    Conventions.
    - Machine integers are [Z] with the wrap-around written out
      ([wrapu], [wraps]); [size_t] has the width of the target
      ([size_bits]).
    - Pointers are [Z] addresses; the blocks handed out by the operating
      system are a finite map from base address to the [BlockHeader]
      stored at that address.
    - A call that terminates the process ([VS_FATAL_ERROR], a fatal log
      message) is [Fatal]; behaviour that C++ leaves undefined (a read
      through a dangling or null pointer) is [Undefined].
    - The build is the one with [VS_FRAME_POOL] defined (plane buffers
      come from the pool); buffer contents are not tracked, only the
      identity of the buffers. *)

From Stdlib Require Import ZArith Lia List Bool String Ascii DecimalString Sorted.
From Stdlib Require OrderedTypeEx.
From stdpp Require Import gmap strings list fin_maps.

Local Open Scope Z_scope.

(* ===================================================================== *)
(** * Part I. The embedding                                               *)
(* ===================================================================== *)

(** ** Outcomes of effectful calls *)

Inductive Outcome (A : Type) : Type :=
| Ok (a : A)
| Fatal (msg : string)
| Undefined
| OutOfFuel.

Arguments Ok {A} a.
Arguments Fatal {A} msg.
Arguments Undefined {A}.
Arguments OutOfFuel {A}.

Definition obind {A B : Type} (x : Outcome A) (k : A -> Outcome B) : Outcome B :=
  match x with
  | Ok a => k a
  | Fatal msg => Fatal msg
  | Undefined => Undefined
  | OutOfFuel => OutOfFuel
  end.

#[global] Instance Outcome_bind : MBind Outcome :=
  fun A B k x => obind x k.
#[global] Instance Outcome_ret : MRet Outcome := @Ok.

(** ** Machine integers *)

Definition wrapu (bits x : Z) : Z := x mod 2 ^ bits.

Definition wraps (bits x : Z) : Z :=
  (x + 2 ^ (bits - 1)) mod 2 ^ bits - 2 ^ (bits - 1).

Definition INT_MAX : Z := 2 ^ 31 - 1.
Definition INT64_MAX : Z := 2 ^ 63 - 1.
Definition INT64_MIN : Z := - 2 ^ 63.

Inductive Arch : Type := ILP32 | LP64.

Definition arch_bits (a : Arch) : Z :=
  match a with ILP32 => 32 | LP64 => 64 end.

(** [std::to_string] on an integer. *)
Definition to_string (z : Z) : string := NilZero.string_of_int (Z.to_int z).

(** Modelled from the spec: the macro [VS_AUDIO_FRAME_SAMPLES] of the public
    header, "exactly 3072 samples per frame". *)
Definition VS_AUDIO_FRAME_SAMPLES : Z := 3072.

(** ** Strings ([std::string]) *)

(** [npos] is [(size_t)-1]; a position is [Some n] or [None] for [npos].
    [next + 1] and [next - 1] wrap around at [npos]. *)
Definition npos_succ (next : option nat) : nat :=
  match next with
  | None => O
  | Some n => S n
  end.

Definition npos_pred (n : nat) : option nat :=
  match n with
  | O => None
  | S k => Some k
  end.

Fixpoint mem_char (c : ascii) (s : string) : bool :=
  match s with
  | EmptyString => false
  | String c' s' => Ascii.eqb c c' || mem_char c s'
  end.

(** [s.find_first_of(delimiters, pos)] *)
Fixpoint find_first_of (s delimiters : string) (pos : nat) : option nat :=
  match s with
  | EmptyString => None
  | String c s' =>
      match pos with
      | O => if mem_char c delimiters then Some O
             else option_map S (find_first_of s' delimiters O)
      | S pos' => option_map S (find_first_of s' delimiters pos')
      end
  end.

(** [s.find_first_not_of(delimiters, pos)] *)
Fixpoint find_first_not_of (s delimiters : string) (pos : nat) : option nat :=
  match s with
  | EmptyString => None
  | String c s' =>
      match pos with
      | O => if mem_char c delimiters
             then option_map S (find_first_not_of s' delimiters O)
             else Some O
      | S pos' => option_map S (find_first_not_of s' delimiters pos')
      end
  end.

Fixpoint string_drop (n : nat) (s : string) : string :=
  match n, s with
  | O, _ => s
  | S n', EmptyString => EmptyString
  | S n', String _ s' => string_drop n' s'
  end.

Fixpoint string_take (n : nat) (s : string) : string :=
  match n, s with
  | O, _ => EmptyString
  | S n', EmptyString => EmptyString
  | S n', String c s' => String c (string_take n' s')
  end.

(** [s.substr(pos, count)], for [pos <= s.size()]; a [count] of [None] is
    a count that reaches past the end of the string. *)
Definition substr (s : string) (pos : nat) (count : option nat) : string :=
  match count with
  | Some n => string_take n (string_drop pos s)
  | None => string_drop pos s
  end.

(** [next - current] in [size_t], as a count for [substr]. *)
Definition count_to (next : option nat) (current : nat) : option nat :=
  match next with
  | Some n => Some (n - current)%nat
  | None => None
  end.

Inductive empties_t : Type := empties_ok | no_empties.

(** The [do ... while] loop of [split]; [next] is the variable of that
    name, [result] the container. The position [next] grows in every
    round, so [S (length s)] rounds are enough. *)
Fixpoint split_loop (fuel : nat) (s delimiters : string) (empties : empties_t)
    (next : option nat) (result : list string) : Outcome (list string) :=
  match fuel with
  | O => OutOfFuel
  | S fuel' =>
      let skipped :=
        match empties with
        | no_empties =>
            match find_first_not_of s delimiters (npos_succ next) with
            | None => None
            | Some n => Some (npos_pred n)
            end
        | empties_ok => Some next
        end in
      match skipped with
      | None => Ok result
      | Some next1 =>
          let current := npos_succ next1 in
          let next2 := find_first_of s delimiters current in
          let result1 := result ++ [substr s current (count_to next2 current)] in
          match next2 with
          | None => Ok result1
          | Some _ => split_loop fuel' s delimiters empties next2 result1
          end
      end
  end.

(** [split(result, s, delimiters, empties)] *)
Definition split (s delimiters : string) (empties : empties_t) : Outcome (list string) :=
  split_loop (S (String.length s)) s delimiters empties None [].

(** [isAlpha], [isAlphaNumUnderscore], [isValidIdentifier] *)
Definition char_between (lo c hi : ascii) : bool :=
  (N.leb (N_of_ascii lo) (N_of_ascii c)) && (N.leb (N_of_ascii c) (N_of_ascii hi)).

Definition isAlpha (c : ascii) : bool :=
  char_between "a" c "z" || char_between "A" c "Z".

Definition isAlphaNumUnderscore (c : ascii) : bool :=
  char_between "a" c "z" || char_between "A" c "Z" || char_between "0" c "9"
  || Ascii.eqb c "_".

Fixpoint all_chars (f : ascii -> bool) (s : string) : bool :=
  match s with
  | EmptyString => true
  | String c s' => if f c then all_chars f s' else false
  end.

Definition isValidIdentifier (s : string) : bool :=
  match s with
  | EmptyString => false
  | String c s' => if negb (isAlpha c) then false else all_chars isAlphaNumUnderscore s'
  end.

(** ** The blocks of the operating system *)

(** [struct BlockHeader { size_t size; bool large; }], placed at the start
    of every block of the pool. *)
Record BlockHeader : Type := mkBlockHeader {
  size : Z;
  large : bool
}.

Inductive OsCall : Type :=
| CallAlignedMalloc (bytes align : Z) (ptr : option Z)
| CallAlignedFree (ptr : Z)
| CallVirtualAlloc (bytes : Z) (ptr : option Z)
| CallVirtualFree (ptr : Z).

Record OS : Type := mkOS {
  blocks : gmap Z BlockHeader;
  calls : list OsCall
}.

(** ** What the build and the platform fix

    The values come from the headers and the platform, which are not part
    of [vscore.cpp]; the embedding takes them as parameters.
    [vsh_aligned_malloc] and [VirtualAlloc] answer with a base address or
    with a null pointer ([None]), given the blocks that are live;
    [rand_raw k] is the [k]-th raw output of the pool's random
    generator. *)
Class Platform : Type := mkPlatform {
  arch : Arch;
  VS_TARGET_OS_WINDOWS : bool;
  alignment : Z;
  guardSpace : Z;
  largePageSupported : bool;
  GetLargePageMinimum : Z;
  vsh_aligned_malloc : gmap Z BlockHeader -> Z -> Z -> option Z;
  VirtualAlloc : gmap Z BlockHeader -> Z -> option Z;
  rand_raw : nat -> nat;
  stInteger : Z;
  stFloat : Z;
  nfNoCache : Z;
  nfIsCache : Z;
  nfMakeLinear : Z;
  nfFrameReady : Z;
  cfCompatBGR32 : Z;
  cfCompatYUY2 : Z;
  VAPOURSYNTH3_API_MAJOR : Z
}.

(** ** Further enumerators of the headers

    The colour families of the current API ([cf...]) and of the legacy
    API ([cm...]), the identifiers of the two legacy compat formats, the
    flag [pcReadOnly] of [configPlugin], and whether the build defines
    [NDEBUG]. *)
Class Headers : Type := mkHeaders {
  cfUndefined : Z;
  cfGray : Z;
  cfRGB : Z;
  cfYUV : Z;
  cmGray : Z;
  cmRGB : Z;
  cmYUV : Z;
  cmYCoCg : Z;
  cmCompat : Z;
  pfCompatBGR32 : Z;
  pfCompatYUY2 : Z;
  pcReadOnly : Z;
  NDEBUG : bool
}.

Section Embedding.

Context {P : Platform}.

Definition size_bits : Z := arch_bits arch.
Definition SIZE_MAX : Z := 2 ^ size_bits - 1.

(** Arithmetic on [size_t]. *)
Definition sz (x : Z) : Z := wrapu size_bits x.

(** ** MemoryUse: the buffer pool *)

(** [std::multimap<size_t, uint8_t *>]: kept in key order, entries with
    equal keys in insertion order. *)
Definition multimap : Type := list (Z * Z).

(** [lower_bound(k)]: position of the first entry whose key is not less
    than [k]; [None] is [end()]. *)
Fixpoint lower_bound (l : multimap) (k : Z) : option (nat * (Z * Z)) :=
  match l with
  | [] => None
  | (key, v) :: l' =>
      if k <=? key then Some (O, (key, v))
      else match lower_bound l' k with
           | Some (i, e) => Some (S i, e)
           | None => None
           end
  end.

(** [emplace]: a new entry goes after the entries whose key is not
    greater. *)
Fixpoint emplace (l : multimap) (e : Z * Z) : multimap :=
  match l with
  | [] => [e]
  | x :: l' => if fst x <=? fst e then x :: emplace l' e else e :: x :: l'
  end.

(** [erase(iter)] for the iterator at position [i]. *)
Fixpoint erase (l : multimap) (i : nat) : multimap :=
  match l, i with
  | [], _ => []
  | _ :: l', O => l'
  | x :: l', S i' => x :: erase l' i'
  end.

Record MemoryUse : Type := mkMemoryUse {
  used : Z;
  freeOnZero : bool;
  largePageEnabled : bool;
  memoryWarningIssued : bool;
  buffers : multimap;
  unusedBufferSize : Z;
  maxMemoryUse : Z;
  generator : nat;
  deleted : bool
}.

Definition set_used (m : MemoryUse) (v : Z) : MemoryUse :=
  mkMemoryUse v (freeOnZero m) (largePageEnabled m) (memoryWarningIssued m)
    (buffers m) (unusedBufferSize m) (maxMemoryUse m) (generator m) (deleted m).

Definition set_freeOnZero (m : MemoryUse) (v : bool) : MemoryUse :=
  mkMemoryUse (used m) v (largePageEnabled m) (memoryWarningIssued m)
    (buffers m) (unusedBufferSize m) (maxMemoryUse m) (generator m) (deleted m).

Definition set_largePageEnabled (m : MemoryUse) (v : bool) : MemoryUse :=
  mkMemoryUse (used m) (freeOnZero m) v (memoryWarningIssued m)
    (buffers m) (unusedBufferSize m) (maxMemoryUse m) (generator m) (deleted m).

Definition set_memoryWarningIssued (m : MemoryUse) (v : bool) : MemoryUse :=
  mkMemoryUse (used m) (freeOnZero m) (largePageEnabled m) v
    (buffers m) (unusedBufferSize m) (maxMemoryUse m) (generator m) (deleted m).

Definition set_buffers (m : MemoryUse) (b : multimap) (unused : Z) : MemoryUse :=
  mkMemoryUse (used m) (freeOnZero m) (largePageEnabled m) (memoryWarningIssued m)
    b unused (maxMemoryUse m) (generator m) (deleted m).

Definition set_maxMemoryUse (m : MemoryUse) (v : Z) : MemoryUse :=
  mkMemoryUse (used m) (freeOnZero m) (largePageEnabled m) (memoryWarningIssued m)
    (buffers m) (unusedBufferSize m) v (generator m) (deleted m).

Definition set_generator (m : MemoryUse) (g : nat) : MemoryUse :=
  mkMemoryUse (used m) (freeOnZero m) (largePageEnabled m) (memoryWarningIssued m)
    (buffers m) (unusedBufferSize m) (maxMemoryUse m) g (deleted m).

Definition set_deleted (m : MemoryUse) (v : bool) : MemoryUse :=
  mkMemoryUse (used m) (freeOnZero m) (largePageEnabled m) (memoryWarningIssued m)
    (buffers m) (unusedBufferSize m) (maxMemoryUse m) (generator m) v.

(** [MemoryUse::largePageSize] *)
Definition largePageSize : Z :=
  if VS_TARGET_OS_WINDOWS then GetLargePageMinimum else 2 * Z.shiftl 1 20.

(** [MemoryUse::isGoodFit] *)
Definition isGoodFit (requested actual : Z) : bool :=
  actual <=? sz (requested + requested / 8).

Definition os_malloc (os : OS) (bytes align : Z) : option Z * OS :=
  let p := vsh_aligned_malloc (blocks os) bytes align in
  (p, mkOS (blocks os) (calls os ++ [CallAlignedMalloc bytes align p])).

Definition os_VirtualAlloc (os : OS) (bytes : Z) : option Z * OS :=
  let p := VirtualAlloc (blocks os) bytes in
  (p, mkOS (blocks os) (calls os ++ [CallVirtualAlloc bytes p])).

Definition vsh_aligned_free (os : OS) (ptr : Z) : OS :=
  mkOS (delete ptr (blocks os)) (calls os ++ [CallAlignedFree ptr]).

Definition VirtualFree (os : OS) (ptr : Z) : OS :=
  mkOS (delete ptr (blocks os)) (calls os ++ [CallVirtualFree ptr]).

(** Placement-new of a header at [ptr], followed by the two stores. *)
Definition write_header (os : OS) (ptr : Z) (h : BlockHeader) : OS :=
  mkOS (<[ptr := h]> (blocks os)) (calls os).

(** [MemoryUse::allocateLargePage] *)
Definition allocateLargePage (m : MemoryUse) (os : OS) (bytes : Z) : option Z * OS :=
  if negb (largePageEnabled m) then (None, os)
  else
    let granularity := largePageSize in
    let allocBytes := sz (alignment + bytes) in
    let allocBytes :=
      Z.land (sz (allocBytes + (granularity - 1))) (sz (Z.lnot (granularity - 1))) in
    if negb (isGoodFit bytes (sz (allocBytes - alignment))) then (None, os)
    else
      let '(ptr, os1) :=
        if VS_TARGET_OS_WINDOWS then os_VirtualAlloc os allocBytes
        else os_malloc os allocBytes alignment in
      match ptr with
      | None => (None, os1)
      | Some p =>
          (Some p, write_header os1 p (mkBlockHeader (sz (allocBytes - alignment)) true))
      end.

(** [MemoryUse::freeLargePage] *)
Definition freeLargePage (os : OS) (ptr : Z) : OS :=
  if VS_TARGET_OS_WINDOWS then VirtualFree os ptr else vsh_aligned_free os ptr.

(** [MemoryUse::allocateMemory] *)
Definition allocateMemory (m : MemoryUse) (os : OS) (bytes : Z) : Outcome (Z * OS) :=
  match allocateLargePage m os bytes with
  | (Some p, os1) => Ok (p, os1)
  | (None, os1) =>
      match os_malloc os1 (sz (alignment + bytes)) alignment with
      | (None, _) => Fatal "out of memory"
      | (Some p, os2) => Ok (p, write_header os2 p (mkBlockHeader bytes false))
      end
  end.

(** [MemoryUse::freeMemory] *)
Definition freeMemory (os : OS) (ptr : Z) : Outcome OS :=
  match blocks os !! ptr with
  | None => Undefined
  | Some header =>
      if large header then Ok (freeLargePage os ptr)
      else Ok (vsh_aligned_free os ptr)
  end.

(** [MemoryUse::add] *)
Definition add (m : MemoryUse) (bytes : Z) : MemoryUse :=
  set_used m (sz (used m + bytes)).

(** [MemoryUse::~MemoryUse] *)
Fixpoint free_all (os : OS) (l : multimap) : Outcome OS :=
  match l with
  | [] => Ok os
  | (_, p) :: l' => os1 ← freeMemory os p; free_all os1 l'
  end.

Definition destroy (m : MemoryUse) (os : OS) : Outcome (MemoryUse * OS) :=
  os1 ← free_all os (buffers m);
  Ok (set_deleted m true, os1).

(** [MemoryUse::subtract] *)
Definition subtract (m : MemoryUse) (os : OS) (bytes : Z) : Outcome (MemoryUse * OS) :=
  let tmp := sz (used m - bytes) in
  let m1 := set_used m tmp in
  if freeOnZero m1 && (tmp =? 0) then destroy m1 os else Ok (m1, os).

(** [MemoryUse::allocBuffer] *)
Definition allocBuffer (m : MemoryUse) (os : OS) (bytes : Z) : Outcome (Z * MemoryUse * OS) :=
  let fresh_block :=
    '(buf, os1) ← allocateMemory m os bytes;
    Ok (buf + alignment, m, os1) in
  match lower_bound (buffers m) bytes with
  | Some (i, (first, second)) =>
      if isGoodFit bytes first then
        Ok (second + alignment,
            set_buffers m (erase (buffers m) i) (sz (unusedBufferSize m - first)),
            os)
      else fresh_block
  | None => fresh_block
  end.

(** The loop of [MemoryUse::freeBuffer]: its condition, its body, and the
    loop. Every round erases one entry, so as many rounds as there are
    entries are enough. *)
Definition evict_condition (memoryUsed : Z) (m : MemoryUse) : bool :=
  (maxMemoryUse m <? sz (memoryUsed + unusedBufferSize m))
  && negb (match buffers m with [] => true | _ => false end).

Definition evict_body (m : MemoryUse) (os : OS) : Outcome (MemoryUse * OS) :=
  let m1 := if memoryWarningIssued m then m else set_memoryWarningIssued m true in
  let k := (rand_raw (generator m1) mod length (buffers m1))%nat in
  let m2 := set_generator m1 (S (generator m1)) in
  match nth_error (buffers m2) k with
  | None => Undefined
  | Some (first, second) =>
      os1 ← freeMemory os second;
      Ok (set_buffers m2 (erase (buffers m2) k) (sz (unusedBufferSize m2 - first)), os1)
  end.

Fixpoint evict (fuel : nat) (memoryUsed : Z) (m : MemoryUse) (os : OS)
  : Outcome (MemoryUse * OS) :=
  if evict_condition memoryUsed m then
    match fuel with
    | O => OutOfFuel
    | S fuel' =>
        '(m', os') ← evict_body m os;
        evict fuel' memoryUsed m' os'
    end
  else Ok (m, os).

(** [MemoryUse::freeBuffer] *)
Definition freeBuffer (m : MemoryUse) (os : OS) (buf : Z) : Outcome (MemoryUse * OS) :=
  let buf := buf - alignment in
  match blocks os !! buf with
  | None => Undefined
  | Some header =>
      if size header =? 0 then Fatal "Memory corruption detected. Windows bug?"
      else
        let m1 := set_buffers m (emplace (buffers m) (size header, buf))
                    (sz (unusedBufferSize m + size header)) in
        let memoryUsed := used m1 in
        evict (length (buffers m1)) memoryUsed m1 os
  end.

(** [MemoryUse::memoryUse], [MemoryUse::getLimit], [MemoryUse::isOverLimit] *)
Definition memoryUse (m : MemoryUse) : Z := used m.
Definition getLimit (m : MemoryUse) : Z := maxMemoryUse m.
Definition isOverLimit (m : MemoryUse) : bool := maxMemoryUse m <? used m.

(** [MemoryUse::setMaxMemoryUse]; [bytes] is an [int64_t], the result is
    [maxMemoryUse] converted back to [int64_t]. *)
Definition setMaxMemoryUse (m : MemoryUse) (bytes : Z) : Z * MemoryUse :=
  let m1 :=
    if (0 <? bytes) && (wrapu 64 bytes <=? SIZE_MAX)
    then set_maxMemoryUse m (sz bytes) else m in
  (wraps 64 (maxMemoryUse m1), m1).

(** [MemoryUse::signalFree] *)
Definition signalFree (m : MemoryUse) (os : OS) : Outcome (MemoryUse * OS) :=
  let m1 := set_freeOnZero m true in
  if used m1 =? 0 then destroy m1 os else Ok (m1, os).

(** [MemoryUse::MemoryUse]. [maxMemoryUse] has no initialiser; the value
    [garbage] stands for what the field holds before the first call of
    [setMaxMemoryUse]. *)
Definition MemoryUse_new (garbage : Z) : MemoryUse :=
  let m := mkMemoryUse 0 false largePageSupported false [] 0 garbage O false in
  let m := set_largePageEnabled m false in
  let m := snd (setMaxMemoryUse m (1024 * 1024 * 1024)) in
  if 8 <=? size_bits / 8
  then snd (setMaxMemoryUse m (4 * 1024 * 1024 * 1024))
  else m.

(** A run of [setMaxMemoryUse] calls, first to last. *)
Fixpoint setLimits (m : MemoryUse) (l : list Z) : MemoryUse :=
  match l with
  | [] => m
  | bytes :: l' => setLimits (snd (setMaxMemoryUse m bytes)) l'
  end.

(** *** The pool as the specification speaks of it *)

(** The multimap is in key order. *)
Inductive key_sorted : multimap -> Prop :=
| key_sorted_nil : key_sorted []
| key_sorted_cons e l :
    (forall e', In e' l -> fst e <= fst e') -> key_sorted l -> key_sorted (e :: l).

(** [e] is a smallest freed block with [size >= bytes]. *)
Definition smallest_fit (l : multimap) (bytes : Z) (e : Z * Z) : Prop :=
  In e l /\ bytes <= fst e /\ forall e', In e' l -> bytes <= fst e' -> fst e <= fst e'.

(** "Good fit" in the words of the specification. *)
Definition good_fit (bytes size : Z) : Prop := size <= bytes + bytes / 8.


(** [allocBuffer] hands out a block that [vsh_aligned_malloc] has just
    returned, with a header that records [bytes]; the pool is as before. *)
Definition allocates_fresh (m : MemoryUse) (os : OS) (bytes : Z)
    (r : Outcome (Z * MemoryUse * OS)) : Prop :=
  exists p os',
    r = Ok (p + alignment, m, os') /\
    vsh_aligned_malloc (blocks os) (sz (alignment + bytes)) alignment = Some p /\
    blocks os' = <[p := mkBlockHeader bytes false]> (blocks os).

(** The value a [setMaxMemoryUse] call takes over. *)
Definition accepted_limit (bytes : Z) : Prop := 0 < bytes <= SIZE_MAX.

(** Total size of the freed blocks. *)
Definition sum_sizes (l : multimap) : Z :=
  fold_right (fun e acc => fst e + acc) 0 l.

(** The pool and the operating system agree: every freed block is a live
    block whose header records the key it is filed under, no block is
    filed twice, and [unusedBufferSize] is the total of the keys. *)
Definition pool_consistent (m : MemoryUse) (os : OS) : Prop :=
  unusedBufferSize m = sum_sizes (buffers m) /\
  List.NoDup (map snd (buffers m)) /\
  forall e, In e (buffers m) ->
    0 < fst e /\ exists h, blocks os !! snd e = Some h /\ size h = fst e.

(** One round of eviction in the words of the specification: the pool is
    over its limit, some freed block is taken out of the map and given
    back to the operating system. A state is the map, [unusedBufferSize]
    and the live blocks. *)
Definition evict_state : Type := multimap * Z * gmap Z BlockHeader.

Definition over_limit (inUse limit : Z) (s : evict_state) : Prop :=
  limit < inUse + snd (fst s) /\ fst (fst s) <> [].

Inductive evict_step (inUse limit : Z) : evict_state -> evict_state -> Prop :=
| evict_one b unused live k first second :
    over_limit inUse limit (b, unused, live) ->
    nth_error b k = Some (first, second) ->
    evict_step inUse limit (b, unused, live)
      (erase b k, unused - first, delete second live).

Inductive evict_run (inUse limit : Z) : evict_state -> evict_state -> Prop :=
| evict_run_done s :
    ~ over_limit inUse limit s -> evict_run inUse limit s s
| evict_run_step s s' s'' :
    evict_step inUse limit s s' -> evict_run inUse limit s' s'' ->
    evict_run inUse limit s s''.

(** "Clamped to [SIZE_MAX]". *)
Definition clamp_SIZE_MAX (bytes : Z) : Z := Z.min bytes SIZE_MAX.

Definition is_int64 (v : Z) : Prop := INT64_MIN <= v <= INT64_MAX.

(** The states of a pool, from its construction on. *)
Inductive pool_step : MemoryUse * OS -> MemoryUse * OS -> Prop :=
| step_allocBuffer m os bytes p m' os' :
    allocBuffer m os bytes = Ok (p, m', os') -> pool_step (m, os) (m', os')
| step_freeBuffer m os buf m' os' :
    freeBuffer m os buf = Ok (m', os') -> pool_step (m, os) (m', os')
| step_add m os bytes :
    pool_step (m, os) (add m bytes, os)
| step_subtract m os bytes m' os' :
    subtract m os bytes = Ok (m', os') -> pool_step (m, os) (m', os')
| step_setMaxMemoryUse m os bytes :
    pool_step (m, os) (snd (setMaxMemoryUse m bytes), os)
| step_signalFree m os m' os' :
    signalFree m os = Ok (m', os') -> pool_step (m, os) (m', os').

Inductive constructed : MemoryUse * OS -> Prop :=
| constructed_new garbage os : constructed (MemoryUse_new garbage, os)
| constructed_step s s' : constructed s -> pool_step s s' -> constructed s'.

(** The calls a client makes on a pool, and a run of them. *)
Inductive PoolCall : Type :=
| call_allocBuffer (bytes : Z)
| call_freeBuffer (buf : Z)
| call_add (bytes : Z)
| call_subtract (bytes : Z)
| call_setMaxMemoryUse (bytes : Z)
| call_signalFree.

Definition pool_call (c : PoolCall) (s : MemoryUse * OS) : Outcome (MemoryUse * OS) :=
  match c with
  | call_allocBuffer bytes =>
      '(_, m, os1) ← allocBuffer (fst s) (snd s) bytes; Ok (m, os1)
  | call_freeBuffer buf => freeBuffer (fst s) (snd s) buf
  | call_add bytes => Ok (add (fst s) bytes, snd s)
  | call_subtract bytes => subtract (fst s) (snd s) bytes
  | call_setMaxMemoryUse bytes => Ok (snd (setMaxMemoryUse (fst s) bytes), snd s)
  | call_signalFree => signalFree (fst s) (snd s)
  end.

Fixpoint pool_run (cs : list PoolCall) (s : MemoryUse * OS) : Outcome (MemoryUse * OS) :=
  match cs with
  | [] => Ok s
  | c :: cs' => s1 ← pool_call c s; pool_run cs' s1
  end.

(** ** Audio formats (VSCore) *)

Record VSAudioFormat : Type := mkVSAudioFormat {
  sampleType : Z;
  bitsPerSample : Z;
  bytesPerSample : Z;
  numChannels : Z;
  channelLayout : Z
}.

Record VSAudioInfo : Type := mkVSAudioInfo {
  format : VSAudioFormat;
  sampleRate : Z;
  numSamples : Z;
  numFrames : Z
}.

(** [VSCore::isValidAudioFormat] *)
Definition isValidAudioFormat (sampleType bitsPerSample channelLayout : Z) : bool :=
  if negb (sampleType =? stInteger) && negb (sampleType =? stFloat) then false
  else if (bitsPerSample <? 16) || (32 <? bitsPerSample) then false
  else if (sampleType =? stFloat) && negb (bitsPerSample =? 32) then false
  else if channelLayout =? 0 then false
  else true.

(** [while (f.bytesPerSample * 8 < bitsPerSample) f.bytesPerSample <<= 1;] *)
Fixpoint bytesPerSample_loop (fuel : nat) (bytesPerSample bitsPerSample : Z) : Outcome Z :=
  if bytesPerSample * 8 <? bitsPerSample then
    match fuel with
    | O => OutOfFuel
    | S fuel' => bytesPerSample_loop fuel' (Z.shiftl bytesPerSample 1) bitsPerSample
    end
  else Ok bytesPerSample.

(** How many of the positions [0 .. n-1] satisfy [f]. *)
Definition count_upto (f : nat -> bool) (n : nat) : nat :=
  length (filter f (seq 0 n)).

(** [std::bitset<N>(v).count()] *)
Definition bitset_count (N : nat) (v : Z) : Z :=
  Z.of_nat (count_upto (fun i => Z.testbit v (Z.of_nat i)) N).

(** [VSCore::queryAudioFormat]; the result is the returned [bool] and the
    format behind the reference [f]. [channelLayout] is a [uint64_t]. *)
Definition queryAudioFormat (f : VSAudioFormat) (sampleType bitsPerSample channelLayout : Z)
  : Outcome (bool * VSAudioFormat) :=
  if negb (isValidAudioFormat sampleType bitsPerSample channelLayout) then Ok (false, f)
  else
    bps ← bytesPerSample_loop 32 1 bitsPerSample;
    Ok (true,
        mkVSAudioFormat sampleType bitsPerSample bps
          (wraps 32 (bitset_count 64 (wrapu 64 channelLayout))) channelLayout).

(** [VSCore::isValidAudioInfo] *)
Definition isValidAudioInfo (ai : VSAudioInfo) : bool :=
  if negb (isValidAudioFormat (sampleType (format ai)) (bitsPerSample (format ai))
             (channelLayout (format ai))) then false
  else if (numSamples ai <? 1) || (sampleRate ai <? 1) then false
  else true.

(** The number of set bits, by the binary digits of the number. *)
Fixpoint Pos_popcount (p : positive) : nat :=
  match p with
  | xH => 1
  | xO p' => Pos_popcount p'
  | xI p' => S (Pos_popcount p')
  end.

Definition popcount (z : Z) : Z :=
  match z with
  | Zpos p => Z.of_nat (Pos_popcount p)
  | _ => 0
  end.

(** [p] is the smallest power of two with [8 * p >= bits]. *)
Definition smallest_pow2_bytes (p bits : Z) : Prop :=
  (exists k, 0 <= k /\ p = 2 ^ k) /\
  bits <= 8 * p /\
  forall k, 0 <= k -> bits <= 8 * 2 ^ k -> p <= 2 ^ k.

(** The conditions of the claim on an audio format. *)
Definition audio_format_ok (sampleType bitsPerSample channelLayout : Z) : Prop :=
  (sampleType = stInteger \/ sampleType = stFloat) /\
  16 <= bitsPerSample <= 32 /\
  (sampleType = stFloat -> bitsPerSample = 32) /\
  channelLayout <> 0.

(** ** Plane data (VSPlaneData) *)

Inductive VSMediaType : Type := mtVideo | mtAudio.

(** A [VSPlaneData] object: its reference count, [size] and the [data]
    pointer; [mem] is the one pool of the core. *)
Record VSPlaneData : Type := mkVSPlaneData {
  pd_refcount : Z;
  pd_size : Z;
  pd_data : Z
}.

(** The pool, the operating system and the [VSPlaneData] objects that are
    alive, by object identity. *)
Record World : Type := mkWorld {
  memory : MemoryUse;
  os : OS;
  planes : gmap nat VSPlaneData
}.

(** The common part of the two constructors: allocate [bytes], account
    for [size], and place the new object. *)
Definition construct_plane (w : World) (size bytes : Z) (failure : string)
  : Outcome (nat * World) :=
  '(data, m, os1) ← allocBuffer (memory w) (os w) bytes;
  if data =? 0 then Fatal failure
  else
    let m1 := add m size in
    let this := fresh (dom (planes w)) in
    Ok (this, mkWorld m1 os1 (<[this := mkVSPlaneData 1 size data]> (planes w))).

(** [VSPlaneData::VSPlaneData(size_t dataSize, MemoryUse &mem)] *)
Definition VSPlaneData_new (w : World) (dataSize : Z) : Outcome (nat * World) :=
  let size := sz (dataSize + 2 * guardSpace) in
  construct_plane w size (sz (size + 2 * guardSpace))
    "Failed to allocate memory for plane. Out of memory.".

(** [VSPlaneData::VSPlaneData(const VSPlaneData &d)] *)
Definition VSPlaneData_copy (w : World) (d : nat) : Outcome (nat * World) :=
  match planes w !! d with
  | None => Undefined
  | Some pd =>
      construct_plane w (pd_size pd) (pd_size pd)
        "Failed to allocate memory for plane in copy constructor. Out of memory."
  end.

(** The buffer of a plane cannot be allocated, and the constructor stops
    with [msg]: no freed block of the pool is taken and
    [vsh_aligned_malloc] has no block, or the buffer that [allocBuffer]
    hands out is a null pointer. [failure] is the message of the
    constructor. *)
Definition allocation_failure (w : World) (bytes : Z) (failure msg : string) : Prop :=
  (msg = "out of memory" /\
   allocBuffer (memory w) (os w) bytes = Fatal "out of memory" /\
   vsh_aligned_malloc (blocks (os w)) (sz (alignment + bytes)) alignment = None) \/
  (msg = failure /\
   exists m os', allocBuffer (memory w) (os w) bytes = Ok (0, m, os')).

(** [VSPlaneData::~VSPlaneData], reached from [delete this]. *)
Definition VSPlaneData_delete (w : World) (this : nat) : Outcome World :=
  match planes w !! this with
  | None => Undefined
  | Some pd =>
      '(m1, os1) ← freeBuffer (memory w) (os w) (pd_data pd);
      '(m2, os2) ← subtract m1 os1 (pd_size pd);
      Ok (mkWorld m2 os2 (delete this (planes w)))
  end.

(** [VSPlaneData::unique] *)
Definition unique (w : World) (this : nat) : Outcome bool :=
  match planes w !! this with
  | None => Undefined
  | Some pd => Ok (pd_refcount pd =? 1)
  end.

(** [VSPlaneData::add_ref] *)
Definition add_ref (w : World) (this : nat) : Outcome World :=
  match planes w !! this with
  | None => Undefined
  | Some pd =>
      Ok (mkWorld (memory w) (os w)
            (<[this := mkVSPlaneData (pd_refcount pd + 1) (pd_size pd) (pd_data pd)]>
               (planes w)))
  end.

(** [VSPlaneData::release] *)
Definition release (w : World) (this : nat) : Outcome World :=
  match planes w !! this with
  | None => Undefined
  | Some pd =>
      let refcount := pd_refcount pd - 1 in
      let w1 := mkWorld (memory w) (os w)
                  (<[this := mkVSPlaneData refcount (pd_size pd) (pd_data pd)]> (planes w)) in
      if refcount =? 0 then VSPlaneData_delete w1 this else Ok w1
  end.

(** ** Frames (VSFrameRef) *)

Record VSVideoFormat : Type := mkVSVideoFormat {
  colorFamily : Z;
  vf_sampleType : Z;
  vf_bitsPerSample : Z;
  vf_bytesPerSample : Z;
  subSamplingW : Z;
  subSamplingH : Z;
  vf_numPlanes : Z
}.

Inductive FrameFormat : Type :=
| format_vf (vf : VSVideoFormat)
| format_af (af : VSAudioFormat).

(** A frame: [data] and [stride] are the arrays [data[3]] and [stride[3]],
    a null [data] entry is [None]. The property map and the core pointer
    of the frame play no part in what follows and are left out. *)
Record VSFrameRef : Type := mkVSFrameRef {
  frame_refcount : Z;
  contentType : VSMediaType;
  data : list (option nat);
  frame_format : FrameFormat;
  numPlanes : Z;
  width : Z;
  height : Z;
  stride : list Z
}.

Definition set_data (f : VSFrameRef) (d : list (option nat)) : VSFrameRef :=
  mkVSFrameRef (frame_refcount f) (contentType f) d (frame_format f) (numPlanes f)
    (width f) (height f) (stride f).

(** [data[i]->...]: the object behind the entry, if the entry exists and
    is not null. *)
Definition plane_at (f : VSFrameRef) (i : nat) : option nat :=
  match data f !! i with
  | Some (Some d) => Some d
  | _ => None
  end.

Definition align_up (x : Z) : Z :=
  Z.land (wraps 32 (x + (alignment - 1))) (Z.lnot (alignment - 1)).

(** [VSFrameRef::VSFrameRef(const VSVideoFormat &f, int width, int height,
    const VSFrameRef *propSrc, VSCore *core)] *)
Definition VSFrameRef_video (f : VSVideoFormat) (width height : Z) (w : World)
  : Outcome (VSFrameRef * World) :=
  if (width <=? 0) || (height <=? 0) then
    Fatal ("Error in frame creation: dimensions are negative (" +:+ to_string width
           +:+ "x" +:+ to_string height +:+ ")")
  else
    let numPlanes := vf_numPlanes f in
    let stride0 := align_up (wraps 32 (width * vf_bytesPerSample f)) in
    let plane23 :=
      align_up (wraps 32 (Z.shiftr width (subSamplingW f) * vf_bytesPerSample f)) in
    let stride12 := if numPlanes =? 3 then plane23 else 0 in
    '(d0, w0) ← VSPlaneData_new w (sz (stride0 * height));
    if numPlanes =? 3 then
      let size23 := sz (stride12 * Z.shiftr height (subSamplingH f)) in
      '(d1, w1) ← VSPlaneData_new w0 size23;
      '(d2, w2) ← VSPlaneData_new w1 size23;
      Ok (mkVSFrameRef 1 mtVideo [Some d0; Some d1; Some d2] (format_vf f) numPlanes
            width height [stride0; stride12; stride12], w2)
    else
      Ok (mkVSFrameRef 1 mtVideo [Some d0; None; None] (format_vf f) numPlanes
            width height [stride0; stride12; stride12], w0).

(** [VSFrameRef::VSFrameRef(const VSAudioFormat &f, int numSamples,
    const VSFrameRef *propSrc, VSCore *core)]; [height] and the strides 1
    and 2 keep their default, zero. *)
Definition VSFrameRef_audio (f : VSAudioFormat) (numSamples : Z) (w : World)
  : Outcome (VSFrameRef * World) :=
  if numSamples <=? 0 then
    Fatal ("Error in frame creation: bad number of samples (" +:+ to_string numSamples
           +:+ ")")
  else
    let stride0 := wraps 32 (bytesPerSample f * VS_AUDIO_FRAME_SAMPLES) in
    '(d0, w0) ← VSPlaneData_new w (sz (stride0 * numChannels f));
    Ok (mkVSFrameRef 1 mtAudio [Some d0; None; None] (format_af f) (numChannels f)
          numSamples 0 [stride0; 0; 0], w0).

(** [VSFrameRef::VSFrameRef(const VSFrameRef &f)], the copy constructor
    behind [copyFrame]. *)
Definition VSFrameRef_copy (f : VSFrameRef) (w : World) : Outcome (VSFrameRef * World) :=
  match data f with
  | [Some d0; o1; o2] =>
      w0 ← add_ref w d0;
      w2 ← match o1 with
           | Some d1 =>
               w1 ← add_ref w0 d1;
               match o2 with
               | Some d2 => add_ref w1 d2
               | None => Undefined
               end
           | None => Ok w0
           end;
      Ok (mkVSFrameRef 1 (contentType f) (data f) (frame_format f) (numPlanes f)
            (width f) (height f) (stride f), w2)
  | _ => Undefined
  end.

(** The pointer both accessors return: [data[plane]->data + guardSpace]
    for video, [data[0]->data + guardSpace + plane * stride[0]] for
    audio. *)
Definition data_pointer (f : VSFrameRef) (plane : Z) (w : World) : Outcome Z :=
  match contentType f with
  | mtVideo =>
      match plane_at f (Z.to_nat plane) with
      | None => Undefined
      | Some d =>
          match planes w !! d with
          | None => Undefined
          | Some pd => Ok (pd_data pd + guardSpace)
          end
      end
  | mtAudio =>
      match plane_at f 0, stride f !! O with
      | Some d, Some stride0 =>
          match planes w !! d with
          | None => Undefined
          | Some pd => Ok (pd_data pd + guardSpace + plane * stride0)
          end
      | _, _ => Undefined
      end
  end.

(** [VSFrameRef::getReadPtr] *)
Definition getReadPtr (f : VSFrameRef) (plane : Z) (w : World) : Outcome Z :=
  if (plane <? 0) || (numPlanes f <=? plane) then
    Fatal ("Requested read pointer for nonexistent plane " +:+ to_string plane)
  else data_pointer f plane w.

(** The copy-on-write step of [getWritePtr] on [data[i]]. *)
Definition make_unique (f : VSFrameRef) (i : nat) (w : World)
  : Outcome (VSFrameRef * World) :=
  match plane_at f i with
  | None => Undefined
  | Some old =>
      u ← unique w old;
      if negb u then
        '(copy, w1) ← VSPlaneData_copy w old;
        w2 ← release w1 old;
        Ok (set_data f (<[i := Some copy]> (data f)), w2)
      else Ok (f, w)
  end.

(** The entry of [data] that [getWritePtr(plane)] works on. *)
Definition plane_index (f : VSFrameRef) (plane : Z) : nat :=
  match contentType f with
  | mtVideo => Z.to_nat plane
  | mtAudio => O
  end.

(** [VSFrameRef::getWritePtr]; the frame is the object the method is
    called on, so its new value is part of the result. *)
Definition getWritePtr (f : VSFrameRef) (plane : Z) (w : World)
  : Outcome (Z * VSFrameRef * World) :=
  if (plane <? 0) || (numPlanes f <=? plane) then
    Fatal ("Requested write pointer for nonexistent plane " +:+ to_string plane)
  else
    '(f1, w1) ← make_unique f (plane_index f plane) w;
    p ← data_pointer f1 plane w1;
    Ok (p, f1, w1).

(** A run of [getWritePtr] calls on one frame. *)
Fixpoint getWritePtrs (f : VSFrameRef) (planes : list Z) (w : World)
  : Outcome (VSFrameRef * World) :=
  match planes with
  | [] => Ok (f, w)
  | plane :: rest =>
      '(_, f1, w1) ← getWritePtr f plane w;
      getWritePtrs f1 rest w1
  end.

(** *** Frames and the heap as the specification speaks of them *)

(** The plane data a frame refers to, one entry per reference. *)
Definition frame_ids (f : VSFrameRef) : list nat := omap id (data f).

Definition all_ids (fs : list VSFrameRef) : list nat := flat_map frame_ids fs.

(** How many of the references [ids] are references to the object [d]. *)
Definition references (ids : list nat) (d : nat) : Z :=
  Z.of_nat (count_occ Nat.eq_dec ids d).

(** A block that the operating system hands out is not one that is
    live. *)
Definition os_fresh : Prop :=
  (forall live bytes align p, vsh_aligned_malloc live bytes align = Some p -> live !! p = None) /\
  (forall live bytes p, VirtualAlloc live bytes = Some p -> live !! p = None).

(** The heap is in order: the freed blocks of the pool are live blocks,
    each filed once; the buffer of a plane object is a live block that is
    not in the pool, and no two objects have the same buffer. *)
Record heap_ok (w : World) : Prop := mk_heap_ok {
  ok_pool_nodup : List.NoDup (map snd (buffers (memory w)));
  ok_pool_live : forall e, In e (buffers (memory w)) -> is_Some (blocks (os w) !! snd e);
  ok_plane_live : forall d pd, planes w !! d = Some pd ->
    is_Some (blocks (os w) !! (pd_data pd - alignment)) /\
    ~ In (pd_data pd - alignment) (map snd (buffers (memory w)));
  ok_plane_inj : forall d1 d2 pd1 pd2,
    planes w !! d1 = Some pd1 -> planes w !! d2 = Some pd2 ->
    pd_data pd1 = pd_data pd2 -> d1 = d2
}.

(** Every object that the references [ids] of the frames point to is
    alive, with a reference count that covers the references. *)
Definition refs_ok (w : World) (ids : list nat) : Prop :=
  forall d, In d ids ->
    exists pd, planes w !! d = Some pd /\ references ids d <= pd_refcount pd.

Definition heap_wf (w : World) (ids : list nat) : Prop :=
  heap_ok w /\ refs_ok w ids.

(** A frame as the constructors build it: a video frame has one plane or
    three, an audio frame one block. *)
Definition frame_valid (f : VSFrameRef) : Prop :=
  (exists s0 s1 s2, stride f = [s0; s1; s2]) /\
  match contentType f with
  | mtVideo =>
      (numPlanes f = 1 /\ exists d0, data f = [Some d0; None; None]) \/
      (numPlanes f = 3 /\ exists d0 d1 d2, data f = [Some d0; Some d1; Some d2])
  | mtAudio => 0 < numPlanes f /\ exists d0, data f = [Some d0; None; None]
  end.

(** [g] differs from [f] in the identity of its plane data at most. *)
Definition same_shape (g f : VSFrameRef) : Prop :=
  contentType g = contentType f /\ numPlanes g = numPlanes f /\
  stride g = stride f /\ frame_format g = frame_format f /\
  width g = width f /\ height g = height f /\
  length (data g) = length (data f) /\
  forall i, is_Some (plane_at g i) <-> is_Some (plane_at f i).

(** Every object of [w] is still there in [w'], with the same buffer. *)
Definition keeps_data (w w' : World) : Prop :=
  forall d pd, planes w !! d = Some pd ->
    exists pd', planes w' !! d = Some pd' /\ pd_data pd' = pd_data pd.

(** ** Audio nodes (VSNode) *)

(** The fields of [VSNode] that the audio constructor sets. The filter's
    callbacks and instance data are opaque ([getFrame], [freeFunc],
    [instanceData] are kept as given); the function frame of graph
    inspection is left out. *)
Record VSNode : Type := mkVSNode {
  node_refcount : Z;
  nodeType : VSMediaType;
  node_name : string;
  filterMode : Z;
  node_apiMajor : Z;
  node_flags : Z;
  serialFrame : Z;
  frameReadyNotify : bool;
  node_ai : list VSAudioInfo
}.

Definition set_numFrames (ai : VSAudioInfo) (n : Z) : VSAudioInfo :=
  mkVSAudioInfo (format ai) (sampleRate ai) (numSamples ai) n.

(** The loop over the outputs in the audio constructor: [ai] is the array
    behind the pointer, [n] the number of outputs still to visit, [acc] is
    [this->ai]. [inl msg] is a [VSException]. *)
Fixpoint audio_outputs (name : string) (ai : list VSAudioInfo) (n : nat)
    (acc : list VSAudioInfo) {struct n} : Outcome (string + list VSAudioInfo) :=
  match n with
  | O => Ok (inr acc)
  | S n' =>
      match ai with
      | [] => Undefined
      | info :: rest =>
          if negb (isValidAudioInfo info) then
            Ok (inl ("The VSAudioInfo structure passed by " +:+ name +:+ " is invalid."))
          else
            let maxSamples := wraps 64 (INT_MAX * wraps 64 VS_AUDIO_FRAME_SAMPLES) in
            if maxSamples <? numSamples info then
              Ok (inl ("Filter " +:+ name +:+ " specified " +:+ to_string (numSamples info)
                       +:+ " output samples but " +:+ to_string maxSamples
                       +:+ " samples is the upper limit"))
            else
              let last :=
                set_numFrames info
                  (wraps 32
                     (Z.quot
                        (wraps 64 (wraps 64 (numSamples info + VS_AUDIO_FRAME_SAMPLES) - 1))
                        VS_AUDIO_FRAME_SAMPLES)) in
              audio_outputs name rest n' (acc ++ [last])
      end
  end.

(** [VSNode::VSNode(name, ai, numOutputs, ...)], the audio constructor.
    [instances] is the core's count of filter instances
    ([filterInstanceCreated]). *)
Definition VSNode_audio (name : string) (ai : list VSAudioInfo) (numOutputs : Z)
    (filterMode flags apiMajor : Z) (frameReadyNotify0 : bool) (instances : Z)
  : Outcome (string + VSNode) * Z :=
  if negb (Z.land flags
             (Z.lnot (Z.lor (Z.lor (Z.lor nfNoCache nfIsCache) nfMakeLinear) nfFrameReady))
           =? 0) then
    (Ok (inl ("Filter " +:+ name +:+ " specified unknown flags")), instances)
  else if negb (Z.land flags nfIsCache =? 0) && (Z.land flags nfNoCache =? 0) then
    (Ok (inl ("Filter " +:+ name +:+
              " specified an illegal combination of flags (nfNoCache must always be set with nfIsCache)")),
     instances)
  else
    let notify := if negb (Z.land flags nfFrameReady =? 0) then true else frameReadyNotify0 in
    if numOutputs <? 1 then
      (Ok (inl ("Filter " +:+ name +:+ " needs to have at least one output")), instances)
    else
      let instances := instances + 1 in
      (r ← audio_outputs name ai (Z.to_nat numOutputs) [];
       match r with
       | inl msg => Ok (inl msg)
       | inr infos =>
           Ok (inr (mkVSNode numOutputs mtAudio name filterMode apiMajor flags (-1)
                      notify infos))
       end,
       instances).

(** The ceiling of [a / b], as the least [q] with [a <= q * b]. *)
Definition is_ceiling (q a b : Z) : Prop := a <= q * b /\ (q - 1) * b < a.

(** What the loop makes of one declared output. *)
Definition audio_output_ok (declared stored : VSAudioInfo) : Prop :=
  numSamples declared <= INT_MAX * 3072 /\
  stored = set_numFrames declared ((numSamples declared + 3071) / 3072) /\
  is_ceiling (numFrames stored) (numSamples declared) 3072.

(** ** Plugin functions (VSPluginFunction) *)

Inductive VSPropType : Type :=
| ptUnset | ptInt | ptFloat | ptData | ptFunction
| ptVideoNode | ptAudioNode | ptVideoFrame | ptAudioFrame.

Definition VSPropType_eqb (a b : VSPropType) : bool :=
  match a, b with
  | ptUnset, ptUnset | ptInt, ptInt | ptFloat, ptFloat | ptData, ptData
  | ptFunction, ptFunction | ptVideoNode, ptVideoNode | ptAudioNode, ptAudioNode
  | ptVideoFrame, ptVideoFrame | ptAudioFrame, ptAudioFrame => true
  | _, _ => false
  end.

(** [struct FilterArgument]; the constructor takes
    [(name, type, arr, empty, opt)]. *)
Record FilterArgument : Type := mkFilterArgument {
  fa_name : string;
  fa_type : VSPropType;
  arr : bool;
  empty : bool;
  opt : bool
}.

(** The chain of comparisons on [typeName]; [None] is the [else] branch
    that throws. *)
Definition parse_type (typeName : string) (apiMajor : Z) : option VSPropType :=
  if String.eqb typeName "int" then Some ptInt
  else if String.eqb typeName "float" then Some ptFloat
  else if String.eqb typeName "data" then Some ptData
  else if (String.eqb typeName "vnode" && (VAPOURSYNTH3_API_MAJOR <? apiMajor))
          || ((apiMajor =? VAPOURSYNTH3_API_MAJOR) && String.eqb typeName "clip")
       then Some ptVideoNode
  else if String.eqb typeName "anode" && (VAPOURSYNTH3_API_MAJOR <? apiMajor)
       then Some ptAudioNode
  else if (String.eqb typeName "vframe" && (VAPOURSYNTH3_API_MAJOR <? apiMajor))
          || ((apiMajor =? VAPOURSYNTH3_API_MAJOR) && String.eqb typeName "frame")
       then Some ptVideoFrame
  else if String.eqb typeName "aframe" && (VAPOURSYNTH3_API_MAJOR <? apiMajor)
       then Some ptAudioFrame
  else if String.eqb typeName "func" then Some ptFunction
  else None.

(** The loop over [argParts[2 ..]]; [inl] is the message of the
    [std::runtime_error]. *)
Fixpoint parse_modifiers (argName : string) (modifiers : list string) (opt empty : bool)
  : string + bool * bool :=
  match modifiers with
  | [] => inr (opt, empty)
  | part :: rest =>
      if String.eqb part "opt" then
        if opt then
          inl ("Argument '" +:+ argName +:+ "' has duplicate argument specifier '"
               +:+ part +:+ "'")
        else parse_modifiers argName rest true empty
      else if String.eqb part "empty" then
        if empty then
          inl ("Argument '" +:+ argName +:+ "' has duplicate argument specifier '"
               +:+ part +:+ "'")
        else parse_modifiers argName rest opt true
      else
        inl ("Argument '" +:+ argName +:+ "' has unknown argument modifier '"
             +:+ part +:+ "'")
  end.

(** The test for a trailing ["[]"] and the [resize] that removes it: the
    type name that is left, and [arr]. *)
Definition strip_array (typeName : string) : string * bool :=
  let n := String.length typeName in
  if (2 <? n)%nat && String.eqb (substr typeName (n - 2) None) "[]"
  then (string_take (n - 2) typeName, true)
  else (typeName, false).

(** The body of the loop of [parseArgString], after the split of [arg]
    into [argParts]. *)
Definition parse_parts (arg : string) (argParts : list string) (apiMajor : Z)
  : string + FilterArgument :=
  match argParts with
  | argName :: typeName :: modifiers =>
      let '(typeName, arr) := strip_array typeName in
      match parse_type typeName apiMajor with
      | None =>
          inl ("Argument '" +:+ argName +:+ "' has invalid type '" +:+ typeName +:+ "'.")
      | Some type =>
          match parse_modifiers argName modifiers false false with
          | inl msg => inl msg
          | inr (opt, empty) =>
              if negb (isValidIdentifier argName) then
                inl ("Argument name '" +:+ argName +:+ "' contains illegal characters.")
              else if empty && negb arr then
                inl ("Argument '" +:+ argName +:+
                     "' is not an array. Only array arguments can have the empty flag set.")
              else inr (mkFilterArgument argName type arr empty opt)
          end
      end
  | _ =>
      inl ("Invalid argument specifier '" +:+ arg +:+ "'. It appears to be incomplete.")
  end.

Fixpoint parse_args (argList : list string) (argsOut : list FilterArgument) (apiMajor : Z)
  : Outcome (string + list FilterArgument) :=
  match argList with
  | [] => Ok (inr argsOut)
  | arg :: rest =>
      argParts ← split arg ":" no_empties;
      match parse_parts arg argParts apiMajor with
      | inl msg => Ok (inl msg)
      | inr fa => parse_args rest (argsOut ++ [fa]) apiMajor
      end
  end.

(** [VSPluginFunction::parseArgString]; [inl] is the message of the
    exception thrown. *)
Definition parseArgString (argString : string) (argsOut : list FilterArgument)
    (apiMajor : Z) : Outcome (string + list FilterArgument) :=
  argList ← split argString ";" no_empties;
  parse_args argList argsOut apiMajor.

(** Modelled from the spec: the property map [VSMap] of the header, "an
    ordered mapping from key to typed array" that "may hold an error
    string"; an array is known by its type and size, an array of video
    nodes also by the colour families of the outputs of its nodes. *)
Inductive VSArray : Type :=
| VideoNodeArray (nodes : list (list Z))
| TypedArray (type : VSPropType) (size : nat).

Definition array_type (a : VSArray) : VSPropType :=
  match a with
  | VideoNodeArray _ => ptVideoNode
  | TypedArray t _ => t
  end.

Definition array_size (a : VSArray) : nat :=
  match a with
  | VideoNodeArray nodes => length nodes
  | TypedArray _ n => n
  end.

Record VSMap : Type := mkVSMap {
  map_data : list (string * VSArray);
  map_error : option string
}.

Definition VSMap_new : VSMap := mkVSMap [] None.

(** Modelled from the spec: [VSMap::find], [propGetType] and [setError]
    of the header and the API table. *)
Fixpoint assoc_find (l : list (string * VSArray)) (key : string) : option VSArray :=
  match l with
  | [] => None
  | (k, a) :: l' => if String.eqb k key then Some a else assoc_find l' key
  end.

Definition VSMap_find (m : VSMap) (key : string) : option VSArray :=
  assoc_find (map_data m) key.

Definition propGetType (m : VSMap) (key : string) : VSPropType :=
  match VSMap_find m key with
  | Some a => array_type a
  | None => ptUnset
  end.

Definition setError (msg : string) : VSMap := mkVSMap [] (Some msg).

(** A plugin function; [func] is the filter's entry point, from the
    arguments and the output map to the output map. *)
Record VSPluginFunction : Type := mkVSPluginFunction {
  pf_name : string;
  argString : string;
  returnType : string;
  func : VSMap -> VSMap -> VSMap;
  args : list FilterArgument;
  retArgs : list FilterArgument
}.

(** [VSPluginFunction::VSPluginFunction] *)
Definition VSPluginFunction_new (name argString returnType : string)
    (func : VSMap -> VSMap -> VSMap) (apiMajor : Z)
  : Outcome (string + VSPluginFunction) :=
  a ← parseArgString argString [] apiMajor;
  match a with
  | inl msg => Ok (inl msg)
  | inr args =>
      r ← parseArgString returnType [] apiMajor;
      match r with
      | inl msg => Ok (inl msg)
      | inr retArgs => Ok (inr (mkVSPluginFunction name argString returnType func args retArgs))
      end
  end.

Definition is_audio_type (t : VSPropType) : bool :=
  match t with
  | ptAudioNode | ptAudioFrame => true
  | _ => false
  end.

(** [VSPluginFunction::isV3Compatible] *)
Definition isV3Compatible (f : VSPluginFunction) : bool :=
  forallb (fun fa => negb (is_audio_type (fa_type fa))) (args f)
  && forallb (fun fa => negb (is_audio_type (fa_type fa))) (retArgs f).

Context {Hd : Headers}.

(** [assert(cond)]: no code in a build with [NDEBUG], the end of the
    process otherwise. *)
Definition assert (cond : bool) : Outcome unit :=
  if NDEBUG || cond then Ok tt else Fatal "Assertion failed".

(** [VSPluginFunction::getV3ArgString], on the argument list. The two
    assertions are those of the source: in a build with [NDEBUG] an
    argument of an audio type (or of no type) gets its name and no type
    name. *)
Fixpoint getV3ArgString_from (l : list FilterArgument) (tmp : string) : Outcome string :=
  match l with
  | [] => Ok tmp
  | iter :: rest =>
      _ ← assert (negb (is_audio_type (fa_type iter)));
      let tmp := tmp +:+ (fa_name iter +:+ ":") in
      tmp ←
        match fa_type iter with
        | ptInt => Ok (tmp +:+ "int")
        | ptFloat => Ok (tmp +:+ "float")
        | ptData => Ok (tmp +:+ "data")
        | ptVideoNode => Ok (tmp +:+ "clip")
        | ptVideoFrame => Ok (tmp +:+ "frame")
        | ptFunction => Ok (tmp +:+ "func")
        | _ => _ ← assert false; Ok tmp
        end;
      let tmp := if arr iter then tmp +:+ "[]" else tmp in
      let tmp := if opt iter then tmp +:+ ":opt" else tmp in
      let tmp := if empty iter then tmp +:+ ":empty" else tmp in
      getV3ArgString_from rest (tmp +:+ ";")
  end.

Definition getV3ArgString (f : VSPluginFunction) : Outcome string :=
  getV3ArgString_from (args f) "".

(** ** Plugins (VSPlugin) *)

Record VSPlugin : Type := mkVSPlugin {
  readOnly : bool;
  plugin_id : string;
  funcs : gmap string VSPluginFunction;
  plugin_apiMajor : Z;
  compat : bool
}.

(** [VSPlugin::registerFunction]; the result is the returned [bool], the
    plugin, and the messages logged at [mtCritical]. *)
Definition registerFunction (pl : VSPlugin) (name args returnType : string)
    (argsFunc : VSMap -> VSMap -> VSMap) : Outcome (bool * VSPlugin * list string) :=
  if readOnly pl then
    Ok (false, pl,
        ["API MISUSE! Tried to register function " +:+ name +:+ " but plugin "
         +:+ plugin_id pl +:+ " is read only"])
  else if negb (isValidIdentifier name) then
    Ok (false, pl,
        ["API MISUSE! Plugin " +:+ plugin_id pl +:+ " tried to register '" +:+ name
         +:+ "' which is an illegal identifier"])
  else
    match funcs pl !! name with
    | Some _ =>
        Ok (false, pl,
            ["API MISUSE! Tried to register function '" +:+ name
             +:+ "' more than once for plugin " +:+ plugin_id pl])
    | None =>
        r ← VSPluginFunction_new name args returnType argsFunc (plugin_apiMajor pl);
        match r with
        | inl what =>
            Ok (false, pl,
                ["API MISUSE! Function '" +:+ name +:+ "' failed to register with error: "
                 +:+ what])
        | inr f =>
            Ok (true,
                mkVSPlugin (readOnly pl) (plugin_id pl) (<[name := f]> (funcs pl))
                  (plugin_apiMajor pl) (compat pl),
                [])
        end
    end.

(** [VSMap::hasCompatNodes] *)
Definition hasCompatNodes (m : VSMap) : bool :=
  existsb (fun kv =>
    match snd kv with
    | VideoNodeArray nodes =>
        existsb (existsb (fun cf => (cf =? cfCompatBGR32) || (cf =? cfCompatYUY2))) nodes
    | TypedArray _ _ => false
    end) (map_data m).

(** [VSMap::isV3Compatible] *)
Definition VSMap_isV3Compatible (m : VSMap) : bool :=
  forallb (fun kv => negb (is_audio_type (array_type (snd kv)))) (map_data m).

(** [std::set<std::string>]: in order, every key once. *)
Fixpoint set_insert (x : string) (l : list string) : list string :=
  match l with
  | [] => [x]
  | y :: l' =>
      match String.compare x y with
      | Lt => x :: y :: l'
      | Eq => y :: l'
      | Gt => y :: set_insert x l'
      end
  end.

(** [erase(key)]: the elements equal to [key] go. *)
Fixpoint set_erase (x : string) (l : list string) : list string :=
  match l with
  | [] => []
  | y :: l' => if String.eqb x y then set_erase x l' else y :: set_erase x l'
  end.

(** The loop over [f.args] in [invoke]; [inl] is the message of the
    [VSException], [inr] the keys left in [remainingArgs]. *)
Fixpoint check_args (funcName : string) (fargs : list FilterArgument) (args_in : VSMap)
    (remainingArgs : list string) : string + list string :=
  match fargs with
  | [] => inr remainingArgs
  | fa :: rest =>
      let propType := propGetType args_in (fa_name fa) in
      if negb (VSPropType_eqb propType ptUnset) then
        let remainingArgs := set_erase (fa_name fa) remainingArgs in
        if negb (VSPropType_eqb (fa_type fa) propType) then
          inl (funcName +:+ ": argument " +:+ fa_name fa +:+ " is not of the correct type")
        else
          match VSMap_find args_in (fa_name fa) with
          | None => inr remainingArgs
          | Some a =>
              if negb (arr fa) && (1 <? array_size a)%nat then
                inl (funcName +:+ ": argument " +:+ fa_name fa +:+
                     " is not of array type but more than one value was supplied")
              else if negb (empty fa) && (array_size a <? 1)%nat then
                inl (funcName +:+ ": argument " +:+ fa_name fa +:+
                     " does not accept empty arrays")
              else check_args funcName rest args_in remainingArgs
          end
      else if negb (opt fa) then
        inl (funcName +:+ ": argument " +:+ fa_name fa +:+ " is required")
      else check_args funcName rest args_in remainingArgs
  end.

(** [s = *iter; for (...) s += ", " + *iter;] *)
Fixpoint join_keys (first : string) (rest : list string) : string :=
  match rest with
  | [] => first
  | k :: rest' => join_keys (first +:+ (", " +:+ k)) rest'
  end.

(** The part of [invoke] inside [try], up to the call of the filter:
    [inl] is the message of the [VSException]. *)
Definition validate_call (pl : VSPlugin) (f : VSPluginFunction) (funcName : string)
    (args_in : VSMap) : string + unit :=
  if negb (compat pl) && hasCompatNodes args_in then
    inl (funcName +:+ ": only special filters may accept compat input")
  else
    let remainingArgs :=
      fold_left (fun acc kv => set_insert (fst kv) acc) (map_data args_in) [] in
    match check_args funcName (args f) args_in remainingArgs with
    | inl msg => inl msg
    | inr [] => inr tt
    | inr (first :: rest) =>
        inl (funcName +:+ ": no argument(s) named " +:+ join_keys first rest)
    end.

(** [VSPlugin::invoke]; the result is the map returned and the calls of
    filter functions made on the way, each with the arguments it got.
    The function frames of graph inspection are left out. *)
Definition invoke (pl : VSPlugin) (funcName : string) (args_in : VSMap)
  : Outcome (VSMap * list (string * VSMap)) :=
  let v := VSMap_new in
  match funcs pl !! funcName with
  | Some f =>
      match validate_call pl f funcName args_in with
      | inl what => Ok (setError what, [])
      | inr _ =>
          let v := func f args_in v in
          if negb (compat pl) && hasCompatNodes v then
            Fatal (funcName +:+
                   ": filter node returned compat format but only internal filters may do so")
          else if (plugin_apiMajor pl =? VAPOURSYNTH3_API_MAJOR)
                  && negb (VSMap_isV3Compatible args_in) then
            Fatal (funcName +:+ ": filter node returned not yet supported type")
          else Ok (v, [(funcName, args_in)])
      end
  | None =>
      Ok (setError ("Function '" +:+ funcName +:+ "' not found in " +:+ plugin_id pl), [])
  end.

(** *** The argument protocol as the specification speaks of it *)

(** A letter, a digit or an underscore, by enumeration. *)
Definition letters : string := "abcdefghijklmnopqrstuvwxyzABCDEFGHIJKLMNOPQRSTUVWXYZ".
Definition digits : string := "0123456789".

(** [s] matches [[A-Za-z][A-Za-z0-9_]*]. *)
Inductive identifier_tail : string -> Prop :=
| tail_empty : identifier_tail EmptyString
| tail_letter c s : mem_char c letters = true -> identifier_tail s ->
    identifier_tail (String c s)
| tail_digit c s : mem_char c digits = true -> identifier_tail s ->
    identifier_tail (String c s)
| tail_underscore s : identifier_tail s -> identifier_tail (String "_" s).

Inductive matches_identifier : string -> Prop :=
| identifier_intro c s : mem_char c letters = true -> identifier_tail s ->
    matches_identifier (String c s).

(** The declared argument [fa] is violated by the arguments supplied. *)
Definition violates (fa : FilterArgument) (args_in : VSMap) : Prop :=
  match VSMap_find args_in (fa_name fa) with
  | None => opt fa = false
  | Some a =>
      array_type a <> fa_type fa \/
      (arr fa = false /\ (1 < array_size a)%nat) \/
      (empty fa = false /\ array_size a = O)
  end.

(** [key] is a key of the arguments supplied that is not declared. *)
Definition unknown_key (f : VSPluginFunction) (args_in : VSMap) (key : string) : Prop :=
  In key (map fst (map_data args_in)) /\ ~ In key (map fa_name (args f)).

(** Every array of the map has one of the eight value types. *)
Definition typed_map (m : VSMap) : Prop :=
  forall kv, In kv (map_data m) -> array_type (snd kv) <> ptUnset.

(** The order of [std::set<std::string>]. *)
Definition string_lt (a b : string) : Prop := String.compare a b = Lt.

(** The keys [ks], separated by a comma and a space. *)
Fixpoint comma_separated (ks : list string) : string :=
  match ks with
  | [] => EmptyString
  | k :: rest =>
      match rest with
      | [] => k
      | _ :: _ => k +:+ ", " +:+ comma_separated rest
      end
  end.

(** No character of [t] is one of the [delimiters]. *)
Definition free_of (delimiters t : string) : bool :=
  all_chars (fun c => negb (mem_char c delimiters)) t.

(** What [getV3ArgString] writes for one argument, and for a list. *)
Definition v3_type_name (t : VSPropType) : option string :=
  match t with
  | ptInt => Some "int"
  | ptFloat => Some "float"
  | ptData => Some "data"
  | ptVideoNode => Some "clip"
  | ptVideoFrame => Some "frame"
  | ptFunction => Some "func"
  | _ => None
  end.

Definition type_string (t : VSPropType) : string :=
  match v3_type_name t with
  | Some name => name
  | None => ""
  end.

Definition arg_suffix (fa : FilterArgument) : string :=
  type_string (fa_type fa)
  +:+ (if arr fa then "[]" else "")
  +:+ (if opt fa then ":opt" else "")
  +:+ (if empty fa then ":empty" else "").

Definition arg_spec (fa : FilterArgument) : string :=
  fa_name fa +:+ ":" +:+ arg_suffix fa.

Definition join_specs (specs : list string) : string :=
  fold_right (fun sp acc => sp +:+ ";" +:+ acc) "" specs.

(** The parts that [split] makes of what [getV3ArgString] writes for one
    argument. *)
Definition arg_parts (fa : FilterArgument) : list string :=
  [fa_name fa; type_string (fa_type fa) +:+ (if arr fa then "[]" else "")]
  ++ (if opt fa then ["opt"] else [])
  ++ (if empty fa then ["empty"] else []).

(** The arguments as the parser leaves them: a name that is an
    identifier, a value type, and the empty flag on arrays only. *)
Definition argument_wf (fa : FilterArgument) : Prop :=
  isValidIdentifier (fa_name fa) = true /\ fa_type fa <> ptUnset /\
  (empty fa = true -> arr fa = true).

(** An argument that [getV3ArgString] can write. *)
Definition v3_argument (fa : FilterArgument) : Prop :=
  argument_wf fa /\ is_Some (v3_type_name (fa_type fa)).

(* ===================================================================== *)
(** ** Further functions of [vscore.cpp]                                  *)
(* ===================================================================== *)

(** [snprintf(buffer, 32, ...)]: at most 31 characters are written. *)
Definition snprintf32 (formatted : string) : string := string_take 31 formatted.

(** *** Tokens of [split], by the structure of the string *)

(** The pieces of [s] between the characters of [delimiters], empty
    pieces included. *)
Fixpoint fields (s delimiters : string) : list string :=
  match s with
  | EmptyString => [EmptyString]
  | String c s' =>
      if mem_char c delimiters then EmptyString :: fields s' delimiters
      else
        match fields s' delimiters with
        | [] => [String c EmptyString]
        | t :: rest => String c t :: rest
        end
  end.

Definition nonempty (t : string) : bool :=
  match t with
  | EmptyString => false
  | String _ _ => true
  end.

(** The pieces that are not empty. *)
Definition tokens (s delimiters : string) : list string :=
  filter (fun t => nonempty t = true) (fields s delimiters).

(** The parts, with the character [c] between every two of them. *)
Fixpoint join_with (c : ascii) (parts : list string) : string :=
  match parts with
  | [] => EmptyString
  | t :: rest =>
      match rest with
      | [] => t
      | _ :: _ => t +:+ String c (join_with c rest)
      end
  end.

(** [s] without the characters of [delimiters]. *)
Fixpoint remove_chars (s delimiters : string) : string :=
  match s with
  | EmptyString => EmptyString
  | String c s' =>
      if mem_char c delimiters then remove_chars s' delimiters
      else String c (remove_chars s' delimiters)
  end.

Definition concat_strings (l : list string) : string :=
  fold_right (fun t acc => t +:+ acc) EmptyString l.

(** *** Video formats (VSCore) *)

(** [VSCore::isValidVideoFormat] *)
Definition isValidVideoFormat (colorFamily sampleType bitsPerSample subSamplingW subSamplingH : Z)
  : bool :=
  if negb (colorFamily =? cfUndefined) && negb (colorFamily =? cfGray)
     && negb (colorFamily =? cfYUV) && negb (colorFamily =? cfRGB)
     && negb (colorFamily =? cfCompatBGR32) && negb (colorFamily =? cfCompatYUY2)
  then false
  else if (colorFamily =? cfUndefined)
          && (negb (subSamplingH =? 0) || negb (subSamplingW =? 0)
              || negb (bitsPerSample =? 0) || negb (sampleType =? stInteger))
  then true
  else if negb (sampleType =? stInteger) && negb (sampleType =? stFloat) then false
  else if (sampleType =? stFloat)
          && (negb (bitsPerSample =? 16) && negb (bitsPerSample =? 32))
  then false
  else if (subSamplingH <? 0) || (subSamplingW <? 0)
          || (4 <? subSamplingH) || (4 <? subSamplingW)
  then false
  else if ((colorFamily =? cfRGB) || (colorFamily =? cfGray))
          && (negb (subSamplingH =? 0) || negb (subSamplingW =? 0))
  then false
  else if (bitsPerSample <? 8) || (32 <? bitsPerSample) then false
  else if (colorFamily =? cfCompatBGR32)
          && (negb (subSamplingH =? 0) || negb (subSamplingW =? 0)
              || negb (bitsPerSample =? 32) || negb (sampleType =? stInteger))
  then false
  else if (colorFamily =? cfCompatYUY2)
          && (negb (subSamplingH =? 0) || negb (subSamplingW =? 1)
              || negb (bitsPerSample =? 16) || negb (sampleType =? stInteger))
  then false
  else true.

(** [f = {}] *)
Definition VSVideoFormat_zero : VSVideoFormat := mkVSVideoFormat 0 0 0 0 0 0 0.

(** [VSCore::queryVideoFormat]; the result is the returned [bool] and the
    format behind the reference [f]. *)
Definition queryVideoFormat (colorFamily sampleType bitsPerSample subSamplingW subSamplingH : Z)
  : Outcome (bool * VSVideoFormat) :=
  let f := VSVideoFormat_zero in
  if colorFamily =? cfUndefined then Ok (true, f)
  else if negb (isValidVideoFormat colorFamily sampleType bitsPerSample
                  subSamplingW subSamplingH)
  then Ok (false, f)
  else
    bps ← bytesPerSample_loop 32 1 bitsPerSample;
    Ok (true,
        mkVSVideoFormat colorFamily sampleType bitsPerSample bps subSamplingW subSamplingH
          (if (colorFamily =? cfGray) || (colorFamily =? cfCompatBGR32)
              || (colorFamily =? cfCompatYUY2)
           then 1 else 3)).

(** [VSCore::queryVideoFormatID]; the result is a [uint32_t]. *)
Definition queryVideoFormatID (colorFamily sampleType bitsPerSample subSamplingW subSamplingH : Z)
  : Z :=
  if negb (isValidVideoFormat colorFamily sampleType bitsPerSample
             subSamplingW subSamplingH)
  then 0
  else
    wrapu 32
      (Z.lor (Z.lor (Z.lor (Z.lor
         (Z.shiftl (Z.land colorFamily 0xF) 28)
         (Z.shiftl (Z.land sampleType 0xF) 24))
         (Z.shiftl (Z.land bitsPerSample 0xFF) 16))
         (Z.shiftl (Z.land subSamplingW 0xFF) 8))
         (Z.shiftl (Z.land subSamplingH 0xFF) 0)).

(** [vs3::VSVideoFormat], the format record of the legacy API. *)
Record V3VideoFormat : Type := mkV3VideoFormat {
  v3_name : string;
  v3_id : Z;
  v3_colorFamily : Z;
  v3_sampleType : Z;
  v3_bitsPerSample : Z;
  v3_bytesPerSample : Z;
  v3_subSamplingW : Z;
  v3_subSamplingH : Z;
  v3_numPlanes : Z
}.

(** [std::map<int, vs3::VSVideoFormat> videoFormats], in key order, and
    the counter [videoFormatIdOffset]. A pointer to a format of the map
    is the key of its entry. *)
Definition FormatMap : Type := list (Z * V3VideoFormat).

Fixpoint FormatMap_find (m : FormatMap) (key : Z) : option V3VideoFormat :=
  match m with
  | [] => None
  | (k, f) :: m' => if key =? k then Some f else FormatMap_find m' key
  end.

(** [insert]: an entry whose key is there already stays as it is. *)
Fixpoint FormatMap_insert (m : FormatMap) (key : Z) (f : V3VideoFormat) : FormatMap :=
  match m with
  | [] => [(key, f)]
  | (k, g) :: m' =>
      if key =? k then (k, g) :: m'
      else if key <? k then (key, f) :: (k, g) :: m'
      else (k, g) :: FormatMap_insert m' key f
  end.

Record FormatTable : Type := mkFormatTable {
  videoFormats : FormatMap;
  videoFormatIdOffset : Z
}.

(** [VSCore::getV3VideoFormat] *)
Definition getV3VideoFormat (t : FormatTable) (id : Z) : option Z :=
  match FormatMap_find (videoFormats t) id with
  | Some _ => Some id
  | None => None
  end.

(** [VSCore::ColorFamilyFromV3] *)
Definition ColorFamilyFromV3 (colorFamily : Z) : Outcome Z :=
  if colorFamily =? cmGray then Ok cfGray
  else if (colorFamily =? cmYUV) || (colorFamily =? cmYCoCg) then Ok cfYUV
  else if colorFamily =? cmRGB then Ok cfRGB
  else _ ← assert false; Ok cfGray.

(** [VSCore::ColorFamilyToV3] *)
Definition ColorFamilyToV3 (colorFamily : Z) : Outcome Z :=
  if colorFamily =? cfGray then Ok cmGray
  else if colorFamily =? cfYUV then Ok cmYUV
  else if colorFamily =? cfRGB then Ok cmRGB
  else _ ← assert false; Ok cmGray.

(** [VSCore::VideoFormatFromV3]; [format] is the pointer. *)
Definition VideoFormatFromV3 (t : FormatTable) (format : option Z)
  : Outcome (bool * VSVideoFormat) :=
  match format with
  | None => queryVideoFormat cfUndefined stInteger 0 0 0
  | Some p =>
      match FormatMap_find (videoFormats t) p with
      | None => Undefined
      | Some f =>
          if v3_id f =? pfCompatBGR32 then queryVideoFormat cfCompatBGR32 stInteger 32 0 0
          else if v3_id f =? pfCompatYUY2 then queryVideoFormat cfCompatYUY2 stInteger 16 1 0
          else
            cf ← ColorFamilyFromV3 (v3_colorFamily f);
            queryVideoFormat cf (v3_sampleType f) (v3_bitsPerSample f)
              (v3_subSamplingW f) (v3_subSamplingH f)
      end
  end.

(** The test "is a V3 id?" of [queryVideoFormatByID] and
    [getVideoFormat3]. *)
Definition is_v3_id (id : Z) : bool :=
  (Z.land id 0xFF000000 =? 0) && negb (Z.land id 0x00FFFFFF =? 0).

(** [VSCore::queryVideoFormatByID]; [id] is a [uint32_t]. *)
Definition queryVideoFormatByID (t : FormatTable) (id : Z) : Outcome (bool * VSVideoFormat) :=
  if is_v3_id id then VideoFormatFromV3 t (getV3VideoFormat t id)
  else
    queryVideoFormat (Z.land (Z.shiftr id 28) 0xF) (Z.land (Z.shiftr id 24) 0xF)
      (Z.land (Z.shiftr id 16) 0xFF) (Z.land (Z.shiftr id 8) 0xFF)
      (Z.land (Z.shiftr id 0) 0xFF).

(** The name that [queryVideoFormat3] and [getVideoFormatName] print for
    the subsampling of a YUV format. *)
Definition yuvName (subSamplingW subSamplingH : Z) : option string :=
  if (subSamplingW =? 1) && (subSamplingH =? 1) then Some "420"
  else if (subSamplingW =? 1) && (subSamplingH =? 0) then Some "422"
  else if (subSamplingW =? 0) && (subSamplingH =? 0) then Some "444"
  else if (subSamplingW =? 2) && (subSamplingH =? 2) then Some "410"
  else if (subSamplingW =? 2) && (subSamplingH =? 0) then Some "411"
  else if (subSamplingW =? 0) && (subSamplingH =? 1) then Some "440"
  else None.

Definition sampleTypeStr (sampleType bitsPerSample : Z) : string :=
  if sampleType =? stFloat then (if bitsPerSample =? 32 then "S" else "H") else "".

(** [VSCore::queryVideoFormat3]; [name] is a null pointer ([None]) or a
    string, the result is the pointer returned and the table. A [name]
    of 32 characters or more overruns [f.name]. *)
Definition queryVideoFormat3 (t : FormatTable)
    (colorFamily sampleType bitsPerSample subSamplingW subSamplingH : Z)
    (name : option string) (id : Z) : Outcome (option Z * FormatTable) :=
  if (subSamplingH <? 0) || (subSamplingW <? 0) || (4 <? subSamplingH) || (4 <? subSamplingW)
  then Ok (None, t)
  else if (sampleType <? 0) || (1 <? sampleType) then Ok (None, t)
  else if (colorFamily =? cmRGB) && (negb (subSamplingH =? 0) || negb (subSamplingW =? 0))
  then Ok (None, t)
  else if (sampleType =? stFloat)
          && (negb (bitsPerSample =? 16) && negb (bitsPerSample =? 32))
  then Ok (None, t)
  else if (bitsPerSample <? 8) || (32 <? bitsPerSample) then Ok (None, t)
  else if (colorFamily =? cmCompat) && (match name with None => true | Some _ => false end)
  then Ok (None, t)
  else
    match
      List.find (fun kf =>
        (v3_colorFamily (snd kf) =? colorFamily) && (v3_sampleType (snd kf) =? sampleType)
        && (v3_subSamplingW (snd kf) =? subSamplingW)
        && (v3_subSamplingH (snd kf) =? subSamplingH)
        && (v3_bitsPerSample (snd kf) =? bitsPerSample)) (videoFormats t)
    with
    | Some kf => Ok (Some (fst kf), t)
    | None =>
        f_name ←
          match name with
          | Some n => if (String.length n <? 32)%nat then Ok n else Undefined
          | None =>
              let st := sampleTypeStr sampleType bitsPerSample in
              if colorFamily =? cmGray then
                Ok (snprintf32 ("Gray" +:+ st +:+ to_string bitsPerSample))
              else if colorFamily =? cmRGB then
                Ok (snprintf32 ("RGB" +:+ st +:+ to_string (wraps 32 (bitsPerSample * 3))))
              else if colorFamily =? cmYUV then
                match yuvName subSamplingW subSamplingH with
                | Some yuv =>
                    Ok (snprintf32 ("YUV" +:+ yuv +:+ "P" +:+ st +:+ to_string bitsPerSample))
                | None =>
                    Ok (snprintf32 ("YUVssw" +:+ to_string subSamplingW +:+ "ssh"
                                    +:+ to_string subSamplingH +:+ "P" +:+ st
                                    +:+ to_string bitsPerSample))
                end
              else if colorFamily =? cmYCoCg then
                Ok (snprintf32 ("YCoCgssw" +:+ to_string subSamplingW +:+ "ssh"
                                +:+ to_string subSamplingH +:+ "P" +:+ st
                                +:+ to_string bitsPerSample))
              else Ok EmptyString
          end;
        let '(f_id, offset) :=
          if negb (id =? 0) then (id, videoFormatIdOffset t)
          else (wraps 32 (colorFamily + videoFormatIdOffset t),
                wraps 32 (videoFormatIdOffset t + 1)) in
        bps ← bytesPerSample_loop 32 1 bitsPerSample;
        let f := mkV3VideoFormat f_name f_id colorFamily sampleType bitsPerSample bps
                   subSamplingW subSamplingH
                   (if (colorFamily =? cmGray) || (colorFamily =? cmCompat) then 1 else 3) in
        Ok (Some f_id, mkFormatTable (FormatMap_insert (videoFormats t) f_id f) offset)
    end.

(** [VSCore::VideoFormatToV3] *)
Definition VideoFormatToV3 (t : FormatTable) (format : VSVideoFormat)
  : Outcome (option Z * FormatTable) :=
  if colorFamily format =? cfCompatBGR32 then Ok (getV3VideoFormat t pfCompatBGR32, t)
  else if colorFamily format =? cfCompatYUY2 then Ok (getV3VideoFormat t pfCompatYUY2, t)
  else
    cm ← ColorFamilyToV3 (colorFamily format);
    queryVideoFormat3 t cm (vf_sampleType format) (vf_bitsPerSample format)
      (subSamplingW format) (subSamplingH format) None 0.



(** [VSCore::getVideoFormatName]; [buffer] is what the buffer held
    before. *)
Definition getVideoFormatName (format : VSVideoFormat) (buffer : string) : bool * string :=
  if negb (isValidVideoFormat (colorFamily format) (vf_sampleType format)
             (vf_bitsPerSample format) (subSamplingW format) (subSamplingH format))
  then (false, buffer)
  else
    let st := sampleTypeStr (vf_sampleType format) (vf_bitsPerSample format) in
    let bits := vf_bitsPerSample format in
    if colorFamily format =? cfGray then
      (true, snprintf32 ("Gray" +:+ st +:+ to_string bits))
    else if colorFamily format =? cfRGB then
      (true, snprintf32 ("RGB" +:+ st +:+ to_string (wraps 32 (bits * 3))))
    else if colorFamily format =? cfYUV then
      match yuvName (subSamplingW format) (subSamplingH format) with
      | Some name =>
          (true, snprintf32 ("YUV" +:+ name +:+ "P" +:+ st +:+ to_string bits))
      | None =>
          (true, snprintf32 ("YUVssw" +:+ to_string (subSamplingW format)
                             +:+ "ssh" +:+ to_string (subSamplingH format)
                             +:+ "P" +:+ st +:+ to_string bits))
      end
    else if colorFamily format =? cfCompatBGR32 then (true, snprintf32 "CompatBGR32")
    else if colorFamily format =? cfCompatYUY2 then (true, snprintf32 "CompatYUY2")
    else if colorFamily format =? cfUndefined then (true, snprintf32 "Undefined")
    else (true, buffer).

(** [VSCore::getAudioFormatName] *)
Definition getAudioFormatName (format : VSAudioFormat) (buffer : string) : bool * string :=
  if negb (isValidAudioFormat (sampleType format) (bitsPerSample format)
             (channelLayout format))
  then (false, buffer)
  else if sampleType format =? stFloat then
    (true, snprintf32 ("Audio" +:+ to_string (bitsPerSample format) +:+ "F ("
                       +:+ to_string (numChannels format) +:+ " CH)"))
  else
    (true, snprintf32 ("Audio" +:+ to_string (bitsPerSample format) +:+ " ("
                       +:+ to_string (numChannels format) +:+ " CH)")).

(** *** Audio frames of a node (VSNode::getFrameInternal) *)

(** The number of samples that [getFrameInternal] expects of frame [n]
    of the output [lai]. *)
Definition expectedSamples (lai : VSAudioInfo) (n : Z) : Z :=
  wraps 32
    (if n <? wraps 32 (numFrames lai - 1) then VS_AUDIO_FRAME_SAMPLES
     else if negb (Z.rem (numSamples lai) VS_AUDIO_FRAME_SAMPLES =? 0)
          then Z.rem (numSamples lai) VS_AUDIO_FRAME_SAMPLES
          else VS_AUDIO_FRAME_SAMPLES).

(** The audio branch of [VSNode::getFrameInternal]: the checks on the
    frame that the filter returned for frame [n], by the format [fi] of
    the frame and its length [frameLength]. *)
Definition check_audio_frame (name : string) (lai : VSAudioInfo) (n : Z)
    (fi : VSAudioFormat) (frameLength : Z) : Outcome unit :=
  if negb (bitsPerSample (format lai) =? bitsPerSample fi)
     || negb (sampleType (format lai) =? sampleType fi)
     || negb (channelLayout (format lai) =? channelLayout fi)
  then Fatal ("Filter " +:+ name +:+ " returned a frame that's not of the declared format")
  else if negb (expectedSamples lai n =? frameLength)
  then Fatal ("Filter " +:+ name +:+ " returned audio frame with " +:+ to_string frameLength
              +:+ " samples but " +:+ to_string (expectedSamples lai n)
              +:+ " expected from declared length")
  else Ok tt.

(** The frames [0 .. count-1] of an output. *)
Definition frame_numbers (count : Z) : list Z :=
  map Z.of_nat (seq 0 (Z.to_nat count)).

Definition sum_Z (l : list Z) : Z := fold_right Z.add 0 l.

(** *** Frames: the destructor and the strides *)

(** [VSFrameRef::~VSFrameRef] *)
Definition VSFrameRef_delete (f : VSFrameRef) (w : World) : Outcome World :=
  match data f with
  | [Some d0; o1; o2] =>
      w0 ← release w d0;
      match o1 with
      | Some d1 =>
          w1 ← release w0 d1;
          match o2 with
          | Some d2 => release w1 d2
          | None => Undefined
          end
      | None => Ok w0
      end
  | _ => Undefined
  end.

(** [VSFrameRef::getStride] *)
Definition getStride (f : VSFrameRef) (plane : Z) : Outcome Z :=
  _ ← assert (match contentType f with mtVideo => true | mtAudio => false end);
  if (plane <? 0) || (numPlanes f <=? plane) then
    Fatal ("Requested stride of nonexistent plane " +:+ to_string plane)
  else
    match stride f !! Z.to_nat plane with
    | Some s => Ok s
    | None => Undefined
    end.

(** *** Frame contexts (VSFrameContext) *)

(** The two fields of a frame context that [setError] works on. *)
Record VSFrameContext : Type := mkVSFrameContext {
  ctx_error : bool;
  errorMessage : string
}.

(** [VSFrameContext::setError]; the result is the returned [bool] and the
    context. *)
Definition VSFrameContext_setError (ctx : VSFrameContext) (errorMsg : string)
  : bool * VSFrameContext :=
  let prevState := ctx_error ctx in
  (prevState,
   mkVSFrameContext true (if negb prevState then errorMsg else errorMessage ctx)).

(** A run of [setError] calls: the values returned, and the context. *)
Fixpoint setErrors (ctx : VSFrameContext) (msgs : list string)
  : list bool * VSFrameContext :=
  match msgs with
  | [] => ([], ctx)
  | msg :: rest =>
      let '(prev, ctx1) := VSFrameContext_setError ctx msg in
      let '(prevs, ctx2) := setErrors ctx1 rest in
      (prev :: prevs, ctx2)
  end.

(** *** Plugins: configuration *)

(** The fields of [VSPlugin] that [configPlugin] works on. *)
Record PluginConfig : Type := mkPluginConfig {
  hasConfig : bool;
  cfg_id : string;
  fnamespace : string;
  pluginVersion : Z;
  fullname : string;
  cfg_apiMajor : Z;
  apiMinor : Z;
  readOnlySet : bool
}.

Definition string_empty (s : string) : bool :=
  match s with
  | EmptyString => true
  | String _ _ => false
  end.

(** [VSPlugin::configPlugin] *)
Definition configPlugin (p : PluginConfig) (identifier pluginNamespace fullname : string)
    (pluginVersion apiVersion flags : Z) : Outcome (bool * PluginConfig) :=
  if hasConfig p then
    Fatal ("Attempted to configure plugin " +:+ identifier +:+ " twice")
  else if negb (Z.land flags (Z.lnot pcReadOnly) =? 0) then
    Fatal ("Invalid flags passed to configPlugin() by " +:+ identifier)
  else
    let id1 := if string_empty (cfg_id p) then identifier else cfg_id p in
    let ns1 := if string_empty (fnamespace p) then pluginNamespace else fnamespace p in
    let apiMajor := apiVersion in
    let '(apiMajor, apiMinor1) :=
      if 0x10000 <=? apiMajor
      then (Z.shiftr apiMajor 16, Z.land apiMajor 0xFFFF)
      else (apiMajor, apiMinor p) in
    Ok (true,
        mkPluginConfig true id1 ns1 pluginVersion fullname apiMajor apiMinor1
          (negb (Z.land flags pcReadOnly =? 0))).

(** *** The plugins of a core *)

(** What [VSCore::loadPlugin] reads of a plugin object. *)
Record PluginEntry : Type := mkPluginEntry {
  pe_id : string;
  pe_namespace : string;
  pe_filename : string;
  pe_compat : bool
}.

(** [std::map<std::string, VSPlugin *> plugins], in key order. *)
Definition PluginMap : Type := list (string * PluginEntry).

Fixpoint PluginMap_find (m : PluginMap) (key : string) : option PluginEntry :=
  match m with
  | [] => None
  | (k, p) :: m' => if String.eqb key k then Some p else PluginMap_find m' key
  end.

(** [insert]: an entry whose key is there already stays as it is. *)
Fixpoint PluginMap_insert (m : PluginMap) (key : string) (p : PluginEntry) : PluginMap :=
  match m with
  | [] => [(key, p)]
  | (k, q) :: m' =>
      match String.compare key k with
      | Lt => (key, p) :: (k, q) :: m'
      | Eq => (k, q) :: m'
      | Gt => (k, q) :: PluginMap_insert m' key p
      end
  end.

(** [VSCore::getPluginByID] *)
Definition getPluginByID (plugins : PluginMap) (identifier : string) : option PluginEntry :=
  PluginMap_find plugins identifier.

(** [VSCore::getPluginByNamespace] *)
Fixpoint getPluginByNamespace (plugins : PluginMap) (ns : string) : option PluginEntry :=
  match plugins with
  | [] => None
  | (_, p) :: rest =>
      if String.eqb (pe_namespace p) ns then Some p else getPluginByNamespace rest ns
  end.

(** The entry behind the one with the key [key]; [None] is [end()]. *)
Fixpoint PluginMap_next (m : PluginMap) (key : string) : option PluginEntry :=
  match m with
  | [] => None
  | (k, _) :: m' =>
      if String.eqb key k
      then match m' with
           | [] => None
           | (_, q) :: _ => Some q
           end
      else PluginMap_next m' key
  end.

(** [VSCore::getNextPlugin]; [None] is a null pointer. *)
Definition getNextPlugin (plugins : PluginMap) (plugin : option PluginEntry)
  : option PluginEntry :=
  match plugin with
  | None =>
      match plugins with
      | [] => None
      | (_, p) :: _ => Some p
      end
  | Some p => PluginMap_next plugins (pe_id p)
  end.

(** [VSCore::loadPlugin], from the plugin object [p] that the constructor
    of [VSPlugin] has built for [filename]; [inl] is the message of the
    [VSException]. *)
Definition loadPlugin (plugins : PluginMap) (filename : string) (p : PluginEntry)
  : string + PluginMap :=
  match getPluginByID plugins (pe_id p) with
  | Some already =>
      let error := "Plugin " +:+ filename +:+ " already loaded (" +:+ pe_id p +:+ ")" in
      inl (if negb (String.length (pe_filename already) =? 0)%nat
           then error +:+ (" from " +:+ pe_filename already) else error)
  | None =>
      match getPluginByNamespace plugins (pe_namespace p) with
      | Some already =>
          let error := "Plugin load of " +:+ filename +:+ " failed, namespace "
                       +:+ pe_namespace p +:+ " already populated" in
          inl (if negb (String.length (pe_filename already) =? 0)%nat
               then error +:+ (" by " +:+ pe_filename already) else error)
      | None =>
          let p1 :=
            if String.eqb (pe_namespace p) "avs"
               && String.eqb (pe_id p) "com.vapoursynth.avisynth"
            then mkPluginEntry (pe_id p) (pe_namespace p) (pe_filename p) true
            else p in
          inr (PluginMap_insert plugins (pe_id p) p1)
      end
  end.

(** A run of [loadPlugin] calls; a call that throws leaves the map as it
    is. *)
Fixpoint loadPlugins (plugins : PluginMap) (ps : list (string * PluginEntry)) : PluginMap :=
  match ps with
  | [] => plugins
  | (filename, p) :: rest =>
      match loadPlugin plugins filename p with
      | inl _ => loadPlugins plugins rest
      | inr plugins1 => loadPlugins plugins1 rest
      end
  end.

(** The map of a core is in order: the keys ascend, every plugin is filed
    under its identifier, and no two plugins have the same namespace. *)
Definition plugins_ok (plugins : PluginMap) : Prop :=
  StronglySorted string_lt (map fst plugins) /\
  Forall (fun kp => fst kp = pe_id (snd kp)) plugins /\
  List.NoDup (map (fun kp => pe_namespace (snd kp)) plugins).

(** The walk of [getNextPlugin], started at [plugin], for at most [fuel]
    steps: the plugins it visits. *)
Fixpoint plugin_walk (fuel : nat) (plugins : PluginMap) (plugin : option PluginEntry)
  : list PluginEntry :=
  match fuel with
  | O => []
  | S fuel' =>
      match getNextPlugin plugins plugin with
      | None => []
      | Some q => q :: plugin_walk fuel' plugins (Some q)
      end
  end.

(** *** Plugin functions: lookup *)

(** [VSPlugin::getFunctionByName]; [None] is a null pointer. *)
Definition getFunctionByName (pl : VSPlugin) (name : string) : option VSPluginFunction :=
  funcs pl !! name.

(** What [parseArgString] does after a first part has been parsed. *)
Definition and_then (r : Outcome (string + list FilterArgument))
    (k : list FilterArgument -> Outcome (string + list FilterArgument))
  : Outcome (string + list FilterArgument) :=
  r1 ← r;
  match r1 with
  | inl msg => Ok (inl msg)
  | inr argsOut => k argsOut
  end.

(** The identifier as a number: the five values side by side, four, four
    and three times eight bits wide. *)
Definition pack_id (cf st bits ssw ssh : Z) : Z :=
  cf * 268435456 + st * 16777216 + bits * 65536 + ssw * 256 + ssh.

(** The plane object with [k] more references. *)
Definition ref_shift (k : Z) (pd : VSPlaneData) : VSPlaneData :=
  mkVSPlaneData (pd_refcount pd + k) (pd_size pd) (pd_data pd).

(** The world in which the object [d] has [k] more references. *)
Definition adjust (w : World) (d : nat) (k : Z) : World :=
  mkWorld (memory w) (os w) (alter (ref_shift k) d (planes w)).

(** A run of such changes, and what it adds to the references of the
    object [i]. *)
Fixpoint adjust_list (w : World) (l : list (nat * Z)) : World :=
  match l with
  | [] => w
  | (d, k) :: l' => adjust_list (adjust w d k) l'
  end.

Fixpoint ref_delta (l : list (nat * Z)) (i : nat) : Z :=
  match l with
  | [] => 0
  | (d, k) :: l' => (if decide (i = d) then k else 0) + ref_delta l' i
  end.

(** *** The life of a core *)

(** The fields of [VSCore] that count its users, two [std::atomic<int>]
    whose arithmetic wraps around; [core_deleted] is set by
    [delete this]. *)
Record VSCoreLife : Type := mkVSCoreLife {
  coreFreed : bool;
  numFilterInstances : Z;
  numFunctionInstances : Z;
  core_deleted : bool
}.

(** The initialisers of [VSCore::VSCore]. *)
Definition VSCoreLife_new : VSCoreLife := mkVSCoreLife false 1 0 false.

(** A method that is called on a core that has been deleted. *)
Definition on_core {A : Type} (c : VSCoreLife) (k : Outcome A) : Outcome A :=
  if core_deleted c then Undefined else k.

(** [VSCore::filterInstanceCreated] *)
Definition filterInstanceCreated (c : VSCoreLife) : Outcome VSCoreLife :=
  on_core c
    (Ok (mkVSCoreLife (coreFreed c) (wraps 32 (numFilterInstances c + 1))
           (numFunctionInstances c) (core_deleted c))).

(** [VSCore::filterInstanceDestroyed] *)
Definition filterInstanceDestroyed (c : VSCoreLife) : Outcome VSCoreLife :=
  on_core c
    (let n := wraps 32 (numFilterInstances c - 1) in
     if n =? 0 then
       _ ← assert (coreFreed c);
       Ok (mkVSCoreLife (coreFreed c) n (numFunctionInstances c) true)
     else Ok (mkVSCoreLife (coreFreed c) n (numFunctionInstances c) (core_deleted c))).

(** [VSCore::functionInstanceCreated], [VSCore::functionInstanceDestroyed] *)
Definition functionInstanceCreated (c : VSCoreLife) : Outcome VSCoreLife :=
  on_core c
    (Ok (mkVSCoreLife (coreFreed c) (numFilterInstances c)
           (wraps 32 (numFunctionInstances c + 1)) (core_deleted c))).

Definition functionInstanceDestroyed (c : VSCoreLife) : Outcome VSCoreLife :=
  on_core c
    (Ok (mkVSCoreLife (coreFreed c) (numFilterInstances c)
           (wraps 32 (numFunctionInstances c - 1)) (core_deleted c))).

(** [VSCore::freeCore]; [memoryUsed] is what [memory->memoryUse()]
    answers, the result is the core and the warnings logged. *)
Definition freeCore (c : VSCoreLife) (memoryUsed : Z) : Outcome (VSCoreLife * list string) :=
  on_core c
    (if coreFreed c then Fatal "Double free of core"
     else
       let c1 := mkVSCoreLife true (numFilterInstances c) (numFunctionInstances c)
                   (core_deleted c) in
       let log1 :=
         if 1 <? numFilterInstances c1
         then ["Core freed but " +:+ to_string (wraps 32 (numFilterInstances c1 - 1))
               +:+ " filter instance(s) still exist"]
         else [] in
       let log2 :=
         if 0 <? memoryUsed
         then ["Core freed but " +:+ to_string memoryUsed
               +:+ " bytes still allocated in framebuffers"]
         else [] in
       let log3 :=
         if 0 <? numFunctionInstances c1
         then ["Core freed but " +:+ to_string (numFunctionInstances c1)
               +:+ " function instance(s) still exist"]
         else [] in
       c2 ← filterInstanceDestroyed c1;
       Ok (c2, log1 ++ log2 ++ log3)).

(** What happens to a core: a filter instance or a function instance is
    created or destroyed, or the core is freed. *)
Inductive CoreEvent : Type :=
| ev_created
| ev_destroyed
| ev_function_created
| ev_function_destroyed
| ev_freeCore (memoryUsed : Z).

Definition core_event (e : CoreEvent) (c : VSCoreLife) : Outcome VSCoreLife :=
  match e with
  | ev_created => filterInstanceCreated c
  | ev_destroyed => filterInstanceDestroyed c
  | ev_function_created => functionInstanceCreated c
  | ev_function_destroyed => functionInstanceDestroyed c
  | ev_freeCore memoryUsed => '(c1, _) ← freeCore c memoryUsed; Ok c1
  end.

Fixpoint core_run (es : list CoreEvent) (c : VSCoreLife) : Outcome VSCoreLife :=
  match es with
  | [] => Ok c
  | e :: es' => c1 ← core_event e c; core_run es' c1
  end.

(** The filter instances that are alive after the events [es], when
    [n] were alive before; [None] when more are destroyed than were
    created. *)
Fixpoint instances_after (es : list CoreEvent) (n : Z) : option Z :=
  match es with
  | [] => Some n
  | ev_created :: es' => instances_after es' (n + 1)
  | ev_destroyed :: es' => if n <=? 0 then None else instances_after es' (n - 1)
  | _ :: es' => instances_after es' n
  end.

Definition is_freeCore (e : CoreEvent) : bool :=
  match e with
  | ev_freeCore _ => true
  | _ => false
  end.

End Embedding.

(** ** A concrete build: 64-bit Linux

    [vsh_aligned_malloc] places a block behind all live blocks, at the
    next multiple of the alignment; the enumerators have the values of the
    public headers. *)
Definition live_end (live : gmap Z BlockHeader) : Z :=
  map_fold (fun addr h acc => Z.max acc (addr + 32 + Z.max 0 (size h))) 32 live.

Definition bump_malloc (live : gmap Z BlockHeader) (bytes align : Z) : option Z :=
  let a := Z.max 1 align in
  Some ((live_end live + a - 1) / a * a).

Definition linux64 : Platform := {|
  arch := LP64;
  VS_TARGET_OS_WINDOWS := false;
  alignment := 32;
  guardSpace := 0;
  largePageSupported := false;
  GetLargePageMinimum := 0;
  vsh_aligned_malloc := bump_malloc;
  VirtualAlloc := fun _ _ => None;
  rand_raw := fun k => k;
  stInteger := 0;
  stFloat := 1;
  nfNoCache := 1;
  nfIsCache := 2;
  nfMakeLinear := 4;
  nfFrameReady := 8;
  cfCompatBGR32 := 9;
  cfCompatYUY2 := 10;
  VAPOURSYNTH3_API_MAJOR := 3
|}.

(** The enumerators of the public headers, in a build with [NDEBUG]. *)
Definition vs_headers : Headers := {|
  cfUndefined := 0;
  cfGray := 1;
  cfRGB := 2;
  cfYUV := 3;
  cmGray := 1000000;
  cmRGB := 2000000;
  cmYUV := 3000000;
  cmYCoCg := 4000000;
  cmCompat := 9000000;
  pfCompatBGR32 := 9000010;
  pfCompatYUY2 := 9000011;
  pcReadOnly := 1;
  NDEBUG := true
|}.

(** The same enumerators in a debug build. *)
Definition vs_headers_debug : Headers := {|
  cfUndefined := 0;
  cfGray := 1;
  cfRGB := 2;
  cfYUV := 3;
  cmGray := 1000000;
  cmRGB := 2000000;
  cmYUV := 3000000;
  cmYCoCg := 4000000;
  cmCompat := 9000000;
  pfCompatBGR32 := 9000010;
  pfCompatYUY2 := 9000011;
  pcReadOnly := 1;
  NDEBUG := false
|}.

Module Example.

(** A pool after two blocks of 100 and 200 bytes have been allocated and
    freed again. *)
Definition pool0 : MemoryUse := MemoryUse_new (P := linux64) 0.

Definition os0 : OS := mkOS ∅ [].

Definition calls2 : list PoolCall :=
  [call_allocBuffer 100; call_allocBuffer 200; call_freeBuffer 64; call_freeBuffer 224].

Definition pool2 : MemoryUse := set_buffers pool0 [(100, 32); (200, 192)] 300.

Definition os2 : OS :=
  mkOS (<[32 := mkBlockHeader 100 false]> (<[192 := mkBlockHeader 200 false]> ∅))
    [CallAlignedMalloc 132 32 (Some 32); CallAlignedMalloc 232 32 (Some 192)].

(** A pool with a limit of 150 bytes and one freed block of 100 bytes;
    the block of 200 bytes at 192 is in use and about to be freed. *)
Definition calls3 : list PoolCall :=
  [call_setMaxMemoryUse 150; call_allocBuffer 100; call_allocBuffer 200; call_freeBuffer 64].

Definition pool3 : MemoryUse :=
  set_buffers (set_maxMemoryUse pool0 150) [(100, 32)] 100.

(** A gray 64x64 frame with one byte per sample, in a world of its own. *)
Definition gray8 : VSVideoFormat := mkVSVideoFormat 1 0 8 1 0 0 1.

Definition world0 : World := mkWorld pool0 os0 ∅.

Definition frame1 : VSFrameRef :=
  mkVSFrameRef 1 mtVideo [Some O; None; None] (format_vf gray8) 1 64 64 [64; 0; 0].

Definition world1 : World :=
  mkWorld (add (P := linux64) pool0 4096)
    (mkOS (<[32 := mkBlockHeader 4096 false]> ∅) [CallAlignedMalloc 4128 32 (Some 32)])
    (<[O := mkVSPlaneData 1 4096 64]> ∅).

(** [world1] after [frame1] has been copied: the plane has two owners. *)
Definition world1_shared : World :=
  mkWorld (memory world1) (os world1) (<[O := mkVSPlaneData 2 4096 64]> ∅).

(** An argument of the current generation that is an audio node. *)
Definition a_audio : FilterArgument := mkFilterArgument "a" ptAudioNode false false false.

(** A plugin of the current generation with one function, [f(x:int)]. *)
Definition pass_through : VSMap -> VSMap -> VSMap := fun _ out => out.

Definition f_x : VSPluginFunction :=
  mkVSPluginFunction "f" "x:int;" "" pass_through
    [mkFilterArgument "x" ptInt false false false] [].

Definition plugin1 : VSPlugin := mkVSPlugin false "com.example" (<["f" := f_x]> ∅) 4 false.

Definition plugin_ro : VSPlugin := mkVSPlugin true "com.example" ∅ 4 false.

Definition args_y : VSMap := mkVSMap [("x", TypedArray ptInt 1); ("y", TypedArray ptInt 1)] None.

Definition stereo16 : VSAudioInfo :=
  mkVSAudioInfo (mkVSAudioFormat 0 16 2 2 3) 44100 3073 0.

(** A function of the current generation with a video node and an
    optional array. *)
Definition f_clip : VSPluginFunction :=
  mkVSPluginFunction "g" "clip:vnode;planes:int[]:opt:empty;" "clip:vnode;" pass_through
    [mkFilterArgument "clip" ptVideoNode false false false;
     mkFilterArgument "planes" ptInt true true true]
    [mkFilterArgument "clip" ptVideoNode false false false].

(** A call of [f] with one integer [x]. *)
Definition args_x : VSMap := mkVSMap [("x", TypedArray ptInt 1)] None.

(** A plugin of the legacy generation, before and after it has registered
    the function [h(clip:clip;n:int:opt)]. *)
Definition plugin_v3 : VSPlugin := mkVSPlugin false "com.legacy" ∅ 3 false.

Definition f_h : VSPluginFunction :=
  mkVSPluginFunction "h" "clip:clip;n:int:opt;" "clip:clip;" pass_through
    [mkFilterArgument "clip" ptVideoNode false false false;
     mkFilterArgument "n" ptInt false false true]
    [mkFilterArgument "clip" ptVideoNode false false false].

Definition plugin_v3_h : VSPlugin :=
  mkVSPlugin false "com.legacy" (<["h" := f_h]> ∅) 3 false.

(** YUV 4:2:0 with 8 bits, and a core without legacy formats. *)
Definition yuv420p8 : VSVideoFormat := mkVSVideoFormat 3 0 8 1 1 1 3.

Definition table0 : FormatTable := mkFormatTable [] 1000.

Definition ctx0 : VSFrameContext := mkVSFrameContext false "".

Definition config0 : PluginConfig := mkPluginConfig false "" "" 0 "" 0 0 false.

Definition plugin_a : PluginEntry := mkPluginEntry "com.a" "a" "a.so" false.
Definition plugin_b : PluginEntry := mkPluginEntry "com.b" "b" "b.so" false.

(** A pool with the default limit and one freed block of 100 bytes; the
    block of 200 bytes at 192 is in use. *)
Definition pool1 : MemoryUse := set_buffers pool0 [(100, 32)] 100.

(** The world after a plane of 0 bytes has been made in [world0]. *)
Definition world_plane0 : World :=
  mkWorld pool0
    (mkOS (<[32 := mkBlockHeader 0 false]> ∅) [CallAlignedMalloc 32 32 (Some 32)])
    (<[O := mkVSPlaneData 1 0 64]> ∅).

(** A stereo frame of 3072 samples of 16 bits. *)
Definition stereo16_format : VSAudioFormat := mkVSAudioFormat 0 16 2 2 3.

Definition audio_frame1 : VSFrameRef :=
  mkVSFrameRef 1 mtAudio [Some O; None; None] (format_af stereo16_format) 2 3072 0
    [6144; 0; 0].

Definition world_audio1 : World :=
  mkWorld (add (P := linux64) pool0 12288)
    (mkOS (<[32 := mkBlockHeader 12288 false]> ∅) [CallAlignedMalloc 12320 32 (Some 32)])
    (<[O := mkVSPlaneData 1 12288 64]> ∅).

(** A filter and a function are made, the core is freed, the filter is
    destroyed. *)
Definition events1 : list CoreEvent :=
  [ev_created; ev_function_created; ev_freeCore 0; ev_destroyed].

End Example.

(* ===================================================================== *)
(** * Part II. Lemmas and theorems                                        *)
(* ===================================================================== *)

Section MemoryUseFacts.

Context {P : Platform}.

Lemma size_bits_pos : 0 < size_bits.
Proof. unfold size_bits; destruct arch; simpl; lia. Qed.

Lemma SIZE_MAX_ge : 2 ^ 32 - 1 <= SIZE_MAX.
Proof. unfold SIZE_MAX, size_bits; destruct arch; simpl; lia. Qed.

Lemma sz_small x : 0 <= x <= SIZE_MAX -> sz x = x.
Proof.
  unfold sz, wrapu, SIZE_MAX; intros H. apply Z.mod_small. lia.
Qed.

Lemma sz_range x : 0 <= sz x <= SIZE_MAX.
Proof.
  unfold sz, wrapu, SIZE_MAX.
  pose proof size_bits_pos.
  assert (0 < 2 ^ size_bits) by (apply Z.pow_pos_nonneg; lia).
  pose proof (Z.mod_pos_bound x (2 ^ size_bits)). lia.
Qed.

Lemma sz_add_l x y : sz (sz x + y) = sz (x + y).
Proof. unfold sz, wrapu. apply Zplus_mod_idemp_l. Qed.

Lemma sz_sub_l x y : sz (sz x - y) = sz (x - y).
Proof. unfold sz, wrapu. apply Zminus_mod_idemp_l. Qed.

(** *** The multimap *)

Lemma In_emplace l e e' : In e' (emplace l e) <-> e' = e \/ In e' l.
Proof.
  induction l as [|x l IH]; simpl; [intuition|].
  destruct (fst x <=? fst e); simpl; rewrite ?IH; intuition.
Qed.

Lemma length_emplace l e : length (emplace l e) = S (length l).
Proof.
  induction l as [|x l IH]; simpl; [reflexivity|].
  destruct (fst x <=? fst e); simpl; rewrite ?IH; reflexivity.
Qed.

Lemma sum_sizes_emplace l e : sum_sizes (emplace l e) = fst e + sum_sizes l.
Proof.
  induction l as [|x l IH]; simpl; [reflexivity|].
  destruct (fst x <=? fst e); simpl; rewrite ?IH; lia.
Qed.

Lemma In_snd_emplace l e p :
  In p (map snd (emplace l e)) <-> p = snd e \/ In p (map snd l).
Proof.
  rewrite !in_map_iff. split.
  - intros (x & <- & Hin). apply In_emplace in Hin as [->|Hin]; [left; reflexivity|].
    right. exists x. split; [reflexivity|exact Hin].
  - intros [->|(x & <- & Hin)].
    + exists e. split; [reflexivity|]. apply In_emplace. left; reflexivity.
    + exists x. split; [reflexivity|]. apply In_emplace. right; exact Hin.
Qed.

Lemma NoDup_emplace l e :
  List.NoDup (map snd l) -> ~ In (snd e) (map snd l) -> List.NoDup (map snd (emplace l e)).
Proof.
  induction l as [|x l IH]; simpl; intros Hnd Hnot.
  - constructor; [intros H; exact H|constructor].
  - destruct (fst x <=? fst e); simpl.
    + inversion Hnd; subst. constructor.
      * rewrite In_snd_emplace. intros [Heq|Hin]; [apply Hnot; left; exact Heq|contradiction].
      * apply IH; [assumption|]. intros Hin. apply Hnot. right; exact Hin.
    + constructor; [exact Hnot|exact Hnd].
Qed.

Lemma key_sorted_emplace l e : key_sorted l -> key_sorted (emplace l e).
Proof.
  induction 1 as [|x l Hle Hs IH]; simpl.
  - constructor; [intros ? H; destruct H|constructor].
  - destruct (fst x <=? fst e) eqn:E.
    + constructor; [|exact IH].
      intros e' Hin. apply In_emplace in Hin as [->|Hin]; [lia|apply Hle; exact Hin].
    + constructor; [|constructor; assumption].
      intros e' [<-|Hin]; [lia|]. specialize (Hle _ Hin). lia.
Qed.

Lemma In_erase l i e : In e (erase l i) -> In e l.
Proof.
  revert i. induction l as [|x l IH]; intros i; simpl; [intros []|].
  destruct i as [|i]; simpl; [intros H; right; exact H|].
  intros [<-|H]; [left; reflexivity|right; apply (IH _ H)].
Qed.

Lemma key_sorted_erase l i : key_sorted l -> key_sorted (erase l i).
Proof.
  intros Hs. revert i. induction Hs as [|x l Hle Hs IH]; intros i; simpl.
  - destruct i; constructor.
  - destruct i as [|i]; [exact Hs|]. constructor; [|apply IH].
    intros e' Hin. apply Hle. apply (In_erase _ _ _ Hin).
Qed.

Lemma length_erase (l : multimap) i :
  (i < length l)%nat -> length (erase l i) = pred (length l).
Proof.
  revert i. induction l as [|x l IH]; intros i; simpl; [lia|].
  destruct i as [|i]; simpl; [reflexivity|]. intros H.
  rewrite IH by lia. destruct l; simpl in *; lia.
Qed.

(** *** Large pages *)

Lemma setMaxMemoryUse_largePage m bytes :
  largePageEnabled (snd (setMaxMemoryUse m bytes)) = largePageEnabled m.
Proof. unfold setMaxMemoryUse; simpl. destruct (_ && _); reflexivity. Qed.

Lemma MemoryUse_new_largePage garbage :
  largePageEnabled (MemoryUse_new garbage) = false.
Proof.
  unfold MemoryUse_new. destruct (8 <=? size_bits / 8);
    rewrite ?setMaxMemoryUse_largePage; reflexivity.
Qed.

Lemma evict_body_largePage m os m' os' :
  evict_body m os = Ok (m', os') ->
  largePageEnabled m' = largePageEnabled m.
Proof.
  unfold evict_body.
  destruct (nth_error _ _) as [[first second]|]; [|discriminate].
  destruct (freeMemory os second) as [os1| | |]; simpl; try discriminate.
  intros [= <- <-]. simpl. destruct (memoryWarningIssued m); reflexivity.
Qed.

Lemma evict_largePage fuel memoryUsed m os m' os' :
  evict fuel memoryUsed m os = Ok (m', os') ->
  largePageEnabled m' = largePageEnabled m.
Proof.
  revert m os. induction fuel as [|fuel IH]; intros m os; simpl.
  - destruct (evict_condition _ _); [discriminate|]. intros [= <- <-]; reflexivity.
  - destruct (evict_condition _ _); [|intros [= <- <-]; reflexivity].
    destruct (evict_body m os) as [[m1 os1]| | |] eqn:Hb; simpl; try discriminate.
    intros H. apply IH in H. rewrite H. apply (evict_body_largePage _ _ _ _ Hb).
Qed.

Lemma destroy_largePage m os m' os' :
  destroy m os = Ok (m', os') -> largePageEnabled m' = largePageEnabled m.
Proof.
  unfold destroy. destruct (free_all os (buffers m)); simpl; try discriminate.
  intros [= <- <-]; reflexivity.
Qed.

Lemma pool_step_largePage s s' :
  pool_step s s' -> largePageEnabled (fst s') = largePageEnabled (fst s).
Proof.
  destruct 1 as [m os bytes p m' os' H|m os buf m' os' H|m os bytes
                |m os bytes m' os' H|m os bytes|m os m' os' H]; simpl.
  - unfold allocBuffer in H.
    destruct (lower_bound (buffers m) bytes) as [[i [first second]]|].
    + destruct (isGoodFit bytes first).
      * injection H as <- <- <-; reflexivity.
      * destruct (allocateMemory m os bytes) as [[buf os1]| | |]; simpl in H;
          try discriminate. injection H as <- <- <-; reflexivity.
    + destruct (allocateMemory m os bytes) as [[buf os1]| | |]; simpl in H;
        try discriminate. injection H as <- <- <-; reflexivity.
  - unfold freeBuffer in H.
    destruct (blocks os !! (buf - alignment)) as [header|]; [|discriminate].
    destruct (size header =? 0); [discriminate|].
    apply evict_largePage in H. exact H.
  - reflexivity.
  - unfold subtract in H. destruct (_ && _).
    + apply destroy_largePage in H. exact H.
    + injection H as <- <-; reflexivity.
  - apply setMaxMemoryUse_largePage.
  - unfold signalFree in H. destruct (_ =? 0).
    + apply destroy_largePage in H. exact H.
    + injection H as <- <-; reflexivity.
Qed.

Lemma constructed_largePage s :
  constructed s -> largePageEnabled (fst s) = false.
Proof.
  induction 1 as [garbage os|s s' _ IH Hstep]; simpl.
  - apply MemoryUse_new_largePage.
  - rewrite (pool_step_largePage _ _ Hstep). exact IH.
Qed.

Lemma allocateLargePage_disabled m os bytes :
  largePageEnabled m = false -> allocateLargePage m os bytes = (None, os).
Proof. unfold allocateLargePage. intros ->. reflexivity. Qed.

Lemma allocateMemory_disabled m os bytes p os' :
  largePageEnabled m = false ->
  allocateMemory m os bytes = Ok (p, os') ->
  vsh_aligned_malloc (blocks os) (sz (alignment + bytes)) alignment = Some p /\
  blocks os' = <[p := mkBlockHeader bytes false]> (blocks os).
Proof.
  intros Hoff. unfold allocateMemory. rewrite (allocateLargePage_disabled _ _ _ Hoff).
  unfold os_malloc.
  destruct (vsh_aligned_malloc _ _ _) as [q|]; [|discriminate].
  intros [= <- <-]. split; reflexivity.
Qed.

(** C9. In every state of a constructed pool the large-page flag is off:
    [allocateLargePage] answers with a null pointer and leaves the
    operating system alone, every block that [allocateMemory] returns
    carries the header [{bytes, false}], and [freeMemory] gives such a
    block back through [vsh_aligned_free]. *)
Theorem large_pages_disabled (m : MemoryUse) (os : OS) :
  constructed (m, os) ->
  largePageEnabled m = false /\
  (forall os1 bytes, allocateLargePage m os1 bytes = (None, os1)) /\
  (forall os1 bytes p os2,
      allocateMemory m os1 bytes = Ok (p, os2) ->
      blocks os2 !! p = Some (mkBlockHeader bytes false) /\
      freeMemory os2 p = Ok (vsh_aligned_free os2 p)).
Proof.
  intros Hc. pose proof (constructed_largePage _ Hc) as Hoff. simpl in Hoff.
  split; [exact Hoff|]. split.
  - intros os1 bytes. apply allocateLargePage_disabled, Hoff.
  - intros os1 bytes p os2 Halloc.
    destruct (allocateMemory_disabled _ _ _ _ _ Hoff Halloc) as [_ Hblocks].
    assert (Hhdr : blocks os2 !! p = Some (mkBlockHeader bytes false))
      by (rewrite Hblocks; apply lookup_insert_eq).
    split; [exact Hhdr|]. unfold freeMemory. rewrite Hhdr. reflexivity.
Qed.

(** *** The limit *)

Lemma setMaxMemoryUse_accepted m bytes :
  is_int64 bytes -> accepted_limit bytes ->
  getLimit (snd (setMaxMemoryUse m bytes)) = bytes.
Proof.
  intros Hint [Hpos Hmax]. unfold setMaxMemoryUse, getLimit; simpl.
  assert (Hw : wrapu 64 bytes = bytes).
  { unfold wrapu. apply Z.mod_small. unfold is_int64, INT64_MAX in Hint. lia. }
  rewrite Hw.
  destruct (0 <? bytes) eqn:E1; [|lia].
  destruct (bytes <=? SIZE_MAX) eqn:E2; [|lia].
  simpl. apply sz_small. lia.
Qed.

Lemma setMaxMemoryUse_ignored m bytes :
  is_int64 bytes -> ~ accepted_limit bytes ->
  snd (setMaxMemoryUse m bytes) = m.
Proof.
  intros Hint Hno. unfold setMaxMemoryUse; simpl.
  destruct (0 <? bytes) eqn:E1; [|reflexivity].
  assert (Hw : wrapu 64 bytes = bytes).
  { unfold wrapu. apply Z.mod_small. unfold is_int64, INT64_MAX in Hint. lia. }
  rewrite Hw.
  destruct (bytes <=? SIZE_MAX) eqn:E2; [|reflexivity].
  exfalso. apply Hno. unfold accepted_limit. lia.
Qed.

Lemma setLimits_app m l1 l2 :
  setLimits m (l1 ++ l2) = setLimits (setLimits m l1) l2.
Proof. revert m. induction l1 as [|v l1 IH]; intros m; simpl; [reflexivity|apply IH]. Qed.

Lemma setLimits_ignored m l :
  Forall is_int64 l -> Forall (fun v => ~ accepted_limit v) l ->
  setLimits m l = m.
Proof.
  revert m. induction l as [|v l IH]; intros m Hint Hno; cbn [setLimits]; [reflexivity|].
  inversion Hint; inversion Hno; subst.
  rewrite setMaxMemoryUse_ignored by assumption. apply IH; assumption.
Qed.

(** C7, as the code has it. After a run of [setMaxMemoryUse] calls
    [getLimit] is the last value of the run that was positive and not
    above [SIZE_MAX]; the other values leave the limit as it was, so a run
    without such a value leaves the limit of the pool unchanged. *)
Theorem getLimit_last_accepted (m : MemoryUse) (l : list Z) :
  Forall is_int64 l ->
  (forall l1 v l2,
      l = l1 ++ v :: l2 -> accepted_limit v ->
      Forall (fun v' => ~ accepted_limit v') l2 ->
      getLimit (setLimits m l) = v) /\
  (Forall (fun v => ~ accepted_limit v) l ->
   getLimit (setLimits m l) = getLimit m).
Proof.
  intros Hint. split.
  - intros l1 v l2 -> Hacc Hrest.
    apply Forall_app in Hint as [_ Hint2]. inversion Hint2; subst.
    rewrite setLimits_app. cbn [setLimits].
    rewrite setLimits_ignored by assumption.
    apply setMaxMemoryUse_accepted; assumption.
  - intros Hno. rewrite setLimits_ignored by assumption. reflexivity.
Qed.

(** *** Reuse of freed blocks *)

Lemma lower_bound_Some l k i e :
  key_sorted l -> lower_bound l k = Some (i, e) ->
  nth_error l i = Some e /\ smallest_fit l k e.
Proof.
  intros Hs. revert i. induction Hs as [|[key v] l Hle Hs IH]; intros i; simpl.
  - discriminate.
  - destruct (k <=? key) eqn:E.
    + intros [= <- <-]. split; [reflexivity|].
      repeat split; [left; reflexivity|simpl; lia|].
      intros e' [<-|Hin] _; [lia|]. apply (Hle _ Hin).
    + destruct (lower_bound l k) as [[j e0]|] eqn:Hlb; [|discriminate].
      intros [= <- <-]. destruct (IH _ eq_refl) as [Hnth (Hin & Hge & Hmin)].
      split; [exact Hnth|].
      repeat split; [right; exact Hin|exact Hge|].
      intros e' [<-|Hin'] Hk; [simpl in Hk; lia|]. apply Hmin; assumption.
Qed.

Lemma lower_bound_None l k e :
  lower_bound l k = None -> In e l -> fst e < k.
Proof.
  induction l as [|[key v] l IH]; simpl; [intros _ []|].
  destruct (k <=? key) eqn:E; [discriminate|].
  destruct (lower_bound l k) as [[j e0]|]; [discriminate|].
  intros _ [<-|Hin]; [simpl; lia|]. apply IH; [reflexivity|exact Hin].
Qed.

Lemma isGoodFit_spec requested actual :
  0 <= requested -> requested + requested / 8 <= SIZE_MAX ->
  isGoodFit requested actual = true <-> good_fit requested actual.
Proof.
  intros H0 Hmax. unfold isGoodFit, good_fit.
  assert (0 <= requested / 8) by (apply Z.div_pos; lia).
  rewrite sz_small by lia. apply Z.leb_le.
Qed.


Lemma fresh_block_spec m os bytes :
  largePageEnabled m = false ->
  let r := '(buf, os1) ← allocateMemory m os bytes; Ok (buf + alignment, m, os1) in
  r = Fatal "out of memory" \/ allocates_fresh m os bytes r.
Proof.
  intros Hoff r. subst r. unfold allocateMemory.
  rewrite (allocateLargePage_disabled _ _ _ Hoff). unfold os_malloc.
  destruct (vsh_aligned_malloc _ _ _) as [p|] eqn:Hm; simpl; [right|left; reflexivity].
  exists p, (write_header
               (mkOS (blocks os)
                  (calls os ++ [CallAlignedMalloc (sz (alignment + bytes)) alignment (Some p)]))
               p (mkBlockHeader bytes false)).
  repeat split. exact Hm.
Qed.

(** The map of a constructed pool is in key order. *)
Lemma evict_body_sorted m os m' os' :
  evict_body m os = Ok (m', os') -> key_sorted (buffers m) -> key_sorted (buffers m').
Proof.
  unfold evict_body.
  destruct (nth_error _ _) as [[first second]|]; [|discriminate].
  destruct (freeMemory os second) as [os1| | |]; simpl; try discriminate.
  intros [= <- <-]. cbn [buffers set_buffers set_generator].
  destruct (memoryWarningIssued m); apply key_sorted_erase.
Qed.

Lemma evict_sorted fuel memoryUsed m os m' os' :
  evict fuel memoryUsed m os = Ok (m', os') ->
  key_sorted (buffers m) -> key_sorted (buffers m').
Proof.
  revert m os. induction fuel as [|fuel IH]; intros m os; simpl.
  - destruct (evict_condition _ _); [discriminate|]. intros [= <- <-]; auto.
  - destruct (evict_condition _ _); [|intros [= <- <-]; auto].
    destruct (evict_body m os) as [[m1 os1]| | |] eqn:Hb; simpl; try discriminate.
    intros H Hs. apply (IH _ _ H). apply (evict_body_sorted _ _ _ _ Hb Hs).
Qed.








(** *** Eviction *)

Lemma sum_sizes_erase l i first second :
  nth_error l i = Some (first, second) ->
  sum_sizes (erase l i) = sum_sizes l - first.
Proof.
  revert i. induction l as [|x l IH]; intros i; simpl.
  - destruct i; discriminate.
  - destruct i as [|i]; simpl.
    + intros [= ->]. simpl. lia.
    + intros H. rewrite (IH _ H). lia.
Qed.

Lemma NoDup_erase l i first second :
  List.NoDup (map snd l) -> nth_error l i = Some (first, second) ->
  List.NoDup (map snd (erase l i)) /\ ~ In second (map snd (erase l i)).
Proof.
  revert i. induction l as [|x l IH]; intros i Hnd; simpl.
  - destruct i; discriminate.
  - inversion Hnd as [|? ? Hnot Hnd']; subst. destruct i as [|i]; simpl.
    + intros [= ->]. simpl in Hnot. split; assumption.
    + intros H. destruct (IH _ Hnd' H) as [Hnd'' Hnot'']. split.
      * constructor; [|exact Hnd''].
        intros Hin. apply Hnot. apply in_map_iff in Hin as (y & Hy & Hin).
        apply in_map_iff. exists y. split; [exact Hy|apply (In_erase _ _ _ Hin)].
      * intros [Heq|Hin]; [|contradiction].
        apply Hnot. rewrite Heq. apply nth_error_In in H.
        apply in_map_iff. exists (first, second). split; [reflexivity|exact H].
Qed.

Lemma sum_sizes_nonneg l : (forall e, In e l -> 0 < fst e) -> 0 <= sum_sizes l.
Proof.
  induction l as [|x l IH]; simpl; intros H; [lia|].
  pose proof (H x (or_introl eq_refl)).
  assert (0 <= sum_sizes l) by (apply IH; intros; apply H; right; assumption). lia.
Qed.

Lemma freeMemory_blocks os ptr h :
  blocks os !! ptr = Some h ->
  exists os', freeMemory os ptr = Ok os' /\ blocks os' = delete ptr (blocks os).
Proof.
  intros Hh. unfold freeMemory. rewrite Hh.
  destruct (large h); [unfold freeLargePage; destruct VS_TARGET_OS_WINDOWS|];
    eexists; split; reflexivity.
Qed.

Lemma evict_body_spec m os :
  pool_consistent m os -> buffers m <> [] ->
  sum_sizes (buffers m) <= SIZE_MAX ->
  exists k first second m' os',
    nth_error (buffers m) k = Some (first, second) /\
    evict_body m os = Ok (m', os') /\
    buffers m' = erase (buffers m) k /\
    unusedBufferSize m' = unusedBufferSize m - first /\
    blocks os' = delete second (blocks os) /\
    used m' = used m /\ maxMemoryUse m' = maxMemoryUse m /\
    pool_consistent m' os'.
Proof.
  intros (Hunused & Hnd & Hblocks) Hne Hfit. unfold evict_body.
  set (m1 := if memoryWarningIssued m then m else set_memoryWarningIssued m true).
  assert (Hm1 : buffers m1 = buffers m /\ unusedBufferSize m1 = unusedBufferSize m /\
                maxMemoryUse m1 = maxMemoryUse m /\ used m1 = used m)
    by (subst m1; destruct (memoryWarningIssued m); repeat split).
  destruct Hm1 as (Hb1 & Hu1 & Hmax1 & Hused1).
  cbn [buffers set_generator unusedBufferSize]. rewrite Hb1, Hu1.
  set (k := (rand_raw (generator m1) mod length (buffers m))%nat).
  assert (Hk : (k < length (buffers m))%nat).
  { subst k. apply Nat.mod_upper_bound. destruct (buffers m); [congruence|simpl; lia]. }
  destruct (nth_error (buffers m) k) as [[first second]|] eqn:Hnth;
    [|apply nth_error_None in Hnth; lia].
  assert (Hin : In (first, second) (buffers m)) by (apply nth_error_In in Hnth; exact Hnth).
  destruct (Hblocks _ Hin) as [Hpos (h & Hh & Hsize)]. simpl in Hh, Hpos.
  destruct (freeMemory_blocks _ _ _ Hh) as (os1 & Hfree & Hos1).
  rewrite Hfree. cbn [mbind Outcome_bind obind].
  pose proof (sum_sizes_erase _ _ _ _ Hnth) as Hsum'.
  destruct (NoDup_erase _ _ _ _ Hnd Hnth) as [Hnd' Hnotin].
  assert (Hge : 0 <= sum_sizes (erase (buffers m) k)).
  { apply sum_sizes_nonneg. intros e He. apply Hblocks, (In_erase _ _ _ He). }
  assert (Hsz : sz (unusedBufferSize m - first) = unusedBufferSize m - first)
    by (apply sz_small; lia).
  exists k, first, second. eexists. exists os1.
  split; [exact Hnth|]. split; [reflexivity|]. cbn [buffers unusedBufferSize set_buffers].
  split; [reflexivity|]. split; [exact Hsz|]. split; [exact Hos1|].
  split; [exact Hused1|]. split; [exact Hmax1|].
  unfold pool_consistent. cbn [buffers unusedBufferSize set_buffers].
  split; [rewrite Hsz; lia|]. split; [exact Hnd'|].
  intros e He. pose proof (In_erase _ _ _ He) as He'.
  destruct (Hblocks _ He') as [Hp (h' & Hh' & Hs')]. split; [exact Hp|].
  exists h'. split; [|exact Hs']. rewrite Hos1, lookup_delete_ne; [exact Hh'|].
  intros ->. apply Hnotin. apply in_map_iff. exists e. split; [reflexivity|exact He].
Qed.

Lemma evict_condition_spec memoryUsed m os :
  pool_consistent m os ->
  0 <= memoryUsed -> memoryUsed + sum_sizes (buffers m) <= SIZE_MAX ->
  evict_condition memoryUsed m = true <->
  over_limit memoryUsed (maxMemoryUse m) (buffers m, unusedBufferSize m, blocks os).
Proof.
  intros (Hunused & _ & Hblocks) Hused Hfit.
  assert (Hsum : 0 <= sum_sizes (buffers m)).
  { apply sum_sizes_nonneg. intros e He. apply Hblocks, He. }
  unfold evict_condition, over_limit. cbn [fst snd].
  rewrite sz_small by lia. rewrite andb_true_iff, Z.ltb_lt.
  destruct (buffers m); simpl; intuition congruence.
Qed.

Lemma evict_spec fuel memoryUsed m os :
  pool_consistent m os ->
  0 <= memoryUsed -> memoryUsed + sum_sizes (buffers m) <= SIZE_MAX ->
  (length (buffers m) <= fuel)%nat ->
  exists m' os',
    evict fuel memoryUsed m os = Ok (m', os') /\
    evict_run memoryUsed (maxMemoryUse m)
      (buffers m, unusedBufferSize m, blocks os)
      (buffers m', unusedBufferSize m', blocks os') /\
    (buffers m' = [] \/ memoryUsed + unusedBufferSize m' <= maxMemoryUse m') /\
    used m' = used m /\ maxMemoryUse m' = maxMemoryUse m /\
    pool_consistent m' os'.
Proof.
  revert m os. induction fuel as [|fuel IH]; intros m os Hc Hused Hfit Hfuel;
    pose proof (evict_condition_spec memoryUsed m os Hc Hused Hfit) as Hcond;
    cbn [evict]; destruct (evict_condition memoryUsed m) eqn:Hg.
  - destruct Hcond as [Hcond _]. destruct (Hcond eq_refl) as [_ Hne]. cbn in Hne.
    destruct (buffers m); [congruence|simpl in Hfuel; lia].
  - exists m, os. split; [reflexivity|]. split.
    + apply evict_run_done. intros Hov. apply Hcond in Hov. discriminate.
    + split; [|auto]. unfold over_limit in Hcond. cbn [fst snd] in Hcond.
      destruct (buffers m) eqn:Hb; [left; reflexivity|right].
      destruct (Z.le_gt_cases (memoryUsed + unusedBufferSize m) (maxMemoryUse m)) as [|Hlt];
        [assumption|].
      assert (false = true) by (apply Hcond; split; [lia|discriminate]). discriminate.
  - destruct Hcond as [Hcond _]. specialize (Hcond eq_refl).
    pose proof Hcond as [_ Hne]. cbn in Hne.
    assert (Hfit0 : sum_sizes (buffers m) <= SIZE_MAX) by lia.
    destruct (evict_body_spec m os Hc Hne Hfit0)
      as (k & first & second & m1 & os1 & Hnth & Hbody & Hb1 & Hu1 & Hos1 & Hused1 & Hmax1 & Hc1).
    rewrite Hbody. cbn [mbind Outcome_bind obind].
    assert (Hk : (k < length (buffers m))%nat)
      by (apply nth_error_Some; rewrite Hnth; discriminate).
    destruct (IH m1 os1 Hc1 Hused) as (m' & os' & Hev & Hrun & Hpost & Hu' & Hm' & Hc').
    { rewrite Hb1, (sum_sizes_erase _ _ _ _ Hnth).
      destruct Hc as (_ & _ & Hblocks).
      destruct (Hblocks _ (nth_error_In _ _ Hnth)) as [Hpos _]. simpl in Hpos. lia. }
    { rewrite Hb1, length_erase by exact Hk. lia. }
    exists m', os'. split; [exact Hev|]. split.
    + eapply evict_run_step.
      * apply (evict_one _ _ _ _ _ k first second Hcond Hnth).
      * rewrite <- Hb1, <- Hu1, <- Hos1, <- Hmax1. exact Hrun.
    + split; [exact Hpost|]. split; [congruence|]. split; [congruence|exact Hc'].
  - exists m, os. split; [reflexivity|]. split.
    + apply evict_run_done. intros Hov. apply Hcond in Hov. discriminate.
    + split; [|auto]. unfold over_limit in Hcond. cbn [fst snd] in Hcond.
      destruct (buffers m) eqn:Hb; [left; reflexivity|right].
      destruct (Z.le_gt_cases (memoryUsed + unusedBufferSize m) (maxMemoryUse m)) as [|Hlt];
        [assumption|].
      assert (false = true) by (apply Hcond; split; [lia|discriminate]). discriminate.
Qed.


End MemoryUseFacts.

Section AudioFacts.

Context {P : Platform}.

(** *** Audio formats *)

Lemma isValidAudioFormat_spec st bits cl :
  isValidAudioFormat st bits cl = true <-> audio_format_ok st bits cl.
Proof.
  unfold isValidAudioFormat, audio_format_ok.
  destruct (Z.eqb_spec st stInteger) as [Hi|Hi];
    destruct (Z.eqb_spec st stFloat) as [Hf|Hf];
    destruct (Z.ltb_spec bits 16); destruct (Z.ltb_spec 32 bits);
    destruct (Z.eqb_spec bits 32); destruct (Z.eqb_spec cl 0); simpl;
    split; try discriminate; try lia; intuition (try lia; try congruence).
Qed.

Lemma bytesPerSample_loop_unfold fuel b bits :
  bytesPerSample_loop (S fuel) b bits =
  if b * 8 <? bits then bytesPerSample_loop fuel (Z.shiftl b 1) bits else Ok b.
Proof. reflexivity. Qed.

Lemma bytesPerSample_loop_audio bits :
  16 <= bits <= 32 ->
  bytesPerSample_loop 32 1 bits = Ok (if bits <=? 16 then 2 else 4).
Proof.
  intros H. rewrite !bytesPerSample_loop_unfold.
  change (Z.shiftl 1 1) with 2. change (Z.shiftl 2 1) with 4.
  destruct (Z.ltb_spec (1 * 8) bits); [|lia].
  destruct (Z.ltb_spec (2 * 8) bits); destruct (Z.leb_spec bits 16); try lia;
    [|reflexivity].
  destruct (Z.ltb_spec (4 * 8) bits); [lia|reflexivity].
Qed.

Lemma pow2_ge k j : 0 <= j <= k -> 2 ^ j <= 2 ^ k.
Proof. intros H. apply Z.pow_le_mono_r; lia. Qed.

Lemma smallest_pow2_bytes_audio bits :
  16 <= bits <= 32 -> smallest_pow2_bytes (if bits <=? 16 then 2 else 4) bits.
Proof.
  intros H. destruct (Z.leb_spec bits 16).
  - split; [exists 1; split; [lia|reflexivity]|]. split; [lia|].
    intros k Hk Hb. destruct (Z.eq_dec k 0) as [->|]; [simpl in Hb; lia|].
    change 2 with (2 ^ 1) at 1. apply pow2_ge. lia.
  - split; [exists 2; split; [lia|reflexivity]|]. split; [lia|].
    intros k Hk Hb. destruct (Z.eq_dec k 0) as [->|]; [simpl in Hb; lia|].
    destruct (Z.eq_dec k 1) as [->|]; [simpl in Hb; lia|].
    change 4 with (2 ^ 2) at 1. apply pow2_ge. lia.
Qed.

(** *** Counting bits *)

Lemma filter_seq_shift (f : nat -> bool) a n :
  length (filter f (seq (S a) n)) = length (filter (fun i => f (S i)) (seq a n)).
Proof.
  revert a. induction n as [|n IH]; intros a; simpl; [reflexivity|].
  rewrite !filter_cons.
  destruct (decide (f (S a))) as [Hd|Hd]; simpl; rewrite IH; reflexivity.
Qed.

Lemma count_upto_S f n :
  count_upto f (S n) =
  ((if f O then 1 else 0) + count_upto (fun i => f (S i)) n)%nat.
Proof.
  unfold count_upto. simpl. rewrite filter_cons.
  destruct (f O) eqn:E; simpl.
  - destruct (decide (true)) as [_|Hd]; [|exfalso; apply Hd; exact I].
    simpl. rewrite filter_seq_shift. reflexivity.
  - destruct (decide (false)) as [Hd|_]; [destruct Hd|].
    rewrite filter_seq_shift. reflexivity.
Qed.

Lemma count_upto_false f n : (forall i, f i = false) -> count_upto f n = O.
Proof.
  revert f. induction n as [|n IH]; intros f Hf; [reflexivity|].
  rewrite count_upto_S, Hf, IH; [reflexivity|]. intros i; apply Hf.
Qed.

Lemma count_upto_ext f g n : (forall i, f i = g i) -> count_upto f n = count_upto g n.
Proof.
  revert f g. induction n as [|n IH]; intros f g H; [reflexivity|].
  rewrite !count_upto_S, H. f_equal. apply IH. intros i; apply H.
Qed.

Lemma count_upto_le f n : (count_upto f n <= n)%nat.
Proof.
  revert f. induction n as [|n IH]; intros f; [unfold count_upto; simpl; lia|].
  rewrite count_upto_S. specialize (IH (fun i => f (S i))). destruct (f O); lia.
Qed.

Lemma count_bits_pos p n :
  Zpos p < 2 ^ Z.of_nat n ->
  count_upto (fun i => Z.testbit (Zpos p) (Z.of_nat i)) n = Pos_popcount p.
Proof.
  revert n. induction p as [p IH|p IH|]; intros n Hlt.
  - destruct n as [|n]; [simpl in Hlt; lia|].
    rewrite count_upto_S. change (Z.testbit (Z.pos p~1) (Z.of_nat 0)) with true.
    simpl Pos_popcount. f_equal. rewrite <- (IH n).
    + apply count_upto_ext. intros i.
      rewrite Nat2Z.inj_succ, Pos2Z.inj_xI. apply Z.testbit_odd_succ. lia.
    + rewrite Nat2Z.inj_succ, Z.pow_succ_r in Hlt by lia. lia.
  - destruct n as [|n]; [simpl in Hlt; lia|].
    rewrite count_upto_S. change (Z.testbit (Z.pos p~0) (Z.of_nat 0)) with false.
    simpl Pos_popcount. rewrite <- (IH n).
    + apply count_upto_ext. intros i.
      rewrite Nat2Z.inj_succ, Pos2Z.inj_xO. apply Z.testbit_even_succ. lia.
    + rewrite Nat2Z.inj_succ, Z.pow_succ_r in Hlt by lia. lia.
  - destruct n as [|n]; [simpl in Hlt; lia|].
    rewrite count_upto_S. change (Z.testbit 1 (Z.of_nat 0)) with true.
    rewrite count_upto_false; [reflexivity|].
    intros i. rewrite Nat2Z.inj_succ. change 1 with (2 * 0 + 1).
    rewrite Z.testbit_odd_succ by lia. apply Z.testbit_0_l.
Qed.

Lemma bitset_count_popcount v :
  0 <= v < 2 ^ 64 -> bitset_count 64 v = popcount v.
Proof.
  intros [H0 H1]. unfold bitset_count.
  destruct v as [|p|p]; [| |lia].
  - rewrite count_upto_false; [reflexivity|]. intros i. apply Z.testbit_0_l.
  - simpl popcount. f_equal. apply count_bits_pos. exact H1.
Qed.

Lemma bitset_count_range N v : 0 <= bitset_count N v <= Z.of_nat N.
Proof.
  unfold bitset_count.
  pose proof (count_upto_le (fun i => Z.testbit v (Z.of_nat i)) N) as H. lia.
Qed.

Lemma wraps_small bits x :
  0 < bits -> - 2 ^ (bits - 1) <= x < 2 ^ (bits - 1) -> wraps bits x = x.
Proof.
  intros Hb Hx. unfold wraps.
  assert (H2 : 2 ^ bits = 2 * 2 ^ (bits - 1)).
  { rewrite <- Z.pow_succ_r by lia. f_equal. lia. }
  rewrite Z.mod_small by lia. lia.
Qed.

Lemma wrapu_small bits x : 0 <= x < 2 ^ bits -> wrapu bits x = x.
Proof. intros H. unfold wrapu. apply Z.mod_small. exact H. Qed.

(** C10. [queryAudioFormat] answers [true] exactly when the sample type is
    integer or float, [16 <= bitsPerSample <= 32], a float format has 32
    bits, and the channel layout is not zero; it then stores the number of
    set bits of the layout in [numChannels] and the smallest power of two
    [p] with [8 * p >= bitsPerSample] in [bytesPerSample]. In every other
    case it answers [false] and leaves the format alone. *)
Theorem queryAudioFormat_spec (f : VSAudioFormat) (st bits cl : Z) :
  0 <= cl < 2 ^ 64 ->
  (audio_format_ok st bits cl ->
   exists f',
     queryAudioFormat f st bits cl = Ok (true, f') /\
     numChannels f' = popcount cl /\
     smallest_pow2_bytes (bytesPerSample f') bits /\
     sampleType f' = st /\ bitsPerSample f' = bits /\ channelLayout f' = cl) /\
  (~ audio_format_ok st bits cl ->
   queryAudioFormat f st bits cl = Ok (false, f)).
Proof.
  intros Hcl. unfold queryAudioFormat. split.
  - intros Hok. pose proof Hok as (_ & Hbits & _ & _).
    apply isValidAudioFormat_spec in Hok. rewrite Hok. cbn [negb].
    rewrite (bytesPerSample_loop_audio bits Hbits). cbn [mbind Outcome_bind obind].
    eexists. split; [reflexivity|]. cbn [numChannels bytesPerSample sampleType
      bitsPerSample channelLayout].
    split; [|split; [apply smallest_pow2_bytes_audio; exact Hbits|auto]].
    rewrite wrapu_small by exact Hcl.
    rewrite wraps_small; [apply bitset_count_popcount; exact Hcl|lia|].
    pose proof (bitset_count_range 64 cl). simpl in *. lia.
  - intros Hno. destruct (isValidAudioFormat st bits cl) eqn:E; [|reflexivity].
    exfalso. apply Hno. apply isValidAudioFormat_spec. exact E.
Qed.

(** *** Audio nodes *)

Lemma maxSamples_value :
  wraps 64 (INT_MAX * wraps 64 VS_AUDIO_FRAME_SAMPLES) = INT_MAX * 3072.
Proof. reflexivity. Qed.

Lemma audio_numFrames n :
  1 <= n <= INT_MAX * 3072 ->
  wraps 32 (Z.quot (wraps 64 (wraps 64 (n + VS_AUDIO_FRAME_SAMPLES) - 1))
              VS_AUDIO_FRAME_SAMPLES)
  = (n + 3071) / 3072 /\
  is_ceiling ((n + 3071) / 3072) n 3072.
Proof.
  intros Hn. unfold VS_AUDIO_FRAME_SAMPLES, INT_MAX in *.
  rewrite (wraps_small 64 (n + 3072)) by lia.
  rewrite (wraps_small 64 (n + 3072 - 1)) by lia.
  rewrite Z.quot_div_nonneg by lia.
  replace (n + 3072 - 1) with (n + 3071) by lia.
  pose proof (Z.div_mod (n + 3071) 3072 ltac:(lia)) as Hdm.
  pose proof (Z.mod_pos_bound (n + 3071) 3072 ltac:(lia)) as Hmod.
  split.
  - apply wraps_small; [lia|]. simpl. lia.
  - unfold is_ceiling. lia.
Qed.

Lemma audio_outputs_ok name ai n acc out :
  audio_outputs name ai n acc = Ok (inr out) ->
  exists outs, out = acc ++ outs /\ Forall2 audio_output_ok (firstn n ai) outs.
Proof.
  revert ai acc. induction n as [|n IH]; intros ai acc; simpl.
  - intros [= <-]. exists []. split; [rewrite app_nil_r; reflexivity|constructor].
  - destruct ai as [|info rest]; [discriminate|].
    destruct (isValidAudioInfo info) eqn:Hvalid; [|discriminate]. cbn [negb].
    rewrite maxSamples_value.
    destruct (Z.ltb_spec (INT_MAX * 3072) (numSamples info)) as [|Hle]; [discriminate|].
    intros H. apply IH in H as (outs & -> & Hall).
    assert (H1 : 1 <= numSamples info).
    { unfold isValidAudioInfo in Hvalid. destruct (negb _); [discriminate|].
      destruct (Z.ltb_spec (numSamples info) 1); [discriminate|]. lia. }
    destruct (audio_numFrames (numSamples info) (conj H1 Hle)) as [Hq Hceil].
    eexists (_ :: outs). split; [rewrite <- app_assoc; reflexivity|].
    constructor; [|exact Hall].
    unfold audio_output_ok. rewrite Hq. repeat split; try assumption; apply Hceil.
Qed.

Lemma audio_outputs_too_long name ai n acc info :
  In info (firstn n ai) -> INT_MAX * 3072 < numSamples info ->
  exists msg, audio_outputs name ai n acc = Ok (inl msg).
Proof.
  revert ai acc. induction n as [|n IH]; intros ai acc; simpl; [intros []|].
  destruct ai as [|info' rest]; [intros []|]. simpl.
  intros Hin Hlong.
  destruct (isValidAudioInfo info'); cbn [negb]; [|eexists; reflexivity].
  rewrite maxSamples_value.
  destruct (Z.ltb_spec (INT_MAX * 3072) (numSamples info')) as [|Hle];
    [eexists; reflexivity|].
  destruct Hin as [->|Hin]; [lia|]. apply IH; assumption.
Qed.

Lemma audio_outputs_built name ai n acc :
  (n <= length ai)%nat ->
  (forall info, In info (firstn n ai) ->
                isValidAudioInfo info = true /\ numSamples info <= INT_MAX * 3072) ->
  exists out, audio_outputs name ai n acc = Ok (inr out).
Proof.
  revert ai acc. induction n as [|n IH]; intros ai acc Hlen Hall; cbn [audio_outputs].
  - eexists. reflexivity.
  - destruct ai as [|info rest]; [cbn [length] in Hlen; lia|].
    destruct (Hall info (or_introl eq_refl)) as [Hvalid Hle].
    rewrite Hvalid. cbn [negb]. rewrite maxSamples_value.
    destruct (Z.ltb_spec (INT_MAX * 3072) (numSamples info)); [lia|].
    apply IH; [cbn [length] in Hlen; lia|].
    intros info' Hin. apply Hall. right. exact Hin.
Qed.

Lemma audio_node_results (name : string) (ai : list VSAudioInfo)
    (numOutputs filterMode flags apiMajor : Z) (notify : bool) (instances : Z) :
  let r := fst (VSNode_audio name ai numOutputs filterMode flags apiMajor notify instances) in
  (forall info,
      In info (firstn (Z.to_nat numOutputs) ai) ->
      INT_MAX * VS_AUDIO_FRAME_SAMPLES < numSamples info ->
      exists msg, r = Ok (inl msg)) /\
  (forall node,
      r = Ok (inr node) ->
      Forall2 audio_output_ok (firstn (Z.to_nat numOutputs) ai) (node_ai node)).
Proof.
  intros r. subst r. unfold VSNode_audio.
  destruct (negb (Z.land flags _ =? 0));
    [split; [intros; eexists; reflexivity|intros node [=]]|].
  destruct (negb (Z.land flags nfIsCache =? 0) && (Z.land flags nfNoCache =? 0));
    [split; [intros; eexists; reflexivity|intros node [=]]|].
  destruct (numOutputs <? 1);
    [split; [intros; eexists; reflexivity|intros node [=]]|].
  cbn [fst]. split.
  - intros info Hin Hlong.
    destruct (audio_outputs_too_long name ai _ [] info Hin Hlong) as [msg ->].
    exists msg. reflexivity.
  - intros node.
    destruct (audio_outputs name ai (Z.to_nat numOutputs) []) as [[msg|infos]| | |] eqn:E;
      cbn [mbind Outcome_bind obind]; try discriminate.
    intros [= <-]. apply audio_outputs_ok in E as (outs & -> & Hall). exact Hall.
Qed.

(** C6. Creation of an audio node fails when a declared output has more
    than [INT_MAX * 3072] samples; when the node is created, every output
    has at most that many samples and its frame count is the ceiling of
    [numSamples / 3072], that is [(numSamples + 3071) / 3072]; and the
    node is created when the flags are in order, there is at least one
    output, and every declared output is valid and has at most
    [INT_MAX * 3072] samples. *)
Theorem audio_node_frame_count (name : string) (ai : list VSAudioInfo)
    (numOutputs filterMode flags apiMajor : Z) (notify : bool) (instances : Z) :
  let r := fst (VSNode_audio name ai numOutputs filterMode flags apiMajor notify instances) in
  (forall info,
      In info (firstn (Z.to_nat numOutputs) ai) ->
      INT_MAX * VS_AUDIO_FRAME_SAMPLES < numSamples info ->
      exists msg, r = Ok (inl msg)) /\
  (forall node,
      r = Ok (inr node) ->
      Forall2 audio_output_ok (firstn (Z.to_nat numOutputs) ai) (node_ai node)) /\
  (Z.land flags
     (Z.lnot (Z.lor (Z.lor (Z.lor nfNoCache nfIsCache) nfMakeLinear) nfFrameReady)) = 0 ->
   Z.land flags nfIsCache = 0 \/ Z.land flags nfNoCache <> 0 ->
   1 <= numOutputs -> (Z.to_nat numOutputs <= length ai)%nat ->
   (forall info,
       In info (firstn (Z.to_nat numOutputs) ai) ->
       isValidAudioInfo info = true /\
       numSamples info <= INT_MAX * VS_AUDIO_FRAME_SAMPLES) ->
   exists node,
     r = Ok (inr node) /\
     Forall2 audio_output_ok (firstn (Z.to_nat numOutputs) ai) (node_ai node)).
Proof.
  intros r.
  destruct (audio_node_results name ai numOutputs filterMode flags apiMajor notify instances)
    as [Hlong Hbuilt].
  split; [exact Hlong|]. split; [exact Hbuilt|].
  intros Hflags Hcache Hout Hlen Hall.
  assert (Hr : exists node, r = Ok (inr node)).
  { subst r. unfold VSNode_audio. rewrite Hflags. cbn [Z.eqb negb].
    assert (Hc : negb (Z.land flags nfIsCache =? 0) && (Z.land flags nfNoCache =? 0) = false).
    { destruct Hcache as [->|Hne]; [reflexivity|].
      destruct (Z.eqb_spec (Z.land flags nfNoCache) 0); [contradiction|apply andb_false_r]. }
    rewrite Hc. destruct (Z.ltb_spec numOutputs 1); [lia|]. cbn [fst].
    destruct (audio_outputs_built name ai (Z.to_nat numOutputs) [] Hlen Hall) as [out ->].
    cbn [mbind Outcome_bind obind]. eexists. reflexivity. }
  destruct Hr as [node Hr]. exists node. split; [exact Hr|]. apply Hbuilt. exact Hr.
Qed.

End AudioFacts.

Section FrameFacts.

Context {P : Platform}.

(** *** Allocation and the heap *)

Lemma allocateLargePage_result m os0 bytes r os1 :
  os_fresh ->
  allocateLargePage m os0 bytes = (r, os1) ->
  (r = None /\ blocks os1 = blocks os0) \/
  (exists p h, r = Some p /\ blocks os0 !! p = None /\
               blocks os1 = <[p := h]> (blocks os0)).
Proof.
  intros [Hmalloc Hvirtual]. unfold allocateLargePage.
  destruct (negb (largePageEnabled m)); [intros [= <- <-]; left; split; reflexivity|].
  destruct (negb (isGoodFit _ _)); [intros [= <- <-]; left; split; reflexivity|].
  destruct VS_TARGET_OS_WINDOWS; cbn [os_VirtualAlloc os_malloc].
  - destruct (VirtualAlloc _ _) as [q|] eqn:Hq; intros [= <- <-].
    + right. exists q. eexists. split; [reflexivity|].
      split; [apply (Hvirtual _ _ _ Hq)|reflexivity].
    + left. split; reflexivity.
  - destruct (vsh_aligned_malloc _ _ _) as [q|] eqn:Hq; intros [= <- <-].
    + right. exists q. eexists. split; [reflexivity|].
      split; [apply (Hmalloc _ _ _ _ Hq)|reflexivity].
    + left. split; reflexivity.
Qed.

Lemma allocateMemory_fresh m os0 bytes p os' :
  os_fresh ->
  allocateMemory m os0 bytes = Ok (p, os') ->
  blocks os0 !! p = None /\ exists h, blocks os' = <[p := h]> (blocks os0).
Proof.
  intros Hfresh. unfold allocateMemory.
  destruct (allocateLargePage m os0 bytes) as [r os1] eqn:Hlarge.
  destruct (allocateLargePage_result _ _ _ _ _ Hfresh Hlarge)
    as [[-> Hsame]|(q & h & -> & Hnone & Hblocks)].
  - destruct Hfresh as [Hmalloc _]. unfold os_malloc.
    destruct (vsh_aligned_malloc _ _ _) as [q|] eqn:Hq; [|discriminate].
    intros [= <- <-]. rewrite Hsame in Hq. split; [apply (Hmalloc _ _ _ _ Hq)|].
    cbn. rewrite Hsame. eexists; reflexivity.
  - intros [= <- <-]. split; [exact Hnone|]. exists h. exact Hblocks.
Qed.

Lemma nth_error_erase_notin (l : multimap) i first second :
  List.NoDup (map snd l) -> nth_error l i = Some (first, second) ->
  In second (map snd l) /\ ~ In second (map snd (erase l i)).
Proof.
  intros Hnd Hnth. split.
  - apply in_map_iff. exists (first, second). split; [reflexivity|].
    apply (nth_error_In _ _ Hnth).
  - apply (NoDup_erase _ _ _ _ Hnd Hnth).
Qed.

(** What a successful [allocBuffer] means for the heap: the block behind
    the returned pointer is live and outside the pool, it was in the pool
    or not live before, and nothing else changes its status. *)
Lemma allocBuffer_heap m os0 bytes ptr m' os' :
  os_fresh ->
  List.NoDup (map snd (buffers m)) ->
  (forall e, In e (buffers m) -> is_Some (blocks os0 !! snd e)) ->
  allocBuffer m os0 bytes = Ok (ptr, m', os') ->
  let buf := ptr - alignment in
  is_Some (blocks os' !! buf) /\
  (In buf (map snd (buffers m)) \/ blocks os0 !! buf = None) /\
  ~ In buf (map snd (buffers m')) /\
  List.NoDup (map snd (buffers m')) /\
  (forall e, In e (buffers m') -> In e (buffers m)) /\
  (forall q, is_Some (blocks os0 !! q) -> is_Some (blocks os' !! q)).
Proof.
  intros Hfresh Hnd Hlive Halloc buf. subst buf. unfold allocBuffer in Halloc.
  assert (Hnew : forall p os1,
    allocateMemory m os0 bytes = Ok (p, os1) -> ptr = p + alignment -> m' = m -> os' = os1 ->
    is_Some (blocks os' !! (ptr - alignment)) /\
    (In (ptr - alignment) (map snd (buffers m)) \/ blocks os0 !! (ptr - alignment) = None) /\
    ~ In (ptr - alignment) (map snd (buffers m')) /\
    List.NoDup (map snd (buffers m')) /\
    (forall e, In e (buffers m') -> In e (buffers m)) /\
    (forall q, is_Some (blocks os0 !! q) -> is_Some (blocks os' !! q))).
  { intros p os1 Hmem -> -> ->.
    destruct (allocateMemory_fresh _ _ _ _ _ Hfresh Hmem) as [Hnone [h Hblocks]].
    replace (p + alignment - alignment) with p by lia.
    split; [rewrite Hblocks, lookup_insert_eq; eexists; reflexivity|].
    split; [right; exact Hnone|]. split.
    - intros Hin. apply in_map_iff in Hin as (e & <- & He).
      destruct (Hlive _ He) as [h' Hh']. congruence.
    - split; [exact Hnd|]. split; [auto|].
      intros q [hq Hq]. rewrite Hblocks.
      destruct (decide (p = q)) as [->|Hne]; [congruence|].
      rewrite lookup_insert_ne by exact Hne. eexists; exact Hq. }
  destruct (lower_bound (buffers m) bytes) as [[i [first second]]|] eqn:Hlb.
  - destruct (isGoodFit bytes first).
    + injection Halloc as <- <- <-. cbn [buffers set_buffers].
      replace (second + alignment - alignment) with second by lia.
      assert (Hnth : nth_error (buffers m) i = Some (first, second)).
      { clear -Hlb. revert i Hlb. induction (buffers m) as [|[k v] l IH]; intros i; simpl;
          [discriminate|].
        destruct (bytes <=? k); [intros [= <- <- <-]; reflexivity|].
        destruct (lower_bound l bytes) as [[j e]|]; [|discriminate].
        intros [= <- ->]. simpl. apply IH. reflexivity. }
      destruct (nth_error_erase_notin _ _ _ _ Hnd Hnth) as [Hin Hnot].
      split.
      { apply in_map_iff in Hin as (e & He1 & He2). rewrite <- He1. apply Hlive, He2. }
      split; [left; exact Hin|]. split; [exact Hnot|].
      split; [apply (NoDup_erase _ _ _ _ Hnd Hnth)|].
      split; [intros e He; apply (In_erase _ _ _ He)|auto].
    + destruct (allocateMemory m os0 bytes) as [[p os1]| | |] eqn:Hmem;
        cbn [mbind Outcome_bind obind] in Halloc; try discriminate.
      injection Halloc as <- <- <-. apply (Hnew p os1); reflexivity.
  - destruct (allocateMemory m os0 bytes) as [[p os1]| | |] eqn:Hmem;
      cbn [mbind Outcome_bind obind] in Halloc; try discriminate.
    injection Halloc as <- <- <-. apply (Hnew p os1); reflexivity.
Qed.

(** *** Reference counts *)

Lemma references_app l1 l2 d : references (l1 ++ l2) d = references l1 d + references l2 d.
Proof. unfold references. rewrite count_occ_app. lia. Qed.

Lemma references_cons x l d :
  references (x :: l) d = (if Nat.eq_dec x d then 1 else 0) + references l d.
Proof. unfold references. simpl. destruct (Nat.eq_dec x d); lia. Qed.

Lemma references_nonneg l d : 0 <= references l d.
Proof. unfold references. lia. Qed.

Lemma references_pos l d : In d l -> 1 <= references l d.
Proof.
  unfold references. intros H. apply (count_occ_In Nat.eq_dec) in H. lia.
Qed.

Lemma references_zero l d : references l d = 0 -> ~ In d l.
Proof. intros H Hin. apply references_pos in Hin. lia. Qed.

Lemma heap_ok_set_refcount w d pd rc :
  heap_ok w -> planes w !! d = Some pd ->
  heap_ok (mkWorld (memory w) (os w)
             (<[d := mkVSPlaneData rc (pd_size pd) (pd_data pd)]> (planes w))).
Proof.
  intros [Hnd Hpool Hlive Hinj] Hd. constructor; cbn [memory os planes].
  - exact Hnd.
  - exact Hpool.
  - intros x pdx. destruct (decide (d = x)) as [->|Hne].
    + rewrite lookup_insert_eq. intros [= <-]. simpl. apply (Hlive _ _ Hd).
    + rewrite lookup_insert_ne by exact Hne. apply Hlive.
  - intros d1 d2 pd1 pd2. rewrite !lookup_insert.
    destruct (decide (d = d1)) as [E1|Hne1]; destruct (decide (d = d2)) as [E2|Hne2].
    + congruence.
    + intros [= <-] H2 Heq. simpl in Heq. subst d1. apply (Hinj _ _ _ _ Hd H2 Heq).
    + intros H1 [= <-] Heq. simpl in Heq. subst d2. apply (Hinj _ _ _ _ H1 Hd Heq).
    + apply Hinj.
Qed.

Lemma keeps_data_set_refcount w d pd rc :
  planes w !! d = Some pd ->
  keeps_data w (mkWorld (memory w) (os w)
                  (<[d := mkVSPlaneData rc (pd_size pd) (pd_data pd)]> (planes w))).
Proof.
  intros Hd x pdx Hx. cbn [planes]. destruct (decide (d = x)) as [->|Hne].
  - rewrite lookup_insert_eq. eexists. split; [reflexivity|]. simpl. congruence.
  - rewrite lookup_insert_ne by exact Hne. exists pdx. split; [exact Hx|reflexivity].
Qed.

Lemma keeps_data_refl w : keeps_data w w.
Proof. intros d pd H. exists pd. split; [exact H|reflexivity]. Qed.

Lemma keeps_data_trans w1 w2 w3 :
  keeps_data w1 w2 -> keeps_data w2 w3 -> keeps_data w1 w3.
Proof.
  intros H12 H23 d pd H. destruct (H12 _ _ H) as (pd2 & H2 & E2).
  destruct (H23 _ _ H2) as (pd3 & H3 & E3). exists pd3. split; [exact H3|congruence].
Qed.

Lemma add_ref_wf w ids d :
  heap_wf w ids -> In d ids ->
  exists w', add_ref w d = Ok w' /\ heap_wf w' (d :: ids) /\ keeps_data w w'.
Proof.
  intros [Hok Hrefs] Hin. destruct (Hrefs _ Hin) as (pd & Hd & Hrc).
  unfold add_ref. rewrite Hd. eexists. split; [reflexivity|].
  split; [split|].
  - apply heap_ok_set_refcount; assumption.
  - intros x Hx. cbn [planes]. rewrite references_cons.
    destruct (decide (d = x)) as [->|Hne].
    + rewrite lookup_insert_eq. eexists. split; [reflexivity|]. simpl.
      destruct (Nat.eq_dec x x); [lia|congruence].
    + rewrite lookup_insert_ne by exact Hne.
      destruct Hx as [->|Hx]; [congruence|].
      destruct (Hrefs _ Hx) as (pdx & Hpx & Hrx). exists pdx. split; [exact Hpx|].
      destruct (Nat.eq_dec d x); [congruence|lia].
  - apply keeps_data_set_refcount. exact Hd.
Qed.

Lemma heap_wf_perm w ids ids' :
  Permutation ids ids' -> heap_wf w ids -> heap_wf w ids'.
Proof.
  intros Hperm [Hok Hrefs]. split; [exact Hok|].
  intros d Hd. apply (Permutation_in _ (Permutation_sym Hperm)) in Hd.
  destruct (Hrefs _ Hd) as (pd & Hpd & Hrc). exists pd. split; [exact Hpd|].
  unfold references in *.
  rewrite <- (proj1 (Permutation_count_occ Nat.eq_dec ids ids') Hperm d). exact Hrc.
Qed.

(** *** New plane data *)

Lemma construct_plane_result w size bytes failure :
  (exists msg, construct_plane w size bytes failure = Fatal msg) \/
  (exists this w', construct_plane w size bytes failure = Ok (this, w')).
Proof.
  unfold construct_plane, allocBuffer.
  assert (Hmem : forall k : Z * OS -> Outcome (Z * MemoryUse * OS),
    (forall x, exists y, k x = Ok y) ->
    (exists msg, allocateMemory (memory w) (os w) bytes ≫= k = Fatal msg) \/
    (exists y, allocateMemory (memory w) (os w) bytes ≫= k = Ok y)).
  { intros k Hk. unfold allocateMemory.
    destruct (allocateLargePage _ _ _) as [[q|] os1].
    - right. apply Hk.
    - destruct (os_malloc _ _ _) as [[q|] os2]; [right; apply Hk|left; eexists; reflexivity]. }
  assert (Hfin : forall y : Z * MemoryUse * OS,
    (exists msg, (Ok y ≫= λ '(data, m, os1),
        if data =? 0 then Fatal failure
        else Ok (fresh (dom (planes w)),
                 mkWorld (add m size) os1
                   (<[fresh (dom (planes w)) := mkVSPlaneData 1 size data]> (planes w))))
       = Fatal msg) \/
    (exists this w', (Ok y ≫= λ '(data, m, os1),
        if data =? 0 then Fatal failure
        else Ok (fresh (dom (planes w)),
                 mkWorld (add m size) os1
                   (<[fresh (dom (planes w)) := mkVSPlaneData 1 size data]> (planes w))))
       = Ok (this, w'))).
  { intros [[ptr m] os1]. cbn [mbind Outcome_bind obind].
    destruct (ptr =? 0); [left|right]; repeat eexists. }
  destruct (lower_bound _ _) as [[i [first second]]|].
  - destruct (isGoodFit _ _); [apply Hfin|].
    destruct (Hmem (fun '(buf, os1) => Ok (buf + alignment, memory w, os1)))
      as [[msg ->]|[y ->]]; [intros [? ?]; eexists; reflexivity|left; eexists; reflexivity|].
    apply Hfin.
  - destruct (Hmem (fun '(buf, os1) => Ok (buf + alignment, memory w, os1)))
      as [[msg ->]|[y ->]]; [intros [? ?]; eexists; reflexivity|left; eexists; reflexivity|].
    apply Hfin.
Qed.

Lemma construct_plane_ok w size bytes failure this w' :
  os_fresh -> heap_ok w ->
  construct_plane w size bytes failure = Ok (this, w') ->
  planes w !! this = None /\
  heap_ok w' /\
  exists ptr, planes w' = <[this := mkVSPlaneData 1 size ptr]> (planes w).
Proof.
  intros Hfresh [Hnd Hpool Hlive Hinj]. unfold construct_plane.
  destruct (allocBuffer (memory w) (os w) bytes) as [[[ptr m] os1]| | |] eqn:Halloc;
    cbn [mbind Outcome_bind obind]; try discriminate.
  destruct (ptr =? 0); [discriminate|]. intros [= <- <-].
  destruct (allocBuffer_heap _ _ _ _ _ _ Hfresh Hnd Hpool Halloc)
    as (Hbuf & Hwas & Hnotin & Hnd' & Hsub & Hmono).
  assert (Hthis : planes w !! fresh (dom (planes w)) = None).
  { apply not_elem_of_dom. apply is_fresh. }
  split; [exact Hthis|]. split; [|exists ptr; reflexivity].
  assert (Hsub' : forall b, In b (map snd (buffers m)) -> In b (map snd (buffers (memory w)))).
  { intros b Hb. apply in_map_iff in Hb as (e & <- & He). apply in_map_iff.
    exists e. split; [reflexivity|apply Hsub, He]. }
  constructor; cbn [memory os planes add set_used buffers].
  - exact Hnd'.
  - intros e He. apply Hmono, Hpool, Hsub, He.
  - intros d pd. rewrite lookup_insert.
    destruct (decide (fresh (dom (planes w)) = d)) as [E|Hne].
    + intros [= <-]. simpl. split; assumption.
    + intros Hd. destruct (Hlive _ _ Hd) as [Hl Hn]. split; [apply Hmono, Hl|].
      intros Hb. apply Hn, Hsub', Hb.
  - assert (Hdiff : forall d pd, planes w !! d = Some pd -> pd_data pd <> ptr).
    { intros d pd Hd Heq. destruct (Hlive _ _ Hd) as [[h Hl] Hn]. rewrite Heq in Hl, Hn.
      destruct Hwas as [Hin|Hnone]; [contradiction|congruence]. }
    intros d1 d2 pd1 pd2. rewrite !lookup_insert.
    destruct (decide (fresh (dom (planes w)) = d1)) as [E1|Hne1];
      destruct (decide (fresh (dom (planes w)) = d2)) as [E2|Hne2].
    + congruence.
    + intros [= <-] H2 Heq. simpl in Heq. symmetry in Heq. destruct (Hdiff _ _ H2 Heq).
    + intros H1 [= <-] Heq. simpl in Heq. destruct (Hdiff _ _ H1 Heq).
    + apply Hinj.
Qed.

(** *** The references of a frame *)

Lemma plane_at_data f i d : plane_at f i = Some d <-> data f !! i = Some (Some d).
Proof.
  unfold plane_at. destruct (data f !! i) as [[x|]|]; split; congruence.
Qed.

Lemma omap_id_cons (x : option nat) l :
  omap id (x :: l) = match x with Some y => y :: omap id l | None => omap id l end.
Proof. reflexivity. Qed.

Lemma omap_id_insert (l : list (option nat)) i old c :
  l !! i = Some (Some old) ->
  exists l1 l2, omap id l = l1 ++ old :: l2 /\
                omap id (<[i := Some c]> l) = l1 ++ c :: l2.
Proof.
  revert i. induction l as [|x l IH]; intros i; [destruct i; discriminate|].
  destruct i as [|i].
  - intros [= ->]. exists [], (omap id l). split; reflexivity.
  - intros H. destruct (IH _ H) as (l1 & l2 & E1 & E2).
    change (<[S i:=Some c]> (x :: l)) with (x :: <[i:=Some c]> l).
    rewrite !omap_id_cons, E1, E2. destruct x as [y|].
    + exists (y :: l1), l2. split; reflexivity.
    + exists l1, l2. split; reflexivity.
Qed.

Lemma plane_at_In f i d : plane_at f i = Some d -> In d (frame_ids f).
Proof.
  intros H. apply plane_at_data in H.
  destruct (omap_id_insert _ _ _ d H) as (l1 & l2 & E & _).
  unfold frame_ids. rewrite E. apply in_or_app. right. left. reflexivity.
Qed.

Lemma set_data_same f : set_data f (data f) = f.
Proof. destruct f; reflexivity. Qed.

(** *** Copy on write *)

Lemma make_unique_wf g i old w rest :
  os_fresh ->
  heap_wf w (frame_ids g ++ rest) ->
  plane_at g i = Some old ->
  (exists msg, make_unique g i w = Fatal msg) \/
  (exists c w',
      make_unique g i w = Ok (set_data g (<[i := Some c]> (data g)), w') /\
      heap_wf w' (frame_ids (set_data g (<[i := Some c]> (data g))) ++ rest) /\
      keeps_data w w' /\
      (exists pd, planes w' !! c = Some pd /\ pd_refcount pd = 1) /\
      ~ In c rest).
Proof.
  intros Hfresh [Hok Hrefs] Hat. unfold make_unique. rewrite Hat.
  pose proof (proj1 (plane_at_data _ _ _) Hat) as Hdata.
  destruct (omap_id_insert _ _ _ old Hdata) as (l1 & l2 & Eids & _).
  assert (Hin : In old (frame_ids g ++ rest)).
  { apply in_or_app. left. apply (plane_at_In _ _ _ Hat). }
  destruct (Hrefs _ Hin) as (pd & Hold & Hrc).
  unfold unique. rewrite Hold. cbn [mbind Outcome_bind obind].
  destruct (Z.eqb_spec (pd_refcount pd) 1) as [Hone|Hmany]; cbn [negb].
  - right. exists old, w.
    assert (Hsame : set_data g (<[i := Some old]> (data g)) = g).
    { rewrite list_insert_id by exact Hdata. apply set_data_same. }
    rewrite Hsame. split; [reflexivity|]. split; [split; assumption|].
    split; [apply keeps_data_refl|]. split; [exists pd; split; assumption|].
    apply references_zero. rewrite references_app in Hrc.
    pose proof (references_pos _ _ (plane_at_In _ _ _ Hat)).
    pose proof (references_nonneg rest old). lia.
  - unfold VSPlaneData_copy. rewrite Hold.
    destruct (construct_plane_result w (pd_size pd) (pd_size pd)
                "Failed to allocate memory for plane in copy constructor. Out of memory.")
      as [[msg Hc]|(c & w1 & Hc)]; rewrite Hc; cbn [mbind Outcome_bind obind];
      [left; exists msg; reflexivity|].
    destruct (construct_plane_ok _ _ _ _ _ _ Hfresh Hok Hc) as (Hnew & Hok1 & ptr & Hplanes1).
    assert (Hne : c <> old) by congruence.
    assert (Hold1 : planes w1 !! old = Some pd).
    { rewrite Hplanes1, lookup_insert_ne by exact Hne. exact Hold. }
    unfold release. rewrite Hold1.
    assert (Hge : 2 <= pd_refcount pd).
    { pose proof (references_pos _ _ Hin). lia. }
    destruct (Z.eqb_spec (pd_refcount pd - 1) 0) as [|_]; [lia|].
    cbn [mbind Outcome_bind obind].
    right. eexists c, _. split; [reflexivity|].
    assert (Hfreshc : ~ In c (frame_ids g ++ rest)).
    { intros Hc'. destruct (Hrefs _ Hc') as (pdc & Hpdc & _). congruence. }
    split; [|split; [|split; [|intros Hr; apply Hfreshc, in_or_app; right; exact Hr]]].
    + split; [apply heap_ok_set_refcount; assumption|].
      destruct (omap_id_insert _ _ _ c Hdata) as (k1 & k2 & E1 & E2).
      unfold frame_ids in *. cbn [data set_data]. rewrite E2.
      rewrite E1 in Hrefs, Hfreshc.
      intros x Hx. cbn [planes]. rewrite lookup_insert.
      destruct (decide (old = x)) as [<-|Hnx].
      * eexists. split; [reflexivity|]. cbn [pd_refcount].
        assert (Hx' : In old ((k1 ++ old :: k2) ++ rest)).
        { apply in_or_app. left. apply in_or_app. right. left. reflexivity. }
        destruct (Hrefs _ Hx') as (pd' & Hpd' & Hrc').
        assert (pd' = pd) by congruence. subst pd'.
        rewrite !references_app, !references_cons in *.
        destruct (Nat.eq_dec old old); [|congruence].
        destruct (Nat.eq_dec c old); [congruence|]. lia.
      * rewrite Hplanes1, lookup_insert.
        destruct (decide (c = x)) as [<-|Hcx].
        -- eexists. split; [reflexivity|]. cbn [pd_refcount].
           rewrite !references_app, !references_cons.
           destruct (Nat.eq_dec c c); [|congruence].
           assert (references k1 c = 0 /\ references k2 c = 0 /\ references rest c = 0)
             as (Z1 & Z2 & Z3).
           { assert (Hz : forall l, ~ In c l -> references l c = 0).
             { intros l Hl. unfold references.
               rewrite (proj1 (count_occ_not_In Nat.eq_dec l c) Hl). reflexivity. }
             repeat split; apply Hz; intros Hl; apply Hfreshc.
             - apply in_or_app. left. apply in_or_app. left. exact Hl.
             - apply in_or_app. left. apply in_or_app. right. right. exact Hl.
             - apply in_or_app. right. exact Hl. }
           lia.
        -- assert (Hx' : In x ((k1 ++ old :: k2) ++ rest)).
           { apply in_app_or in Hx as [Hx|Hx]; [|apply in_or_app; right; exact Hx].
             apply in_or_app. left. apply in_app_or in Hx as [Hx|[Hx|Hx]].
             - apply in_or_app. left. exact Hx.
             - congruence.
             - apply in_or_app. right. right. exact Hx. }
           destruct (Hrefs _ Hx') as (pdx & Hpdx & Hrcx). exists pdx.
           split; [exact Hpdx|].
           rewrite !references_app, !references_cons in *.
           destruct (Nat.eq_dec old x); [congruence|].
           destruct (Nat.eq_dec c x); [congruence|]. lia.
    + intros d pdd Hd. cbn [planes]. rewrite lookup_insert.
      destruct (decide (old = d)) as [<-|Hnd].
      * eexists. split; [reflexivity|]. cbn. congruence.
      * rewrite Hplanes1, lookup_insert_ne by congruence.
        exists pdd. split; [exact Hd|reflexivity].
    + cbn [planes]. rewrite lookup_insert_ne by congruence.
      rewrite Hplanes1, lookup_insert_eq. eexists. split; reflexivity.
Qed.

Lemma same_shape_refl f : same_shape f f.
Proof. unfold same_shape. repeat split; auto. Qed.

Lemma plane_at_insert g i c j :
  is_Some (data g !! i) ->
  plane_at (set_data g (<[i := Some c]> (data g))) j =
  if decide (i = j) then Some c else plane_at g j.
Proof.
  intros Hi. unfold plane_at. cbn [data set_data].
  destruct (decide (i = j)) as [<-|Hne].
  - rewrite list_lookup_insert_eq; [reflexivity|].
    apply lookup_lt_is_Some. exact Hi.
  - rewrite list_lookup_insert_ne by exact Hne. reflexivity.
Qed.

Lemma same_shape_insert g f i old c :
  same_shape g f -> plane_at g i = Some old ->
  same_shape (set_data g (<[i := Some c]> (data g))) f.
Proof.
  intros (Hc & Hn & Hs & Hf & Hw & Hh & Hl & Hp) Hat.
  assert (Hi : is_Some (data g !! i)).
  { apply plane_at_data in Hat. rewrite Hat. eexists; reflexivity. }
  unfold same_shape. cbn [contentType numPlanes stride frame_format width height data set_data].
  rewrite length_insert.
  split; [exact Hc|]. split; [exact Hn|]. split; [exact Hs|]. split; [exact Hf|].
  split; [exact Hw|]. split; [exact Hh|]. split; [exact Hl|].
  intros j. rewrite (plane_at_insert g i c j Hi). rewrite <- Hp.
  destruct (decide (i = j)) as [<-|Hne]; [|reflexivity].
  rewrite Hat. split; intros _; eexists; reflexivity.
Qed.

Lemma valid_plane_at f p :
  frame_valid f -> 0 <= p < numPlanes f ->
  exists d, plane_at f (plane_index f p) = Some d.
Proof.
  intros [_ Hv] Hp. unfold plane_index, plane_at.
  destruct (contentType f).
  - destruct Hv as [[Hn (d0 & E)]|[Hn (d0 & d1 & d2 & E)]]; rewrite E.
    + replace p with 0 by lia. exists d0. reflexivity.
    + assert (p = 0 \/ p = 1 \/ p = 2) as [Hp0|[Hp0|Hp0]] by lia; rewrite Hp0;
        eexists; reflexivity.
  - destruct Hv as [_ (d0 & E)]. rewrite E. exists d0. reflexivity.
Qed.

Lemma data_pointer_plane f p w ptr :
  data_pointer f p w = Ok ptr ->
  exists d pd, plane_at f (plane_index f p) = Some d /\ planes w !! d = Some pd /\
    ptr = pd_data pd + guardSpace +
          match contentType f with
          | mtVideo => 0
          | mtAudio => p * default 0 (stride f !! O)
          end.
Proof.
  unfold data_pointer, plane_index. destruct (contentType f).
  - destruct (plane_at f (Z.to_nat p)) as [d|]; [|discriminate].
    destruct (planes w !! d) as [pd|] eqn:Hpd; [|discriminate].
    intros [= <-]. exists d, pd. split; [reflexivity|]. split; [exact Hpd|lia].
  - destruct (plane_at f 0) as [d|]; [|discriminate].
    destruct (stride f !! O) as [s0|]; [|discriminate].
    destruct (planes w !! d) as [pd|] eqn:Hpd; [|discriminate].
    intros [= <-]. exists d, pd. split; [reflexivity|]. split; [exact Hpd|reflexivity].
Qed.

Lemma data_pointer_keeps f p w w' ptr :
  keeps_data w w' -> data_pointer f p w = Ok ptr -> data_pointer f p w' = Ok ptr.
Proof.
  intros Hk. unfold data_pointer. destruct (contentType f).
  - destruct (plane_at f (Z.to_nat p)) as [d|]; [|discriminate].
    destruct (planes w !! d) as [pd|] eqn:Hd; [|discriminate].
    destruct (Hk _ _ Hd) as (pd' & -> & ->). auto.
  - destruct (plane_at f 0) as [d|]; [|discriminate].
    destruct (stride f !! O) as [s0|]; [|discriminate].
    destruct (planes w !! d) as [pd|] eqn:Hd; [|discriminate].
    destruct (Hk _ _ Hd) as (pd' & -> & ->). auto.
Qed.

Lemma data_pointer_valid f g p w c pd :
  frame_valid f -> same_shape g f ->
  plane_at g (plane_index g p) = Some c -> planes w !! c = Some pd ->
  exists ptr, data_pointer g p w = Ok ptr.
Proof.
  intros [(s0 & s1 & s2 & Hs) _] (Hc & _ & Hst & _) Hat Hpd.
  unfold data_pointer, plane_index in *. destruct (contentType g).
  - rewrite Hat, Hpd. eexists; reflexivity.
  - rewrite Hat, Hpd, Hst, Hs. eexists; reflexivity.
Qed.

Lemma getReadPtr_valid f g p w :
  same_shape g f -> 0 <= p < numPlanes f -> getReadPtr g p w = data_pointer g p w.
Proof.
  intros (_ & Hn & _) Hp. unfold getReadPtr. rewrite Hn.
  destruct (Z.ltb_spec p 0); [lia|]. destruct (Z.leb_spec (numPlanes f) p); [lia|].
  reflexivity.
Qed.

Lemma getWritePtr_wf f g q w rest ptr g' w' :
  os_fresh -> same_shape g f ->
  heap_wf w (frame_ids g ++ rest) ->
  getWritePtr g q w = Ok (ptr, g', w') ->
  same_shape g' f /\ heap_wf w' (frame_ids g' ++ rest) /\ keeps_data w w' /\
  data_pointer g' q w' = Ok ptr /\
  exists c pd, plane_at g' (plane_index g' q) = Some c /\
    planes w' !! c = Some pd /\ pd_refcount pd = 1 /\ ~ In c rest.
Proof.
  intros Hfresh Hshape Hwf. unfold getWritePtr.
  destruct ((q <? 0) || (numPlanes g <=? q)); [discriminate|].
  destruct (plane_at g (plane_index g q)) as [old|] eqn:Hat;
    [|unfold make_unique; rewrite Hat; discriminate].
  destruct (make_unique_wf g _ old w rest Hfresh Hwf Hat)
    as [[msg ->]|(c & w1 & -> & Hwf1 & Hkeep & Hone & Hnot)]; [discriminate|].
  cbn [mbind Outcome_bind obind].
  destruct (data_pointer _ q w1) as [ptr1| | |] eqn:Hptr; cbn [obind]; try discriminate.
  intros [= <- <- <-].
  split; [apply (same_shape_insert _ _ _ _ _ Hshape Hat)|].
  split; [exact Hwf1|]. split; [exact Hkeep|]. split; [exact Hptr|].
  destruct Hone as (pd & Hpd & Hrc). exists c, pd.
  split; [|split; [exact Hpd|split; [exact Hrc|exact Hnot]]].
  apply plane_at_data. cbn [data set_data plane_index contentType].
  apply plane_at_data in Hat. unfold plane_index in Hat |- *. cbn [contentType set_data].
  apply list_lookup_insert_eq. apply lookup_lt_Some in Hat. exact Hat.
Qed.

Lemma getWritePtr_progress f g p w rest :
  os_fresh -> frame_valid f -> same_shape g f ->
  heap_wf w (frame_ids g ++ rest) ->
  0 <= p < numPlanes f ->
  (exists msg, getWritePtr g p w = Fatal msg) \/
  (exists ptr g' w', getWritePtr g p w = Ok (ptr, g', w')).
Proof.
  intros Hfresh Hvalid Hshape Hwf Hp. unfold getWritePtr.
  pose proof Hshape as (Hc & Hn & Hst & _ & _ & _ & _ & Hpl). rewrite Hn.
  destruct (Z.ltb_spec p 0); [lia|]. destruct (Z.leb_spec (numPlanes f) p); [lia|].
  cbn [orb].
  destruct (valid_plane_at f p Hvalid Hp) as [df Hdf].
  assert (Hidx : plane_index g p = plane_index f p) by (unfold plane_index; rewrite Hc; reflexivity).
  destruct (proj2 (Hpl (plane_index f p)) (ex_intro _ df Hdf)) as [old Hat].
  rewrite <- Hidx in Hat.
  destruct (make_unique_wf g _ old w rest Hfresh Hwf Hat)
    as [[msg ->]|(c & w1 & -> & Hwf1 & Hkeep & (pd & Hpd & Hrc) & Hnot)];
    [left; exists msg; reflexivity|].
  cbn [mbind Outcome_bind obind]. right.
  destruct (data_pointer_valid f (set_data g (<[plane_index g p:=Some c]> (data g))) p w1 c pd
              Hvalid (same_shape_insert _ _ _ _ _ Hshape Hat)) as [ptr ->].
  - apply plane_at_data. cbn [data set_data]. unfold plane_index. cbn [contentType set_data].
    apply plane_at_data in Hat. unfold plane_index in Hat.
    apply list_lookup_insert_eq. apply lookup_lt_Some in Hat. exact Hat.
  - exact Hpd.
  - cbn [obind]. repeat eexists.
Qed.

Lemma getWritePtrs_wf f qs g w rest g' w' :
  os_fresh -> same_shape g f ->
  heap_wf w (frame_ids g ++ rest) ->
  getWritePtrs g qs w = Ok (g', w') ->
  same_shape g' f /\ heap_wf w' (frame_ids g' ++ rest) /\ keeps_data w w'.
Proof.
  intros Hfresh. revert g w. induction qs as [|q qs IH]; intros g w Hshape Hwf; simpl.
  - intros [= <- <-]. split; [exact Hshape|]. split; [exact Hwf|apply keeps_data_refl].
  - destruct (getWritePtr g q w) as [[[ptr g1] w1]| | |] eqn:Hw;
      cbn [mbind Outcome_bind obind]; try discriminate.
    destruct (getWritePtr_wf f g q w rest ptr g1 w1 Hfresh Hshape Hwf Hw)
      as (Hshape1 & Hwf1 & Hkeep1 & _).
    intros H. destruct (IH _ _ Hshape1 Hwf1 H) as (Hs & Hh & Hk).
    split; [exact Hs|]. split; [exact Hh|]. apply (keeps_data_trans _ _ _ Hkeep1 Hk).
Qed.

Lemma VSFrameRef_copy_wf f w rest :
  frame_valid f -> heap_wf w (frame_ids f ++ rest) ->
  exists g w1,
    VSFrameRef_copy f w = Ok (g, w1) /\ data g = data f /\ same_shape g f /\
    heap_wf w1 (frame_ids g ++ frame_ids f ++ rest) /\ keeps_data w w1.
Proof.
  intros [_ Hv] Hwf. unfold VSFrameRef_copy.
  assert (Hshape : forall frc, same_shape
    (mkVSFrameRef frc (contentType f) (data f) (frame_format f) (numPlanes f)
       (width f) (height f) (stride f)) f) by (intros; unfold same_shape; repeat split; auto).
  assert (Hdata : data f = [Some (default O (head (frame_ids f))); None; None] \/
                  exists d0 d1 d2, data f = [Some d0; Some d1; Some d2]).
  { destruct (contentType f).
    - destruct Hv as [[_ (d0 & E)]|[_ H3]]; [left|right; exact H3].
      unfold frame_ids. rewrite E. reflexivity.
    - destruct Hv as [_ (d0 & E)]. left. unfold frame_ids. rewrite E. reflexivity. }
  destruct Hdata as [E|(d0 & d1 & d2 & E)].
  - set (d0 := default O (head (frame_ids f))) in *.
    assert (Hids : frame_ids f = [d0]) by (unfold frame_ids; rewrite E; reflexivity).
    rewrite E. rewrite Hids in Hwf.
    destruct (add_ref_wf w _ d0 Hwf (or_introl eq_refl)) as (w0 & -> & Hwf0 & Hk0).
    cbn [mbind Outcome_bind obind]. eexists _, w0. split; [reflexivity|].
    split; [reflexivity|]. split; [rewrite <- E; apply Hshape|].
    split; [|exact Hk0]. unfold frame_ids at 1. cbn [data]. rewrite Hids. exact Hwf0.
  - assert (Hids : frame_ids f = [d0; d1; d2]) by (unfold frame_ids; rewrite E; reflexivity).
    rewrite E. rewrite Hids in Hwf.
    destruct (add_ref_wf w _ d0 Hwf (or_introl eq_refl)) as (w0 & -> & Hwf0 & Hk0).
    cbn [mbind Outcome_bind obind].
    destruct (add_ref_wf w0 _ d1 Hwf0) as (w1 & -> & Hwf1 & Hk1);
      [right; right; left; reflexivity|].
    cbn [mbind Outcome_bind obind].
    destruct (add_ref_wf w1 _ d2 Hwf1) as (w2 & -> & Hwf2 & Hk2);
      [right; right; right; right; left; reflexivity|].
    cbn [mbind Outcome_bind obind]. eexists _, w2. split; [reflexivity|].
    split; [reflexivity|]. split; [rewrite <- E; apply Hshape|].
    split; [|apply (keeps_data_trans _ _ _ Hk0 (keeps_data_trans _ _ _ Hk1 Hk2))].
    unfold frame_ids at 1. cbn [data]. rewrite Hids.
    apply (heap_wf_perm w2 (d2 :: d1 :: d0 :: [d0; d1; d2] ++ rest)); [|exact Hwf2].
    apply (Permutation_app_tail ([d0; d1; d2] ++ rest) (l := [d2; d1; d0]) (l' := [d0; d1; d2])).
    apply Permutation_sym. apply (Permutation_rev [d0; d1; d2]).
Qed.

(** *** The frames of the constructors *)

Lemma construct_plane_wf w ids size bytes failure this w' :
  os_fresh -> heap_wf w ids ->
  construct_plane w size bytes failure = Ok (this, w') ->
  heap_wf w' (this :: ids) /\ keeps_data w w'.
Proof.
  intros Hfresh [Hok Hrefs] Hc.
  destruct (construct_plane_ok _ _ _ _ _ _ Hfresh Hok Hc) as (Hnew & Hok' & ptr & Hplanes).
  assert (Hnot : ~ In this ids).
  { intros Hin. destruct (Hrefs _ Hin) as (pd & Hpd & _). congruence. }
  split; [split; [exact Hok'|]|].
  - intros d Hd. rewrite Hplanes, lookup_insert, references_cons.
    destruct (decide (this = d)) as [<-|Hne].
    + eexists. split; [reflexivity|]. cbn [pd_refcount].
      destruct (Nat.eq_dec this this); [|congruence].
      unfold references. rewrite (proj1 (count_occ_not_In Nat.eq_dec ids this) Hnot). lia.
    + destruct Hd as [Hd|Hd]; [congruence|].
      destruct (Hrefs _ Hd) as (pd & Hpd & Hrc). exists pd. split; [exact Hpd|].
      destruct (Nat.eq_dec this d); [congruence|lia].
  - intros d pd Hd. rewrite Hplanes, lookup_insert_ne by congruence.
    exists pd. split; [exact Hd|reflexivity].
Qed.

(** The video constructor makes a valid frame and keeps the heap in
    order, for a format of one plane or three. *)
Lemma VSFrameRef_video_wf fmt width height w rest f w' :
  os_fresh -> heap_wf w rest ->
  vf_numPlanes fmt = 1 \/ vf_numPlanes fmt = 3 ->
  VSFrameRef_video fmt width height w = Ok (f, w') ->
  frame_valid f /\ heap_wf w' (frame_ids f ++ rest) /\ keeps_data w w'.
Proof.
  intros Hfresh Hwf Hplanes. unfold VSFrameRef_video, VSPlaneData_new.
  destruct ((width <=? 0) || (height <=? 0)); [discriminate|].
  match goal with
  | |- context [construct_plane w ?s ?b ?m] =>
      destruct (construct_plane w s b m) as [[d0 w0]| | |] eqn:H0
  end; cbn [mbind Outcome_bind obind]; try discriminate.
  destruct (construct_plane_wf _ _ _ _ _ _ _ Hfresh Hwf H0) as [Hwf0 Hk0].
  destruct Hplanes as [Hn|Hn]; rewrite Hn.
  - change (1 =? 3) with false. cbn iota. intros [= <- <-].
    split; [split; [eexists _, _, _; reflexivity|]|split; [exact Hwf0|exact Hk0]].
    cbn [contentType numPlanes data]. left. split; [reflexivity|]. exists d0. reflexivity.
  - change (3 =? 3) with true. cbn iota.
    match goal with
    | |- context [construct_plane w0 ?s ?b ?m] =>
        destruct (construct_plane w0 s b m) as [[d1 w1]| | |] eqn:H1
    end; cbn [mbind Outcome_bind obind]; try discriminate.
    destruct (construct_plane_wf _ _ _ _ _ _ _ Hfresh Hwf0 H1) as [Hwf1 Hk1].
    match goal with
    | |- context [construct_plane w1 ?s ?b ?m] =>
        destruct (construct_plane w1 s b m) as [[d2 w2]| | |] eqn:H2
    end; cbn [mbind Outcome_bind obind]; try discriminate.
    destruct (construct_plane_wf _ _ _ _ _ _ _ Hfresh Hwf1 H2) as [Hwf2 Hk2].
    intros [= <- <-].
    split; [split; [eexists _, _, _; reflexivity|]|split].
    + cbn [contentType numPlanes data]. right. split; [reflexivity|].
      exists d0, d1, d2. reflexivity.
    + apply (heap_wf_perm w2 (d2 :: d1 :: d0 :: rest)); [|exact Hwf2].
      apply (Permutation_app_tail rest (l := [d2; d1; d0]) (l' := [d0; d1; d2])).
      apply Permutation_sym. apply (Permutation_rev [d0; d1; d2]).
    + apply (keeps_data_trans _ _ _ Hk0 (keeps_data_trans _ _ _ Hk1 Hk2)).
Qed.

(** *** When a write pointer cannot be had *)

Lemma allocateLargePage_none m os0 bytes os1 :
  allocateLargePage m os0 bytes = (None, os1) -> blocks os1 = blocks os0.
Proof.
  unfold allocateLargePage.
  destruct (negb (largePageEnabled m)); [intros [= <-]; reflexivity|].
  destruct (negb (isGoodFit _ _)); [intros [= <-]; reflexivity|].
  destruct VS_TARGET_OS_WINDOWS; cbn [os_VirtualAlloc os_malloc].
  - destruct (VirtualAlloc _ _); intros [= <-]. reflexivity.
  - destruct (vsh_aligned_malloc _ _ _); intros [= <-]. reflexivity.
Qed.

Lemma allocateMemory_Fatal m os0 bytes msg :
  allocateMemory m os0 bytes = Fatal msg ->
  msg = "out of memory" /\
  vsh_aligned_malloc (blocks os0) (sz (alignment + bytes)) alignment = None.
Proof.
  unfold allocateMemory.
  destruct (allocateLargePage m os0 bytes) as [[q|] os1] eqn:Hlarge; [discriminate|].
  apply allocateLargePage_none in Hlarge. unfold os_malloc. rewrite Hlarge.
  destruct (vsh_aligned_malloc _ _ _) as [q|]; [discriminate|].
  intros [= <-]. split; reflexivity.
Qed.

Lemma allocBuffer_Fatal m os0 bytes msg :
  allocBuffer m os0 bytes = Fatal msg ->
  msg = "out of memory" /\
  vsh_aligned_malloc (blocks os0) (sz (alignment + bytes)) alignment = None.
Proof.
  unfold allocBuffer.
  assert (Hfresh : forall msg',
    ('(buf, os1) ← allocateMemory m os0 bytes; Ok (buf + alignment, m, os1)) = Fatal msg' ->
    msg' = "out of memory" /\
    vsh_aligned_malloc (blocks os0) (sz (alignment + bytes)) alignment = None).
  { intros msg'. destruct (allocateMemory m os0 bytes) as [[buf os1]|m0| |] eqn:E;
      cbn [mbind Outcome_bind obind]; try discriminate.
    intros [= <-]. apply (allocateMemory_Fatal _ _ _ _ E). }
  destruct (lower_bound _ _) as [[i [first second]]|]; [|apply Hfresh].
  destruct (isGoodFit _ _); [discriminate|apply Hfresh].
Qed.

Lemma construct_plane_Fatal w size bytes failure msg :
  construct_plane w size bytes failure = Fatal msg ->
  allocation_failure w bytes failure msg.
Proof.
  unfold construct_plane, allocation_failure.
  destruct (allocBuffer (memory w) (os w) bytes) as [[[data m] os1]|m0| |] eqn:E;
    cbn [mbind Outcome_bind obind]; try discriminate.
  - destruct (Z.eqb_spec data 0) as [->|]; [|discriminate].
    intros [= <-]. right. split; [reflexivity|]. exists m, os1. reflexivity.
  - intros [= <-]. destruct (allocBuffer_Fatal _ _ _ _ E) as [-> Hnone].
    left. split; [reflexivity|]. split; [reflexivity|exact Hnone].
Qed.

Lemma make_unique_Fatal g i old w rest msg :
  os_fresh ->
  heap_wf w (frame_ids g ++ rest) ->
  plane_at g i = Some old ->
  make_unique g i w = Fatal msg ->
  exists pd,
    planes w !! old = Some pd /\ pd_refcount pd <> 1 /\
    allocation_failure w (pd_size pd)
      "Failed to allocate memory for plane in copy constructor. Out of memory." msg.
Proof.
  intros Hfresh [Hok Hrefs] Hat. unfold make_unique. rewrite Hat.
  assert (Hin : In old (frame_ids g ++ rest)).
  { apply in_or_app. left. apply (plane_at_In _ _ _ Hat). }
  destruct (Hrefs _ Hin) as (pd & Hold & Hrc).
  unfold unique. rewrite Hold. cbn [mbind Outcome_bind obind].
  destruct (Z.eqb_spec (pd_refcount pd) 1) as [Hone|Hmany]; cbn [negb]; [discriminate|].
  unfold VSPlaneData_copy. rewrite Hold.
  destruct (construct_plane w (pd_size pd) (pd_size pd) _) as [[c w1]|m0| |] eqn:Hc;
    cbn [mbind Outcome_bind obind]; try discriminate.
  - destruct (construct_plane_ok _ _ _ _ _ _ Hfresh Hok Hc) as (Hnew & Hok1 & ptr & Hplanes1).
    assert (Hne : c <> old) by congruence.
    assert (Hold1 : planes w1 !! old = Some pd).
    { rewrite Hplanes1, lookup_insert_ne by exact Hne. exact Hold. }
    unfold release. rewrite Hold1.
    assert (Hge : 2 <= pd_refcount pd).
    { pose proof (references_pos _ _ Hin). lia. }
    destruct (Z.eqb_spec (pd_refcount pd - 1) 0) as [|_]; [lia|].
    cbn [mbind Outcome_bind obind]. discriminate.
  - intros [= <-]. exists pd. split; [reflexivity|]. split; [exact Hmany|].
    apply (construct_plane_Fatal _ _ _ _ _ Hc).
Qed.

Lemma getWritePtr_Fatal f g p w rest msg :
  os_fresh -> frame_valid f -> same_shape g f ->
  heap_wf w (frame_ids g ++ rest) ->
  0 <= p < numPlanes f ->
  getWritePtr g p w = Fatal msg ->
  exists d pd,
    plane_at g (plane_index g p) = Some d /\ planes w !! d = Some pd /\
    pd_refcount pd <> 1 /\
    allocation_failure w (pd_size pd)
      "Failed to allocate memory for plane in copy constructor. Out of memory." msg.
Proof.
  intros Hfresh Hvalid Hshape Hwf Hp. unfold getWritePtr.
  pose proof Hshape as (Hc & Hn & Hst & _ & _ & _ & _ & Hpl). rewrite Hn.
  destruct (Z.ltb_spec p 0); [lia|]. destruct (Z.leb_spec (numPlanes f) p); [lia|].
  cbn [orb].
  destruct (valid_plane_at f p Hvalid Hp) as [df Hdf].
  assert (Hidx : plane_index g p = plane_index f p) by (unfold plane_index; rewrite Hc; reflexivity).
  destruct (proj2 (Hpl (plane_index f p)) (ex_intro _ df Hdf)) as [old Hat].
  rewrite <- Hidx in Hat.
  destruct (make_unique_wf g _ old w rest Hfresh Hwf Hat)
    as [[msg' Hm]|(c & w1 & Hm & Hwf1 & Hkeep & (pd & Hpd & Hrc) & Hnot)].
  - rewrite Hm. cbn [mbind Outcome_bind obind]. intros [= <-].
    destruct (make_unique_Fatal g _ old w rest msg' Hfresh Hwf Hat Hm) as (pd & H1 & H2 & H3).
    exists old, pd. repeat split; assumption.
  - rewrite Hm. cbn [mbind Outcome_bind obind].
    destruct (data_pointer_valid f (set_data g (<[plane_index g p:=Some c]> (data g))) p w1 c pd
                Hvalid (same_shape_insert _ _ _ _ _ Hshape Hat)) as [ptr ->].
    + apply plane_at_data. cbn [data set_data]. unfold plane_index. cbn [contentType set_data].
      apply plane_at_data in Hat. unfold plane_index in Hat.
      apply list_lookup_insert_eq. apply lookup_lt_Some in Hat. exact Hat.
    + exact Hpd.
    + cbn [obind]. discriminate.
Qed.

(** C1. [copyFrame(f)] gives a frame [g] whose read pointers are those of
    [f], plane by plane. After any run of [getWritePtr] calls on [g], a
    [getWritePtr(g, p)] leaves the plane data of [g] at [p] uniquely owned
    (its reference count is one), the read pointer of [g] at [p] is the
    pointer returned and differs from the read pointer of [f] at [p], and
    the read pointer of [f] at [p] is what it was before the write and
    right after the copy. The call stops the process in one case only:
    the plane is shared and the buffer of its copy cannot be allocated
    ([vsh_aligned_malloc] has no block, or the buffer is a null pointer).
    [rest] are the references that other frames hold. *)
Theorem copy_on_write (f : VSFrameRef) (w : World) (rest : list nat) :
  os_fresh -> frame_valid f -> heap_wf w (frame_ids f ++ rest) ->
  exists g w1,
    VSFrameRef_copy f w = Ok (g, w1) /\
    (forall p, 0 <= p < numPlanes f ->
       exists ptr, getReadPtr f p w1 = Ok ptr /\ getReadPtr g p w1 = Ok ptr) /\
    (forall qs g2 w2 p,
       getWritePtrs g qs w1 = Ok (g2, w2) -> 0 <= p < numPlanes f ->
       (exists msg d pd,
          getWritePtr g2 p w2 = Fatal msg /\
          plane_at g2 (plane_index g2 p) = Some d /\ planes w2 !! d = Some pd /\
          pd_refcount pd <> 1 /\
          allocation_failure w2 (pd_size pd)
            "Failed to allocate memory for plane in copy constructor. Out of memory." msg) \/
       (exists ptr g3 w3 d,
          getWritePtr g2 p w2 = Ok (ptr, g3, w3) /\
          plane_at g3 (plane_index g3 p) = Some d /\ unique w3 d = Ok true /\
          getReadPtr g3 p w3 = Ok ptr /\
          getReadPtr f p w3 <> Ok ptr /\
          getReadPtr f p w3 = getReadPtr f p w2 /\
          getReadPtr f p w3 = getReadPtr f p w1)).
Proof.
  intros Hfresh Hvalid Hwf.
  destruct (VSFrameRef_copy_wf f w rest Hvalid Hwf) as (g & w1 & Hcopy & Hdata & Hshape & Hwf1 & Hk).
  exists g, w1. split; [exact Hcopy|].
  assert (Hread1 : forall p, 0 <= p < numPlanes f -> exists ptr, data_pointer f p w1 = Ok ptr).
  { intros p Hp. destruct (valid_plane_at f p Hvalid Hp) as [df Hdf].
    destruct Hwf1 as [_ Hrefs].
    destruct (Hrefs df) as (pd & Hpd & _).
    { apply in_or_app. right. apply in_or_app. left. apply (plane_at_In _ _ _ Hdf). }
    apply (data_pointer_valid f f p w1 df pd Hvalid (same_shape_refl f) Hdf Hpd). }
  split.
  - intros p Hp. destruct (Hread1 p Hp) as [ptr Hptr]. exists ptr.
    rewrite (getReadPtr_valid f f p w1 (same_shape_refl f) Hp).
    rewrite (getReadPtr_valid f g p w1 Hshape Hp). split; [exact Hptr|].
    destruct Hshape as (Hc & _ & Hst & _).
    revert Hptr. unfold data_pointer, plane_at. rewrite Hc, Hst, Hdata. auto.
  - intros qs g2 w2 p Hruns Hp.
    destruct (getWritePtrs_wf f qs g w1 _ g2 w2 Hfresh Hshape Hwf1 Hruns)
      as (Hshape2 & Hwf2 & Hk12).
    destruct (getWritePtr_progress f g2 p w2 _ Hfresh Hvalid Hshape2 Hwf2 Hp)
      as [[msg Hfatal]|(ptr & g3 & w3 & Hw)].
    { left. destruct (getWritePtr_Fatal f g2 p w2 _ msg Hfresh Hvalid Hshape2 Hwf2 Hp Hfatal)
        as (d & pd & H1 & H2 & H3 & H4).
      exists msg, d, pd. repeat split; assumption. }
    right. exists ptr, g3, w3.
    destruct (getWritePtr_wf f g2 p w2 _ ptr g3 w3 Hfresh Hshape2 Hwf2 Hw)
      as (Hshape3 & Hwf3 & Hk23 & Hptr & c & pd & Hat & Hpd & Hrc & Hnot).
    exists c. split; [exact Hw|]. split; [exact Hat|].
    split; [unfold unique; rewrite Hpd, Hrc; reflexivity|].
    rewrite (getReadPtr_valid f g3 p w3 Hshape3 Hp).
    rewrite !(getReadPtr_valid f f p _ (same_shape_refl f) Hp).
    split; [exact Hptr|].
    destruct (Hread1 p Hp) as [ptr1 Hptr1].
    pose proof (data_pointer_keeps f p w1 w2 ptr1 Hk12 Hptr1) as Hptr2.
    pose proof (data_pointer_keeps f p w2 w3 ptr1 Hk23 Hptr2) as Hptr3.
    rewrite Hptr3, Hptr2, Hptr1. split; [|split; reflexivity].
    intros [= Heq]. subst ptr1.
    destruct (data_pointer_plane _ _ _ _ Hptr) as (c' & pd' & Hat' & Hpd' & Eg).
    destruct (data_pointer_plane _ _ _ _ Hptr3) as (df & pdf & Hdf & Hpdf & Ef).
    assert (c' = c) by congruence. subst c'.
    assert (pd' = pd) by congruence. subst pd'.
    destruct Hshape3 as (Hc3 & _ & Hst3 & _). rewrite Hc3, Hst3 in Eg.
    assert (Hsame : pd_data pd = pd_data pdf) by lia.
    destruct Hwf3 as [Hok3 _].
    pose proof (ok_plane_inj _ Hok3 _ _ _ _ Hpd Hpdf Hsame) as Hcd. subst df.
    apply Hnot. apply in_or_app. left. apply (plane_at_In _ _ _ Hdf).
Qed.

End FrameFacts.

Section StringFacts.

(** *** Identifiers *)

Lemma isAlpha_letters c : isAlpha c = mem_char c letters.
Proof. destruct c as [[] [] [] [] [] [] [] []]; reflexivity. Qed.

Lemma isAlphaNumUnderscore_classes c :
  isAlphaNumUnderscore c = mem_char c letters || mem_char c digits || Ascii.eqb c "_".
Proof. destruct c as [[] [] [] [] [] [] [] []]; reflexivity. Qed.

Lemma all_chars_tail s :
  all_chars isAlphaNumUnderscore s = true <-> identifier_tail s.
Proof.
  induction s as [|c s IH]; cbn [all_chars].
  - split; [constructor|reflexivity].
  - rewrite isAlphaNumUnderscore_classes. split.
    + destruct (mem_char c letters) eqn:El; cbn [orb].
      { intros H. apply tail_letter; [exact El|apply IH, H]. }
      destruct (mem_char c digits) eqn:Ed; cbn [orb].
      { intros H. apply tail_digit; [exact Ed|apply IH, H]. }
      destruct (Ascii.eqb_spec c "_") as [->|]; [|discriminate].
      intros H. apply tail_underscore. apply IH, H.
    + intros H. inversion H as [|c' s' Hl Ht|c' s' Hd Ht|s' Ht]; subst.
      * rewrite Hl. cbn [orb]. apply IH, Ht.
      * rewrite Hd, orb_true_r. cbn [orb]. apply IH, Ht.
      * rewrite Ascii.eqb_refl, !orb_true_r. apply IH, Ht.
Qed.

Lemma isValidIdentifier_matches s :
  isValidIdentifier s = true <-> matches_identifier s.
Proof.
  destruct s as [|c s]; cbn [isValidIdentifier].
  - split; [discriminate|inversion 1].
  - rewrite isAlpha_letters. split.
    + destruct (mem_char c letters) eqn:El; cbn [negb]; [|discriminate].
      intros H. constructor; [exact El|apply all_chars_tail, H].
    + inversion 1 as [c' s' Hl Ht]; subst. rewrite Hl. cbn [negb].
      apply all_chars_tail, Ht.
Qed.

(** *** [split] *)

Lemma npos_succ_pred n : npos_succ (npos_pred n) = n.
Proof. destruct n; reflexivity. Qed.

Lemma find_first_of_bounds s d pos m :
  find_first_of s d pos = Some m -> (pos <= m < String.length s)%nat.
Proof.
  revert pos m. induction s as [|c s IH]; intros pos m; simpl; [discriminate|].
  destruct pos as [|pos].
  - destruct (mem_char c d); [intros [= <-]; lia|].
    destruct (find_first_of s d 0) as [k|] eqn:E; simpl; [|discriminate].
    intros [= <-]. apply IH in E. lia.
  - destruct (find_first_of s d pos) as [k|] eqn:E; simpl; [|discriminate].
    intros [= <-]. apply IH in E. lia.
Qed.

Lemma find_first_not_of_bounds s d pos m :
  find_first_not_of s d pos = Some m -> (pos <= m < String.length s)%nat.
Proof.
  revert pos m. induction s as [|c s IH]; intros pos m; simpl; [discriminate|].
  destruct pos as [|pos].
  - destruct (mem_char c d); [|intros [= <-]; lia].
    destruct (find_first_not_of s d 0) as [k|] eqn:E; simpl; [|discriminate].
    intros [= <-]. apply IH in E. lia.
  - destruct (find_first_not_of s d pos) as [k|] eqn:E; simpl; [|discriminate].
    intros [= <-]. apply IH in E. lia.
Qed.

Lemma split_loop_unfold fuel s d e next acc :
  split_loop (S fuel) s d e next acc =
  match
    match e with
    | no_empties =>
        match find_first_not_of s d (npos_succ next) with
        | None => None
        | Some n => Some (npos_pred n)
        end
    | empties_ok => Some next
    end
  with
  | None => Ok acc
  | Some next1 =>
      match find_first_of s d (npos_succ next1) with
      | None => Ok (acc ++ [substr s (npos_succ next1) None])
      | Some m =>
          split_loop fuel s d e (Some m)
            (acc ++ [substr s (npos_succ next1) (Some (m - npos_succ next1)%nat)])
      end
  end.
Proof.
  cbn [split_loop]. destruct e.
  - destruct (find_first_of s d (npos_succ next)); reflexivity.
  - destruct (find_first_not_of s d (npos_succ next)) as [n|]; [|reflexivity].
    destruct (find_first_of s d (npos_succ (npos_pred n))); reflexivity.
Qed.

(** The loop returns: the distance of [next] to the end of the string
    shrinks in every round. *)
Lemma split_loop_total fuel s d e next acc :
  (String.length s - npos_succ next < fuel)%nat ->
  exists r, split_loop fuel s d e next acc = Ok r.
Proof.
  revert next acc. induction fuel as [|fuel IH]; intros next acc Hfuel; [lia|].
  rewrite split_loop_unfold. destruct e.
  - destruct (find_first_of s d (npos_succ next)) as [m|] eqn:E; [|eexists; reflexivity].
    apply find_first_of_bounds in E. apply IH. simpl. lia.
  - destruct (find_first_not_of s d (npos_succ next)) as [n|] eqn:En; [|eexists; reflexivity].
    apply find_first_not_of_bounds in En. rewrite npos_succ_pred.
    destruct (find_first_of s d n) as [m|] eqn:E; [|eexists; reflexivity].
    apply find_first_of_bounds in E. apply IH. simpl. lia.
Qed.

Lemma split_total s d e : exists r, split s d e = Ok r.
Proof. apply split_loop_total. simpl. lia. Qed.

Lemma split_loop_more_fuel fuel fuel' s d e next acc r :
  split_loop fuel s d e next acc = Ok r -> (fuel <= fuel')%nat ->
  split_loop fuel' s d e next acc = Ok r.
Proof.
  revert fuel' next acc. induction fuel as [|fuel IH]; intros fuel' next acc; [discriminate|].
  intros H Hle. destruct fuel' as [|fuel']; [lia|].
  rewrite split_loop_unfold in *.
  destruct (match e with no_empties => _ | empties_ok => _ end) as [next1|]; [|exact H].
  destruct (find_first_of s d (npos_succ next1)) as [m|]; [|exact H].
  apply IH; [exact H|lia].
Qed.

Lemma split_from_loop fuel s d e r :
  split_loop fuel s d e None [] = Ok r -> split s d e = Ok r.
Proof.
  intros H. destruct (split_total s d e) as [r' Hr']. rewrite Hr'. unfold split in Hr'.
  pose proof (split_loop_more_fuel _ (Nat.max fuel (S (String.length s))) _ _ _ _ _ _ H
                (Nat.le_max_l _ _)) as H1.
  pose proof (split_loop_more_fuel _ (Nat.max fuel (S (String.length s))) _ _ _ _ _ _ Hr'
                (Nat.le_max_r _ _)) as H2.
  congruence.
Qed.

(** The loop looks at the part of the string behind [next] only. *)
Lemma split_loop_shift fuel c s d e k small acc :
  npos_succ small = k ->
  split_loop fuel (String c s) d e (Some k) acc = split_loop fuel s d e small acc.
Proof.
  revert k small acc. induction fuel as [|fuel IH]; intros k small acc Hk; [reflexivity|].
  rewrite !split_loop_unfold. subst k. destruct e.
  - cbn [npos_succ find_first_of].
    destruct (find_first_of s d (npos_succ small)) as [m|]; cbn [option_map].
    + rewrite (IH (S m) (Some m)) by reflexivity. reflexivity.
    + reflexivity.
  - cbn [npos_succ find_first_not_of].
    destruct (find_first_not_of s d (npos_succ small)) as [n|]; cbn [option_map];
      [|reflexivity].
    rewrite !npos_succ_pred. cbn [npos_pred npos_succ find_first_of].
    destruct (find_first_of s d n) as [m|]; cbn [option_map].
    + rewrite (IH (S m) (Some m)) by reflexivity. reflexivity.
    + reflexivity.
Qed.

Lemma split_loop_skip fuel t c r d e acc :
  split_loop fuel (t +:+ String c r) d e (Some (String.length t)) acc =
  split_loop fuel r d e None acc.
Proof.
  induction t as [|a t IH].
  - apply split_loop_shift. reflexivity.
  - change (String a t +:+ String c r) with (String a (t +:+ String c r)).
    change (String.length (String a t)) with (S (String.length t)).
    rewrite (split_loop_shift fuel a _ d e _ (Some (String.length t))) by reflexivity.
    exact IH.
Qed.

(** *** Tokens *)

Lemma append_cons x (a b : string) : String x a +:+ b = String x (a +:+ b).
Proof. reflexivity. Qed.

Lemma append_nil_l' (a : string) : "" +:+ a = a.
Proof. reflexivity. Qed.

Lemma append_assoc' (a b c : string) : (a +:+ b) +:+ c = a +:+ (b +:+ c).
Proof.
  induction a as [|x a IH]; [reflexivity|]. rewrite !append_cons, IH. reflexivity.
Qed.

Lemma append_nil_r' (a : string) : a +:+ "" = a.
Proof.
  induction a as [|x a IH]; [reflexivity|]. rewrite append_cons, IH. reflexivity.
Qed.

Lemma free_of_app d a b : free_of d (a +:+ b) = free_of d a && free_of d b.
Proof.
  unfold free_of. induction a as [|x a IH]; [reflexivity|].
  rewrite append_cons. cbn [all_chars].
  destruct (mem_char x d); cbn [negb andb]; [reflexivity|exact IH].
Qed.

Lemma find_first_not_of_token a t rest d :
  mem_char a d = false -> find_first_not_of (String a t +:+ rest) d 0 = Some O.
Proof. intros H. rewrite append_cons. cbn [find_first_not_of]. rewrite H. reflexivity. Qed.

Lemma find_first_of_token t c r d :
  free_of d t = true -> mem_char c d = true ->
  find_first_of (t +:+ String c r) d 0 = Some (String.length t).
Proof.
  unfold free_of. intros Hfree Hc. induction t as [|a t IH].
  - rewrite append_nil_l'. cbn [find_first_of]. rewrite Hc. reflexivity.
  - rewrite append_cons. cbn [find_first_of all_chars String.length] in *.
    destruct (mem_char a d); cbn [negb] in *; [discriminate|].
    rewrite IH by exact Hfree. reflexivity.
Qed.

Lemma find_first_of_free t d : free_of d t = true -> find_first_of t d 0 = None.
Proof.
  unfold free_of. induction t as [|a t IH]; cbn [find_first_of all_chars]; [reflexivity|].
  destruct (mem_char a d); cbn [negb]; [discriminate|].
  intros H. rewrite IH by exact H. reflexivity.
Qed.

Lemma string_take_app t r : string_take (String.length t) (t +:+ r) = t.
Proof.
  induction t as [|a t IH]; [reflexivity|].
  rewrite append_cons. cbn [String.length string_take]. rewrite IH. reflexivity.
Qed.

Lemma free_of_head a t d : free_of d (String a t) = true -> mem_char a d = false.
Proof.
  unfold free_of. cbn [all_chars]. destruct (mem_char a d); [discriminate|reflexivity].
Qed.

Lemma split_token_cons fuel a t c r d acc :
  free_of d (String a t) = true -> mem_char c d = true ->
  split_loop (S fuel) (String a t +:+ String c r) d no_empties None acc =
  split_loop fuel r d no_empties None (acc ++ [String a t]).
Proof.
  intros Hfree Hc. rewrite split_loop_unfold. cbn [npos_succ].
  pose proof (free_of_head _ _ _ Hfree) as Ha.
  rewrite (find_first_not_of_token a t _ d Ha). cbn [npos_pred npos_succ].
  rewrite (find_first_of_token _ c r d Hfree Hc).
  rewrite split_loop_skip. unfold substr. cbn [string_drop].
  rewrite Nat.sub_0_r, string_take_app. reflexivity.
Qed.

Lemma split_token_last fuel a t d acc :
  free_of d (String a t) = true ->
  split_loop (S fuel) (String a t) d no_empties None acc = Ok (acc ++ [String a t]).
Proof.
  intros Hfree. rewrite split_loop_unfold. cbn [npos_succ].
  pose proof (free_of_head _ _ _ Hfree) as Ha.
  pose proof (find_first_not_of_token a t "" d Ha) as Hn. rewrite append_nil_r' in Hn.
  rewrite Hn. cbn [npos_pred npos_succ].
  rewrite (find_first_of_free _ d Hfree). reflexivity.
Qed.

Lemma split_loop_empty fuel d acc :
  split_loop (S fuel) "" d no_empties None acc = Ok acc.
Proof. reflexivity. Qed.

Lemma split_join_specs specs acc :
  Forall (fun sp => sp <> "" /\ free_of ";" sp = true) specs ->
  split_loop (S (length specs)) (join_specs specs) ";" no_empties None acc
  = Ok (acc ++ specs).
Proof.
  intros H. revert acc. induction H as [|sp specs [Hne Hfree] _ IH]; intros acc.
  - simpl. rewrite app_nil_r. reflexivity.
  - destruct sp as [|a t]; [congruence|].
    change (join_specs (String a t :: specs))
      with (String a t +:+ String ";" (join_specs specs)).
    cbn [length].
    rewrite (split_token_cons _ a t ";" _ ";" acc Hfree eq_refl).
    rewrite IH, <- app_assoc. reflexivity.
Qed.

End StringFacts.

Section PluginFacts.

Context {P : Platform} {Hd : Headers}.

(** *** From the argument list to the legacy string *)

Lemma getV3ArgString_from_spec l tmp :
  Forall (fun fa => is_Some (v3_type_name (fa_type fa))) l ->
  getV3ArgString_from l tmp = Ok (tmp +:+ join_specs (map arg_spec l)).
Proof.
  intros H. revert tmp. induction H as [|fa l [name Hty] _ IH]; intros tmp.
  - simpl. rewrite append_nil_r'. reflexivity.
  - cbn [getV3ArgString_from map].
    change (join_specs (arg_spec fa :: map arg_spec l))
      with (arg_spec fa +:+ ";" +:+ join_specs (map arg_spec l)).
    unfold arg_spec, arg_suffix.
    destruct fa as [n ty a e o]. cbn [fa_name fa_type arr empty opt] in *.
    unfold assert.
    destruct ty; try discriminate;
      cbn [is_audio_type v3_type_name type_string negb]; rewrite orb_true_r;
      cbn [mbind Outcome_bind obind];
      destruct a, e, o; rewrite IH; rewrite !append_assoc'; reflexivity.
Qed.

(** *** From the legacy string back to the argument list *)

Lemma identifier_char_no_delimiter c :
  isAlphaNumUnderscore c = true -> mem_char c ":" = false /\ mem_char c ";" = false.
Proof.
  destruct c as [[] [] [] [] [] [] [] []]; intros H; try discriminate H; split; reflexivity.
Qed.

Lemma isAlpha_isAlphaNumUnderscore c : isAlpha c = true -> isAlphaNumUnderscore c = true.
Proof. unfold isAlpha, isAlphaNumUnderscore. intros ->. reflexivity. Qed.

Lemma all_chars_impl (f g : ascii -> bool) s :
  (forall c, f c = true -> g c = true) -> all_chars f s = true -> all_chars g s = true.
Proof.
  intros Hfg. induction s as [|c s IH]; cbn [all_chars]; [reflexivity|].
  destruct (f c) eqn:E; [|discriminate]. rewrite (Hfg _ E). exact IH.
Qed.

Lemma identifier_free name :
  isValidIdentifier name = true ->
  exists a t, name = String a t /\
    free_of ":" (String a t) = true /\ free_of ";" (String a t) = true.
Proof.
  destruct name as [|a t]; cbn [isValidIdentifier]; [discriminate|].
  destruct (isAlpha a) eqn:Ea; cbn [negb]; [|discriminate].
  intros Ht. exists a, t. split; [reflexivity|].
  assert (Hall : all_chars isAlphaNumUnderscore (String a t) = true).
  { cbn [all_chars]. rewrite (isAlpha_isAlphaNumUnderscore _ Ea). exact Ht. }
  split; unfold free_of; refine (all_chars_impl _ _ _ _ Hall); intros c Hc.
  - destruct (identifier_char_no_delimiter c Hc) as [-> _]. reflexivity.
  - destruct (identifier_char_no_delimiter c Hc) as [_ ->]. reflexivity.
Qed.

Lemma parse_type_v3 ty name :
  v3_type_name ty = Some name -> parse_type name VAPOURSYNTH3_API_MAJOR = Some ty.
Proof.
  destruct ty; intros [= <-]; unfold parse_type;
    rewrite Z.ltb_irrefl, Z.eqb_refl; reflexivity.
Qed.

Lemma split_arg_spec fa :
  argument_wf fa -> is_Some (v3_type_name (fa_type fa)) ->
  split (arg_spec fa) ":" no_empties = Ok (arg_parts fa).
Proof.
  intros (Hid & _ & _) [tn Htn].
  destruct (identifier_free _ Hid) as (a & t & Hname & Hcolon & _).
  apply (split_from_loop 5). unfold arg_spec, arg_parts, arg_suffix.
  rewrite Hname.
  change (String a t +:+ ":" +:+ ?x) with (String a t +:+ String ":" x).
  rewrite (split_token_cons 4 a t ":" _ ":" [] Hcolon eq_refl).
  destruct fa as [n ty ar e o]. cbn [fa_name fa_type arr empty opt] in *.
  destruct ty; try discriminate; destruct ar, e, o; reflexivity.
Qed.

Lemma strip_array_v3 ty tn :
  v3_type_name ty = Some tn ->
  strip_array (tn +:+ "[]") = (tn, true) /\ strip_array (tn +:+ "") = (tn, false).
Proof. destruct ty; intros [= <-]; split; reflexivity. Qed.

Lemma parse_modifiers_flags n (o e : bool) :
  parse_modifiers n ((if o then ["opt"] else []) ++ (if e then ["empty"] else []))
    false false = inr (o, e).
Proof. destruct o, e; reflexivity. Qed.

Lemma parse_parts_spec x fa :
  argument_wf fa -> is_Some (v3_type_name (fa_type fa)) ->
  parse_parts x (arg_parts fa) VAPOURSYNTH3_API_MAJOR = inr fa.
Proof.
  intros (Hid & _ & Hempty) [tn Htn]. pose proof (parse_type_v3 _ _ Htn) as Hty.
  destruct (strip_array_v3 _ _ Htn) as [Harr Hscalar].
  destruct fa as [n ty ar e o]. cbn [fa_name fa_type arr empty opt] in *.
  unfold arg_parts, type_string. cbn [fa_name fa_type arr empty opt app]. rewrite Htn.
  unfold parse_parts.
  assert (Hstrip : strip_array (tn +:+ (if ar then "[]" else "")) = (tn, ar))
    by (destruct ar; assumption).
  rewrite Hstrip, Hty, parse_modifiers_flags, Hid. cbn [negb].
  destruct e; [rewrite (Hempty eq_refl)|]; reflexivity.
Qed.

Lemma arg_spec_free fa :
  argument_wf fa -> is_Some (v3_type_name (fa_type fa)) ->
  arg_spec fa <> "" /\ free_of ";" (arg_spec fa) = true.
Proof.
  intros (Hid & _ & _) [tn Htn].
  destruct (identifier_free _ Hid) as (a & t & Hname & _ & Hsemi).
  unfold arg_spec. rewrite Hname. split; [rewrite append_cons; discriminate|].
  rewrite free_of_app, Hsemi. cbn [andb]. unfold arg_suffix, type_string.
  destruct fa as [n ty ar e o]. cbn [fa_name fa_type arr empty opt] in *.
  destruct ty; try discriminate; destruct ar, e, o; reflexivity.
Qed.

Lemma parse_args_specs l acc :
  Forall v3_argument l ->
  parse_args (map arg_spec l) acc VAPOURSYNTH3_API_MAJOR = Ok (inr (acc ++ l)).
Proof.
  intros H. revert acc. induction H as [|fa l [Hwf Hty] _ IH]; intros acc.
  - simpl. rewrite app_nil_r. reflexivity.
  - cbn [map parse_args]. rewrite (split_arg_spec fa Hwf Hty).
    cbn [mbind Outcome_bind obind]. rewrite (parse_parts_spec _ fa Hwf Hty).
    rewrite IH, <- app_assoc. reflexivity.
Qed.

Lemma parseArgString_specs l :
  Forall v3_argument l ->
  parseArgString (join_specs (map arg_spec l)) [] VAPOURSYNTH3_API_MAJOR = Ok (inr l).
Proof.
  intros H. unfold parseArgString.
  assert (Hsplit : split (join_specs (map arg_spec l)) ";" no_empties = Ok (map arg_spec l)).
  { apply (split_from_loop (S (length (map arg_spec l)))).
    apply (split_join_specs (map arg_spec l) []).
    apply Forall_map. apply (Forall_impl _ _ _ H). intros fa [Hwf Hty]. simpl.
    apply (arg_spec_free fa Hwf Hty). }
  rewrite Hsplit. cbn [mbind Outcome_bind obind]. apply (parse_args_specs l [] H).
Qed.

(** *** What the parser leaves *)

Lemma parse_type_set tn apiMajor ty : parse_type tn apiMajor = Some ty -> ty <> ptUnset.
Proof.
  unfold parse_type.
  repeat match goal with
         | |- context [if ?b then _ else _] => destruct b
         end; intros [= <-]; discriminate.
Qed.

Lemma parse_parts_wf x parts apiMajor fa :
  parse_parts x parts apiMajor = inr fa -> argument_wf fa.
Proof.
  unfold parse_parts. destruct parts as [|argName [|typeName modifiers]]; try discriminate.
  destruct (strip_array typeName) as [tn ar].
  destruct (parse_type tn apiMajor) as [ty|] eqn:Hty; [|discriminate].
  destruct (parse_modifiers argName modifiers false false) as [msg|[o e]]; [discriminate|].
  destruct (isValidIdentifier argName) eqn:Hid; cbn [negb]; [|discriminate].
  destruct (e && negb ar) eqn:He; [discriminate|].
  intros [= <-]. unfold argument_wf. cbn [fa_name fa_type arr empty].
  split; [exact Hid|]. split; [apply (parse_type_set _ _ _ Hty)|].
  intros ->. destruct ar; [reflexivity|discriminate].
Qed.

Lemma parse_args_wf argList acc apiMajor out :
  parse_args argList acc apiMajor = Ok (inr out) ->
  Forall argument_wf acc -> Forall argument_wf out.
Proof.
  revert acc. induction argList as [|arg rest IH]; intros acc; cbn [parse_args].
  - intros [= <-]. auto.
  - destruct (split arg ":" no_empties) as [parts| | |]; cbn [mbind Outcome_bind obind];
      try discriminate.
    destruct (parse_parts arg parts apiMajor) as [msg|fa] eqn:Hp; [discriminate|].
    intros H Hacc. apply (IH _ H). apply Forall_app. split; [exact Hacc|].
    constructor; [apply (parse_parts_wf _ _ _ _ Hp)|constructor].
Qed.

Lemma parseArgString_wf s apiMajor out :
  parseArgString s [] apiMajor = Ok (inr out) -> Forall argument_wf out.
Proof.
  unfold parseArgString.
  destruct (split s ";" no_empties) as [argList| | |]; cbn [mbind Outcome_bind obind];
    try discriminate.
  intros H. apply (parse_args_wf _ _ _ _ H). constructor.
Qed.

Lemma v3_type_name_Some ty :
  ty <> ptUnset -> is_audio_type ty = false -> is_Some (v3_type_name ty).
Proof. destruct ty; intros H1 H2; try congruence; try discriminate; eexists; reflexivity. Qed.

(** C8, as the code has it. For a function registered with a valid
    current-generation argument string whose arguments have no audio type,
    [getV3ArgString] writes a string, and that string, parsed under the
    legacy generation, gives the argument list of the function: the same
    names, types and array, opt and empty flags. *)
Theorem legacy_argstring_roundtrip (name s returnType : string)
    (func : VSMap -> VSMap -> VSMap) (apiMajor : Z) (f : VSPluginFunction) :
  VAPOURSYNTH3_API_MAJOR < apiMajor ->
  VSPluginFunction_new name s returnType func apiMajor = Ok (inr f) ->
  isV3Compatible f = true ->
  exists s', getV3ArgString f = Ok s' /\
             parseArgString s' [] VAPOURSYNTH3_API_MAJOR = Ok (inr (args f)).
Proof.
  intros _ Hnew Hcompat. unfold VSPluginFunction_new in Hnew.
  destruct (parseArgString s [] apiMajor) as [[msg|l]| | |] eqn:Hargs;
    cbn [mbind Outcome_bind obind] in Hnew; try discriminate.
  destruct (parseArgString returnType [] apiMajor) as [[msg|r]| | |] eqn:Hret;
    cbn [mbind Outcome_bind obind] in Hnew; try discriminate.
  injection Hnew as <-. cbn [args]. unfold isV3Compatible in Hcompat. cbn [args retArgs] in Hcompat.
  apply andb_true_iff in Hcompat as [Hcompat _].
  assert (Hv3 : Forall v3_argument l).
  { pose proof (parseArgString_wf _ _ _ Hargs) as Hwf.
    rewrite forallb_forall in Hcompat. rewrite Forall_forall in Hwf |- *.
    intros fa Hfa. apply list_elem_of_In in Hfa.
    split; [apply Hwf, list_elem_of_In, Hfa|].
    apply v3_type_name_Some; [apply (Hwf fa), list_elem_of_In, Hfa|].
    specialize (Hcompat fa Hfa). destruct (is_audio_type (fa_type fa)); [discriminate|reflexivity]. }
  exists (join_specs (map arg_spec l)). split.
  - unfold getV3ArgString. cbn [args]. rewrite getV3ArgString_from_spec; [reflexivity|].
    apply (Forall_impl _ _ _ Hv3). intros fa [_ H]. exact H.
  - apply parseArgString_specs. exact Hv3.
Qed.

(** *** Registration *)

Lemma parse_args_total argList acc apiMajor :
  exists r, parse_args argList acc apiMajor = Ok r.
Proof.
  revert acc. induction argList as [|arg rest IH]; intros acc; cbn [parse_args].
  - eexists; reflexivity.
  - destruct (split_total arg ":" no_empties) as [parts ->].
    cbn [mbind Outcome_bind obind].
    destruct (parse_parts arg parts apiMajor); [eexists; reflexivity|apply IH].
Qed.

Lemma parseArgString_total s acc apiMajor :
  exists r, parseArgString s acc apiMajor = Ok r.
Proof.
  unfold parseArgString. destruct (split_total s ";" no_empties) as [argList ->].
  apply parse_args_total.
Qed.

(** C5, as the code has it. [registerFunction] returns, and it succeeds
    exactly when the plugin is not read-only, [name] matches
    [[A-Za-z][A-Za-z0-9_]*], no function of that name is registered yet,
    and the argument string and the return string both parse. *)
Theorem registerFunction_succeeds (pl : VSPlugin) (name args_s returnType : string)
    (func : VSMap -> VSMap -> VSMap) :
  exists b pl' log,
    registerFunction pl name args_s returnType func = Ok (b, pl', log) /\
    (b = true <->
     readOnly pl = false /\ matches_identifier name /\ funcs pl !! name = None /\
     (exists a, parseArgString args_s [] (plugin_apiMajor pl) = Ok (inr a)) /\
     (exists r, parseArgString returnType [] (plugin_apiMajor pl) = Ok (inr r))).
Proof.
  unfold registerFunction.
  destruct (readOnly pl) eqn:Hro.
  { do 3 eexists. split; [reflexivity|]. split; [discriminate|]. intros (H & _). discriminate. }
  destruct (isValidIdentifier name) eqn:Hid; cbn [negb].
  2:{ do 3 eexists. split; [reflexivity|]. split; [discriminate|].
      intros (_ & H & _). apply isValidIdentifier_matches in H. congruence. }
  destruct (funcs pl !! name) as [g|] eqn:Hdup.
  { do 3 eexists. split; [reflexivity|]. split; [discriminate|]. intros (_ & _ & H & _).
    discriminate. }
  unfold VSPluginFunction_new.
  destruct (parseArgString_total args_s [] (plugin_apiMajor pl)) as [[msg|a] Ha]; rewrite Ha;
    cbn [mbind Outcome_bind obind].
  { do 3 eexists. split; [reflexivity|]. split; [discriminate|].
    intros (_ & _ & _ & [a' Ha'] & _). discriminate. }
  destruct (parseArgString_total returnType [] (plugin_apiMajor pl)) as [[msg|r] Hr]; rewrite Hr;
    cbn [mbind Outcome_bind obind].
  { do 3 eexists. split; [reflexivity|]. split; [discriminate|].
    intros (_ & _ & _ & _ & [r' Hr']). discriminate. }
  do 3 eexists. split; [reflexivity|]. split; [|reflexivity].
  intros _. split; [reflexivity|]. split; [apply isValidIdentifier_matches, Hid|].
  split; [reflexivity|]. split; eexists; reflexivity.
Qed.

(** *** Sets of keys *)

Lemma string_lt_trans a b c : string_lt a b -> string_lt b c -> string_lt a c.
Proof.
  unfold string_lt. intros H1 H2.
  apply OrderedTypeEx.String_as_OT.cmp_lt in H1, H2.
  apply OrderedTypeEx.String_as_OT.cmp_lt.
  apply (OrderedTypeEx.String_as_OT.lt_trans _ _ _ H1 H2).
Qed.

Lemma string_lt_irrefl a : ~ string_lt a a.
Proof.
  unfold string_lt. intros H.
  assert (E : String.compare a a = Eq)
    by (apply OrderedTypeEx.String_as_OT.cmp_eq; reflexivity).
  congruence.
Qed.

Lemma string_gt_lt a b : String.compare a b = Gt -> string_lt b a.
Proof.
  unfold string_lt. intros H. rewrite String.compare_antisym, H. reflexivity.
Qed.

Lemma set_insert_In x l k : In k (set_insert x l) <-> k = x \/ In k l.
Proof.
  induction l as [|y l IH]; cbn [set_insert]; [simpl; intuition|].
  destruct (String.compare x y) eqn:E.
  - apply String.compare_eq_iff in E. subst y. simpl. intuition.
  - simpl. intuition.
  - simpl. rewrite IH. intuition.
Qed.

Lemma set_erase_In x l k : In k (set_erase x l) <-> In k l /\ k <> x.
Proof.
  induction l as [|y l IH]; cbn [set_erase]; [simpl; intuition|].
  destruct (String.eqb_spec x y) as [<-|Hne].
  - rewrite IH. simpl. intuition congruence.
  - simpl. rewrite IH. intuition congruence.
Qed.

Lemma set_insert_sorted x l :
  StronglySorted string_lt l -> StronglySorted string_lt (set_insert x l).
Proof.
  induction 1 as [|y l Hs IH Hall]; cbn [set_insert].
  - constructor; [constructor|constructor].
  - destruct (String.compare x y) eqn:E.
    + constructor; assumption.
    + constructor; [constructor; assumption|].
      constructor; [exact E|].
      rewrite Forall_forall in Hall |- *. intros z Hz.
      apply (string_lt_trans _ y); [exact E|apply Hall, Hz].
    + constructor; [exact IH|].
      rewrite Forall_forall in Hall |- *. intros z Hz.
      apply list_elem_of_In, set_insert_In in Hz as [->|Hz].
      * apply string_gt_lt, E.
      * apply Hall, list_elem_of_In, Hz.
Qed.

Lemma set_erase_sorted x l :
  StronglySorted string_lt l -> StronglySorted string_lt (set_erase x l).
Proof.
  induction 1 as [|y l Hs IH Hall]; cbn [set_erase]; [constructor|].
  destruct (String.eqb x y); [exact IH|]. constructor; [exact IH|].
  rewrite Forall_forall in Hall |- *. intros z Hz.
  apply list_elem_of_In, set_erase_In in Hz as [Hz _]. apply Hall, list_elem_of_In, Hz.
Qed.

Lemma sorted_NoDup l : StronglySorted string_lt l -> List.NoDup l.
Proof.
  induction 1 as [|y l Hs IH Hall]; constructor; [|exact IH].
  intros Hin. rewrite Forall_forall in Hall.
  apply (string_lt_irrefl y). apply Hall, list_elem_of_In, Hin.
Qed.

Lemma keys_fold (data : list (string * VSArray)) acc k :
  In k (fold_left (fun acc kv => set_insert (fst kv) acc) data acc) <->
  In k (map fst data) \/ In k acc.
Proof.
  revert acc. induction data as [|[key a] data IH]; intros acc; cbn [fold_left map fst].
  - simpl. intuition.
  - rewrite IH, set_insert_In. simpl. intuition.
Qed.

Lemma keys_fold_sorted (data : list (string * VSArray)) acc :
  StronglySorted string_lt acc ->
  StronglySorted string_lt (fold_left (fun acc kv => set_insert (fst kv) acc) data acc).
Proof.
  revert acc. induction data as [|kv data IH]; intros acc H; cbn [fold_left]; [exact H|].
  apply IH, set_insert_sorted, H.
Qed.

(** *** The checks of [invoke] *)

Lemma VSPropType_eqb_eq a b : VSPropType_eqb a b = true <-> a = b.
Proof. destruct a, b; simpl; split; congruence. Qed.

Lemma assoc_find_In l k a : assoc_find l k = Some a -> In (k, a) l.
Proof.
  induction l as [|[k' a'] l IH]; cbn [assoc_find]; [discriminate|].
  destruct (String.eqb_spec k' k) as [->|Hne].
  - intros [= ->]. left. reflexivity.
  - intros H. right. apply IH, H.
Qed.

Lemma assoc_find_key l k : In k (map fst l) <-> assoc_find l k <> None.
Proof.
  induction l as [|[k' a'] l IH]; cbn [assoc_find map fst]; [simpl; intuition|].
  destruct (String.eqb_spec k' k) as [->|Hne]; simpl.
  - split; [discriminate|]. intros _. left. reflexivity.
  - rewrite <- IH. intuition.
Qed.

Lemma propGetType_unset m k :
  typed_map m -> (propGetType m k = ptUnset <-> VSMap_find m k = None).
Proof.
  intros Htyped. unfold propGetType. destruct (VSMap_find m k) as [a|] eqn:E.
  - split; [|discriminate]. intros H. exfalso.
    apply (Htyped (k, a)); [apply assoc_find_In, E|exact H].
  - split; reflexivity.
Qed.

Lemma check_args_inr fn fargs m rem rem' :
  typed_map m ->
  check_args fn fargs m rem = inr rem' ->
  (forall fa, In fa fargs -> ~ violates fa m) /\
  (forall k, In k rem' <->
             In k rem /\ ~ (In k (map fa_name fargs) /\ VSMap_find m k <> None)) /\
  (StronglySorted string_lt rem -> StronglySorted string_lt rem').
Proof.
  intros Htyped. revert rem. induction fargs as [|fa fargs IH]; intros rem; cbn [check_args].
  - intros [= <-]. split; [intros fa []|]. split; [|auto].
    intros k. simpl. intuition.
  - pose proof (propGetType_unset m (fa_name fa) Htyped) as Hunset.
    unfold propGetType in *.
    destruct (VSMap_find m (fa_name fa)) as [a|] eqn:Efind.
    + destruct (VSPropType_eqb (array_type a) ptUnset) eqn:Eu.
      { apply VSPropType_eqb_eq in Eu. apply Hunset in Eu. discriminate. }
      cbn [negb].
      destruct (VSPropType_eqb (fa_type fa) (array_type a)) eqn:Et; cbn [negb];
        [|discriminate].
      apply VSPropType_eqb_eq in Et.
      destruct (negb (arr fa) && (1 <? array_size a)%nat) eqn:Ea; [discriminate|].
      destruct (negb (empty fa) && (array_size a <? 1)%nat) eqn:Ee; [discriminate|].
      intros H. destruct (IH _ H) as (Hno & Hmem & Hsorted). split; [|split].
      * intros fa' [<-|Hin]; [|apply Hno, Hin].
        unfold violates. rewrite Efind. intros [Hty|[[Harr Hsize]|[Hemp Hsize]]].
        -- congruence.
        -- rewrite Harr in Ea. cbn [negb andb] in Ea.
           apply Nat.ltb_ge in Ea. lia.
        -- rewrite Hemp in Ee. cbn [negb andb] in Ee.
           apply Nat.ltb_ge in Ee. lia.
      * intros k. rewrite Hmem, set_erase_In. cbn [map In].
        split.
        -- intros [[Hk Hne] Hnot]. split; [exact Hk|].
           intros [[Heq|Hin] Hf]; [congruence|]. apply Hnot. split; assumption.
        -- intros [Hk Hnot]. split; [split; [exact Hk|]|].
           ++ intros ->. apply Hnot. split; [left; reflexivity|congruence].
           ++ intros [Hin Hf]. apply Hnot. split; [right; exact Hin|exact Hf].
      * intros Hs. apply Hsorted, set_erase_sorted, Hs.
    + cbn [VSPropType_eqb negb].
      destruct (opt fa) eqn:Eo; cbn [negb]; [|discriminate].
      intros H. destruct (IH _ H) as (Hno & Hmem & Hsorted). split; [|split].
      * intros fa' [<-|Hin]; [|apply Hno, Hin].
        unfold violates. rewrite Efind. congruence.
      * intros k. rewrite Hmem. cbn [map In]. split.
        -- intros [Hk Hnot]. split; [exact Hk|].
           intros [[Heq|Hin] Hf]; [congruence|]. apply Hnot. split; assumption.
        -- intros [Hk Hnot]. split; [exact Hk|].
           intros [Hin Hf]. apply Hnot. split; [right; exact Hin|exact Hf].
      * exact Hsorted.
Qed.

Lemma check_args_passes fn fargs m rem :
  typed_map m -> (forall fa, In fa fargs -> ~ violates fa m) ->
  exists rem', check_args fn fargs m rem = inr rem'.
Proof.
  intros Htyped. revert rem. induction fargs as [|fa fargs IH]; intros rem Hno;
    cbn [check_args]; [eexists; reflexivity|].
  pose proof (propGetType_unset m (fa_name fa) Htyped) as Hunset.
  pose proof (Hno fa (or_introl eq_refl)) as Hfa. unfold violates in Hfa.
  unfold propGetType in *.
  destruct (VSMap_find m (fa_name fa)) as [a|] eqn:Efind.
  - destruct (VSPropType_eqb (array_type a) ptUnset) eqn:Eu.
    { apply VSPropType_eqb_eq in Eu. apply Hunset in Eu. discriminate. }
    cbn [negb].
    destruct (VSPropType_eqb (fa_type fa) (array_type a)) eqn:Et; cbn [negb].
    2:{ exfalso. apply Hfa. left. intros Heq. rewrite Heq in Et.
        assert (VSPropType_eqb (fa_type fa) (fa_type fa) = true)
          by (apply VSPropType_eqb_eq; reflexivity). congruence. }
    destruct (negb (arr fa) && (1 <? array_size a)%nat) eqn:Ea.
    { exfalso. apply Hfa. right. left. apply andb_true_iff in Ea as [Ha Hs].
      apply Nat.ltb_lt in Hs. destruct (arr fa); [discriminate|]. split; [reflexivity|lia]. }
    destruct (negb (empty fa) && (array_size a <? 1)%nat) eqn:Ee.
    { exfalso. apply Hfa. right. right. apply andb_true_iff in Ee as [He Hs].
      apply Nat.ltb_lt in Hs. destruct (empty fa); [discriminate|]. split; [reflexivity|lia]. }
    apply IH. intros fa' Hin. apply Hno. right. exact Hin.
  - cbn [VSPropType_eqb negb]. destruct (opt fa); cbn [negb]; [|congruence].
    apply IH. intros fa' Hin. apply Hno. right. exact Hin.
Qed.

Lemma join_keys_comma first rest :
  join_keys first rest = comma_separated (first :: rest).
Proof.
  assert (H : forall pre first rest,
    join_keys (pre +:+ first) rest = pre +:+ comma_separated (first :: rest)).
  { intros pre f r. revert pre f. induction r as [|k r IH]; intros pre f.
    - reflexivity.
    - cbn [join_keys].
      replace ((pre +:+ f) +:+ ", " +:+ k) with ((pre +:+ f +:+ ", ") +:+ k)
        by (rewrite !append_assoc'; reflexivity).
      rewrite IH. change (comma_separated (f :: k :: r))
        with (f +:+ ", " +:+ comma_separated (k :: r)).
      rewrite !append_assoc'. reflexivity. }
  apply (H "" first rest).
Qed.

Lemma remaining_unknown f m rem' fn :
  typed_map m ->
  check_args fn (args f) m
    (fold_left (fun acc kv => set_insert (fst kv) acc) (map_data m) []) = inr rem' ->
  (forall fa, In fa (args f) -> ~ violates fa m) /\
  List.NoDup rem' /\ forall k, In k rem' <-> unknown_key f m k.
Proof.
  intros Htyped H. destruct (check_args_inr _ _ _ _ _ Htyped H) as (Hno & Hmem & Hsorted).
  split; [exact Hno|]. split.
  - apply sorted_NoDup, Hsorted, keys_fold_sorted. constructor.
  - intros k. rewrite Hmem, keys_fold. unfold unknown_key, VSMap_find.
    rewrite <- assoc_find_key. simpl. intuition.
Qed.

(** C4. [invoke] on a function that is found fails with an error, and
    does not call the filter function, when a declared argument that is
    not [opt] is absent, or an argument present has another type than the
    declared one, or more than one value is supplied for an argument that
    is not an array, or an empty array for an argument without the [empty]
    flag, or when the arguments have a key that is not declared. When
    the declared arguments pass (and the input is not refused for a compat
    format), the error for undeclared keys is one message that lists all
    of them, each once. *)
Theorem invoke_validates (pl : VSPlugin) (funcName : string) (f : VSPluginFunction)
    (args_in : VSMap) :
  funcs pl !! funcName = Some f ->
  typed_map args_in ->
  ((exists fa, In fa (args f) /\ violates fa args_in) \/
   (exists key, unknown_key f args_in key) ->
   exists msg, invoke pl funcName args_in = Ok (setError msg, [])) /\
  (negb (compat pl) && hasCompatNodes args_in = false ->
   (forall fa, In fa (args f) -> ~ violates fa args_in) ->
   (exists key, unknown_key f args_in key) ->
   exists ks,
     invoke pl funcName args_in =
       Ok (setError (funcName +:+ ": no argument(s) named " +:+ comma_separated ks), []) /\
     List.NoDup ks /\ forall k, In k ks <-> unknown_key f args_in k).
Proof.
  intros Hf Htyped. unfold invoke. rewrite Hf. unfold validate_call. split.
  - intros Hbad.
    destruct (negb (compat pl) && hasCompatNodes args_in); [eexists; reflexivity|].
    destruct (check_args funcName (args f) args_in _) as [msg|rem'] eqn:Hcheck;
      [eexists; reflexivity|].
    destruct (remaining_unknown _ _ _ _ Htyped Hcheck) as (Hno & _ & Hmem).
    destruct rem' as [|first rest]; [|eexists; reflexivity].
    exfalso. destruct Hbad as [(fa & Hin & Hv)|(key & Hkey)].
    + apply (Hno fa Hin Hv).
    + apply Hmem in Hkey. destruct Hkey.
  - intros -> Hno (key & Hkey).
    destruct (check_args_passes funcName (args f) args_in
                (fold_left (fun acc kv => set_insert (fst kv) acc) (map_data args_in) [])
                Htyped Hno) as [rem' Hcheck].
    rewrite Hcheck.
    destruct (remaining_unknown _ _ _ _ Htyped Hcheck) as (_ & Hnd & Hmem).
    destruct rem' as [|first rest]; [apply Hmem in Hkey; destruct Hkey|].
    exists (first :: rest). rewrite join_keys_comma.
    split; [reflexivity|]. split; [exact Hnd|exact Hmem].
Qed.

End PluginFacts.

Section SplitFacts.

Lemma fields_nonnil s d : fields s d <> [].
Proof.
  induction s as [|c s IH]; cbn [fields]; [discriminate|].
  destruct (mem_char c d); [discriminate|].
  destruct (fields s d); discriminate.
Qed.

Lemma fields_free s d : free_of d s = true -> fields s d = [s].
Proof.
  unfold free_of. induction s as [|c s IH]; cbn [fields all_chars]; [reflexivity|].
  destruct (mem_char c d); cbn [negb]; [discriminate|].
  intros Hs. rewrite (IH Hs). reflexivity.
Qed.

Lemma fields_app t c r d :
  free_of d t = true -> mem_char c d = true ->
  fields (t +:+ String c r) d = t :: fields r d.
Proof.
  unfold free_of. intros Ht Hc. induction t as [|a t IH].
  - rewrite append_nil_l'. cbn [fields]. rewrite Hc. reflexivity.
  - rewrite append_cons. cbn [fields all_chars] in *.
    destruct (mem_char a d); cbn [negb] in *; [discriminate|].
    rewrite (IH Ht). reflexivity.
Qed.

(** A string splits at its first delimiter. *)
Lemma find_first_of_split s d :
  match find_first_of s d 0 with
  | None => free_of d s = true
  | Some m =>
      exists t c r, s = t +:+ String c r /\ free_of d t = true /\ mem_char c d = true /\
                    String.length t = m
  end.
Proof.
  unfold free_of. induction s as [|a s IH]; cbn [find_first_of all_chars]; [reflexivity|].
  destruct (mem_char a d) eqn:Ea; cbn [negb].
  - exists "", a, s. repeat split; [exact Ea].
  - destruct (find_first_of s d 0) as [m|]; cbn [option_map]; [|exact IH].
    destruct IH as (t & c & r & -> & Ht & Hc & <-).
    exists (String a t), c, r. cbn [all_chars String.length]. rewrite Ea. cbn [negb].
    repeat split; assumption.
Qed.

Lemma length_app_string (t r : string) :
  String.length (t +:+ r) = (String.length t + String.length r)%nat.
Proof.
  induction t as [|a t IH]; [reflexivity|].
  rewrite append_cons. cbn [String.length]. rewrite IH. reflexivity.
Qed.

Lemma split_loop_fields fuel s d acc :
  (String.length s < fuel)%nat ->
  split_loop fuel s d empties_ok None acc = Ok (acc ++ fields s d).
Proof.
  revert s acc. induction fuel as [|fuel IH]; intros s acc Hfuel; [lia|].
  rewrite split_loop_unfold. cbn [npos_succ].
  pose proof (find_first_of_split s d) as Hs.
  destruct (find_first_of s d 0) as [m|].
  - destruct Hs as (t & c & r & -> & Ht & Hc & <-).
    rewrite split_loop_skip. rewrite (fields_app _ _ _ _ Ht Hc).
    unfold substr. cbn [string_drop]. rewrite Nat.sub_0_r, string_take_app.
    rewrite IH.
    + rewrite <- app_assoc. reflexivity.
    + rewrite length_app_string in Hfuel. cbn [String.length] in Hfuel. lia.
  - rewrite (fields_free _ _ Hs). reflexivity.
Qed.


Lemma split_loop_skip_delim fuel c s d acc :
  mem_char c d = true ->
  split_loop fuel (String c s) d no_empties None acc = split_loop fuel s d no_empties None acc.
Proof.
  intros Hc. destruct fuel as [|fuel]; [reflexivity|].
  rewrite !split_loop_unfold. cbn [npos_succ find_first_not_of]. rewrite Hc.
  destruct (find_first_not_of s d 0) as [n|]; cbn [option_map]; [|reflexivity].
  cbn [npos_pred npos_succ]. rewrite npos_succ_pred. cbn [find_first_of].
  destruct (find_first_of s d n) as [m|]; cbn [option_map].
  - rewrite (split_loop_shift fuel c s d no_empties (S m) (Some m)) by reflexivity.
    reflexivity.
  - reflexivity.
Qed.

Lemma tokens_delim c s d : mem_char c d = true -> tokens (String c s) d = tokens s d.
Proof. intros Hc. unfold tokens. cbn [fields]. rewrite Hc. reflexivity. Qed.

Lemma tokens_app a t c r d :
  free_of d (String a t) = true -> mem_char c d = true ->
  tokens (String a t +:+ String c r) d = String a t :: tokens r d.
Proof.
  intros Ht Hc. unfold tokens. rewrite (fields_app _ _ _ _ Ht Hc). reflexivity.
Qed.

Lemma split_loop_tokens d n :
  forall s, (String.length s <= n)%nat ->
  forall fuel acc, (String.length s < fuel)%nat ->
  split_loop fuel s d no_empties None acc = Ok (acc ++ tokens s d).
Proof.
  induction n as [|n IH]; intros s Hn fuel acc Hfuel.
  - destruct s; [|cbn [String.length] in Hn; lia].
    destruct fuel; [lia|]. rewrite split_loop_empty, app_nil_r. reflexivity.
  - destruct s as [|a s].
    { destruct fuel; [lia|]. rewrite split_loop_empty, app_nil_r. reflexivity. }
    cbn [String.length] in Hn, Hfuel.
    destruct (mem_char a d) eqn:Ea.
    + rewrite (split_loop_skip_delim _ _ _ _ _ Ea), (tokens_delim _ _ _ Ea).
      apply IH; lia.
    + destruct fuel as [|fuel]; [lia|].
      pose proof (find_first_of_split (String a s) d) as Hs.
      destruct (find_first_of (String a s) d 0) as [m|].
      * destruct Hs as (t & c & r & Heq & Ht & Hc & _).
        destruct t as [|a' t].
        { rewrite append_nil_l' in Heq. injection Heq as -> ->. congruence. }
        rewrite Heq. rewrite (split_token_cons _ _ _ _ _ _ _ Ht Hc).
        rewrite (tokens_app _ _ _ _ _ Ht Hc).
        assert (Hlen : String.length (String a s) =
                       (String.length (String a' t) + S (String.length r))%nat).
        { rewrite Heq, length_app_string. reflexivity. }
        cbn [String.length] in Hlen.
        rewrite IH by lia. rewrite <- app_assoc. reflexivity.
      * rewrite (split_token_last _ _ _ _ _ Hs).
        unfold tokens. rewrite (fields_free _ _ Hs). reflexivity.
Qed.

Lemma split_fields_ok s d : split s d empties_ok = Ok (fields s d).
Proof. unfold split. rewrite split_loop_fields by lia. reflexivity. Qed.

Lemma split_tokens_ok s d : split s d no_empties = Ok (tokens s d).
Proof.
  unfold split. rewrite (split_loop_tokens d (String.length s)) by lia. reflexivity.
Qed.

Lemma fields_pieces s d : Forall (fun t => free_of d t = true) (fields s d).
Proof.
  induction s as [|a s IH]; cbn [fields].
  - constructor; [reflexivity|constructor].
  - destruct (mem_char a d) eqn:Ea.
    + constructor; [reflexivity|exact IH].
    + destruct (fields s d) as [|t rest]; [constructor; [|constructor]|].
      * unfold free_of. cbn [all_chars]. rewrite Ea. reflexivity.
      * inversion IH as [|? ? Ht Hrest]; subst. constructor; [|exact Hrest].
        unfold free_of in *. cbn [all_chars]. rewrite Ea. exact Ht.
Qed.

Lemma join_fields c s : join_with c (fields s (String c "")) = s.
Proof.
  induction s as [|a s IH]; [reflexivity|].
  cbn [fields mem_char]. rewrite orb_false_r.
  pose proof (fields_nonnil s (String c "")) as Hne.
  destruct (Ascii.eqb_spec a c) as [->|Hac].
  - destruct (fields s (String c "")) as [|t rest]; [congruence|].
    cbn [join_with] in *. rewrite append_nil_l'. rewrite IH. reflexivity.
  - destruct (fields s (String c "")) as [|t rest]; [congruence|].
    cbn [join_with] in *. destruct rest as [|t' rest].
    + rewrite IH. reflexivity.
    + rewrite append_cons, IH. reflexivity.
Qed.

Lemma concat_fields s d : concat_strings (fields s d) = remove_chars s d.
Proof.
  induction s as [|a s IH]; [reflexivity|].
  cbn [fields remove_chars]. destruct (mem_char a d).
  - cbn [concat_strings fold_right]. rewrite append_nil_l'. exact IH.
  - pose proof (fields_nonnil s d) as Hne.
    destruct (fields s d) as [|t rest]; [congruence|].
    cbn [concat_strings fold_right] in *. rewrite append_cons, IH. reflexivity.
Qed.

Lemma concat_filter_nonempty l :
  concat_strings (filter (fun t => nonempty t = true) l) = concat_strings l.
Proof.
  induction l as [|t l IH]; [reflexivity|].
  rewrite filter_cons. destruct (decide (nonempty t = true)) as [Ht|Ht].
  - change (concat_strings (t :: filter (fun t => nonempty t = true) l))
      with (t +:+ concat_strings (filter (fun t => nonempty t = true) l)).
    rewrite IH. reflexivity.
  - destruct t; [|exfalso; apply Ht; reflexivity].
    rewrite IH. symmetry. apply append_nil_l'.
Qed.

(** X1. [split] with [empties_ok] yields the pieces of the string between
    the delimiters, in order and with the empty ones; with [no_empties] it
    yields the pieces that are not empty. *)
Theorem split_pieces (s d : string) :
  split s d empties_ok = Ok (fields s d) /\ split s d no_empties = Ok (tokens s d).
Proof. split; [apply split_fields_ok|apply split_tokens_ok]. Qed.

(** X2. Splitting at one delimiter character with the empty pieces kept
    loses nothing: no part holds the delimiter, and the parts joined by
    the delimiter are the string again. *)
Theorem split_join_roundtrip (s : string) (c : ascii) :
  exists parts,
    split s (String c "") empties_ok = Ok parts /\
    Forall (fun t => free_of (String c "") t = true) parts /\
    join_with c parts = s.
Proof.
  exists (fields s (String c "")). split; [apply split_fields_ok|].
  split; [apply fields_pieces|apply join_fields].
Qed.

(** X3. [split] with [no_empties] returns parts that are not empty and
    hold no delimiter, and together they are the string without its
    delimiters. *)
Theorem split_no_empties_parts (s d : string) :
  exists parts,
    split s d no_empties = Ok parts /\
    Forall (fun t => t <> "" /\ free_of d t = true) parts /\
    concat_strings parts = remove_chars s d.
Proof.
  exists (tokens s d). split; [apply split_tokens_ok|]. split.
  - unfold tokens. apply Forall_forall. intros t Ht.
    apply list_elem_of_filter in Ht as [Hne Hin].
    split.
    + destruct t; discriminate.
    + pose proof (fields_pieces s d) as Hall. rewrite Forall_forall in Hall.
      apply Hall. exact Hin.
  - unfold tokens. rewrite concat_filter_nonempty. apply concat_fields.
Qed.

End SplitFacts.

Section CallFacts.

Context {P : Platform}.

(** *** Argument strings compose *)

Lemma fields_concat s1 c s2 d :
  mem_char c d = true ->
  fields (s1 +:+ String c s2) d = fields s1 d ++ fields s2 d.
Proof.
  intros Hc. induction s1 as [|a s1 IH].
  - rewrite append_nil_l'. cbn [fields]. rewrite Hc. reflexivity.
  - rewrite append_cons. cbn [fields]. rewrite IH.
    destruct (mem_char a d); [reflexivity|].
    pose proof (fields_nonnil s1 d) as Hne.
    destruct (fields s1 d) as [|t rest]; [congruence|]. reflexivity.
Qed.

Lemma tokens_concat s1 c s2 d :
  mem_char c d = true ->
  tokens (s1 +:+ String c s2) d = tokens s1 d ++ tokens s2 d.
Proof.
  intros Hc. unfold tokens. rewrite (fields_concat _ _ _ _ Hc). apply filter_app.
Qed.

Lemma parse_args_app l1 l2 acc apiMajor :
  parse_args (l1 ++ l2) acc apiMajor =
  and_then (parse_args l1 acc apiMajor) (fun argsOut => parse_args l2 argsOut apiMajor).
Proof.
  revert acc. induction l1 as [|arg l1 IH]; intros acc.
  - cbn [app parse_args and_then mbind Outcome_bind obind]. reflexivity.
  - cbn [app parse_args]. rewrite split_tokens_ok. cbn [mbind Outcome_bind obind].
    destruct (parse_parts arg (tokens arg ":") apiMajor) as [msg|fa]; [reflexivity|].
    apply IH.
Qed.

(** X4. An argument string [s1;s2] is parsed as [s1] followed by [s2]:
    the arguments of [s2] are appended to those of [s1], and an error in
    [s1] is the error of the whole. *)
Theorem parseArgString_concat (s1 s2 : string) (argsOut : list FilterArgument)
    (apiMajor : Z) :
  parseArgString (s1 +:+ ";" +:+ s2) argsOut apiMajor =
  and_then (parseArgString s1 argsOut apiMajor)
    (fun argsOut1 => parseArgString s2 argsOut1 apiMajor).
Proof.
  unfold parseArgString. rewrite !split_tokens_ok. cbn [mbind Outcome_bind obind].
  change (";" +:+ s2) with (String ";" s2).
  rewrite (tokens_concat s1 ";" s2 ";" eq_refl). apply parse_args_app.
Qed.

(** *** Registration and lookup *)

(** X5. [registerFunction] either refuses, logs one message and leaves
    the plugin as it is, or files the new function under [name]:
    [getFunctionByName] then finds it, with the name, the two strings and
    the entry point it was registered with, and finds every other name as
    before. *)
Theorem registerFunction_lookup (pl : VSPlugin) (name args_s ret_s : string)
    (argsFunc : VSMap -> VSMap -> VSMap) :
  exists b pl' log,
    registerFunction pl name args_s ret_s argsFunc = Ok (b, pl', log) /\
    (b = false -> pl' = pl /\ exists msg, log = [msg]) /\
    (b = true ->
     log = [] /\
     (exists f, getFunctionByName pl' name = Some f /\
                pf_name f = name /\ argString f = args_s /\
                returnType f = ret_s /\ func f = argsFunc /\
                parseArgString args_s [] (plugin_apiMajor pl) = Ok (inr (args f)) /\
                parseArgString ret_s [] (plugin_apiMajor pl) = Ok (inr (retArgs f))) /\
     (forall other, other <> name ->
                    getFunctionByName pl' other = getFunctionByName pl other) /\
     readOnly pl' = readOnly pl /\ plugin_id pl' = plugin_id pl /\
     plugin_apiMajor pl' = plugin_apiMajor pl /\ compat pl' = compat pl).
Proof.
  unfold registerFunction.
  destruct (readOnly pl) eqn:Hro.
  { do 3 eexists. split; [reflexivity|]. split; [|discriminate].
    intros _. split; [reflexivity|eexists; reflexivity]. }
  destruct (isValidIdentifier name) eqn:Hid; cbn [negb].
  2:{ do 3 eexists. split; [reflexivity|]. split; [|discriminate].
      intros _. split; [reflexivity|eexists; reflexivity]. }
  destruct (funcs pl !! name) as [g|] eqn:Hdup.
  { do 3 eexists. split; [reflexivity|]. split; [|discriminate].
    intros _. split; [reflexivity|eexists; reflexivity]. }
  unfold VSPluginFunction_new.
  destruct (parseArgString_total args_s [] (plugin_apiMajor pl)) as [[msg|a] Ha]; rewrite Ha;
    cbn [mbind Outcome_bind obind].
  { do 3 eexists. split; [reflexivity|]. split; [|discriminate].
    intros _. split; [reflexivity|eexists; reflexivity]. }
  destruct (parseArgString_total ret_s [] (plugin_apiMajor pl)) as [[msg|r] Hr]; rewrite Hr;
    cbn [mbind Outcome_bind obind].
  { do 3 eexists. split; [reflexivity|]. split; [|discriminate].
    intros _. split; [reflexivity|eexists; reflexivity]. }
  do 3 eexists. split; [reflexivity|]. split; [discriminate|].
  intros _. split; [reflexivity|]. unfold getFunctionByName. cbn [funcs]. split.
  - eexists. split; [apply lookup_insert_eq|]. cbn. repeat split; reflexivity.
  - split; [|repeat split; reflexivity].
    intros other Hother. apply lookup_insert_ne. congruence.
Qed.

(** *** Calls that pass the validation *)

Lemma append_inv_head (a b c : string) : a +:+ b = a +:+ c -> b = c.
Proof.
  induction a as [|x a IH]; [exact (fun H => H)|].
  rewrite !append_cons. intros [= H]. exact (IH H).
Qed.

Lemma validate_call_passes pl f funcName args_in :
  typed_map args_in ->
  negb (compat pl) && hasCompatNodes args_in = false ->
  (forall fa, In fa (args f) -> ~ violates fa args_in) ->
  (forall key, ~ unknown_key f args_in key) ->
  validate_call pl f funcName args_in = inr tt.
Proof.
  intros Htyped Hcompat Hno Hknown. unfold validate_call. rewrite Hcompat.
  destruct (check_args_passes funcName (args f) args_in
              (fold_left (fun acc kv => set_insert (fst kv) acc) (map_data args_in) [])
              Htyped Hno) as [rem' Hcheck].
  rewrite Hcheck.
  destruct (remaining_unknown _ _ _ _ Htyped Hcheck) as (_ & _ & Hmem).
  destruct rem' as [|first rest]; [reflexivity|].
  exfalso. apply (Hknown first). apply Hmem. left. reflexivity.
Qed.

Lemma validate_call_inr pl f funcName args_in :
  typed_map args_in ->
  validate_call pl f funcName args_in = inr tt ->
  (forall fa, In fa (args f) -> ~ violates fa args_in) /\
  (forall key, ~ unknown_key f args_in key).
Proof.
  intros Htyped. unfold validate_call.
  destruct (negb (compat pl) && hasCompatNodes args_in); [discriminate|].
  destruct (check_args funcName (args f) args_in _) as [msg|rem'] eqn:Hcheck; [discriminate|].
  destruct (remaining_unknown _ _ _ _ Htyped Hcheck) as (Hno & _ & Hmem).
  destruct rem' as [|first rest]; [|discriminate].
  intros _. split; [exact Hno|]. intros key Hkey. apply Hmem in Hkey. destruct Hkey.
Qed.

(** X6. A call that is in order reaches the filter: when the function is
    found, the input is not refused for a compat format, no declared
    argument is violated and every key is declared, [invoke] calls the
    filter function once, with the arguments as given and an empty output
    map, and returns the map the function returns (or stops the process
    when that map holds a compat format, or audio values were passed to a
    plugin of the legacy API). *)
Theorem invoke_accepts (pl : VSPlugin) (funcName : string) (f : VSPluginFunction)
    (args_in : VSMap) :
  funcs pl !! funcName = Some f ->
  typed_map args_in ->
  negb (compat pl) && hasCompatNodes args_in = false ->
  (forall fa, In fa (args f) -> ~ violates fa args_in) ->
  (forall key, ~ unknown_key f args_in key) ->
  let v := func f args_in VSMap_new in
  (negb (compat pl) && hasCompatNodes v = false ->
   (plugin_apiMajor pl =? VAPOURSYNTH3_API_MAJOR) && negb (VSMap_isV3Compatible args_in) = false ->
   invoke pl funcName args_in = Ok (v, [(funcName, args_in)])) /\
  (negb (compat pl) && hasCompatNodes v = true \/
   (plugin_apiMajor pl =? VAPOURSYNTH3_API_MAJOR) && negb (VSMap_isV3Compatible args_in) = true ->
   exists msg, invoke pl funcName args_in = Fatal msg).
Proof.
  intros Hf Htyped Hcompat Hno Hknown v. unfold invoke. rewrite Hf.
  rewrite (validate_call_passes _ _ _ _ Htyped Hcompat Hno Hknown). fold v. split.
  - intros -> ->. reflexivity.
  - intros [->| ->]; [eexists; reflexivity|].
    destruct (negb (compat pl) && hasCompatNodes v); eexists; reflexivity.
Qed.

Lemma assoc_find_first (l : list (string * VSArray)) k a :
  List.NoDup (map fst l) -> In (k, a) l -> assoc_find l k = Some a.
Proof.
  induction l as [|[k' a'] l IH]; [intros _ []|].
  cbn [map fst assoc_find]. intros Hnd [Heq|Hin].
  - injection Heq as -> ->. rewrite String.eqb_refl. reflexivity.
  - inversion Hnd as [|? ? Hnotin Hnd']; subst.
    destruct (String.eqb_spec k' k) as [->|Hne].
    + exfalso. apply Hnotin. apply (in_map fst) in Hin. exact Hin.
    + apply IH; assumption.
Qed.

(** When the validation passes and no declared argument has an audio
    type, the arguments hold no audio value. *)
Lemma validated_isV3Compatible pl f funcName args_in :
  typed_map args_in ->
  List.NoDup (map fst (map_data args_in)) ->
  forallb (fun fa => negb (is_audio_type (fa_type fa))) (args f) = true ->
  validate_call pl f funcName args_in = inr tt ->
  VSMap_isV3Compatible args_in = true.
Proof.
  intros Htyped Hnd Hargs Hval.
  destruct (validate_call_inr _ _ _ _ Htyped Hval) as [Hno Hknown].
  unfold VSMap_isV3Compatible. apply forallb_forall. intros [k a] Hin. cbn [snd].
  destruct (in_dec string_dec k (map fa_name (args f))) as [Hdecl|Hundecl].
  - apply in_map_iff in Hdecl as (fa & <- & Hfa).
    pose proof (Hno fa Hfa) as Hv. unfold violates, VSMap_find in Hv.
    rewrite (assoc_find_first _ _ _ Hnd Hin) in Hv.
    rewrite forallb_forall in Hargs. specialize (Hargs fa Hfa).
    destruct (VSPropType_eqb (array_type a) (fa_type fa)) eqn:E.
    + apply VSPropType_eqb_eq in E. rewrite E. exact Hargs.
    + exfalso. apply Hv. left. intros Heq. rewrite Heq in E.
      assert (VSPropType_eqb (fa_type fa) (fa_type fa) = true)
        by (apply VSPropType_eqb_eq; reflexivity). congruence.
  - exfalso. apply (Hknown k). split; [|exact Hundecl].
    apply (in_map fst) in Hin. exact Hin.
Qed.

Lemma parse_type_legacy tn ty :
  parse_type tn VAPOURSYNTH3_API_MAJOR = Some ty -> is_audio_type ty = false.
Proof.
  unfold parse_type. rewrite Z.ltb_irrefl, !andb_false_r.
  repeat match goal with
         | |- context [if ?b then _ else _] => destruct b
         end; intros [= <-]; reflexivity.
Qed.

Lemma parse_parts_legacy x parts fa :
  parse_parts x parts VAPOURSYNTH3_API_MAJOR = inr fa -> is_audio_type (fa_type fa) = false.
Proof.
  unfold parse_parts. destruct parts as [|argName [|typeName modifiers]]; try discriminate.
  destruct (strip_array typeName) as [tn a].
  destruct (parse_type tn VAPOURSYNTH3_API_MAJOR) as [ty|] eqn:Ety; [|discriminate].
  destruct (parse_modifiers argName modifiers false false) as [msg|[o e]]; [discriminate|].
  destruct (negb (isValidIdentifier argName)); [discriminate|].
  destruct (e && negb a); [discriminate|].
  intros [= <-]. cbn [fa_type]. apply (parse_type_legacy _ _ Ety).
Qed.

Lemma parse_args_legacy argList acc out :
  parse_args argList acc VAPOURSYNTH3_API_MAJOR = Ok (inr out) ->
  forallb (fun fa => negb (is_audio_type (fa_type fa))) acc = true ->
  forallb (fun fa => negb (is_audio_type (fa_type fa))) out = true.
Proof.
  revert acc. induction argList as [|arg rest IH]; intros acc; cbn [parse_args].
  - intros [= <-]. auto.
  - rewrite split_tokens_ok. cbn [mbind Outcome_bind obind].
    destruct (parse_parts arg (tokens arg ":") VAPOURSYNTH3_API_MAJOR) as [msg|fa] eqn:E;
      [discriminate|].
    intros H Hacc. apply (IH _ H). rewrite forallb_app, Hacc. cbn [forallb].
    rewrite (parse_parts_legacy _ _ _ E). reflexivity.
Qed.

(** X7. A function that a plugin of the legacy API has registered is
    never stopped for its arguments after it has run: [invoke] does not
    end in the fatal error "filter node returned not yet supported type",
    whatever the arguments are. *)
Theorem invoke_legacy_no_late_stop (pl pl' : VSPlugin) (name args_s returnType : string)
    (argsFunc : VSMap -> VSMap -> VSMap) (log : list string) (args_in : VSMap) :
  plugin_apiMajor pl = VAPOURSYNTH3_API_MAJOR ->
  registerFunction pl name args_s returnType argsFunc = Ok (true, pl', log) ->
  typed_map args_in ->
  List.NoDup (map fst (map_data args_in)) ->
  invoke pl' name args_in <>
    Fatal (name +:+ ": filter node returned not yet supported type").
Proof.
  intros Hapi Hreg Htyped Hnd. unfold registerFunction in Hreg.
  destruct (readOnly pl); [discriminate|].
  destruct (negb (isValidIdentifier name)); [discriminate|].
  destruct (funcs pl !! name); [discriminate|].
  unfold VSPluginFunction_new in Hreg. rewrite Hapi in Hreg.
  destruct (parseArgString args_s [] VAPOURSYNTH3_API_MAJOR) as [[msg|a]| | |] eqn:Ha;
    cbn [mbind Outcome_bind obind] in Hreg; try discriminate.
  destruct (parseArgString returnType [] VAPOURSYNTH3_API_MAJOR) as [[msg|r]| | |] eqn:Hr;
    cbn [mbind Outcome_bind obind] in Hreg; try discriminate.
  injection Hreg as <- _.
  unfold invoke. cbn [funcs plugin_apiMajor compat plugin_id]. rewrite lookup_insert_eq.
  match goal with
  | |- context [validate_call ?p ?f name args_in] =>
      destruct (validate_call p f name args_in) as [what|[]] eqn:Hval
  end; [discriminate|].
  assert (Hargs : forallb (fun fa => negb (is_audio_type (fa_type fa))) a = true).
  { unfold parseArgString in Ha. rewrite split_tokens_ok in Ha.
    cbn [mbind Outcome_bind obind] in Ha. apply (parse_args_legacy _ _ _ Ha). reflexivity. }
  rewrite (validated_isV3Compatible _ (mkVSPluginFunction name args_s returnType argsFunc a r)
             _ _ Htyped Hnd Hargs Hval).
  rewrite andb_false_r.
  match goal with
  | |- context [if ?b then _ else _] => destruct b
  end; [|discriminate].
  intros [= H]. apply append_inv_head in H. discriminate.
Qed.

End CallFacts.

Section FormatFacts.

Context {P : Platform} {Hd : Headers}.

(** *** Packing fields into an identifier *)

Lemma land_pow2_low a b n :
  0 <= n -> 0 <= b < 2 ^ n -> Z.land (a * 2 ^ n) b = 0.
Proof.
  intros Hn Hb. apply Z.bits_inj'. intros i Hi.
  rewrite Z.land_spec, Z.bits_0.
  destruct (Z.ltb_spec i n) as [Hlt|Hge].
  - rewrite Z.mul_pow2_bits_low by lia. reflexivity.
  - assert (Z.testbit b i = false) as ->; [|apply andb_false_r].
    destruct (Z.eq_dec b 0) as [->|Hb0]; [apply Z.bits_0|].
    apply Z.bits_above_log2; [lia|].
    apply Z.lt_le_trans with n; [|exact Hge].
    apply Z.log2_lt_pow2; lia.
Qed.

Lemma lor_pack a b n :
  0 <= n -> 0 <= b < 2 ^ n -> Z.lor (Z.shiftl a n) b = a * 2 ^ n + b.
Proof.
  intros Hn Hb. rewrite Z.shiftl_mul_pow2 by exact Hn.
  symmetry. apply Z.add_nocarry_lor. apply land_pow2_low; assumption.
Qed.

Lemma land_mask x n : 0 <= n -> 0 <= x < 2 ^ n -> Z.land x (Z.ones n) = x.
Proof. intros Hn Hx. rewrite Z.land_ones by exact Hn. apply Z.mod_small. exact Hx. Qed.

Lemma land_top_byte hi lo :
  0 <= hi < 256 -> 0 <= lo < 16777216 ->
  Z.land (hi * 16777216 + lo) 0xFF000000 = hi * 16777216.
Proof.
  intros Hhi Hlo.
  change 16777216 with (2 ^ 24) in *.
  rewrite <- (lor_pack hi lo 24) by lia.
  rewrite Z.land_lor_distr_l.
  change 0xFF000000 with (255 * 2 ^ 24).
  rewrite (Z.land_comm lo), (land_pow2_low 255 lo 24) by lia.
  rewrite Z.lor_0_r, <- !Z.shiftl_mul_pow2, <- Z.shiftl_land by lia.
  change 255 with (Z.ones 8). rewrite land_mask by lia. reflexivity.
Qed.

(** *** Valid formats *)

Lemma isValidVideoFormat_defined cf st bits ssw ssh :
  isValidVideoFormat cf st bits ssw ssh = true -> cf <> cfUndefined ->
  (cf = cfGray \/ cf = cfYUV \/ cf = cfRGB \/ cf = cfCompatBGR32 \/ cf = cfCompatYUY2) /\
  (st = stInteger \/ st = stFloat) /\
  8 <= bits <= 32 /\ 0 <= ssw <= 4 /\ 0 <= ssh <= 4.
Proof.
  unfold isValidVideoFormat. intros H Hcf.
  destruct (Z.eqb_spec cf cfUndefined) as [|_]; [contradiction|]. cbn [negb andb] in H.
  destruct (Z.eqb_spec cf cfGray), (Z.eqb_spec cf cfYUV), (Z.eqb_spec cf cfRGB),
    (Z.eqb_spec cf cfCompatBGR32), (Z.eqb_spec cf cfCompatYUY2);
    cbn [negb andb orb] in H; try discriminate;
    (split; [tauto|]);
    destruct (Z.eqb_spec st stInteger), (Z.eqb_spec st stFloat);
    cbn [negb andb orb] in H; try discriminate;
    (split; [tauto|]);
    repeat match type of H with
           | (if ?b then false else _) = true => destruct b eqn:?; [discriminate|]
           end;
    repeat match goal with
           | E : (_ || _) = false |- _ => apply orb_false_iff in E as [? ?]
           | E : (_ <? _) = false |- _ => apply Z.ltb_ge in E
           end; lia.
Qed.

Lemma bytesPerSample_loop_video bits :
  8 <= bits <= 32 ->
  bytesPerSample_loop 32 1 bits = Ok (if bits <=? 8 then 1 else if bits <=? 16 then 2 else 4).
Proof.
  intros Hbits.
  assert (Hcases : bits = 8 \/ 9 <= bits <= 16 \/ 17 <= bits <= 32) by lia.
  rewrite bytesPerSample_loop_unfold.
  destruct Hcases as [->|[Hb|Hb]]; [reflexivity| |].
  - destruct (Z.ltb_spec (1 * 8) bits); [|lia].
    rewrite bytesPerSample_loop_unfold. change (Z.shiftl 1 1) with 2.
    destruct (Z.ltb_spec (2 * 8) bits); [lia|].
    destruct (Z.leb_spec bits 8); [lia|]. destruct (Z.leb_spec bits 16); [|lia]. reflexivity.
  - destruct (Z.ltb_spec (1 * 8) bits); [|lia].
    rewrite bytesPerSample_loop_unfold. change (Z.shiftl 1 1) with 2.
    destruct (Z.ltb_spec (2 * 8) bits); [|lia].
    rewrite bytesPerSample_loop_unfold. change (Z.shiftl 2 1) with 4.
    destruct (Z.ltb_spec (4 * 8) bits); [lia|].
    destruct (Z.leb_spec bits 8); [lia|]. destruct (Z.leb_spec bits 16); [lia|]. reflexivity.
Qed.

Lemma lor_disjoint X Y n a :
  0 <= n -> X = a * 2 ^ n -> 0 <= Y < 2 ^ n -> Z.lor X Y = X + Y.
Proof.
  intros Hn -> HY. symmetry. apply Z.add_nocarry_lor. apply land_pow2_low; assumption.
Qed.

Lemma queryVideoFormatID_value cf st bits ssw ssh :
  0 <= cf <= 15 -> 0 <= st <= 15 -> 0 <= bits < 256 -> 0 <= ssw < 256 -> 0 <= ssh < 256 ->
  isValidVideoFormat cf st bits ssw ssh = true ->
  queryVideoFormatID cf st bits ssw ssh = pack_id cf st bits ssw ssh.
Proof.
  intros Hcf Hst Hbits Hssw Hssh Hv. unfold queryVideoFormatID, pack_id. rewrite Hv. cbn [negb].
  change 0xF with (Z.ones 4). change 0xFF with (Z.ones 8).
  rewrite !land_mask by (try change (2 ^ 4) with 16; try change (2 ^ 8) with 256; lia).
  rewrite Z.shiftl_0_r, !Z.shiftl_mul_pow2 by lia.
  change (2 ^ 28) with 268435456. change (2 ^ 24) with 16777216.
  change (2 ^ 16) with 65536. change (2 ^ 8) with 256.
  rewrite (lor_disjoint (cf * 268435456) (st * 16777216) 28 cf)
    by (try change (2 ^ 28) with 268435456; lia).
  rewrite (lor_disjoint (cf * 268435456 + st * 16777216) (bits * 65536) 24 (cf * 16 + st))
    by (try change (2 ^ 24) with 16777216; lia).
  rewrite (lor_disjoint (cf * 268435456 + st * 16777216 + bits * 65536) (ssw * 256) 16
             (cf * 4096 + st * 256 + bits))
    by (try change (2 ^ 16) with 65536; lia).
  rewrite (lor_disjoint (cf * 268435456 + st * 16777216 + bits * 65536 + ssw * 256) ssh 8
             (cf * 1048576 + st * 65536 + bits * 256 + ssw))
    by (try change (2 ^ 8) with 256; lia).
  unfold wrapu. change (2 ^ 32) with 4294967296. apply Z.mod_small. lia.
Qed.

Lemma unpack_id cf st bits ssw ssh :
  0 <= cf <= 15 -> 0 <= st <= 15 -> 0 <= bits < 256 -> 0 <= ssw < 256 -> 0 <= ssh < 256 ->
  let id := pack_id cf st bits ssw ssh in
  Z.land (Z.shiftr id 28) 0xF = cf /\ Z.land (Z.shiftr id 24) 0xF = st /\
  Z.land (Z.shiftr id 16) 0xFF = bits /\ Z.land (Z.shiftr id 8) 0xFF = ssw /\
  Z.land (Z.shiftr id 0) 0xFF = ssh.
Proof.
  intros Hcf Hst Hbits Hssw Hssh id. subst id. unfold pack_id.
  change 0xF with (Z.ones 4). change 0xFF with (Z.ones 8).
  rewrite !Z.land_ones, !Z.shiftr_div_pow2 by lia.
  change (2 ^ 28) with 268435456. change (2 ^ 24) with 16777216.
  change (2 ^ 16) with 65536. change (2 ^ 8) with 256. change (2 ^ 4) with 16.
  change (2 ^ 0) with 1.
  repeat split; Z.div_mod_to_equations; lia.
Qed.

Lemma pack_id_not_v3 cf st bits ssw ssh :
  0 < cf <= 15 -> 0 <= st <= 15 -> 0 <= bits < 256 -> 0 <= ssw < 256 -> 0 <= ssh < 256 ->
  is_v3_id (pack_id cf st bits ssw ssh) = false.
Proof.
  intros Hcf Hst Hbits Hssw Hssh. unfold is_v3_id, pack_id.
  replace (cf * 268435456 + st * 16777216 + bits * 65536 + ssw * 256 + ssh)
    with ((cf * 16 + st) * 16777216 + (bits * 65536 + ssw * 256 + ssh)) by lia.
  rewrite land_top_byte by lia.
  destruct (Z.eqb_spec ((cf * 16 + st) * 16777216) 0); [lia|reflexivity].
Qed.

(** X8. The identifier of a format names the format: for a valid format
    of a colour family other than [cfUndefined], whose colour family and
    sample type fit the four bits that the identifier has for each,
    [queryVideoFormatID] returns an identifier with a top byte that is
    not zero, and [queryVideoFormatByID] makes of it the very format that
    [queryVideoFormat] makes of the five values. *)
Theorem videoFormatID_roundtrip (t : FormatTable) (cf st bits ssw ssh : Z) :
  0 < cf <= 15 -> 0 <= st <= 15 -> cf <> cfUndefined ->
  isValidVideoFormat cf st bits ssw ssh = true ->
  let id := queryVideoFormatID cf st bits ssw ssh in
  16777216 <= id < 4294967296 /\
  queryVideoFormatByID t id = queryVideoFormat cf st bits ssw ssh /\
  exists bps,
    queryVideoFormat cf st bits ssw ssh =
      Ok (true, mkVSVideoFormat cf st bits bps ssw ssh
                  (if (cf =? cfGray) || (cf =? cfCompatBGR32) || (cf =? cfCompatYUY2)
                   then 1 else 3)) /\
    smallest_pow2_bytes bps bits.
Proof.
  intros Hcf Hst Hdef Hv id.
  destruct (isValidVideoFormat_defined _ _ _ _ _ Hv Hdef) as (_ & _ & Hbits & Hssw & Hssh).
  subst id. rewrite queryVideoFormatID_value by (assumption || lia).
  split; [unfold pack_id; lia|]. split.
  - unfold queryVideoFormatByID. rewrite pack_id_not_v3 by (assumption || lia).
    destruct (unpack_id cf st bits ssw ssh) as (-> & -> & -> & -> & ->);
      [lia..|reflexivity].
  - unfold queryVideoFormat. destruct (Z.eqb_spec cf cfUndefined); [contradiction|].
    rewrite Hv. cbn [negb]. rewrite (bytesPerSample_loop_video _ Hbits).
    cbn [mbind Outcome_bind obind]. eexists. split; [reflexivity|].
    unfold smallest_pow2_bytes.
    destruct (Z.leb_spec bits 8); [|destruct (Z.leb_spec bits 16)].
    + split; [exists 0; split; [lia|reflexivity]|]. split; [lia|].
      intros k Hk _. assert (2 ^ 0 <= 2 ^ k) by (apply Z.pow_le_mono_r; lia). lia.
    + split; [exists 1; split; [lia|reflexivity]|]. split; [lia|].
      intros k Hk Hle. destruct (Z.eq_dec k 0) as [->|]; [simpl in Hle; lia|].
      assert (2 ^ 1 <= 2 ^ k) by (apply Z.pow_le_mono_r; lia). lia.
    + split; [exists 2; split; [lia|reflexivity]|]. split; [lia|].
      intros k Hk Hle. destruct (Z.eq_dec k 0) as [->|]; [simpl in Hle; lia|].
      destruct (Z.eq_dec k 1) as [->|]; [simpl in Hle; lia|].
      assert (2 ^ 2 <= 2 ^ k) by (apply Z.pow_le_mono_r; lia). lia.
Qed.

End FormatFacts.

Section AudioFrameFacts.

Context {P : Platform}.

Lemma sum_Z_app l1 l2 : sum_Z (l1 ++ l2) = sum_Z l1 + sum_Z l2.
Proof.
  unfold sum_Z. induction l1 as [|x l1 IH]; [reflexivity|].
  cbn [app fold_right]. rewrite IH. lia.
Qed.

Lemma sum_Z_constant (f : Z -> Z) c m :
  (forall n, 0 <= n < Z.of_nat m -> f n = c) ->
  sum_Z (map f (map Z.of_nat (seq 0 m))) = c * Z.of_nat m.
Proof.
  induction m as [|m IH]; intros Hf; [cbn; lia|].
  rewrite seq_S, !map_app, sum_Z_app, IH by (intros n Hn; apply Hf; lia).
  cbn [seq map sum_Z fold_right Nat.add]. rewrite Hf by lia. lia.
Qed.

(** The outputs that the audio constructor stores. *)
Lemma audio_outputs_stored name ai n acc out :
  audio_outputs name ai n acc = Ok (inr out) ->
  exists outs, out = acc ++ outs /\
    Forall (fun info => 1 <= numSamples info <= INT_MAX * 3072 /\
                        numFrames info = (numSamples info + 3071) / 3072) outs.
Proof.
  revert ai acc. induction n as [|n IH]; intros ai acc; simpl.
  - intros [= <-]. exists []. split; [rewrite app_nil_r; reflexivity|constructor].
  - destruct ai as [|info rest]; [discriminate|].
    destruct (isValidAudioInfo info) eqn:Hvalid; [|discriminate]. cbn [negb].
    rewrite maxSamples_value.
    destruct (Z.ltb_spec (INT_MAX * 3072) (numSamples info)) as [|Hle]; [discriminate|].
    intros H. apply IH in H as (outs & -> & Hall).
    assert (H1 : 1 <= numSamples info).
    { unfold isValidAudioInfo in Hvalid. destruct (negb _); [discriminate|].
      destruct (Z.ltb_spec (numSamples info) 1); [discriminate|]. lia. }
    destruct (audio_numFrames (numSamples info) (conj H1 Hle)) as [Hq _].
    eexists (_ :: outs). split; [rewrite <- app_assoc; reflexivity|].
    constructor; [|exact Hall]. cbn [numSamples numFrames set_numFrames].
    split; [lia|exact Hq].
Qed.

Lemma expectedSamples_inner info n :
  1 <= numSamples info <= INT_MAX * 3072 ->
  numFrames info = (numSamples info + 3071) / 3072 ->
  0 <= n < numFrames info - 1 ->
  expectedSamples info n = 3072.
Proof.
  intros HN HF Hn. unfold expectedSamples, INT_MAX in *.
  assert (HFr : 1 <= numFrames info <= 2 ^ 31 - 1)
    by (rewrite HF; Z.div_mod_to_equations; lia).
  rewrite (wraps_small 32 (numFrames info - 1)) by (change (2 ^ (32 - 1)) with (2 ^ 31); lia).
  destruct (Z.ltb_spec n (numFrames info - 1)); [|lia]. reflexivity.
Qed.

Lemma expectedSamples_last info :
  1 <= numSamples info <= INT_MAX * 3072 ->
  numFrames info = (numSamples info + 3071) / 3072 ->
  expectedSamples info (numFrames info - 1) =
    numSamples info - 3072 * (numFrames info - 1) /\
  1 <= expectedSamples info (numFrames info - 1) <= 3072.
Proof.
  intros HN HF. unfold expectedSamples, INT_MAX, VS_AUDIO_FRAME_SAMPLES in *.
  assert (HFr : 1 <= numFrames info <= 2 ^ 31 - 1)
    by (rewrite HF; Z.div_mod_to_equations; lia).
  rewrite (wraps_small 32 (numFrames info - 1)) by (change (2 ^ (32 - 1)) with (2 ^ 31); lia).
  destruct (Z.ltb_spec (numFrames info - 1) (numFrames info - 1)); [lia|].
  rewrite Z.rem_mod_nonneg by lia.
  destruct (Z.eqb_spec (numSamples info mod 3072) 0) as [E|E]; cbn [negb].
  - rewrite (wraps_small 32 3072) by (cbn; lia).
    rewrite HF. Z.div_mod_to_equations. lia.
  - rewrite wraps_small
      by (change (2 ^ (32 - 1)) with (2 ^ 31); Z.div_mod_to_equations; lia).
    rewrite HF. Z.div_mod_to_equations. lia.
Qed.

(** X9. The frames of an audio output add up to its samples: for every
    output of a node that the audio constructor has built, the numbers of
    samples that [getFrameInternal] expects of the frames
    [0 .. numFrames-1] are between 1 and 3072 each, 3072 for every frame
    but the last, and their sum is [numSamples]; a frame that passes the
    checks of [getFrameInternal] has the expected number of samples. *)
Theorem audio_frames_cover_samples (name : string) (ai : list VSAudioInfo)
    (numOutputs filterMode flags apiMajor : Z) (notify : bool) (instances : Z)
    (node : VSNode) :
  fst (VSNode_audio name ai numOutputs filterMode flags apiMajor notify instances)
    = Ok (inr node) ->
  forall info, In info (node_ai node) ->
    (forall n, 0 <= n < numFrames info -> 1 <= expectedSamples info n <= 3072) /\
    (forall n, 0 <= n < numFrames info - 1 -> expectedSamples info n = 3072) /\
    sum_Z (map (expectedSamples info) (frame_numbers (numFrames info))) = numSamples info /\
    (forall n fi len, 0 <= n < numFrames info ->
       check_audio_frame name info n fi len = Ok tt ->
       len = expectedSamples info n /\ 1 <= len <= 3072).
Proof.
  unfold VSNode_audio.
  destruct (negb (Z.land flags _ =? 0)); [discriminate|].
  destruct (negb (Z.land flags nfIsCache =? 0) && (Z.land flags nfNoCache =? 0));
    [discriminate|].
  destruct (numOutputs <? 1); [discriminate|]. cbn [fst].
  destruct (audio_outputs name ai (Z.to_nat numOutputs) []) as [[msg|infos]| | |] eqn:E;
    cbn [mbind Outcome_bind obind]; try discriminate.
  intros [= <-]. cbn [node_ai].
  apply audio_outputs_stored in E as (outs & -> & Hall). cbn [app].
  intros info Hin. rewrite Forall_forall in Hall.
  apply list_elem_of_In in Hin. destruct (Hall info Hin) as [HN HF].
  pose proof (expectedSamples_last info HN HF) as [Hlast Hrange].
  assert (HFr : 1 <= numFrames info)
    by (rewrite HF; unfold INT_MAX in HN; Z.div_mod_to_equations; lia).
  assert (Hall_range : forall n, 0 <= n < numFrames info ->
                                 1 <= expectedSamples info n <= 3072).
  { intros n Hn. destruct (Z.eq_dec n (numFrames info - 1)) as [->|Hne]; [exact Hrange|].
    rewrite (expectedSamples_inner info n HN HF) by lia. lia. }
  split; [exact Hall_range|split; [|split]]; cycle 2.
  - intros n fi len Hn. unfold check_audio_frame.
    destruct (negb _ || negb _ || negb _); [discriminate|].
    destruct (Z.eqb_spec (expectedSamples info n) len) as [<-|]; [|discriminate].
    intros _. split; [reflexivity|apply Hall_range, Hn].
  - intros n Hn. apply (expectedSamples_inner info n HN HF Hn).
  - unfold frame_numbers.
    replace (Z.to_nat (numFrames info)) with (S (Z.to_nat (numFrames info - 1))) by lia.
    rewrite seq_S, !map_app, sum_Z_app.
    rewrite (sum_Z_constant _ 3072)
      by (intros n Hn; apply (expectedSamples_inner info n HN HF); lia).
    cbn [seq map sum_Z fold_right Nat.add].
    rewrite Z2Nat.id by lia. rewrite Hlast. lia.
Qed.

End AudioFrameFacts.

Section CoreFacts.

Context {P : Platform} {Hd : Headers}.

(** *** Errors of a frame context *)

Lemma setErrors_in_error ctx msgs :
  ctx_error ctx = true ->
  setErrors ctx msgs = (repeat true (length msgs), ctx).
Proof.
  revert ctx. induction msgs as [|msg rest IH]; intros ctx Herr; [reflexivity|].
  cbn [setErrors VSFrameContext_setError]. rewrite Herr. cbn [negb].
  assert (E : mkVSFrameContext true (errorMessage ctx) = ctx)
    by (destruct ctx; cbn in *; subst; reflexivity).
  rewrite E, (IH ctx Herr). reflexivity.
Qed.

(** X10. The first error of a frame context stays: of a run of
    [setError] calls on a context without an error, the first call
    returns [false] and sets the message, every later call returns [true]
    and changes nothing. *)
Theorem setError_first_wins (ctx : VSFrameContext) (msg : string) (rest : list string) :
  ctx_error ctx = false ->
  setErrors ctx (msg :: rest) =
    (false :: repeat true (length rest), mkVSFrameContext true msg).
Proof.
  intros Herr. cbn [setErrors VSFrameContext_setError]. rewrite Herr. cbn [negb].
  rewrite setErrors_in_error by reflexivity. reflexivity.
Qed.

(** *** Configuration of a plugin *)

(** X11. A plugin is configured once. The first [configPlugin] with
    flags that are in order succeeds; a forced identifier or namespace of
    the plugin wins over the one passed; an API version of [2^16] or more
    is taken apart into major and minor version, a smaller one is the
    major version as it is; and every later [configPlugin] ends the
    process. *)
Theorem configPlugin_once (p : PluginConfig) (identifier pluginNamespace name : string)
    (version apiVersion flags : Z) :
  hasConfig p = false ->
  Z.land flags (Z.lnot pcReadOnly) = 0 ->
  exists p',
    configPlugin p identifier pluginNamespace name version apiVersion flags = Ok (true, p') /\
    cfg_id p' = (if string_empty (cfg_id p) then identifier else cfg_id p) /\
    fnamespace p' = (if string_empty (fnamespace p) then pluginNamespace else fnamespace p) /\
    (forall major minor,
        1 <= major -> 0 <= minor < 65536 -> apiVersion = major * 65536 + minor ->
        cfg_apiMajor p' = major /\ apiMinor p' = minor) /\
    (apiVersion < 65536 -> cfg_apiMajor p' = apiVersion /\ apiMinor p' = apiMinor p) /\
    (forall identifier' pluginNamespace' name' version' apiVersion' flags',
        exists msg,
          configPlugin p' identifier' pluginNamespace' name' version' apiVersion' flags'
            = Fatal msg).
Proof.
  intros Hcfg Hflags. unfold configPlugin at 1. rewrite Hcfg, Hflags. cbn [Z.eqb negb].
  destruct (Z.leb_spec 0x10000 apiVersion) as [Hge|Hlt].
  - eexists. split; [reflexivity|]. cbn [cfg_id fnamespace cfg_apiMajor apiMinor].
    split; [reflexivity|]. split; [reflexivity|]. split; [|split].
    + intros major minor Hmajor Hminor ->.
      rewrite Z.shiftr_div_pow2 by lia. change 0xFFFF with (Z.ones 16).
      rewrite Z.land_ones by lia. change (2 ^ 16) with 65536.
      split; Z.div_mod_to_equations; lia.
    + intros Hsmall. change 0x10000 with 65536 in Hge. lia.
    + intros. unfold configPlugin. cbn [hasConfig]. eexists. reflexivity.
  - eexists. split; [reflexivity|]. cbn [cfg_id fnamespace cfg_apiMajor apiMinor].
    split; [reflexivity|]. split; [reflexivity|]. split; [|split].
    + intros major minor Hmajor Hminor ->. change 0x10000 with 65536 in Hlt. lia.
    + intros _. split; reflexivity.
    + intros. unfold configPlugin. cbn [hasConfig]. eexists. reflexivity.
Qed.

(** *** The plugins of a core *)

Lemma PluginMap_insert_keys m k p :
  map fst (PluginMap_insert m k p) = set_insert k (map fst m).
Proof.
  induction m as [|[k' q] m IH]; [reflexivity|].
  cbn [PluginMap_insert map fst set_insert].
  destruct (String.compare k k'); cbn [map fst]; [reflexivity|reflexivity|].
  rewrite IH. reflexivity.
Qed.

Lemma compare_Eq_eqb a b : String.compare a b = Eq <-> String.eqb a b = true.
Proof.
  split; intros H.
  - apply String.compare_eq_iff in H. subst. apply String.eqb_refl.
  - apply String.eqb_eq in H. subst.
    apply OrderedTypeEx.String_as_OT.cmp_eq. reflexivity.
Qed.

Lemma PluginMap_find_None m k :
  PluginMap_find m k = None <-> ~ In k (map fst m).
Proof.
  induction m as [|[k' q] m IH]; cbn [PluginMap_find map fst]; [simpl; tauto|].
  destruct (String.eqb_spec k k') as [->|Hne].
  - split; [discriminate|]. intros H. exfalso. apply H. left. reflexivity.
  - rewrite IH. simpl. intuition congruence.
Qed.

Lemma PluginMap_insert_In m k p kq :
  PluginMap_find m k = None ->
  In kq (PluginMap_insert m k p) <-> kq = (k, p) \/ In kq m.
Proof.
  induction m as [|[k' q] m IH]; cbn [PluginMap_insert PluginMap_find]; [simpl; intuition|].
  destruct (String.eqb_spec k k') as [->|Hne]; [discriminate|]. intros Hnone.
  destruct (String.compare k k') eqn:E.
  - apply String.compare_eq_iff in E. contradiction.
  - simpl. intuition.
  - simpl. rewrite (IH Hnone). intuition.
Qed.

Lemma PluginMap_find_insert m k p k' :
  PluginMap_find m k = None ->
  PluginMap_find (PluginMap_insert m k p) k' =
    if String.eqb k' k then Some p else PluginMap_find m k'.
Proof.
  induction m as [|[k0 q] m IH]; cbn [PluginMap_insert PluginMap_find]; [reflexivity|].
  destruct (String.eqb_spec k k0) as [->|Hne]; [discriminate|]. intros Hnone.
  destruct (String.compare k k0) eqn:E.
  - apply String.compare_eq_iff in E. contradiction.
  - reflexivity.
  - cbn [PluginMap_find]. rewrite (IH Hnone).
    destruct (String.eqb_spec k' k0) as [->|]; [|reflexivity].
    destruct (String.eqb_spec k0 k); [congruence|reflexivity].
Qed.

Lemma getPluginByNamespace_None m ns :
  getPluginByNamespace m ns = None <->
  ~ In ns (map (fun kp => pe_namespace (snd kp)) m).
Proof.
  induction m as [|[k q] m IH]; cbn [getPluginByNamespace map snd]; [simpl; tauto|].
  destruct (String.eqb_spec (pe_namespace q) ns) as [->|Hne].
  - split; [discriminate|]. intros H. exfalso. apply H. left. reflexivity.
  - rewrite IH. simpl. intuition congruence.
Qed.

Lemma getPluginByNamespace_insert m k p :
  PluginMap_find m k = None ->
  getPluginByNamespace m (pe_namespace p) = None ->
  getPluginByNamespace (PluginMap_insert m k p) (pe_namespace p) = Some p.
Proof.
  induction m as [|[k0 q] m IH];
    cbn [PluginMap_insert PluginMap_find getPluginByNamespace snd].
  - intros _ _. rewrite String.eqb_refl. reflexivity.
  - destruct (String.eqb_spec k k0) as [->|Hne]; [discriminate|]. intros Hnone.
    destruct (String.eqb_spec (pe_namespace q) (pe_namespace p)); [discriminate|].
    intros Hns. destruct (String.compare k k0) eqn:E.
    + apply String.compare_eq_iff in E. contradiction.
    + cbn [getPluginByNamespace snd]. rewrite String.eqb_refl. reflexivity.
    + cbn [getPluginByNamespace snd].
      destruct (String.eqb_spec (pe_namespace q) (pe_namespace p)); [contradiction|].
      apply IH; assumption.
Qed.

Lemma PluginMap_insert_namespaces m k p :
  PluginMap_find m k = None ->
  List.NoDup (map (fun kp => pe_namespace (snd kp)) m) ->
  ~ In (pe_namespace p) (map (fun kp => pe_namespace (snd kp)) m) ->
  List.NoDup (map (fun kp => pe_namespace (snd kp)) (PluginMap_insert m k p)).
Proof.
  induction m as [|[k0 q] m IH]; cbn [PluginMap_insert PluginMap_find map snd].
  - intros _ _ _. constructor; [intros []|constructor].
  - destruct (String.eqb_spec k k0) as [->|Hne]; [discriminate|]. intros Hnone Hnd Hnew.
    destruct (String.compare k k0) eqn:E.
    + apply String.compare_eq_iff in E. contradiction.
    + cbn [map snd]. constructor; assumption.
    + cbn [map snd]. inversion Hnd as [|? ? Hq Hnd']; subst.
      constructor.
      * intros Hin. apply in_map_iff in Hin as (kq & Heq & Hin).
        apply (PluginMap_insert_In _ _ _ _ Hnone) in Hin as [->|Hin].
        -- cbn [snd] in Heq. apply Hnew. left. symmetry. exact Heq.
        -- apply Hq. rewrite <- Heq. apply (in_map (fun kp => pe_namespace (snd kp))), Hin.
      * apply IH; [exact Hnone|exact Hnd'|]. intros Hin. apply Hnew. right. exact Hin.
Qed.

Lemma loadPlugin_spec (plugins : PluginMap) (filename : string) (p : PluginEntry) :
  plugins_ok plugins ->
  match loadPlugin plugins filename p with
  | inl _ =>
      getPluginByID plugins (pe_id p) <> None \/
      getPluginByNamespace plugins (pe_namespace p) <> None
  | inr plugins' =>
      getPluginByID plugins (pe_id p) = None /\
      getPluginByNamespace plugins (pe_namespace p) = None /\
      plugins_ok plugins' /\
      exists p1,
        pe_id p1 = pe_id p /\ pe_namespace p1 = pe_namespace p /\
        pe_filename p1 = pe_filename p /\
        getPluginByID plugins' (pe_id p) = Some p1 /\
        getPluginByNamespace plugins' (pe_namespace p) = Some p1 /\
        forall other, other <> pe_id p ->
                      getPluginByID plugins' other = getPluginByID plugins other
  end.
Proof.
  intros (Hsorted & Hkeys & Hns). unfold loadPlugin, getPluginByID.
  destruct (PluginMap_find plugins (pe_id p)) as [q|] eqn:Hid; [left; discriminate|].
  destruct (getPluginByNamespace plugins (pe_namespace p)) as [q|] eqn:Hnsp;
    [right; discriminate|].
  set (p1 := if String.eqb (pe_namespace p) "avs"
                && String.eqb (pe_id p) "com.vapoursynth.avisynth"
             then mkPluginEntry (pe_id p) (pe_namespace p) (pe_filename p) true else p).
  assert (Hp1 : pe_id p1 = pe_id p /\ pe_namespace p1 = pe_namespace p /\
                pe_filename p1 = pe_filename p).
  { subst p1. destruct (_ && _); repeat split; reflexivity. }
  destruct Hp1 as (Hid1 & Hns1 & Hfile1).
  split; [reflexivity|]. split; [reflexivity|]. split.
  - split; [|split].
    + rewrite PluginMap_insert_keys. apply set_insert_sorted, Hsorted.
    + apply Forall_forall. intros kq Hin. apply list_elem_of_In in Hin.
      apply (PluginMap_insert_In _ _ _ _ Hid) in Hin as [->|Hin].
      * cbn [fst snd]. symmetry. exact Hid1.
      * rewrite Forall_forall in Hkeys. apply Hkeys, list_elem_of_In, Hin.
    + apply PluginMap_insert_namespaces; [exact Hid|exact Hns|].
      rewrite Hns1. apply getPluginByNamespace_None, Hnsp.
  - exists p1. split; [exact Hid1|]. split; [exact Hns1|]. split; [exact Hfile1|]. split.
    + rewrite (PluginMap_find_insert _ _ _ _ Hid), String.eqb_refl. reflexivity.
    + split.
      * rewrite <- Hns1. apply getPluginByNamespace_insert; [exact Hid|].
        rewrite Hns1. exact Hnsp.
      * intros other Hother. rewrite (PluginMap_find_insert _ _ _ _ Hid).
        destruct (String.eqb_spec other (pe_id p)); [contradiction|reflexivity].
Qed.

(** X12. [loadPlugin] keeps the plugins of a core in order. A plugin
    whose identifier or namespace is taken is refused; otherwise it is
    filed, identifiers and namespaces stay unique, the plugin is found
    under its identifier and under its namespace, and every other
    identifier is found as before. *)
Theorem loadPlugin_unique (plugins : PluginMap) (filename : string) (p : PluginEntry) :
  plugins_ok plugins ->
  match loadPlugin plugins filename p with
  | inl _ =>
      getPluginByID plugins (pe_id p) <> None \/
      getPluginByNamespace plugins (pe_namespace p) <> None
  | inr plugins' =>
      getPluginByID plugins (pe_id p) = None /\
      getPluginByNamespace plugins (pe_namespace p) = None /\
      plugins_ok plugins' /\
      exists p1,
        pe_id p1 = pe_id p /\ pe_namespace p1 = pe_namespace p /\
        pe_filename p1 = pe_filename p /\
        getPluginByID plugins' (pe_id p) = Some p1 /\
        getPluginByNamespace plugins' (pe_namespace p) = Some p1 /\
        forall other, other <> pe_id p ->
                      getPluginByID plugins' other = getPluginByID plugins other
  end.
Proof. apply loadPlugin_spec. Qed.

Lemma plugins_ok_nil : plugins_ok [].
Proof. repeat split; constructor. Qed.

Lemma loadPlugins_ok plugins ps : plugins_ok plugins -> plugins_ok (loadPlugins plugins ps).
Proof.
  revert plugins. induction ps as [|[filename p] ps IH]; intros plugins Hok; [exact Hok|].
  cbn [loadPlugins]. pose proof (loadPlugin_spec plugins filename p Hok) as H.
  destruct (loadPlugin plugins filename p) as [msg|plugins'].
  - apply IH, Hok.
  - apply IH. apply H.
Qed.

Lemma PluginMap_next_at l1 k q l2 :
  List.NoDup (map fst (l1 ++ (k, q) :: l2)) ->
  PluginMap_next (l1 ++ (k, q) :: l2) k =
    match l2 with
    | [] => None
    | (_, q') :: _ => Some q'
    end.
Proof.
  induction l1 as [|[k1 q1] l1 IH]; cbn [app PluginMap_next map fst].
  - intros _. rewrite String.eqb_refl. reflexivity.
  - intros Hnd. inversion Hnd as [|? ? Hnotin Hnd']; subst.
    destruct (String.eqb_spec k k1) as [->|Hne].
    + exfalso. apply Hnotin. rewrite map_app. apply in_or_app. right. left. reflexivity.
    + apply IH, Hnd'.
Qed.

Lemma plugin_walk_suffix l2 :
  forall l1 k q fuel,
    List.NoDup (map fst (l1 ++ (k, q) :: l2)) ->
    Forall (fun kp => fst kp = pe_id (snd kp)) (l1 ++ (k, q) :: l2) ->
    (length l2 < fuel)%nat ->
    plugin_walk fuel (l1 ++ (k, q) :: l2) (Some q) = map snd l2.
Proof.
  induction l2 as [|[k' q'] l2 IH]; intros l1 k q fuel Hnd Hkeys Hfuel;
    (destruct fuel as [|fuel]; [cbn [length] in Hfuel; lia|]);
    cbn [plugin_walk getNextPlugin].
  - assert (Hk : pe_id q = k).
    { rewrite Forall_forall in Hkeys. symmetry.
      apply (Hkeys (k, q)), list_elem_of_In, in_or_app. right. left. reflexivity. }
    rewrite Hk, (PluginMap_next_at _ _ _ _ Hnd). reflexivity.
  - assert (Hk : pe_id q = k).
    { rewrite Forall_forall in Hkeys. symmetry.
      apply (Hkeys (k, q)), list_elem_of_In, in_or_app. right. left. reflexivity. }
    rewrite Hk, (PluginMap_next_at _ _ _ _ Hnd). cbn [map snd]. f_equal.
    replace (l1 ++ (k, q) :: (k', q') :: l2) with ((l1 ++ [(k, q)]) ++ (k', q') :: l2)
      in * by (rewrite <- app_assoc; reflexivity).
    apply IH; [exact Hnd|exact Hkeys|cbn [length] in Hfuel; lia].
Qed.

Lemma plugin_walk_all plugins fuel :
  plugins_ok plugins -> (length plugins < fuel)%nat ->
  plugin_walk fuel plugins None = map snd plugins.
Proof.
  intros (Hsorted & Hkeys & _) Hfuel. destruct plugins as [|[k q] rest].
  - destruct fuel; reflexivity.
  - destruct fuel as [|fuel]; [lia|]. cbn [plugin_walk getNextPlugin map snd]. f_equal.
    apply (plugin_walk_suffix rest [] k q fuel).
    + apply sorted_NoDup, Hsorted.
    + exact Hkeys.
    + cbn [length] in Hfuel. lia.
Qed.

(** X13. In a core whose plugins have all come through [loadPlugin], the
    walk with [getNextPlugin] from a null pointer on visits every plugin
    once, in the order of the identifiers, and then ends with a null
    pointer; no two plugins share an identifier or a namespace. *)
Theorem getNextPlugin_visits_all (ps : list (string * PluginEntry)) (fuel : nat) :
  let plugins := loadPlugins [] ps in
  plugins_ok plugins /\
  ((length plugins < fuel)%nat -> plugin_walk fuel plugins None = map snd plugins).
Proof.
  intros plugins. assert (Hok : plugins_ok plugins) by apply loadPlugins_ok, plugins_ok_nil.
  split; [exact Hok|]. intros Hfuel. apply plugin_walk_all; assumption.
Qed.

End CoreFacts.

Section PoolFacts.

Context {P : Platform}.

(** *** Freeing and allocating again *)

Lemma set_buffers_same m : set_buffers m (buffers m) (unusedBufferSize m) = m.
Proof. destruct m; reflexivity. Qed.

Lemma set_buffers_twice m b1 u1 b2 u2 :
  set_buffers (set_buffers m b1 u1) b2 u2 = set_buffers m b2 u2.
Proof. reflexivity. Qed.

(** Without pressure on the limit, [freeBuffer] files the block and that
    is all. *)
Lemma freeBuffer_within_limit m os buf h :
  blocks os !! (buf - alignment) = Some h ->
  0 < size h -> 0 <= used m -> 0 <= unusedBufferSize m ->
  used m + unusedBufferSize m + size h <= maxMemoryUse m ->
  maxMemoryUse m <= SIZE_MAX ->
  freeBuffer m os buf =
    Ok (set_buffers m (emplace (buffers m) (size h, buf - alignment))
          (unusedBufferSize m + size h), os).
Proof.
  intros Hhdr Hpos Hused Hunused Hfit Hmax. unfold freeBuffer. rewrite Hhdr.
  destruct (Z.eqb_spec (size h) 0); [lia|].
  rewrite (sz_small (unusedBufferSize m + size h)) by lia.
  set (m1 := set_buffers m _ _).
  assert (Hcond : evict_condition (used m1) m1 = false).
  { unfold evict_condition. subst m1. cbn [used set_buffers unusedBufferSize maxMemoryUse].
    rewrite sz_small by lia.
    destruct (Z.ltb_spec (maxMemoryUse m) (used m + (unusedBufferSize m + size h))); [lia|].
    reflexivity. }
  destruct (length (buffers m1)); cbn [evict]; rewrite Hcond; reflexivity.
Qed.

Lemma lower_bound_emplace_new l s p :
  (forall e, In e l -> fst e <> s) ->
  exists i, lower_bound (emplace l (s, p)) s = Some (i, (s, p)) /\
            erase (emplace l (s, p)) i = l.
Proof.
  induction l as [|[k v] l IH]; intros Hne; cbn [emplace lower_bound fst].
  - exists O. rewrite Z.leb_refl. split; reflexivity.
  - assert (Hk : k <> s) by (apply (Hne (k, v)); left; reflexivity).
    destruct (Z.leb_spec k s) as [Hle|Hgt].
    + cbn [lower_bound]. destruct (Z.leb_spec s k) as [|_]; [lia|].
      destruct IH as (i & -> & Her); [intros e He; apply Hne; right; exact He|].
      exists (S i). split; [reflexivity|]. cbn [erase]. rewrite Her. reflexivity.
    + cbn [lower_bound]. rewrite Z.leb_refl. exists O. split; reflexivity.
Qed.

Lemma lower_bound_emplace l s p :
  key_sorted l ->
  exists i q, lower_bound (emplace l (s, p)) s = Some (i, (s, q)) /\
              nth_error (emplace l (s, p)) i = Some (s, q).
Proof.
  intros Hs. pose proof (key_sorted_emplace l (s, p) Hs) as Hs'.
  destruct (lower_bound (emplace l (s, p)) s) as [[i [k q]]|] eqn:E.
  - destruct (lower_bound_Some _ _ _ _ Hs' E) as (Hnth & Hin & Hge & Hmin).
    cbn [fst] in *.
    assert (k <= s).
    { apply (Hmin (s, p)); [apply In_emplace; left; reflexivity|cbn; lia]. }
    assert (k = s) by lia. subst k. exists i, q. split; [reflexivity|exact Hnth].
  - exfalso.
    assert (Hin : In (s, p) (emplace l (s, p))) by (apply In_emplace; left; reflexivity).
    pose proof (lower_bound_None _ _ _ E Hin) as Hlt. cbn in Hlt. lia.
Qed.

(** X14. A block that is freed comes back. In a pool that stays within
    its limit, [freeBuffer] files the block without a call to the
    operating system, and a request of the size of the block that follows
    is served from the map, again without such a call, by a block of
    exactly that size; [unusedBufferSize] is then what it was. When no
    block of that size was in the map before, it is the freed block that
    comes back, and the pool is as it was before the two calls. *)
Theorem freeBuffer_allocBuffer_roundtrip (m : MemoryUse) (os : OS) (buf : Z)
    (h : BlockHeader) :
  key_sorted (buffers m) ->
  blocks os !! (buf - alignment) = Some h ->
  0 < size h -> size h + size h / 8 <= SIZE_MAX ->
  0 <= used m -> 0 <= unusedBufferSize m ->
  used m + unusedBufferSize m + size h <= maxMemoryUse m ->
  maxMemoryUse m <= SIZE_MAX ->
  exists m1 p m2,
    freeBuffer m os buf = Ok (m1, os) /\
    allocBuffer m1 os (size h) = Ok (p, m2, os) /\
    In (size h, p - alignment) (buffers m1) /\
    unusedBufferSize m2 = unusedBufferSize m /\
    ((forall e, In e (buffers m) -> fst e <> size h) -> p = buf /\ m2 = m).
Proof.
  intros Hs Hhdr Hpos Hfit8 Hused Hunused Hfit Hmax.
  rewrite (freeBuffer_within_limit _ _ _ _ Hhdr Hpos Hused Hunused Hfit Hmax).
  set (s := size h) in *. set (b := buf - alignment) in *.
  destruct (lower_bound_emplace (buffers m) s b Hs) as (i & q & Hlb & Hnth).
  assert (Hgood : isGoodFit s s = true).
  { apply isGoodFit_spec; [lia|exact Hfit8|]. unfold good_fit.
    assert (0 <= s / 8) by (apply Z.div_pos; lia). lia. }
  eexists _, (q + alignment), _. split; [reflexivity|].
  unfold allocBuffer. cbn [buffers set_buffers unusedBufferSize]. rewrite Hlb, Hgood.
  split; [reflexivity|].
  replace (q + alignment - alignment) with q by lia.
  split; [apply (nth_error_In _ _ Hnth)|].
  split; [cbn [unusedBufferSize set_buffers]; rewrite sz_small by lia; lia|].
  intros Hnew. destruct (lower_bound_emplace_new (buffers m) s b Hnew) as (i' & Hlb' & Her).
  rewrite Hlb in Hlb'. injection Hlb' as -> ->.
  split; [subst b; lia|].
  rewrite set_buffers_twice, Her.
  replace (sz (unusedBufferSize m + s - s)) with (unusedBufferSize m)
    by (rewrite sz_small by lia; lia).
  apply set_buffers_same.
Qed.


(** *** What [allocBuffer] hands out *)

Lemma pool_block_live m os p :
  pool_consistent m os -> In p (map snd (buffers m)) -> is_Some (blocks os !! p).
Proof.
  intros (_ & _ & Hblocks) Hin. apply in_map_iff in Hin as (e & <- & He).
  destruct (Hblocks e He) as (_ & h & Hh & _). exists h. exact Hh.
Qed.

Lemma pool_consistent_erase m os i first second :
  pool_consistent m os -> unusedBufferSize m <= SIZE_MAX ->
  nth_error (buffers m) i = Some (first, second) ->
  pool_consistent (set_buffers m (erase (buffers m) i) (sz (unusedBufferSize m - first))) os.
Proof.
  intros (Hunused & Hnd & Hblocks) Hmax Hnth.
  assert (Hsum : 0 <= sum_sizes (erase (buffers m) i)).
  { apply sum_sizes_nonneg. intros e He. apply Hblocks, (In_erase _ _ _ He). }
  pose proof (sum_sizes_erase _ _ _ _ Hnth) as Her.
  assert (0 < first) by (apply (Hblocks (first, second)), (nth_error_In _ _ Hnth)).
  split; [|split]; cbn [unusedBufferSize buffers set_buffers].
  - rewrite sz_small by lia. lia.
  - apply (NoDup_erase _ _ _ _ Hnd Hnth).
  - intros e He. apply Hblocks, (In_erase _ _ _ He).
Qed.

Lemma pool_consistent_fresh m os os' p h :
  pool_consistent m os -> blocks os !! p = None ->
  blocks os' = <[p := h]> (blocks os) ->
  pool_consistent m os' /\ ~ In p (map snd (buffers m)).
Proof.
  intros Hc Hfresh Hos'.
  assert (Hnot : ~ In p (map snd (buffers m))).
  { intros Hin. destruct (pool_block_live _ _ _ Hc Hin) as [h' Hh']. congruence. }
  split; [|exact Hnot]. destruct Hc as (Hunused & Hnd & Hblocks).
  split; [exact Hunused|]. split; [exact Hnd|].
  intros e He. destruct (Hblocks e He) as (Hpos & h' & Hh' & Hsize).
  split; [exact Hpos|]. exists h'. split; [|exact Hsize].
  rewrite Hos', lookup_insert_ne; [exact Hh'|].
  intros ->. apply Hnot. apply in_map, He.
Qed.

Lemma allocBuffer_block m os bytes p m' os' :
  os_fresh ->
  pool_consistent m os -> key_sorted (buffers m) -> largePageEnabled m = false ->
  unusedBufferSize m <= SIZE_MAX ->
  0 <= bytes -> bytes + bytes / 8 <= SIZE_MAX ->
  allocBuffer m os bytes = Ok (p, m', os') ->
  (exists h, blocks os' !! (p - alignment) = Some h /\
             bytes <= size h <= bytes + bytes / 8) /\
  ~ In (p - alignment) (map snd (buffers m')) /\
  pool_consistent m' os' /\ key_sorted (buffers m') /\
  used m' = used m /\ maxMemoryUse m' = maxMemoryUse m /\
  freeOnZero m' = freeOnZero m /\ largePageEnabled m' = largePageEnabled m /\
  unusedBufferSize m' <= unusedBufferSize m /\
  (forall q, is_Some (blocks os !! q) -> blocks os' !! q = blocks os !! q).
Proof.
  intros Hfresh Hc Hs Hoff Hmax H0 H8 H.
  assert (Hdiv : 0 <= bytes / 8) by (apply Z.div_pos; lia).
  assert (Hfresh_case :
    ('(buf, os1) ← allocateMemory m os bytes; Ok (buf + alignment, m, os1))
      = Ok (p, m', os') ->
    (exists h, blocks os' !! (p - alignment) = Some h /\
               bytes <= size h <= bytes + bytes / 8) /\
    ~ In (p - alignment) (map snd (buffers m')) /\
    pool_consistent m' os' /\ key_sorted (buffers m') /\
    used m' = used m /\ maxMemoryUse m' = maxMemoryUse m /\
    freeOnZero m' = freeOnZero m /\ largePageEnabled m' = largePageEnabled m /\
    unusedBufferSize m' <= unusedBufferSize m /\
    (forall q, is_Some (blocks os !! q) -> blocks os' !! q = blocks os !! q)).
  { intros Hr. pose proof (fresh_block_spec m os bytes Hoff) as Hspec. cbn zeta in Hspec.
    rewrite Hr in Hspec. destruct Hspec as [Hbad|(p0 & os1 & Heq & Hmalloc & Hblocks1)];
      [discriminate|].
    injection Heq as -> -> ->.
    replace (p0 + alignment - alignment) with p0 by lia.
    assert (Hnew : blocks os !! p0 = None) by (apply (proj1 Hfresh _ _ _ _ Hmalloc)).
    destruct (pool_consistent_fresh _ _ _ _ _ Hc Hnew Hblocks1) as [Hc' Hnot].
    split.
    { exists (mkBlockHeader bytes false). rewrite Hblocks1, lookup_insert_eq.
      split; [reflexivity|cbn [size]; lia]. }
    split; [exact Hnot|]. split; [exact Hc'|]. split; [exact Hs|].
    do 4 (split; [reflexivity|]). split; [lia|].
    intros q [hq Hq]. rewrite Hblocks1, lookup_insert_ne; [reflexivity|congruence]. }
  unfold allocBuffer in H.
  destruct (lower_bound (buffers m) bytes) as [[i [first second]]|] eqn:Hlb;
    [|exact (Hfresh_case H)].
  destruct (isGoodFit bytes first) eqn:Hgf; [|exact (Hfresh_case H)].
  injection H as <- <- <-.
  destruct (lower_bound_Some _ _ _ _ Hs Hlb) as (Hnth & Hin & Hge & _). cbn [fst] in Hge.
  apply isGoodFit_spec in Hgf; [|assumption..]. unfold good_fit in Hgf.
  replace (second + alignment - alignment) with second by lia.
  pose proof Hc as (_ & Hnd & Hblocks).
  destruct (Hblocks _ Hin) as (Hpos & h & Hh & Hsize). cbn [fst snd] in *.
  split; [exists h; split; [exact Hh|lia]|].
  split; [cbn [buffers set_buffers]; apply (NoDup_erase _ _ _ _ Hnd Hnth)|].
  split; [apply (pool_consistent_erase _ _ _ _ _ Hc Hmax Hnth)|].
  split; [cbn [buffers set_buffers]; apply key_sorted_erase, Hs|].
  do 4 (split; [reflexivity|]). split; [|reflexivity].
  cbn [unusedBufferSize set_buffers].
  destruct (pool_consistent_erase _ _ _ _ _ Hc Hmax Hnth) as (Hu' & _ & Hb').
  cbn [unusedBufferSize buffers set_buffers] in Hu'. rewrite Hu'.
  destruct Hc as (-> & _). rewrite (sum_sizes_erase _ _ _ _ Hnth). lia.
Qed.

(** X15. The block that [allocBuffer] hands out has room for the request
    and at most an eighth more: its header records a size between [bytes]
    and [bytes + bytes/8]; the block is live and not filed in the map, and
    the map stays in order and in agreement with the operating system. *)
Theorem allocBuffer_has_room (m : MemoryUse) (os : OS) (bytes p : Z)
    (m' : MemoryUse) (os' : OS) :
  os_fresh ->
  pool_consistent m os -> key_sorted (buffers m) -> largePageEnabled m = false ->
  unusedBufferSize m <= SIZE_MAX ->
  0 <= bytes -> bytes + bytes / 8 <= SIZE_MAX ->
  allocBuffer m os bytes = Ok (p, m', os') ->
  (exists h, blocks os' !! (p - alignment) = Some h /\
             bytes <= size h <= bytes + bytes / 8) /\
  ~ In (p - alignment) (map snd (buffers m')) /\
  pool_consistent m' os' /\ key_sorted (buffers m').
Proof.
  intros Hfresh Hc Hs Hoff Hmax H0 H8 H.
  destruct (allocBuffer_block _ _ _ _ _ _ Hfresh Hc Hs Hoff Hmax H0 H8 H)
    as (Hh & Hnot & Hc' & Hs' & _).
  split; [exact Hh|]. split; [exact Hnot|]. split; [exact Hc'|exact Hs'].
Qed.


(** *** What [freeBuffer] leaves behind *)

Lemma evict_run_blocks u l s s' :
  evict_run u l s s' ->
  (forall q, ~ In q (map snd (fst (fst s))) -> snd s' !! q = snd s !! q) /\
  (forall e, In e (fst (fst s')) -> In e (fst (fst s))).
Proof.
  induction 1 as [s _|s s1 s2 Hstep _ IH]; [split; auto|].
  destruct IH as [IHb IHe].
  destruct Hstep as [b unused live k first second _ Hnth]. cbn [fst snd] in *. split.
  - intros q Hq. rewrite IHb.
    + apply lookup_delete_ne. intros ->. apply Hq.
      apply (in_map snd _ (first, q)), (nth_error_In _ _ Hnth).
    + intros Hin. apply Hq. apply in_map_iff in Hin as (e & <- & He).
      apply in_map, (In_erase _ _ _ He).
  - intros e He. apply (In_erase _ k), IHe, He.
Qed.

Lemma evict_body_flags m os m' os' :
  evict_body m os = Ok (m', os') ->
  freeOnZero m' = freeOnZero m /\ deleted m' = deleted m.
Proof.
  unfold evict_body.
  destruct (nth_error _ _) as [[first second]|]; [|discriminate].
  destruct (freeMemory os second) as [os1| | |]; cbn [mbind Outcome_bind obind];
    try discriminate.
  intros [= <- <-]. destruct (memoryWarningIssued m); split; reflexivity.
Qed.

Lemma evict_flags fuel memoryUsed m os m' os' :
  evict fuel memoryUsed m os = Ok (m', os') ->
  freeOnZero m' = freeOnZero m /\ deleted m' = deleted m.
Proof.
  revert m os. induction fuel as [|fuel IH]; intros m os; cbn [evict].
  - destruct (evict_condition _ _); [discriminate|]. intros [= <- <-]. split; reflexivity.
  - destruct (evict_condition _ _); [|intros [= <- <-]; split; reflexivity].
    destruct (evict_body m os) as [[m1 os1]| | |] eqn:Hb; cbn [mbind Outcome_bind obind];
      try discriminate.
    intros H. destruct (IH _ _ H) as [-> ->]. apply (evict_body_flags _ _ _ _ Hb).
Qed.

Lemma freeBuffer_flags m os buf m' os' :
  freeBuffer m os buf = Ok (m', os') ->
  freeOnZero m' = freeOnZero m /\ deleted m' = deleted m /\
  largePageEnabled m' = largePageEnabled m.
Proof.
  unfold freeBuffer. destruct (blocks os !! (buf - alignment)) as [h|]; [|discriminate].
  destruct (size h =? 0); [discriminate|]. intros H.
  destruct (evict_flags _ _ _ _ _ _ H) as [-> ->].
  rewrite (evict_largePage _ _ _ _ _ _ H). repeat split; reflexivity.
Qed.

Lemma freeBuffer_consistent m os buf h :
  pool_consistent m os -> key_sorted (buffers m) ->
  blocks os !! (buf - alignment) = Some h ->
  0 < size h ->
  ~ In (buf - alignment) (map snd (buffers m)) ->
  0 <= used m ->
  used m + unusedBufferSize m + size h <= SIZE_MAX ->
  exists m' os',
    freeBuffer m os buf = Ok (m', os') /\
    pool_consistent m' os' /\ key_sorted (buffers m') /\
    used m' = used m /\ maxMemoryUse m' = maxMemoryUse m /\
    (forall q, q <> buf - alignment -> ~ In q (map snd (buffers m)) ->
               blocks os' !! q = blocks os !! q) /\
    (forall e, In e (buffers m') -> e = (size h, buf - alignment) \/ In e (buffers m)).
Proof.
  intros Hc Hs Hhdr Hpos Hnew Hused Hfit.
  pose proof Hc as (Hunused & Hnd & Hblocks).
  assert (Hsum : 0 <= sum_sizes (buffers m)).
  { apply sum_sizes_nonneg. intros e He. apply Hblocks, He. }
  set (m1 := set_buffers m (emplace (buffers m) (size h, buf - alignment))
               (sz (unusedBufferSize m + size h))).
  assert (Hc1 : pool_consistent m1 os).
  { split; [subst m1; cbn [unusedBufferSize buffers set_buffers];
            rewrite sz_small by lia; rewrite sum_sizes_emplace; cbn [fst]; lia|].
    split; [subst m1; cbn [buffers set_buffers]; apply NoDup_emplace; assumption|].
    intros e He. subst m1. cbn [buffers set_buffers] in He.
    apply In_emplace in He as [->|He].
    - cbn [fst snd]. split; [exact Hpos|]. exists h. split; [exact Hhdr|reflexivity].
    - apply Hblocks, He. }
  destruct (evict_spec (length (buffers m1)) (used m1) m1 os Hc1)
    as (m' & os' & Hev & Hrun & _ & Hu' & Hm' & Hc').
  - subst m1. cbn [used set_buffers]. exact Hused.
  - subst m1. cbn [used buffers set_buffers]. rewrite sum_sizes_emplace. cbn [fst]. lia.
  - lia.
  - exists m', os'.
    assert (Hfree : freeBuffer m os buf = Ok (m', os')).
    { unfold freeBuffer. rewrite Hhdr. destruct (Z.eqb_spec (size h) 0); [lia|]. exact Hev. }
    split; [exact Hfree|]. split; [exact Hc'|].
    split; [apply (evict_sorted _ _ _ _ _ _ Hev); subst m1; cbn [buffers set_buffers];
            apply key_sorted_emplace, Hs|].
    split; [exact Hu'|]. split; [exact Hm'|].
    destruct (evict_run_blocks _ _ _ _ Hrun) as [Hkeep Hsub]. cbn [fst snd] in *.
    subst m1. cbn [buffers set_buffers] in *. split.
    + intros q Hq Hnot. apply Hkeep. rewrite In_snd_emplace. cbn [snd]. tauto.
    + intros e He. apply In_emplace, Hsub, He.
Qed.

(** *** The end of a pool *)

Lemma free_all_spec l :
  forall os,
    List.NoDup (map snd l) ->
    (forall e, In e l -> is_Some (blocks os !! snd e)) ->
    exists os',
      free_all os l = Ok os' /\
      (forall e, In e l -> blocks os' !! snd e = None) /\
      (forall q, ~ In q (map snd l) -> blocks os' !! q = blocks os !! q) /\
      length (calls os') = (length (calls os) + length l)%nat.
Proof.
  induction l as [|[k p] l IH]; intros os Hnd Hlive; cbn [free_all].
  - exists os. repeat split; auto. intros e [].
  - inversion Hnd as [|? ? Hnotin Hnd']; subst.
    destruct (Hlive (k, p) (or_introl eq_refl)) as [h Hh]. cbn [snd] in Hh.
    assert (Hfm : exists os1, freeMemory os p = Ok os1 /\
                              blocks os1 = delete p (blocks os) /\
                              length (calls os1) = S (length (calls os))).
    { unfold freeMemory. rewrite Hh. unfold freeLargePage, VirtualFree, vsh_aligned_free.
      destruct (large h); [destruct VS_TARGET_OS_WINDOWS|];
        (eexists; split; [reflexivity|]; split; [reflexivity|];
         cbn [calls]; rewrite length_app; cbn [length]; lia). }
    destruct Hfm as (os1 & -> & Hb1 & Hc1). cbn [mbind Outcome_bind obind].
    destruct (IH os1 Hnd') as (os' & -> & Hgone & Hkeep & Hcalls).
    { intros e He. rewrite Hb1, lookup_delete_ne; [apply Hlive; right; exact He|].
      intros Heq. apply Hnotin. rewrite Heq. apply in_map, He. }
    exists os'. split; [reflexivity|]. split; [|split].
    + intros e [<-|He]; [|apply Hgone, He]. cbn [snd].
      rewrite (Hkeep p Hnotin), Hb1. apply lookup_delete_eq.
    + intros q Hq. cbn [map snd] in Hq. rewrite Hkeep by (intros Hin; apply Hq; right; exact Hin).
      rewrite Hb1. apply lookup_delete_ne. intros ->. apply Hq. left. reflexivity.
    + rewrite Hcalls, Hc1. cbn [length]. lia.
Qed.

Lemma destroy_spec m os :
  pool_consistent m os ->
  exists os',
    destroy m os = Ok (set_deleted m true, os') /\
    (forall e, In e (buffers m) -> blocks os' !! snd e = None) /\
    (forall q, ~ In q (map snd (buffers m)) -> blocks os' !! q = blocks os !! q) /\
    length (calls os') = (length (calls os) + length (buffers m))%nat.
Proof.
  intros (_ & Hnd & Hblocks). unfold destroy.
  destruct (free_all_spec (buffers m) os Hnd) as (os' & -> & Hgone & Hkeep & Hcalls).
  { intros e He. destruct (Hblocks e He) as (_ & h & Hh & _). exists h. exact Hh. }
  exists os'. cbn [mbind Outcome_bind obind]. repeat split; assumption.
Qed.

(** X16. A pool ends when it is idle and has been told to: [signalFree]
    on a pool with nothing in use, and the [subtract] that brings the
    bytes in use to zero after [signalFree], delete the pool and give
    every freed block of the map back to the operating system, with one
    call for each, and touch no other block; [signalFree] on a pool with
    bytes in use only sets the flag. *)
Theorem pool_released_when_idle (m : MemoryUse) (os : OS) :
  pool_consistent m os ->
  let released (r : Outcome (MemoryUse * OS)) :=
    exists m' os',
      r = Ok (m', os') /\ deleted m' = true /\
      (forall e, In e (buffers m) -> blocks os' !! snd e = None) /\
      (forall q, ~ In q (map snd (buffers m)) -> blocks os' !! q = blocks os !! q) /\
      length (calls os') = (length (calls os) + length (buffers m))%nat in
  (used m = 0 -> released (signalFree m os)) /\
  (used m <> 0 -> signalFree m os = Ok (set_freeOnZero m true, os)) /\
  (forall bytes, freeOnZero m = true -> sz (used m - bytes) = 0 ->
                 released (subtract m os bytes)) /\
  (forall bytes, freeOnZero m = false \/ sz (used m - bytes) <> 0 ->
                 subtract m os bytes = Ok (set_used m (sz (used m - bytes)), os)).
Proof.
  intros Hc released. split; [|split; [|split]].
  - intros Hused. unfold signalFree. cbn [used set_freeOnZero]. rewrite Hused. cbn [Z.eqb].
    destruct (destroy_spec (set_freeOnZero m true) os Hc) as (os' & Hd & Hgone & Hkeep & Hn).
    exists (set_deleted (set_freeOnZero m true) true), os'.
    split; [exact Hd|]. split; [reflexivity|]. repeat split; assumption.
  - intros Hused. unfold signalFree. cbn [used set_freeOnZero].
    destruct (Z.eqb_spec (used m) 0); [contradiction|reflexivity].
  - intros bytes Hflag Hzero. unfold subtract. cbn [freeOnZero set_used].
    rewrite Hflag, Hzero. cbn [Z.eqb andb].
    destruct (destroy_spec (set_used m 0) os Hc) as (os' & Hd & Hgone & Hkeep & Hn).
    exists (set_deleted (set_used m 0) true), os'.
    split; [exact Hd|]. split; [reflexivity|]. repeat split; assumption.
  - intros bytes Hcase. unfold subtract. cbn [freeOnZero set_used].
    destruct Hcase as [->|Hne]; [reflexivity|].
    destruct (Z.eqb_spec (sz (used m - bytes)) 0); [contradiction|].
    rewrite andb_false_r. reflexivity.
Qed.

Lemma pool_call_alive c s s' :
  c <> call_signalFree ->
  pool_call c s = Ok s' ->
  freeOnZero (fst s) = false -> deleted (fst s) = false ->
  freeOnZero (fst s') = false /\ deleted (fst s') = false.
Proof.
  destruct s as [m os]. intros Hc H Hfz Hdel. cbn [fst snd] in *.
  destruct c as [bytes|buf|bytes|bytes|bytes|]; cbn [pool_call fst snd] in H;
    [| | | | |contradiction].
  - unfold allocBuffer in H.
    assert (Hfresh : forall r : Outcome (Z * MemoryUse * OS),
      r = ('(buf, os1) ← allocateMemory m os bytes; Ok (buf + alignment, m, os1)) ->
      ('(_, m0, os1) ← r; Ok (m0, os1)) = Ok s' ->
      freeOnZero (fst s') = false /\ deleted (fst s') = false).
    { intros r -> Hr.
      destruct (allocateMemory m os bytes) as [[buf os1]| | |];
        cbn [mbind Outcome_bind obind] in Hr; try discriminate.
      injection Hr as <-. split; assumption. }
    destruct (lower_bound (buffers m) bytes) as [[i [first second]]|];
      [|exact (Hfresh _ eq_refl H)].
    destruct (isGoodFit bytes first); [|exact (Hfresh _ eq_refl H)].
    cbn [mbind Outcome_bind obind] in H. injection H as <-. split; assumption.
  - destruct s' as [m' os']. cbn [fst].
    destruct (freeBuffer_flags _ _ _ _ _ H) as (-> & -> & _). split; assumption.
  - injection H as <-. split; assumption.
  - unfold subtract in H. cbn [freeOnZero set_used] in H. rewrite Hfz in H.
    injection H as <-. split; assumption.
  - injection H as <-. cbn [fst]. unfold setMaxMemoryUse. cbn [snd].
    destruct (_ && _); split; assumption.
Qed.

(** X17. A pool is deleted on [signalFree] only: after any run of the
    other operations on a newly constructed pool, the pool is alive and
    not marked to be freed. *)
Theorem pool_alive_without_signalFree (garbage : Z) (os : OS) (cs : list PoolCall)
    (m' : MemoryUse) (os' : OS) :
  ~ In call_signalFree cs ->
  pool_run cs (MemoryUse_new garbage, os) = Ok (m', os') ->
  freeOnZero m' = false /\ deleted m' = false.
Proof.
  intros Hcs Hrun.
  assert (Hgen : forall cs s s',
    ~ In call_signalFree cs -> pool_run cs s = Ok s' ->
    freeOnZero (fst s) = false -> deleted (fst s) = false ->
    freeOnZero (fst s') = false /\ deleted (fst s') = false).
  { clear. induction cs as [|c cs IH]; intros s s' Hcs; cbn [pool_run].
    - intros [= <-]. auto.
    - destruct (pool_call c s) as [s1| | |] eqn:E; cbn [mbind Outcome_bind obind];
        try discriminate.
      intros Hrun Hfz Hdel.
      destruct (pool_call_alive c s s1) as [Hfz1 Hdel1]; try assumption.
      { intros ->. apply Hcs. left. reflexivity. }
      apply (IH s1 s'); [|assumption..]. intros Hin. apply Hcs. right. exact Hin. }
  apply (Hgen cs _ _ Hcs Hrun); cbn [fst]; unfold MemoryUse_new;
    destruct (8 <=? size_bits / 8); unfold setMaxMemoryUse; cbn [snd];
    repeat match goal with |- context [if ?b then _ else _] => destruct b end; reflexivity.
Qed.

End PoolFacts.

Section PlaneFacts.

Context {P : Platform} {Hd : Headers}.

(** *** The life of a plane *)

Lemma lower_bound_In l k i e : lower_bound l k = Some (i, e) -> In e l.
Proof.
  revert i. induction l as [|[key v] l IH]; intros i; cbn [lower_bound]; [discriminate|].
  destruct (k <=? key); [intros [= <- <-]; left; reflexivity|].
  destruct (lower_bound l k) as [[j e']|]; [|discriminate].
  intros [= <- <-]. right. apply (IH j). reflexivity.
Qed.

Lemma sz_0 : sz 0 = 0.
Proof. apply sz_small. pose proof SIZE_MAX_ge. lia. Qed.

(** X18. A plane of size zero cannot be released. In a build without
    guard space, [VSPlaneData(0, mem)] gets a fresh block whose header
    records the size 0 (no freed block is a good fit for a request of 0
    bytes), and the [release] that deletes the plane ends the process in
    [freeBuffer]: "Memory corruption detected". *)
Theorem zero_size_plane_release (w : World) (d : nat) (w1 : World) :
  guardSpace = 0 ->
  largePageEnabled (memory w) = false ->
  (forall e, In e (buffers (memory w)) -> 0 < fst e) ->
  VSPlaneData_new w 0 = Ok (d, w1) ->
  (exists pd, planes w1 !! d = Some pd /\ pd_size pd = 0 /\
              blocks (os w1) !! (pd_data pd - alignment) = Some (mkBlockHeader 0 false)) /\
  release w1 d = Fatal "Memory corruption detected. Windows bug?".
Proof.
  intros Hguard Hoff Hkeys. unfold VSPlaneData_new, construct_plane.
  rewrite Hguard. change (0 + 2 * 0) with 0. rewrite sz_0. change (0 + 2 * 0) with 0.
  rewrite sz_0.
  assert (Halloc : allocBuffer (memory w) (os w) 0 =
                   ('(buf, os1) ← allocateMemory (memory w) (os w) 0;
                    Ok (buf + alignment, memory w, os1))).
  { unfold allocBuffer.
    destruct (lower_bound (buffers (memory w)) 0) as [[i [first second]]|] eqn:Hlb;
      [|reflexivity].
    assert (0 < first) by (apply (Hkeys (first, second)), (lower_bound_In _ _ _ _ Hlb)).
    unfold isGoodFit. change (0 + 0 / 8) with 0. rewrite sz_0.
    destruct (Z.leb_spec first 0); [lia|reflexivity]. }
  rewrite Halloc. unfold allocateMemory, allocateLargePage. rewrite Hoff. cbn [negb].
  unfold os_malloc.
  destruct (vsh_aligned_malloc (blocks (os w)) (sz (alignment + 0)) alignment) as [p0|];
    cbn [mbind Outcome_bind obind]; [|discriminate].
  destruct (Z.eqb_spec (p0 + alignment) 0); [discriminate|].
  intros [= <- <-]. split.
  - eexists. split; [cbn [planes]; apply lookup_insert_eq|].
    split; [reflexivity|]. cbn [pd_data os blocks write_header].
    replace (p0 + alignment - alignment) with p0 by lia. apply lookup_insert_eq.
  - unfold release. cbn [planes]. rewrite lookup_insert_eq. cbn [pd_refcount Z.sub Z.eqb].
    change (1 - 1 =? 0) with true. cbn match.
    unfold VSPlaneData_delete. cbn [planes]. rewrite lookup_insert_eq.
    unfold freeBuffer. cbn [pd_data memory os blocks write_header].
    replace (p0 + alignment - alignment) with p0 by lia.
    rewrite lookup_insert_eq. reflexivity.
Qed.

Lemma pool_consistent_add m os bytes :
  pool_consistent m os -> pool_consistent (add m bytes) os.
Proof. intros H. exact H. Qed.

Lemma plane_new_release_cases (w : World) (dataSize : Z) :
  os_fresh ->
  pool_consistent (memory w) (os w) -> key_sorted (buffers (memory w)) ->
  largePageEnabled (memory w) = false -> freeOnZero (memory w) = false ->
  0 <= guardSpace -> 0 <= dataSize -> 0 < dataSize + 4 * guardSpace ->
  0 <= used (memory w) ->
  (let bytes := dataSize + 4 * guardSpace in
   used (memory w) + unusedBufferSize (memory w) + 2 * bytes + bytes / 8 <= SIZE_MAX) ->
  (exists msg, VSPlaneData_new w dataSize = Fatal msg) \/
  exists d w1 w2,
    VSPlaneData_new w dataSize = Ok (d, w1) /\
    planes w !! d = None /\
    used (memory w1) = used (memory w) + (dataSize + 2 * guardSpace) /\
    release w1 d = Ok w2 /\
    planes w2 = planes w /\
    used (memory w2) = used (memory w) /\
    pool_consistent (memory w2) (os w2) /\ key_sorted (buffers (memory w2)).
Proof.
  intros Hfresh Hc Hs Hoff Hfz Hg Hdata Hpos Hused Hfit. cbn zeta in Hfit.
  pose proof Hc as (Hunused & _ & Hblocks).
  assert (Hsum : 0 <= unusedBufferSize (memory w)).
  { rewrite Hunused. apply sum_sizes_nonneg. intros e He. apply Hblocks, He. }
  assert (Hdiv : 0 <= (dataSize + 4 * guardSpace) / 8) by (apply Z.div_pos; lia).
  unfold VSPlaneData_new.
  rewrite (sz_small (dataSize + 2 * guardSpace)) by lia.
  rewrite (sz_small (dataSize + 2 * guardSpace + 2 * guardSpace)) by lia.
  replace (dataSize + 2 * guardSpace + 2 * guardSpace) with (dataSize + 4 * guardSpace)
    by lia.
  set (size := dataSize + 2 * guardSpace). set (bytes := dataSize + 4 * guardSpace) in *.
  unfold construct_plane.
  destruct (allocBuffer (memory w) (os w) bytes) as [[[data m] os1]|msg| |] eqn:Halloc;
    cbn [mbind Outcome_bind obind].
  2:{ left. eexists. reflexivity. }
  2:{ exfalso. unfold allocBuffer in Halloc.
      pose proof (fresh_block_spec (memory w) (os w) bytes Hoff) as Hspec. cbn zeta in Hspec.
      destruct (lower_bound (buffers (memory w)) bytes) as [[i [first second]]|];
        [destruct (isGoodFit bytes first); [discriminate|]|];
        rewrite Halloc in Hspec; destruct Hspec as [|(? & ? & ? & _)]; discriminate. }
  2:{ exfalso. unfold allocBuffer in Halloc.
      pose proof (fresh_block_spec (memory w) (os w) bytes Hoff) as Hspec. cbn zeta in Hspec.
      destruct (lower_bound (buffers (memory w)) bytes) as [[i [first second]]|];
        [destruct (isGoodFit bytes first); [discriminate|]|];
        rewrite Halloc in Hspec; destruct Hspec as [|(? & ? & ? & _)]; discriminate. }
  destruct (Z.eqb_spec data 0) as [|Hdata0]; [left; eexists; reflexivity|]. right.
  assert (Hr1 : unusedBufferSize (memory w) <= SIZE_MAX) by lia.
  assert (Hr2 : 0 <= bytes) by lia.
  assert (Hr3 : bytes + bytes / 8 <= SIZE_MAX) by lia.
  destruct (allocBuffer_block _ _ _ _ _ _ Hfresh Hc Hs Hoff Hr1 Hr2 Hr3 Halloc)
    as ((h & Hh & Hsize) & Hnot & Hc1 & Hs1 & Hu1 & Hmax1 & Hfz1 & Hoff1 & Hun1 & _).
  set (this := fresh (dom (planes w))).
  assert (Hthis : planes w !! this = None).
  { apply not_elem_of_dom. apply is_fresh. }
  destruct (freeBuffer_consistent (add m size) os1 data h) as
    (m2 & os2 & Hfree & Hc2 & Hs2 & Hu2 & _).
  { apply pool_consistent_add, Hc1. }
  { exact Hs1. }
  { exact Hh. }
  { lia. }
  { exact Hnot. }
  { unfold add. cbn [used set_used]. rewrite sz_small by lia. lia. }
  { unfold add. cbn [used set_used unusedBufferSize]. rewrite sz_small by lia.
    subst size. lia. }
  assert (Hfz2 : freeOnZero m2 = false).
  { destruct (freeBuffer_flags _ _ _ _ _ Hfree) as (-> & _). cbn. congruence. }
  eexists this, _, _. split; [reflexivity|]. split; [exact Hthis|].
  split; [cbn [memory]; unfold add; cbn [used set_used]; rewrite sz_small by lia; lia|].
  unfold release. cbn [planes]. rewrite lookup_insert_eq. cbn [pd_refcount].
  change (1 - 1 =? 0) with true. cbn match.
  unfold VSPlaneData_delete. cbn [planes]. rewrite lookup_insert_eq.
  cbn [pd_data pd_size memory os]. rewrite Hfree. cbn [mbind Outcome_bind obind].
  unfold subtract. cbn [freeOnZero set_used]. rewrite Hfz2. cbn [andb].
  split; [reflexivity|]. cbn [planes memory os].
  split; [rewrite !delete_insert_eq; apply delete_id, Hthis|].
  split; [|split; [exact Hc2|exact Hs2]].
  cbn [used set_used]. rewrite Hu2. unfold add. cbn [used set_used].
  rewrite sz_sub_l. replace (used m + size - size) with (used m) by lia.
  rewrite Hu1. apply sz_small. lia.
Qed.

(** X19. A plane gives back what it took. In a heap that is in order, a
    call of [VSPlaneData(dataSize, mem)] for a buffer that is not empty
    stops the process only when the buffer cannot be allocated
    ([vsh_aligned_malloc] has no block, or the buffer is a null pointer);
    otherwise it returns, the [release] that follows returns as well, the
    bytes in use are then what they were before the plane was made, the
    plane object is gone, and the pool is in order again. *)
Theorem plane_new_release (w : World) (dataSize : Z) :
  os_fresh ->
  pool_consistent (memory w) (os w) -> key_sorted (buffers (memory w)) ->
  largePageEnabled (memory w) = false -> freeOnZero (memory w) = false ->
  0 <= guardSpace -> 0 <= dataSize -> 0 < dataSize + 4 * guardSpace ->
  0 <= used (memory w) ->
  (let bytes := dataSize + 4 * guardSpace in
   used (memory w) + unusedBufferSize (memory w) + 2 * bytes + bytes / 8 <= SIZE_MAX) ->
  (exists msg,
     VSPlaneData_new w dataSize = Fatal msg /\
     allocation_failure w (dataSize + 4 * guardSpace)
       "Failed to allocate memory for plane. Out of memory." msg) \/
  exists d w1 w2,
    VSPlaneData_new w dataSize = Ok (d, w1) /\
    planes w !! d = None /\
    used (memory w1) = used (memory w) + (dataSize + 2 * guardSpace) /\
    release w1 d = Ok w2 /\
    planes w2 = planes w /\
    used (memory w2) = used (memory w) /\
    pool_consistent (memory w2) (os w2) /\ key_sorted (buffers (memory w2)).
Proof.
  intros Hfresh Hc Hs Hoff Hfz Hg Hdata Hpos Hused Hfit.
  destruct (plane_new_release_cases w dataSize Hfresh Hc Hs Hoff Hfz Hg Hdata Hpos Hused Hfit)
    as [[msg Hfatal]|Hok]; [left|right; exact Hok].
  exists msg. split; [exact Hfatal|].
  cbn zeta in Hfit. pose proof Hc as (Hunused & _ & Hblocks).
  assert (Hsum : 0 <= unusedBufferSize (memory w)).
  { rewrite Hunused. apply sum_sizes_nonneg. intros e He. apply Hblocks, He. }
  assert (Hdiv : 0 <= (dataSize + 4 * guardSpace) / 8) by (apply Z.div_pos; lia).
  unfold VSPlaneData_new in Hfatal.
  rewrite (sz_small (dataSize + 2 * guardSpace)) in Hfatal by lia.
  rewrite (sz_small (dataSize + 2 * guardSpace + 2 * guardSpace)) in Hfatal by lia.
  replace (dataSize + 2 * guardSpace + 2 * guardSpace) with (dataSize + 4 * guardSpace)
    in Hfatal by lia.
  apply (construct_plane_Fatal _ _ _ _ _ Hfatal).
Qed.

End PlaneFacts.

Section FrameLifeFacts.

Context {P : Platform} {Hd : Headers}.

(** *** Strides *)

Lemma align_up_spec k x :
  0 <= k -> alignment = 2 ^ k -> 0 <= x -> x + alignment - 1 <= INT_MAX ->
  align_up x = (x + alignment - 1) / alignment * alignment.
Proof.
  intros Hk Ha Hx Hmax. unfold align_up, INT_MAX in *.
  change (2 ^ 31) with 2147483648 in Hmax.
  assert (Hapos : 0 < alignment) by (rewrite Ha; apply Z.pow_pos_nonneg; lia).
  rewrite wraps_small by (try change (2 ^ (32 - 1)) with 2147483648; lia).
  replace (alignment - 1) with (Z.ones k) by (rewrite Z.ones_equiv, Ha; lia).
  rewrite <- Z.ldiff_land, Z.ldiff_ones_r by exact Hk.
  rewrite Z.shiftl_mul_pow2, Z.shiftr_div_pow2 by exact Hk.
  rewrite <- Ha. replace (x + Z.ones k) with (x + alignment - 1)
    by (rewrite Z.ones_equiv, Ha; lia).
  reflexivity.
Qed.

Lemma align_up_bounds k x :
  0 <= k -> alignment = 2 ^ k -> 0 <= x -> x + alignment - 1 <= INT_MAX ->
  (alignment | align_up x) /\ x <= align_up x < x + alignment.
Proof.
  intros Hk Ha Hx Hmax. rewrite (align_up_spec k x Hk Ha Hx Hmax).
  assert (Hapos : 0 < alignment) by (rewrite Ha; apply Z.pow_pos_nonneg; lia).
  split; [exists ((x + alignment - 1) / alignment); reflexivity|].
  assert (Hne : alignment <> 0) by lia.
  pose proof (Z.div_mod (x + alignment - 1) alignment Hne) as Hdm.
  pose proof (Z.mod_pos_bound (x + alignment - 1) alignment Hapos) as Hmod.
  lia.
Qed.

(** X20. The strides of a video frame are aligned. With an alignment
    that is a power of two, every stride of a frame that the constructor
    has built is a multiple of the alignment, the least one that holds a
    row of the plane ([width * bytesPerSample] bytes, for the second and
    third plane with the width shifted by the subsampling); a frame that
    has not three planes has the strides 0 for the second and third
    plane. [getStride] returns these values. *)
Theorem video_frame_strides (fmt : VSVideoFormat) (width height : Z) (w : World)
    (fr : VSFrameRef) (w' : World) (k : Z) :
  0 <= k -> alignment = 2 ^ k ->
  0 <= vf_bytesPerSample fmt -> 0 <= subSamplingW fmt ->
  width * vf_bytesPerSample fmt + alignment - 1 <= INT_MAX ->
  VSFrameRef_video fmt width height w = Ok (fr, w') ->
  let bps := vf_bytesPerSample fmt in
  let cw := Z.shiftr width (subSamplingW fmt) in
  exists s0 s12,
    stride fr = [s0; s12; s12] /\
    (alignment | s0) /\ width * bps <= s0 < width * bps + alignment /\
    (vf_numPlanes fmt = 3 ->
     (alignment | s12) /\ cw * bps <= s12 < cw * bps + alignment) /\
    (vf_numPlanes fmt <> 3 -> s12 = 0) /\
    (0 < vf_numPlanes fmt -> getStride fr 0 = Ok s0) /\
    (vf_numPlanes fmt = 3 -> getStride fr 1 = Ok s12 /\ getStride fr 2 = Ok s12).
Proof.
  intros Hk Ha Hbps Hssw Hmax H bps cw. unfold VSFrameRef_video in H.
  destruct (Z.leb_spec width 0) as [|Hw]; [discriminate|].
  destruct (Z.leb_spec height 0) as [|Hh]; [discriminate|]. cbn [orb] in H.
  assert (Hcw : 0 <= cw <= width).
  { subst cw. rewrite Z.shiftr_div_pow2 by exact Hssw.
    assert (0 < 2 ^ subSamplingW fmt) by (apply Z.pow_pos_nonneg; lia).
    split; [apply Z.div_pos; lia|]. apply Z.div_le_upper_bound; nia. }
  assert (H0 : 0 <= width * bps) by (subst bps; nia).
  assert (H0' : wraps 32 (width * bps) = width * bps).
  { apply wraps_small; [lia|]. change (2 ^ (32 - 1)) with 2147483648.
    assert (0 < alignment) by (rewrite Ha; apply Z.pow_pos_nonneg; lia).
    unfold INT_MAX in Hmax. change (2 ^ 31) with 2147483648 in Hmax. subst bps. lia. }
  assert (H1 : 0 <= cw * bps /\ cw * bps + alignment - 1 <= INT_MAX) by (subst bps; nia).
  assert (H1' : wraps 32 (cw * bps) = cw * bps).
  { apply wraps_small; [lia|]. change (2 ^ (32 - 1)) with 2147483648.
    assert (0 < alignment) by (rewrite Ha; apply Z.pow_pos_nonneg; lia).
    unfold INT_MAX in H1. change (2 ^ 31) with 2147483648 in H1. lia. }
  fold bps cw in H. rewrite H0', H1' in H.
  destruct (align_up_bounds k (width * bps) Hk Ha H0 Hmax) as [Hdiv0 Hb0].
  destruct (align_up_bounds k (cw * bps) Hk Ha (proj1 H1) (proj2 H1)) as [Hdiv1 Hb1].
  assert (Hgs : forall (fr0 : VSFrameRef) p s,
             contentType fr0 = mtVideo -> 0 <= p < numPlanes fr0 ->
             stride fr0 !! Z.to_nat p = Some s -> getStride fr0 p = Ok s).
  { intros fr0 p s Hct Hp Hs. unfold getStride, assert. rewrite Hct, orb_true_r.
    cbn [mbind Outcome_bind obind].
    destruct (Z.ltb_spec p 0); [lia|]. destruct (Z.leb_spec (numPlanes fr0) p); [lia|].
    cbn [orb]. rewrite Hs. reflexivity. }
  destruct (VSPlaneData_new w _) as [[d0 w0]| | |]; cbn [mbind Outcome_bind obind] in H;
    try discriminate.
  destruct (Z.eqb_spec (vf_numPlanes fmt) 3) as [H3|H3].
  - destruct (VSPlaneData_new w0 _) as [[d1 w1]| | |]; cbn [mbind Outcome_bind obind] in H;
      try discriminate.
    destruct (VSPlaneData_new w1 _) as [[d2 w2]| | |]; cbn [mbind Outcome_bind obind] in H;
      try discriminate.
    injection H as <- <-. eexists _, _. split; [reflexivity|].
    split; [exact Hdiv0|]. split; [exact Hb0|].
    split; [intros _; split; [exact Hdiv1|exact Hb1]|].
    split; [intros Hne; contradiction|].
    split; [intros _; apply Hgs; [reflexivity|cbn [numPlanes]; lia|reflexivity]|].
    intros _. split; apply Hgs; try reflexivity; cbn [numPlanes]; lia.
  - injection H as <- <-. eexists _, _. split; [reflexivity|].
    split; [exact Hdiv0|]. split; [exact Hb0|].
    split; [intros Heq; contradiction|].
    split; [intros _; reflexivity|].
    split; [intros Hpos; apply Hgs; [reflexivity|cbn [numPlanes]; lia|reflexivity]|].
    intros Heq; contradiction.
Qed.

(** *** Copies of a frame *)

Lemma world_eta w : mkWorld (memory w) (os w) (planes w) = w.
Proof. destruct w; reflexivity. Qed.

Lemma adjust_0 w d : adjust w d 0 = w.
Proof.
  unfold adjust. rewrite alter_id; [apply world_eta|].
  intros [rc sz0 dt] _. unfold ref_shift. cbn. f_equal. lia.
Qed.

Lemma lookup_adjust w d k i :
  planes (adjust w d k) !! i =
    if decide (i = d) then ref_shift k <$> planes w !! i else planes w !! i.
Proof.
  unfold adjust. cbn [planes]. destruct (decide (i = d)) as [->|Hne].
  - apply lookup_alter_eq.
  - apply lookup_alter_ne. congruence.
Qed.

Lemma World_ext w w' :
  memory w = memory w' -> os w = os w' ->
  (forall i, planes w !! i = planes w' !! i) -> w = w'.
Proof.
  destruct w, w'. cbn. intros -> -> H. f_equal. apply map_eq, H.
Qed.

Lemma adjust_same w d a b : adjust (adjust w d a) d b = adjust w d (a + b).
Proof.
  apply World_ext; [reflexivity..|]. intros i. rewrite !lookup_adjust.
  destruct (decide (i = d)); [|reflexivity].
  destruct (planes w !! i) as [[rc sz0 dt]|]; [|reflexivity].
  cbn. unfold ref_shift. cbn. do 2 f_equal. lia.
Qed.

Lemma adjust_comm w d a d' b :
  adjust (adjust w d a) d' b = adjust (adjust w d' b) d a.
Proof.
  apply World_ext; [reflexivity..|]. intros i. rewrite !lookup_adjust.
  destruct (decide (i = d')), (decide (i = d)); try reflexivity.
  destruct (planes w !! i) as [[rc sz0 dt]|]; [|reflexivity].
  cbn. unfold ref_shift. cbn. do 2 f_equal. lia.
Qed.

Lemma add_ref_adjust w d pd :
  planes w !! d = Some pd -> add_ref w d = Ok (adjust w d 1).
Proof.
  intros H. unfold add_ref, adjust. rewrite H. do 2 f_equal.
  apply map_eq. intros i. destruct (decide (i = d)) as [->|Hne].
  - rewrite lookup_insert_eq, lookup_alter_eq, H. reflexivity.
  - rewrite lookup_insert_ne, lookup_alter_ne by congruence. reflexivity.
Qed.

Lemma release_adjust w d pd :
  planes w !! d = Some pd -> pd_refcount pd <> 1 -> release w d = Ok (adjust w d (-1)).
Proof.
  intros H Hrc. unfold release, adjust. rewrite H.
  destruct (Z.eqb_spec (pd_refcount pd - 1) 0); [lia|]. do 2 f_equal.
  apply map_eq. intros i. destruct (decide (i = d)) as [->|Hne].
  - rewrite lookup_insert_eq, lookup_alter_eq, H. reflexivity.
  - rewrite lookup_insert_ne, lookup_alter_ne by congruence. reflexivity.
Qed.

Lemma refcount_adjust w d k i pd :
  planes w !! i = Some pd ->
  exists pd', planes (adjust w d k) !! i = Some pd' /\
              pd_refcount pd' = pd_refcount pd + (if decide (i = d) then k else 0).
Proof.
  intros H. rewrite lookup_adjust, H. destruct (decide (i = d)).
  - eexists. split; [reflexivity|]. reflexivity.
  - exists pd. split; [reflexivity|lia].
Qed.

Lemma refcount_adjust_list l :
  forall w i pd,
    planes w !! i = Some pd ->
    exists pd', planes (adjust_list w l) !! i = Some pd' /\
                pd_refcount pd' = pd_refcount pd + ref_delta l i.
Proof.
  induction l as [|[d k] l IH]; intros w i pd H; cbn [adjust_list ref_delta].
  - exists pd. split; [exact H|lia].
  - destruct (refcount_adjust w d k i pd H) as (pd1 & H1 & Hrc1).
    destruct (IH _ i pd1 H1) as (pd2 & H2 & Hrc2).
    exists pd2. split; [exact H2|lia].
Qed.

(** X21. A copy of a frame that is destroyed leaves no trace. For a frame
    whose planes are alive, [copyFrame] returns a frame with the same
    planes, and the destructor of that copy returns and leaves the heap
    exactly as it was before the copy was made: no plane is freed, every
    reference count is what it was. *)
Theorem frame_copy_delete (f : VSFrameRef) (w : World) :
  frame_valid f ->
  (forall d, In d (frame_ids f) ->
             exists pd, planes w !! d = Some pd /\ 1 <= pd_refcount pd) ->
  exists g w1,
    VSFrameRef_copy f w = Ok (g, w1) /\
    data g = data f /\
    memory w1 = memory w /\ os w1 = os w /\
    VSFrameRef_delete g w1 = Ok w.
Proof.
  intros [_ Hvalid] Hlive.
  assert (Hone : forall d0, data f = [Some d0; None; None] ->
    exists g w1, VSFrameRef_copy f w = Ok (g, w1) /\ data g = data f /\
                 memory w1 = memory w /\ os w1 = os w /\ VSFrameRef_delete g w1 = Ok w).
  { intros d0 Hdata.
    destruct (Hlive d0) as (pd0 & H0 & Hrc0); [unfold frame_ids; rewrite Hdata; left; reflexivity|].
    unfold VSFrameRef_copy, VSFrameRef_delete. rewrite Hdata.
    rewrite (add_ref_adjust _ _ _ H0). cbn [mbind Outcome_bind obind].
    eexists _, _. split; [reflexivity|]. cbn [data]. split; [reflexivity|].
    split; [reflexivity|]. split; [reflexivity|]. try rewrite Hdata.
    destruct (refcount_adjust w d0 1 d0 pd0 H0) as (pd' & H' & Hrc').
    destruct (decide (d0 = d0)); [|congruence].
    rewrite (release_adjust _ _ _ H') by lia. cbn [mbind Outcome_bind obind].
    rewrite adjust_same. change (1 + -1) with 0. rewrite adjust_0. reflexivity. }
  assert (Hthree : forall d0 d1 d2, data f = [Some d0; Some d1; Some d2] ->
    exists g w1, VSFrameRef_copy f w = Ok (g, w1) /\ data g = data f /\
                 memory w1 = memory w /\ os w1 = os w /\ VSFrameRef_delete g w1 = Ok w).
  { intros d0 d1 d2 Hdata.
    destruct (Hlive d0) as (pd0 & H0 & Hrc0);
      [unfold frame_ids; rewrite Hdata; left; reflexivity|].
    destruct (Hlive d1) as (pd1 & H1 & Hrc1);
      [unfold frame_ids; rewrite Hdata; right; left; reflexivity|].
    destruct (Hlive d2) as (pd2 & H2 & Hrc2);
      [unfold frame_ids; rewrite Hdata; right; right; left; reflexivity|].
    unfold VSFrameRef_copy, VSFrameRef_delete. rewrite Hdata.
    (* the three add_ref *)
    rewrite (add_ref_adjust _ _ _ H0). cbn [mbind Outcome_bind obind].
    destruct (refcount_adjust_list [(d0, 1)] w d1 pd1 H1) as (pa & Ha & _).
    cbn [adjust_list] in Ha.
    rewrite (add_ref_adjust _ _ _ Ha). cbn [mbind Outcome_bind obind].
    destruct (refcount_adjust_list [(d0, 1); (d1, 1)] w d2 pd2 H2) as (pb & Hb & _).
    cbn [adjust_list] in Hb.
    rewrite (add_ref_adjust _ _ _ Hb). cbn [mbind Outcome_bind obind].
    eexists _, _. split; [reflexivity|]. cbn [data]. split; [reflexivity|].
    split; [reflexivity|]. split; [reflexivity|]. try rewrite Hdata.
    (* release d0 *)
    destruct (refcount_adjust_list [(d0, 1); (d1, 1); (d2, 1)] w d0 pd0 H0)
      as (q0 & Hq0 & Hrq0).
    cbn [adjust_list ref_delta] in Hq0, Hrq0.
    rewrite (release_adjust _ d0 q0 Hq0)
      by (rewrite Hrq0; repeat destruct (decide _); try congruence; lia).
    cbn [mbind Outcome_bind obind].
    (* release d1 *)
    destruct (refcount_adjust_list [(d0, 1); (d1, 1); (d2, 1); (d0, -1)] w d1 pd1 H1)
      as (q1 & Hq1 & Hrq1).
    cbn [adjust_list ref_delta] in Hq1, Hrq1.
    rewrite (release_adjust _ d1 q1 Hq1)
      by (rewrite Hrq1; repeat destruct (decide _); try congruence; lia).
    cbn [mbind Outcome_bind obind].
    (* release d2 *)
    destruct (refcount_adjust_list [(d0, 1); (d1, 1); (d2, 1); (d0, -1); (d1, -1)] w d2 pd2 H2)
      as (q2 & Hq2 & Hrq2).
    cbn [adjust_list ref_delta] in Hq2, Hrq2.
    rewrite (release_adjust _ d2 q2 Hq2)
      by (rewrite Hrq2; repeat destruct (decide _); try congruence; lia).
    f_equal.
    (* the six adjustments cancel *)
    rewrite (adjust_comm _ d1 (-1) d2 (-1)).
    rewrite (adjust_comm _ d0 (-1) d2 (-1)).
    rewrite (adjust_same _ d2 1 (-1)). change (1 + -1) with 0. rewrite adjust_0.
    rewrite (adjust_comm _ d0 (-1) d1 (-1)).
    rewrite (adjust_same _ d1 1 (-1)). change (1 + -1) with 0. rewrite adjust_0.
    rewrite (adjust_same _ d0 1 (-1)). change (1 + -1) with 0. apply adjust_0. }
  destruct (contentType f).
  - destruct Hvalid as [(_ & d0 & Hdata)|(_ & d0 & d1 & d2 & Hdata)].
    + apply (Hone d0 Hdata).
    + apply (Hthree d0 d1 d2 Hdata).
  - destruct Hvalid as (_ & d0 & Hdata). apply (Hone d0 Hdata).
Qed.


(** *** The channels of an audio frame *)

(** X22. The channels of an audio frame lie side by side in its buffer.
    An audio frame of at most 3072 samples that the constructor has built
    has one plane object, of [3072 * bytesPerSample * numChannels] bytes
    (and the guard space); [getReadPtr] of channel [p] points
    [p * 3072 * bytesPerSample] bytes into it, so that the samples of a
    channel end where the next channel begins, or before, and the last
    channel ends inside the buffer. *)
Theorem audio_frame_channels (f : VSAudioFormat) (numSamples : Z) (w : World)
    (fr : VSFrameRef) (w' : World) :
  0 <= guardSpace -> 0 < bytesPerSample f ->
  bytesPerSample f * 3072 <= INT_MAX -> 0 <= numChannels f ->
  bytesPerSample f * 3072 * numChannels f + 2 * guardSpace <= SIZE_MAX ->
  numSamples <= 3072 ->
  VSFrameRef_audio f numSamples w = Ok (fr, w') ->
  let stride0 := bytesPerSample f * 3072 in
  exists d pd,
    data fr = [Some d; None; None] /\ planes w' !! d = Some pd /\
    pd_size pd = stride0 * numChannels f + 2 * guardSpace /\
    forall p, 0 <= p < numChannels f ->
      let base := pd_data pd + guardSpace in
      getReadPtr fr p w' = Ok (base + p * stride0) /\
      base + p * stride0 + numSamples * bytesPerSample f <= base + (p + 1) * stride0 /\
      base + (p + 1) * stride0 <= base + stride0 * numChannels f.
Proof.
  intros Hg Hbps Hint Hch Hsize Hn H stride0. unfold VSFrameRef_audio in H.
  destruct (Z.leb_spec numSamples 0) as [|Hpos]; [discriminate|].
  unfold VS_AUDIO_FRAME_SAMPLES in H. fold stride0 in H.
  assert (Hs0 : wraps 32 stride0 = stride0).
  { apply wraps_small; [lia|]. unfold INT_MAX in Hint.
    change (2 ^ 31) with 2147483648 in Hint. change (2 ^ (32 - 1)) with 2147483648.
    subst stride0. lia. }
  rewrite Hs0 in H.
  assert (Hprod : 0 <= stride0 * numChannels f) by (subst stride0; nia).
  rewrite (sz_small (stride0 * numChannels f)) in H by (subst stride0; lia).
  unfold VSPlaneData_new, construct_plane in H.
  rewrite (sz_small (stride0 * numChannels f + 2 * guardSpace)) in H by (subst stride0; lia).
  destruct (allocBuffer _ _ _) as [[[dt m] os1]| | |]; cbn [mbind Outcome_bind obind] in H;
    try discriminate.
  destruct (dt =? 0); [discriminate|]. cbn [mbind Outcome_bind obind] in H.
  injection H as <- <-.
  eexists _, _. split; [reflexivity|]. split; [cbn [planes]; apply lookup_insert_eq|].
  split; [reflexivity|]. intros p Hp base. split; [|split].
  - unfold getReadPtr. cbn [numPlanes].
    destruct (Z.ltb_spec p 0); [lia|]. destruct (Z.leb_spec (numChannels f) p); [lia|].
    cbn [orb]. unfold data_pointer, plane_at. cbn [contentType data stride planes].
    cbn [lookup list_lookup]. rewrite lookup_insert_eq. reflexivity.
  - subst stride0. nia.
  - subst stride0. nia.
Qed.

End FrameLifeFacts.

Section NameFacts.

Context {P : Platform} {Hd : Headers}.

(** *** The undefined format *)

(** X23. The undefined format has the identifier 0 and no name. Whatever
    the other four values are, [queryVideoFormat] with [cfUndefined]
    succeeds and yields the format of zeros; [isValidVideoFormat] refuses
    that format, so that [queryVideoFormatID] returns 0 for it and
    [getVideoFormatName] fails; and [queryVideoFormatByID] turns 0 into
    that format again. *)
Theorem undefined_format (t : FormatTable) (st bits ssw ssh : Z) (buffer : string) :
  cfUndefined = 0 -> stInteger = 0 ->
  let f := VSVideoFormat_zero in
  queryVideoFormat cfUndefined st bits ssw ssh = Ok (true, f) /\
  isValidVideoFormat (colorFamily f) (vf_sampleType f) (vf_bitsPerSample f)
    (subSamplingW f) (subSamplingH f) = false /\
  queryVideoFormatID (colorFamily f) (vf_sampleType f) (vf_bitsPerSample f)
    (subSamplingW f) (subSamplingH f) = 0 /\
  getVideoFormatName f buffer = (false, buffer) /\
  queryVideoFormatByID t 0 = Ok (true, f).
Proof.
  intros Hu Hi f.
  assert (Hq : forall a b c d, queryVideoFormat cfUndefined a b c d = Ok (true, f)).
  { intros. unfold queryVideoFormat. rewrite Z.eqb_refl. reflexivity. }
  assert (Hv : isValidVideoFormat 0 0 0 0 0 = false).
  { unfold isValidVideoFormat. rewrite Hu, Hi. cbn [Z.eqb negb andb orb].
    change ((0 <? 8) || (32 <? 0)) with true.
    repeat match goal with |- context [if ?b then _ else _] => destruct b end;
      reflexivity. }
  split; [apply Hq|]. split; [exact Hv|].
  split; [unfold queryVideoFormatID; cbn [f VSVideoFormat_zero colorFamily vf_sampleType
            vf_bitsPerSample subSamplingW subSamplingH]; rewrite Hv; reflexivity|].
  split; [unfold getVideoFormatName; cbn [f VSVideoFormat_zero colorFamily vf_sampleType
            vf_bitsPerSample subSamplingW subSamplingH]; rewrite Hv; reflexivity|].
  unfold queryVideoFormatByID. change (is_v3_id 0) with false. cbn match.
  change (Z.land (Z.shiftr 0 28) 15) with 0. rewrite <- Hu at 1. apply Hq.
Qed.

(** *** Names fit their buffer *)

Lemma length_string_take n s : (String.length (string_take n s) <= String.length s)%nat.
Proof.
  revert s. induction n as [|n IH]; intros s; [cbn; lia|].
  destruct s as [|c s]; cbn [string_take String.length]; [lia|].
  specialize (IH s). lia.
Qed.

Lemma length_snprintf32 s n :
  (String.length s <= n)%nat -> (String.length (snprintf32 s) <= n)%nat.
Proof. intros H. pose proof (length_string_take 31 s). unfold snprintf32. lia. Qed.

Lemma to_string_short z : 0 <= z < 100 -> (String.length (to_string z) <= 2)%nat.
Proof.
  intros Hz. replace z with (Z.of_nat (Z.to_nat z)) by lia.
  assert (Hn : (Z.to_nat z < 100)%nat) by lia. revert Hn.
  generalize (Z.to_nat z) as n. intros n.
  do 100 (destruct n as [|n]; [intros _; vm_compute; lia|]). lia.
Qed.

Lemma to_string_digit z : 0 <= z < 10 -> (String.length (to_string z) <= 1)%nat.
Proof.
  intros Hz. replace z with (Z.of_nat (Z.to_nat z)) by lia.
  assert (Hn : (Z.to_nat z < 10)%nat) by lia. revert Hn.
  generalize (Z.to_nat z) as n. intros n.
  do 10 (destruct n as [|n]; [intros _; vm_compute; lia|]). lia.
Qed.

Lemma yuvName_short ssw ssh name :
  yuvName ssw ssh = Some name -> String.length name = 3%nat.
Proof.
  unfold yuvName.
  repeat match goal with |- context [if ?b then _ else _] => destruct b end;
    intros [= <-]; reflexivity.
Qed.

Lemma sampleTypeStr_short st bits : (String.length (sampleTypeStr st bits) <= 1)%nat.
Proof.
  unfold sampleTypeStr. destruct (st =? stFloat); [destruct (bits =? 32)|]; cbn; lia.
Qed.

(** X24. The names of formats fit their buffer of 32 bytes. For a valid
    video format of a colour family other than [cfUndefined],
    [getVideoFormatName] succeeds with a name of at most 15 characters;
    for a valid audio format with at most 64 channels,
    [getAudioFormatName] succeeds with a name of at most 16 characters.
    Nothing is cut off by [snprintf]. *)
Theorem format_names_fit :
  (forall (f : VSVideoFormat) (buffer : string),
      isValidVideoFormat (colorFamily f) (vf_sampleType f) (vf_bitsPerSample f)
        (subSamplingW f) (subSamplingH f) = true ->
      colorFamily f <> cfUndefined ->
      exists name, getVideoFormatName f buffer = (true, name) /\
                   (String.length name <= 15)%nat) /\
  (forall (f : VSAudioFormat) (buffer : string),
      isValidAudioFormat (sampleType f) (bitsPerSample f) (channelLayout f) = true ->
      0 <= numChannels f <= 64 ->
      exists name, getAudioFormatName f buffer = (true, name) /\
                   (String.length name <= 16)%nat).
Proof.
  split.
  - intros f buffer Hv Hdef.
    destruct (isValidVideoFormat_defined _ _ _ _ _ Hv Hdef) as (Hcf & _ & Hbits & Hssw & Hssh).
    unfold getVideoFormatName. rewrite Hv. cbn [negb].
    pose proof (sampleTypeStr_short (vf_sampleType f) (vf_bitsPerSample f)) as Hst.
    pose proof (to_string_short (vf_bitsPerSample f) ltac:(lia)) as Hb.
    assert (Hb3 : (String.length (to_string (wraps 32 (vf_bitsPerSample f * 3))) <= 2)%nat).
    { rewrite wraps_small by (try change (2 ^ (32 - 1)) with 2147483648; lia).
      apply to_string_short. lia. }
    pose proof (to_string_digit (subSamplingW f) ltac:(lia)) as Hw.
    pose proof (to_string_digit (subSamplingH f) ltac:(lia)) as Hh.
    destruct (Z.eqb_spec (colorFamily f) cfGray) as [|H0].
    { eexists. split; [reflexivity|]. apply length_snprintf32.
      rewrite !length_app_string. cbn [String.length]. lia. }
    destruct (Z.eqb_spec (colorFamily f) cfRGB) as [|H1].
    { eexists. split; [reflexivity|]. apply length_snprintf32.
      rewrite !length_app_string. cbn [String.length]. lia. }
    destruct (Z.eqb_spec (colorFamily f) cfYUV) as [|H2].
    { destruct (yuvName (subSamplingW f) (subSamplingH f)) as [name|] eqn:Ey.
      - apply yuvName_short in Ey.
        eexists. split; [reflexivity|]. apply length_snprintf32.
        rewrite !length_app_string. cbn [String.length]. lia.
      - eexists. split; [reflexivity|]. apply length_snprintf32.
        rewrite !length_app_string. cbn [String.length]. lia. }
    destruct (Z.eqb_spec (colorFamily f) cfCompatBGR32) as [|H3].
    { eexists. split; [reflexivity|]. apply length_snprintf32. cbn. lia. }
    destruct (Z.eqb_spec (colorFamily f) cfCompatYUY2) as [|H4].
    { eexists. split; [reflexivity|]. apply length_snprintf32. cbn. lia. }
    exfalso. clear -Hcf Hdef H0 H1 H2 H3 H4. lia.
  - intros f buffer Hv Hch. unfold getAudioFormatName. rewrite Hv. cbn [negb].
    apply isValidAudioFormat_spec in Hv. destruct Hv as (_ & Hbits & _).
    pose proof (to_string_short (bitsPerSample f) ltac:(lia)) as Hb.
    pose proof (to_string_short (numChannels f) ltac:(lia)) as Hc.
    destruct (sampleType f =? stFloat); eexists; (split; [reflexivity|]);
      apply length_snprintf32; rewrite !length_app_string; cbn [String.length]; lia.
Qed.

End NameFacts.

Section CoreLifeFacts.

Context {P : Platform} {Hd : Headers}.

Lemma wraps_int x : - 2147483648 <= x <= 2147483647 -> wraps 32 x = x.
Proof.
  intros Hx. apply wraps_small; [lia|]. change (2 ^ (32 - 1)) with 2147483648. lia.
Qed.

Lemma core_run_invariant es :
  forall c n,
    0 <= n ->
    n + Z.of_nat (length es) < 2147483647 ->
    numFilterInstances c = n + (if coreFreed c then 0 else 1) ->
    core_deleted c = coreFreed c && (n =? 0) ->
    forall k, instances_after es n = Some k ->
    match core_run es c with
    | Ok c' =>
        0 <= k /\
        numFilterInstances c' = k + (if coreFreed c' then 0 else 1) /\
        core_deleted c' = coreFreed c' && (k =? 0) /\
        coreFreed c' = coreFreed c || existsb is_freeCore es
    | Fatal msg => msg = "Double free of core"
    | Undefined => True
    | OutOfFuel => False
    end.
Proof.
  induction es as [|e es IH]; intros c n Hn Hlen Hcount Hdel k Hk.
  - cbn [core_run instances_after existsb] in *. injection Hk as <-.
    rewrite orb_false_r. repeat split; assumption.
  - cbn [core_run]. cbn [length] in Hlen. destruct (core_deleted c) eqn:Edel.
    { destruct e; cbn [core_event]; unfold filterInstanceCreated, filterInstanceDestroyed,
        functionInstanceCreated, functionInstanceDestroyed, freeCore, on_core;
        rewrite Edel; exact I. }
    assert (Hup : wraps 32 (numFilterInstances c + 1) = numFilterInstances c + 1)
      by (apply wraps_int; destruct (coreFreed c); lia).
    assert (Hdown : wraps 32 (numFilterInstances c - 1) = numFilterInstances c - 1)
      by (apply wraps_int; destruct (coreFreed c); lia).
    destruct e as [| | | |memoryUsed];
      cbn [core_event instances_after existsb is_freeCore] in *.
    + unfold filterInstanceCreated, on_core. rewrite Edel, Hup.
      cbn [mbind Outcome_bind obind].
      specialize (IH (mkVSCoreLife (coreFreed c) (numFilterInstances c + 1)
                        (numFunctionInstances c) false) (n + 1)).
      cbn [coreFreed numFilterInstances core_deleted] in IH.
      apply IH; [lia|lia|lia| |exact Hk].
      destruct (Z.eqb_spec (n + 1) 0); [lia|]. rewrite andb_false_r. reflexivity.
    + destruct (Z.leb_spec n 0) as [|Hpos]; [discriminate|].
      unfold filterInstanceDestroyed, on_core. rewrite Edel. cbn zeta. rewrite Hdown.
      destruct (Z.eqb_spec (numFilterInstances c - 1) 0) as [Hz|Hnz].
      * destruct (coreFreed c) eqn:Efreed; [|lia].
        unfold assert. rewrite orb_true_r. cbn [mbind Outcome_bind obind].
        specialize (IH (mkVSCoreLife true (numFilterInstances c - 1)
                          (numFunctionInstances c) true) (n - 1)).
        cbn [coreFreed numFilterInstances core_deleted] in IH.
        apply IH; [lia|lia|lia| |exact Hk].
        destruct (Z.eqb_spec (n - 1) 0); [reflexivity|lia].
      * cbn [mbind Outcome_bind obind].
        specialize (IH (mkVSCoreLife (coreFreed c) (numFilterInstances c - 1)
                          (numFunctionInstances c) false) (n - 1)).
        cbn [coreFreed numFilterInstances core_deleted] in IH.
        apply IH; [lia|lia|destruct (coreFreed c); lia| |exact Hk].
        destruct (coreFreed c); [|reflexivity].
        destruct (Z.eqb_spec (n - 1) 0); [lia|reflexivity].
    + unfold functionInstanceCreated, on_core. rewrite Edel.
      cbn [mbind Outcome_bind obind].
      specialize (IH (mkVSCoreLife (coreFreed c) (numFilterInstances c)
                        (wraps 32 (numFunctionInstances c + 1)) false) n).
      cbn [coreFreed numFilterInstances core_deleted] in IH.
      apply IH; [lia|lia|lia| |exact Hk].
      rewrite <- Hdel. reflexivity.
    + unfold functionInstanceDestroyed, on_core. rewrite Edel.
      cbn [mbind Outcome_bind obind].
      specialize (IH (mkVSCoreLife (coreFreed c) (numFilterInstances c)
                        (wraps 32 (numFunctionInstances c - 1)) false) n).
      cbn [coreFreed numFilterInstances core_deleted] in IH.
      apply IH; [lia|lia|lia| |exact Hk].
      rewrite <- Hdel. reflexivity.
    + unfold freeCore, on_core. rewrite Edel.
      destruct (coreFreed c) eqn:Efreed; [reflexivity|].
      unfold filterInstanceDestroyed, on_core. cbn [core_deleted numFilterInstances coreFreed].
      cbn zeta. rewrite Hdown.
      destruct (Z.eqb_spec (numFilterInstances c - 1) 0) as [Hz|Hnz].
      * unfold assert. rewrite orb_true_r. cbn [mbind Outcome_bind obind].
        specialize (IH (mkVSCoreLife true (numFilterInstances c - 1)
                          (numFunctionInstances c) true) n).
        cbn [coreFreed numFilterInstances core_deleted] in IH.
        apply IH; [lia|lia|lia| |exact Hk].
        destruct (Z.eqb_spec n 0); [reflexivity|lia].
      * cbn [mbind Outcome_bind obind].
        specialize (IH (mkVSCoreLife true (numFilterInstances c - 1)
                          (numFunctionInstances c) false) n).
        cbn [coreFreed numFilterInstances core_deleted] in IH.
        apply IH; [lia|lia|lia| |exact Hk].
        destruct (Z.eqb_spec n 0); [lia|reflexivity].
Qed.

(** X25. A core lives until it is freed and its last filter instance is
    gone. Take any events on a new core, fewer than [INT_MAX] of them, in
    which no more filter instances are destroyed than were created. If
    the run returns, the core is deleted at its end exactly when
    [freeCore] was among the events and no filter instance is left, and
    the count of the core is the number of instances, plus one as long as
    the core is not freed; function instances keep no core alive. The
    assertion of [filterInstanceDestroyed] never fails; the one fatal
    error is a second [freeCore]. *)
Theorem core_lifetime (es : list CoreEvent) (k : Z) :
  Z.of_nat (length es) < INT_MAX ->
  instances_after es 0 = Some k ->
  match core_run es VSCoreLife_new with
  | Ok c =>
      coreFreed c = existsb is_freeCore es /\
      numFilterInstances c = k + (if coreFreed c then 0 else 1) /\
      core_deleted c = coreFreed c && (k =? 0)
  | Fatal msg => msg = "Double free of core"
  | Undefined => True
  | OutOfFuel => False
  end.
Proof.
  intros Hlen Hk. unfold INT_MAX in Hlen. change (2 ^ 31) with 2147483648 in Hlen.
  assert (H0 : 0 <= 0) by lia.
  assert (Hb : 0 + Z.of_nat (length es) < 2147483647) by lia.
  pose proof (core_run_invariant es VSCoreLife_new 0 H0 Hb eq_refl eq_refl k Hk) as H.
  destruct (core_run es VSCoreLife_new) as [c| | |]; try exact H.
  destruct H as (_ & Hcount & Hdel & Hfreed). cbn [coreFreed VSCoreLife_new orb] in Hfreed.
  repeat split; assumption.
Qed.

End CoreLifeFacts.

Section LegacyFormatFacts.

Context {P : Platform} {Hd : Headers}.

(** *** The table of legacy formats *)

Lemma FormatMap_find_In m k f : FormatMap_find m k = Some f -> In (k, f) m.
Proof.
  induction m as [|[k' g] m IH]; cbn [FormatMap_find]; [discriminate|].
  destruct (Z.eqb_spec k k') as [->|Hne].
  - intros [= ->]. left. reflexivity.
  - intros H. right. apply IH, H.
Qed.






(** *** Colour families *)



End LegacyFormatFacts.

(* ===================================================================== *)
(** * Part III. The theorems on the 64-bit Linux build                    *)
(* ===================================================================== *)

Section Instances.

Import Example.

#[local] Existing Instance linux64.
#[local] Existing Instance vs_headers.

Example frame1_built : VSFrameRef_video gray8 64 64 world0 = Ok (frame1, world1).
Proof. vm_compute. reflexivity. Qed.

Lemma live_end_above live :
  32 <= live_end live /\
  forall addr h, live !! addr = Some h -> addr + 32 <= live_end live.
Proof.
  unfold live_end.
  apply (map_fold_weak_ind (fun r (m : gmap Z BlockHeader) =>
           32 <= r /\ forall addr h, m !! addr = Some h -> addr + 32 <= r)).
  - split; [lia|]. intros addr h H. rewrite lookup_empty in H. discriminate.
  - intros i x m r Hnone [Hr Hall]. split; [lia|].
    intros addr h H. apply lookup_insert_Some in H as [[<- <-]|[_ H]]; [lia|].
    specialize (Hall _ _ H). lia.
Qed.

Lemma linux64_os_fresh : os_fresh.
Proof.
  split.
  - intros live bytes align p [= <-].
    destruct (live !! _) as [h|] eqn:E; [|reflexivity]. exfalso.
    destruct (live_end_above live) as [_ Hall]. specialize (Hall _ _ E).
    set (a := Z.max 1 align) in *. assert (Ha : 0 < a) by lia.
    pose proof (Z.div_mod (live_end live + a - 1) a ltac:(lia)) as Hdm.
    pose proof (Z.mod_pos_bound (live_end live + a - 1) a Ha) as Hmod. nia.
  - intros live bytes p. discriminate.
Qed.



Example pool2_run : pool_run calls2 (pool0, os0) = Ok (pool2, os2).
Proof. vm_compute. reflexivity. Qed.


Example pool3_run : pool_run calls3 (pool0, os0) = Ok (pool3, os2).
Proof. vm_compute. reflexivity. Qed.

Lemma frame1_valid : frame_valid frame1.
Proof.
  split; [exists 64, 0, 0; reflexivity|].
  left. split; [reflexivity|]. exists O. reflexivity.
Qed.

Lemma world1_wf : heap_wf world1 (frame_ids frame1 ++ []).
Proof.
  split.
  - constructor.
    + vm_compute. constructor.
    + intros e He. vm_compute in He. destruct He.
    + intros d pd H. unfold world1 in H. cbn [planes] in H.
      apply lookup_insert_Some in H as [[<- <-]|[_ H]];
        [|rewrite lookup_empty in H; discriminate].
      split; [eexists; vm_compute; reflexivity|]. intros Hin. vm_compute in Hin. exact Hin.
    + intros d1 d2 pd1 pd2 H1 H2 _. unfold world1 in H1, H2. cbn [planes] in H1, H2.
      apply lookup_insert_Some in H1 as [[<- _]|[_ H1]];
        [|rewrite lookup_empty in H1; discriminate].
      apply lookup_insert_Some in H2 as [[<- _]|[_ H2]];
        [|rewrite lookup_empty in H2; discriminate].
      reflexivity.
  - intros d [<-|[]]. eexists. split; [vm_compute; reflexivity|].
    vm_compute. discriminate.
Qed.

Example frame1_copied : VSFrameRef_copy frame1 world1 = Ok (frame1, world1_shared).
Proof. vm_compute. reflexivity. Qed.

Lemma copy_on_write_witness :
  os_fresh /\ frame_valid frame1 /\ heap_wf world1 (frame_ids frame1 ++ []) /\
  VSFrameRef_copy frame1 world1 = Ok (frame1, world1_shared) /\
  (forall p, 0 <= p < numPlanes frame1 ->
     exists ptr, getReadPtr frame1 p world1_shared = Ok ptr /\
                 getReadPtr frame1 p world1_shared = Ok ptr) /\
  exists ptr g3 w3 d,
    getWritePtr frame1 0 world1_shared = Ok (ptr, g3, w3) /\
    plane_at g3 (plane_index g3 0) = Some d /\ unique w3 d = Ok true /\
    getReadPtr g3 0 w3 = Ok ptr /\
    getReadPtr frame1 0 w3 <> Ok ptr /\
    getReadPtr frame1 0 w3 = getReadPtr frame1 0 world1_shared.
Proof.
  split; [exact linux64_os_fresh|]. split; [exact frame1_valid|].
  split; [exact world1_wf|]. split; [exact frame1_copied|].
  destruct (copy_on_write frame1 world1 [] linux64_os_fresh frame1_valid world1_wf)
    as (g & w1 & Hcopy & Hread & Hwrite).
  rewrite frame1_copied in Hcopy. injection Hcopy as Hg Hw. subst g w1.
  split; [exact Hread|].
  assert (Hp : 0 <= 0 < numPlanes frame1) by (vm_compute; split; [discriminate|reflexivity]).
  destruct (Hwrite [] frame1 world1_shared 0 eq_refl Hp)
    as [(msg & d & pd & _ & Hat & Hpd & _ & Hfail)|(ptr & g3 & w3 & d & H1 & H2 & H3 & H4 & H5 & H6 & _)].
  - exfalso. vm_compute in Hat. injection Hat as Hd. subst d.
    vm_compute in Hpd. injection Hpd as Hpd. subst pd.
    destruct Hfail as [(_ & _ & Hnone)|(_ & m & os' & Halloc)].
    + vm_compute in Hnone. discriminate Hnone.
    + vm_compute in Halloc. discriminate Halloc.
  - exists ptr, g3, w3, d. repeat split; assumption.
Defined.

(** The run of the example: the copy shares the buffer at 64, the write
    moves the copy to a fresh buffer at 4192, the original stays at 64. *)
Example copy_on_write_run :
  match VSFrameRef_copy frame1 world1 with
  | Ok (g, w1) =>
      match getWritePtr g 0 w1 with
      | Ok (ptr, g3, w3) =>
          (getReadPtr frame1 0 w1, getReadPtr g 0 w1, ptr,
           getReadPtr g3 0 w3, getReadPtr frame1 0 w3)
          = (Ok 64, Ok 64, 4192, Ok 4192, Ok 64)
      | _ => False
      end
  | _ => False
  end.
Proof. vm_compute. reflexivity. Qed.


(** A request of 95 bytes takes the freed block of 100 bytes; a request
    of 50 bytes finds it no good fit and gets a fresh block. *)
Example allocBuffer_run :
  allocBuffer pool2 os2 95 = Ok (64, set_buffers pool2 [(200, 192)] 200, os2) /\
  match allocBuffer pool2 os2 50 with
  | Ok (ptr, m', os') =>
      ptr = 480 /\ m' = pool2 /\ blocks os' !! 448 = Some (mkBlockHeader 50 false)
  | _ => False
  end.
Proof. split; vm_compute; [reflexivity|repeat split; reflexivity]. Qed.

(** Beyond the range of the theorem the bound wraps around in [size_t]:
    a block of the very size asked for is then no good fit. A plane
    never has such a size. *)
Example isGoodFit_wraps :
  isGoodFit (2 ^ 64 - 1) (2 ^ 64 - 1) = false /\ good_fit (2 ^ 64 - 1) (2 ^ 64 - 1).
Proof. split; [reflexivity|]. apply Z.leb_le. reflexivity. Qed.



(** With a limit of 150 bytes, freeing the block of 200 bytes evicts the
    block the generator points at (the first, of 100 bytes), then the one
    that is left: the map ends up empty. *)
Example freeBuffer_run :
  match freeBuffer pool3 os2 224 with
  | Ok (m', os') =>
      buffers m' = [] /\ unusedBufferSize m' = 0 /\ blocks os' = ∅ /\
      skipn 2 (calls os') = [CallAlignedFree 32; CallAlignedFree 192]
  | _ => False
  end.
Proof. vm_compute. repeat split; reflexivity. Qed.

Lemma args_y_typed : typed_map args_y.
Proof. intros kv [<-|[<-|[]]]; discriminate. Qed.

Lemma invoke_validates_witness :
  funcs plugin1 !! "f" = Some f_x /\ typed_map args_y /\
  ((exists fa, In fa (args f_x) /\ violates fa args_y) \/
   (exists key, unknown_key f_x args_y key) ->
   exists msg, invoke plugin1 "f" args_y = Ok (setError msg, [])) /\
  (negb (compat plugin1) && hasCompatNodes args_y = false ->
   (forall fa, In fa (args f_x) -> ~ violates fa args_y) ->
   (exists key, unknown_key f_x args_y key) ->
   exists ks,
     invoke plugin1 "f" args_y =
       Ok (setError ("f" +:+ ": no argument(s) named " +:+ comma_separated ks), []) /\
     List.NoDup ks /\ forall k, In k ks <-> unknown_key f_x args_y k).
Proof.
  assert (H1 : funcs plugin1 !! "f" = Some f_x) by reflexivity.
  split; [exact H1|]. split; [exact args_y_typed|].
  exact (invoke_validates plugin1 "f" f_x args_y H1 args_y_typed).
Defined.

(** The undeclared key [y] is refused; so are a missing [x], an [x] of
    another type, two values for [x], and none. A call with one integer
    [x] reaches the filter. *)
Example invoke_run :
  invoke plugin1 "f" args_y = Ok (setError "f: no argument(s) named y", []) /\
  invoke plugin1 "f" (mkVSMap [] None) = Ok (setError "f: argument x is required", []) /\
  invoke plugin1 "f" (mkVSMap [("x", TypedArray ptFloat 1)] None)
    = Ok (setError "f: argument x is not of the correct type", []) /\
  invoke plugin1 "f" (mkVSMap [("x", TypedArray ptInt 2)] None)
    = Ok (setError
            "f: argument x is not of array type but more than one value was supplied", []) /\
  invoke plugin1 "f" (mkVSMap [("x", TypedArray ptInt 0)] None)
    = Ok (setError "f: argument x does not accept empty arrays", []) /\
  invoke plugin1 "f" (mkVSMap [("x", TypedArray ptInt 1); ("z", TypedArray ptInt 1);
                               ("y", TypedArray ptInt 1)] None)
    = Ok (setError "f: no argument(s) named y, z", []) /\
  invoke plugin1 "f" (mkVSMap [("x", TypedArray ptInt 1)] None)
    = Ok (VSMap_new, [("f", mkVSMap [("x", TypedArray ptInt 1)] None)]).
Proof. vm_compute. repeat split; reflexivity. Qed.

(** The claim of C5 as it is written fails: a name that is an identifier
    is refused on a read-only plugin, for a name that is taken, and for an
    argument string that does not parse. *)
Lemma registerFunction_refuses_identifier :
  matches_identifier "f" /\
  (exists log, registerFunction plugin_ro "f" "x:int;" "" pass_through
               = Ok (false, plugin_ro, log)) /\
  (exists log, registerFunction plugin1 "f" "x:int;" "" pass_through
               = Ok (false, plugin1, log)) /\
  (exists log, registerFunction plugin1 "g" "x" "" pass_through
               = Ok (false, plugin1, log)).
Proof.
  split; [constructor; [reflexivity|constructor]|].
  split; [eexists; reflexivity|]. split; [eexists; reflexivity|].
  eexists. vm_compute. reflexivity.
Qed.

Lemma registerFunction_succeeds_witness :
  exists b pl' log,
    registerFunction plugin1 "g" "clip:vnode;planes:int[]:opt:empty;" "clip:vnode;" pass_through
      = Ok (b, pl', log) /\
    (b = true <->
     readOnly plugin1 = false /\ matches_identifier "g" /\ funcs plugin1 !! "g" = None /\
     (exists a, parseArgString "clip:vnode;planes:int[]:opt:empty;" [] (plugin_apiMajor plugin1)
                = Ok (inr a)) /\
     (exists r, parseArgString "clip:vnode;" [] (plugin_apiMajor plugin1) = Ok (inr r))).
Proof.
  exact (registerFunction_succeeds plugin1 "g" "clip:vnode;planes:int[]:opt:empty;"
           "clip:vnode;" pass_through).
Defined.

Example registerFunction_run :
  registerFunction plugin1 "g" "clip:vnode;planes:int[]:opt:empty;" "clip:vnode;" pass_through
  = Ok (true, mkVSPlugin false "com.example" (<["g" := f_clip]> (<["f" := f_x]> ∅)) 4 false, []).
Proof. vm_compute. reflexivity. Qed.

Lemma stereo16_valid :
  forall info,
    In info (firstn (Z.to_nat 1) [stereo16]) ->
    isValidAudioInfo info = true /\ numSamples info <= INT_MAX * VS_AUDIO_FRAME_SAMPLES.
Proof. intros info [<-|[]]. split; [reflexivity|vm_compute; discriminate]. Qed.

Lemma audio_node_frame_count_witness :
  let r := fst (VSNode_audio "source" [stereo16] 1 0 0 4 false 0) in
  Z.land 0
    (Z.lnot (Z.lor (Z.lor (Z.lor nfNoCache nfIsCache) nfMakeLinear) nfFrameReady)) = 0 /\
  (Z.land 0 nfIsCache = 0 \/ Z.land 0 nfNoCache <> 0) /\
  (forall info,
      In info (firstn (Z.to_nat 1) [stereo16]) ->
      isValidAudioInfo info = true /\
      numSamples info <= INT_MAX * VS_AUDIO_FRAME_SAMPLES) /\
  exists node,
    r = Ok (inr node) /\
    Forall2 audio_output_ok (firstn (Z.to_nat 1) [stereo16]) (node_ai node).
Proof.
  assert (H1 : Z.land 0
    (Z.lnot (Z.lor (Z.lor (Z.lor nfNoCache nfIsCache) nfMakeLinear) nfFrameReady)) = 0)
    by reflexivity.
  assert (H2 : Z.land 0 nfIsCache = 0 \/ Z.land 0 nfNoCache <> 0) by (left; reflexivity).
  assert (H3 : 1 <= 1) by lia.
  assert (H4 : (Z.to_nat 1 <= length [stereo16])%nat) by (simpl; lia).
  cbn zeta. split; [exact H1|]. split; [exact H2|]. split; [exact stereo16_valid|].
  exact (proj2 (proj2 (audio_node_frame_count "source" [stereo16] 1 0 0 4 false 0))
           H1 H2 H3 H4 stereo16_valid).
Defined.

(** 3073 samples make two frames; one sample more than [INT_MAX * 3072]
    is refused. *)
Example audio_node_run :
  (exists node, fst (VSNode_audio "source" [stereo16] 1 0 0 4 false 0) = Ok (inr node) /\
                map numFrames (node_ai node) = [2]) /\
  fst (VSNode_audio "source"
         [mkVSAudioInfo (mkVSAudioFormat 0 16 2 2 3) 44100 (INT_MAX * 3072 + 1) 0] 1 0 0 4 false 0)
  = Ok (inl "Filter source specified 6597069763585 output samples but 6597069763584 samples is the upper limit").
Proof. split; [eexists; split; reflexivity|vm_compute; reflexivity]. Qed.

(** The claim of C7 as it is written fails: zero and negative values leave
    the limit as it was (here the default of 4 GiB). *)
Lemma setLimit_zero_ignored :
  getLimit (setLimits (MemoryUse_new 0) [0]) <> clamp_SIZE_MAX 0 /\
  getLimit (setLimits (MemoryUse_new 0) [1000; -1]) <> clamp_SIZE_MAX (-1).
Proof. split; vm_compute; discriminate. Qed.

Lemma limits_int64 : Forall is_int64 [1000; 0; -1].
Proof. repeat constructor; vm_compute; discriminate. Qed.

Lemma getLimit_last_accepted_witness :
  Forall is_int64 [1000; 0; -1] /\
  (forall l1 v l2,
      [1000; 0; -1] = l1 ++ v :: l2 -> accepted_limit v ->
      Forall (fun v' => ~ accepted_limit v') l2 ->
      getLimit (setLimits (MemoryUse_new 0) [1000; 0; -1]) = v) /\
  (Forall (fun v => ~ accepted_limit v) [1000; 0; -1] ->
   getLimit (setLimits (MemoryUse_new 0) [1000; 0; -1]) = getLimit (MemoryUse_new 0)).
Proof.
  split; [exact limits_int64|].
  exact (getLimit_last_accepted (MemoryUse_new 0) [1000; 0; -1] limits_int64).
Defined.

Example setLimits_run :
  getLimit (MemoryUse_new 0) = 4294967296 /\
  getLimit (setLimits (MemoryUse_new 0) [1000; 0; -1]) = 1000.
Proof. split; reflexivity. Qed.

(** The claim of C8 as it is written fails for an argument of an audio
    type. ["a:anode;"] is a valid string of the current generation. In a
    build with [NDEBUG], [getV3ArgString] writes ["a:;"] for it, which
    neither generation of the parser accepts; in a debug build the
    assertion stops the process. What is written for a video node,
    ["clip:clip;"], is a string of the legacy generation only. *)
Lemma v3_string_not_current :
  parseArgString "a:anode;" [] 4 = Ok (inr [a_audio]) /\
  getV3ArgString_from (Hd := vs_headers) [a_audio] "" = Ok "a:;" /\
  parseArgString "a:;" [] VAPOURSYNTH3_API_MAJOR
    = Ok (inl "Invalid argument specifier 'a:'. It appears to be incomplete.") /\
  parseArgString "a:;" [] 4
    = Ok (inl "Invalid argument specifier 'a:'. It appears to be incomplete.") /\
  getV3ArgString_from (Hd := vs_headers_debug) [a_audio] "" = Fatal "Assertion failed" /\
  parseArgString "clip:vnode;" [] 4
    = Ok (inr [mkFilterArgument "clip" ptVideoNode false false false]) /\
  getV3ArgString_from [mkFilterArgument "clip" ptVideoNode false false false] ""
    = Ok "clip:clip;" /\
  parseArgString "clip:clip;" [] 4 = Ok (inl "Argument 'clip' has invalid type 'clip'.").
Proof. vm_compute. repeat split; reflexivity. Qed.

Lemma f_clip_constructed :
  VSPluginFunction_new "g" "clip:vnode;planes:int[]:opt:empty;" "clip:vnode;" pass_through 4
  = Ok (inr f_clip).
Proof. vm_compute. reflexivity. Qed.

Lemma legacy_argstring_roundtrip_witness :
  VAPOURSYNTH3_API_MAJOR < 4 /\
  VSPluginFunction_new "g" "clip:vnode;planes:int[]:opt:empty;" "clip:vnode;" pass_through 4
    = Ok (inr f_clip) /\
  isV3Compatible f_clip = true /\
  exists s', getV3ArgString f_clip = Ok s' /\
             parseArgString s' [] VAPOURSYNTH3_API_MAJOR = Ok (inr (args f_clip)).
Proof.
  assert (H1 : VAPOURSYNTH3_API_MAJOR < 4) by reflexivity.
  assert (H3 : isV3Compatible f_clip = true) by reflexivity.
  split; [exact H1|]. split; [exact f_clip_constructed|]. split; [exact H3|].
  exact (legacy_argstring_roundtrip "g" "clip:vnode;planes:int[]:opt:empty;" "clip:vnode;"
           pass_through 4 f_clip H1 f_clip_constructed H3).
Defined.

Example legacy_argstring_run :
  getV3ArgString f_clip = Ok "clip:clip;planes:int[]:opt:empty;" /\
  parseArgString "clip:clip;planes:int[]:opt:empty;" [] 3 = Ok (inr (args f_clip)).
Proof. vm_compute. split; reflexivity. Qed.

Lemma large_pages_disabled_witness :
  constructed (MemoryUse_new 0, mkOS ∅ []) /\
  largePageEnabled (MemoryUse_new 0) = false /\
  (forall os1 bytes, allocateLargePage (MemoryUse_new 0) os1 bytes = (None, os1)) /\
  (forall os1 bytes p os2,
      allocateMemory (MemoryUse_new 0) os1 bytes = Ok (p, os2) ->
      blocks os2 !! p = Some (mkBlockHeader bytes false) /\
      freeMemory os2 p = Ok (vsh_aligned_free os2 p)).
Proof.
  split; [apply constructed_new|].
  exact (large_pages_disabled (MemoryUse_new 0) (mkOS ∅ []) (constructed_new 0 (mkOS ∅ []))).
Defined.

Lemma queryAudioFormat_spec_witness :
  0 <= 3 < 2 ^ 64 /\
  (audio_format_ok 0 16 3 ->
   exists f',
     queryAudioFormat (mkVSAudioFormat 0 0 0 0 0) 0 16 3 = Ok (true, f') /\
     numChannels f' = popcount 3 /\
     smallest_pow2_bytes (bytesPerSample f') 16 /\
     sampleType f' = 0 /\ bitsPerSample f' = 16 /\ channelLayout f' = 3) /\
  (~ audio_format_ok 0 16 3 ->
   queryAudioFormat (mkVSAudioFormat 0 0 0 0 0) 0 16 3
   = Ok (false, mkVSAudioFormat 0 0 0 0 0)).
Proof.
  assert (H : 0 <= 3 < 2 ^ 64) by (split; [lia|reflexivity]).
  split; [exact H|].
  exact (queryAudioFormat_spec (mkVSAudioFormat 0 0 0 0 0) 0 16 3 H).
Defined.

(** Stereo, 16 bit integer: two channels, two bytes per sample; 24 bit
    float is refused. *)
Example queryAudioFormat_run :
  queryAudioFormat (mkVSAudioFormat 0 0 0 0 0) 0 16 3
    = Ok (true, mkVSAudioFormat 0 16 2 2 3) /\
  queryAudioFormat (mkVSAudioFormat 0 0 0 0 0) 1 24 3
    = Ok (false, mkVSAudioFormat 0 0 0 0 0).
Proof. split; reflexivity. Qed.

End Instances.

Section FurtherInstances.

Import Example.

#[local] Existing Instance linux64.
#[local] Existing Instance vs_headers.

Lemma registerFunction_lookup_witness :
  exists b pl' log,
    registerFunction plugin_v3 "h" "clip:clip;n:int:opt;" "clip:clip;" pass_through
      = Ok (b, pl', log) /\
    (b = false -> pl' = plugin_v3 /\ exists msg, log = [msg]) /\
    (b = true ->
     log = [] /\
     (exists f, getFunctionByName pl' "h" = Some f /\
                pf_name f = "h" /\ argString f = "clip:clip;n:int:opt;" /\
                returnType f = "clip:clip;" /\ func f = pass_through /\
                parseArgString "clip:clip;n:int:opt;" [] (plugin_apiMajor plugin_v3)
                  = Ok (inr (args f)) /\
                parseArgString "clip:clip;" [] (plugin_apiMajor plugin_v3)
                  = Ok (inr (retArgs f))) /\
     (forall other, other <> "h" ->
                    getFunctionByName pl' other = getFunctionByName plugin_v3 other) /\
     readOnly pl' = readOnly plugin_v3 /\ plugin_id pl' = plugin_id plugin_v3 /\
     plugin_apiMajor pl' = plugin_apiMajor plugin_v3 /\ compat pl' = compat plugin_v3).
Proof.
  exact (registerFunction_lookup plugin_v3 "h" "clip:clip;n:int:opt;" "clip:clip;"
           pass_through).
Defined.

Example registerFunction_legacy_run :
  registerFunction plugin_v3 "h" "clip:clip;n:int:opt;" "clip:clip;" pass_through
  = Ok (true, plugin_v3_h, []).
Proof. vm_compute. reflexivity. Qed.

Lemma args_x_typed : typed_map args_x.
Proof. intros kv [<-|[]]; discriminate. Qed.

Lemma invoke_accepts_witness :
  funcs plugin1 !! "f" = Some f_x /\ typed_map args_x /\
  negb (compat plugin1) && hasCompatNodes args_x = false /\
  (forall fa, In fa (args f_x) -> ~ violates fa args_x) /\
  (forall key, ~ unknown_key f_x args_x key) /\
  invoke plugin1 "f" args_x = Ok (pass_through args_x VSMap_new, [("f", args_x)]).
Proof.
  assert (H1 : funcs plugin1 !! "f" = Some f_x) by reflexivity.
  assert (H3 : negb (compat plugin1) && hasCompatNodes args_x = false) by reflexivity.
  assert (H4 : forall fa, In fa (args f_x) -> ~ violates fa args_x).
  { intros fa [<-|[]]. unfold violates. cbn.
    intros [H|[[_ H]|[_ H]]]; [congruence|lia|discriminate]. }
  assert (H5 : forall key, ~ unknown_key f_x args_x key).
  { intros key [[<-|[]] Hnot]. apply Hnot. left. reflexivity. }
  split; [exact H1|]. split; [exact args_x_typed|]. split; [exact H3|].
  split; [exact H4|]. split; [exact H5|].
  apply (invoke_accepts plugin1 "f" f_x args_x H1 args_x_typed H3 H4 H5); reflexivity.
Defined.

Lemma args_x_nodup : List.NoDup (map fst (map_data args_x)).
Proof. repeat constructor. intros []. Qed.

Lemma invoke_legacy_no_late_stop_witness :
  plugin_apiMajor plugin_v3 = VAPOURSYNTH3_API_MAJOR /\
  registerFunction plugin_v3 "h" "clip:clip;n:int:opt;" "clip:clip;" pass_through
    = Ok (true, plugin_v3_h, []) /\
  typed_map args_x /\ List.NoDup (map fst (map_data args_x)) /\
  invoke plugin_v3_h "h" args_x <>
    Fatal ("h" +:+ ": filter node returned not yet supported type").
Proof.
  assert (H1 : plugin_apiMajor plugin_v3 = VAPOURSYNTH3_API_MAJOR) by reflexivity.
  assert (H2 : registerFunction plugin_v3 "h" "clip:clip;n:int:opt;" "clip:clip;" pass_through
               = Ok (true, plugin_v3_h, [])) by (vm_compute; reflexivity).
  split; [exact H1|]. split; [exact H2|]. split; [exact args_x_typed|].
  split; [exact args_x_nodup|].
  exact (invoke_legacy_no_late_stop plugin_v3 plugin_v3_h "h" "clip:clip;n:int:opt;"
           "clip:clip;" pass_through [] args_x H1 H2 args_x_typed args_x_nodup).
Defined.

Lemma videoFormatID_roundtrip_witness :
  isValidVideoFormat 3 0 8 1 1 = true /\
  16777216 <= queryVideoFormatID 3 0 8 1 1 < 4294967296 /\
  queryVideoFormatByID table0 (queryVideoFormatID 3 0 8 1 1) = queryVideoFormat 3 0 8 1 1 /\
  exists bps,
    queryVideoFormat 3 0 8 1 1 =
      Ok (true, mkVSVideoFormat 3 0 8 bps 1 1
                  (if (3 =? cfGray) || (3 =? cfCompatBGR32) || (3 =? cfCompatYUY2)
                   then 1 else 3)) /\
    smallest_pow2_bytes bps 8.
Proof.
  assert (H1 : 0 < 3 <= 15) by lia.
  assert (H2 : 0 <= 0 <= 15) by lia.
  assert (H3 : 3 <> cfUndefined) by discriminate.
  assert (H4 : isValidVideoFormat 3 0 8 1 1 = true) by reflexivity.
  split; [exact H4|].
  exact (videoFormatID_roundtrip table0 3 0 8 1 1 H1 H2 H3 H4).
Defined.

(** The identifier of YUV420P8, and what an identifier with an unknown
    colour family gives. *)
Example videoFormatID_run :
  queryVideoFormatID 3 0 8 1 1 = 0x30080101 /\
  queryVideoFormatByID table0 0x30080101 = Ok (true, yuv420p8) /\
  queryVideoFormatByID table0 0x70080101 = Ok (false, VSVideoFormat_zero).
Proof. vm_compute. repeat split; reflexivity. Qed.

Lemma audio_frames_cover_samples_witness :
  exists node,
    fst (VSNode_audio "source" [stereo16] 1 0 0 4 false 0) = Ok (inr node) /\
    forall info, In info (node_ai node) ->
      (forall n, 0 <= n < numFrames info -> 1 <= expectedSamples info n <= 3072) /\
      (forall n, 0 <= n < numFrames info - 1 -> expectedSamples info n = 3072) /\
      sum_Z (map (expectedSamples info) (frame_numbers (numFrames info))) = numSamples info /\
      (forall n fi len, 0 <= n < numFrames info ->
         check_audio_frame "source" info n fi len = Ok tt ->
         len = expectedSamples info n /\ 1 <= len <= 3072).
Proof.
  eexists. split; [reflexivity|].
  apply (audio_frames_cover_samples "source" [stereo16] 1 0 0 4 false 0). reflexivity.
Defined.

Lemma setError_first_wins_witness :
  ctx_error ctx0 = false /\
  setErrors ctx0 ["first"; "second"; "third"] =
    (false :: repeat true (length ["second"; "third"]), mkVSFrameContext true "first").
Proof.
  split; [reflexivity|].
  exact (setError_first_wins ctx0 "first" ["second"; "third"] eq_refl).
Defined.

Lemma configPlugin_once_witness :
  hasConfig config0 = false /\ Z.land 1 (Z.lnot pcReadOnly) = 0 /\
  exists p',
    configPlugin config0 "com.example" "ex" "Example" 1 262144 1 = Ok (true, p') /\
    cfg_id p' = (if string_empty (cfg_id config0) then "com.example" else cfg_id config0) /\
    fnamespace p' = (if string_empty (fnamespace config0) then "ex" else fnamespace config0) /\
    (forall major minor,
        1 <= major -> 0 <= minor < 65536 -> 262144 = major * 65536 + minor ->
        cfg_apiMajor p' = major /\ apiMinor p' = minor) /\
    (262144 < 65536 -> cfg_apiMajor p' = 262144 /\ apiMinor p' = apiMinor config0) /\
    (forall identifier' pluginNamespace' name' version' apiVersion' flags',
        exists msg,
          configPlugin p' identifier' pluginNamespace' name' version' apiVersion' flags'
            = Fatal msg).
Proof.
  assert (H1 : hasConfig config0 = false) by reflexivity.
  assert (H2 : Z.land 1 (Z.lnot pcReadOnly) = 0) by reflexivity.
  split; [exact H1|]. split; [exact H2|].
  exact (configPlugin_once config0 "com.example" "ex" "Example" 1 262144 1 H1 H2).
Defined.

Lemma plugins_a_ok : plugins_ok [("com.a", plugin_a)].
Proof.
  split; [|split].
  - repeat constructor.
  - repeat constructor.
  - repeat constructor. intros [].
Qed.

Lemma loadPlugin_unique_witness :
  plugins_ok [("com.a", plugin_a)] /\
  match loadPlugin [("com.a", plugin_a)] "b.so" plugin_b with
  | inl _ =>
      getPluginByID [("com.a", plugin_a)] (pe_id plugin_b) <> None \/
      getPluginByNamespace [("com.a", plugin_a)] (pe_namespace plugin_b) <> None
  | inr plugins' =>
      getPluginByID [("com.a", plugin_a)] (pe_id plugin_b) = None /\
      getPluginByNamespace [("com.a", plugin_a)] (pe_namespace plugin_b) = None /\
      plugins_ok plugins' /\
      exists p1,
        pe_id p1 = pe_id plugin_b /\ pe_namespace p1 = pe_namespace plugin_b /\
        pe_filename p1 = pe_filename plugin_b /\
        getPluginByID plugins' (pe_id plugin_b) = Some p1 /\
        getPluginByNamespace plugins' (pe_namespace plugin_b) = Some p1 /\
        forall other, other <> pe_id plugin_b ->
                      getPluginByID plugins' other = getPluginByID [("com.a", plugin_a)] other
  end.
Proof.
  split; [exact plugins_a_ok|].
  exact (loadPlugin_unique [("com.a", plugin_a)] "b.so" plugin_b plugins_a_ok).
Defined.

(** A second plugin with the namespace [a] is refused, whatever its
    identifier is. *)
Example loadPlugin_run :
  loadPlugin [("com.a", plugin_a)] "b.so" plugin_b
    = inr [("com.a", plugin_a); ("com.b", plugin_b)] /\
  loadPlugin [("com.a", plugin_a)] "c.so" (mkPluginEntry "com.c" "a" "c.so" false)
    = inl "Plugin load of c.so failed, namespace a already populated by a.so".
Proof. vm_compute. split; reflexivity. Qed.

Lemma getNextPlugin_visits_all_witness :
  let plugins := loadPlugins [] [("b.so", plugin_b); ("a.so", plugin_a); ("b.so", plugin_b)] in
  plugins_ok plugins /\
  ((length plugins < 5)%nat -> plugin_walk 5 plugins None = map snd plugins) /\
  plugin_walk 5 plugins None = [plugin_a; plugin_b].
Proof.
  pose proof (getNextPlugin_visits_all
                [("b.so", plugin_b); ("a.so", plugin_a); ("b.so", plugin_b)] 5) as H.
  cbn zeta in *. destruct H as [H1 H2]. split; [exact H1|]. split; [exact H2|].
  rewrite H2; [reflexivity|]. vm_compute. lia.
Defined.

Lemma pool1_sorted : key_sorted (buffers pool1).
Proof. constructor; [intros e' []|constructor]. Qed.

Lemma freeBuffer_allocBuffer_roundtrip_witness :
  key_sorted (buffers pool1) /\
  blocks os2 !! (224 - alignment) = Some (mkBlockHeader 200 false) /\
  used pool1 + unusedBufferSize pool1 + 200 <= maxMemoryUse pool1 /\
  exists m1 p m2,
    freeBuffer pool1 os2 224 = Ok (m1, os2) /\
    allocBuffer m1 os2 (size (mkBlockHeader 200 false)) = Ok (p, m2, os2) /\
    In (size (mkBlockHeader 200 false), p - alignment) (buffers m1) /\
    unusedBufferSize m2 = unusedBufferSize pool1 /\
    ((forall e, In e (buffers pool1) -> fst e <> size (mkBlockHeader 200 false)) ->
     p = 224 /\ m2 = pool1).
Proof.
  assert (H2 : blocks os2 !! (224 - alignment) = Some (mkBlockHeader 200 false))
    by reflexivity.
  assert (H3 : 0 < size (mkBlockHeader 200 false)) by (simpl; lia).
  assert (H4 : size (mkBlockHeader 200 false) + size (mkBlockHeader 200 false) / 8
               <= SIZE_MAX) by (vm_compute; discriminate).
  assert (H5 : 0 <= used pool1) by (vm_compute; discriminate).
  assert (H6 : 0 <= unusedBufferSize pool1) by (vm_compute; discriminate).
  assert (H7 : used pool1 + unusedBufferSize pool1 + size (mkBlockHeader 200 false)
               <= maxMemoryUse pool1) by (vm_compute; discriminate).
  assert (H8 : maxMemoryUse pool1 <= SIZE_MAX) by (vm_compute; discriminate).
  split; [exact pool1_sorted|]. split; [exact H2|]. split; [exact H7|].
  exact (freeBuffer_allocBuffer_roundtrip pool1 os2 224 (mkBlockHeader 200 false)
           pool1_sorted H2 H3 H4 H5 H6 H7 H8).
Defined.

Lemma pool2_consistent : pool_consistent pool2 os2.
Proof.
  split; [reflexivity|]. split.
  - change (buffers pool2) with [(100, 32); (200, 192)].
    constructor; [intros [H|[]]; discriminate|]. constructor; [intros []|constructor].
  - intros e He. change (buffers pool2) with [(100, 32); (200, 192)] in He.
    destruct He as [<-|[<-|[]]]; (split; [simpl; lia|]).
    + exists (mkBlockHeader 100 false). split; reflexivity.
    + exists (mkBlockHeader 200 false). split; reflexivity.
Qed.

Lemma pool2_sorted : key_sorted (buffers pool2).
Proof.
  constructor; [intros e' [<-|[]]; simpl; lia|]. constructor; [intros e' []|constructor].
Qed.

Lemma allocBuffer_has_room_witness :
  os_fresh /\ pool_consistent pool2 os2 /\ key_sorted (buffers pool2) /\
  allocBuffer pool2 os2 95 = Ok (64, set_buffers pool0 [(200, 192)] 200, os2) /\
  (exists h, blocks os2 !! (64 - alignment) = Some h /\ 95 <= size h <= 95 + 95 / 8) /\
  ~ In (64 - alignment) (map snd (buffers (set_buffers pool0 [(200, 192)] 200))) /\
  pool_consistent (set_buffers pool0 [(200, 192)] 200) os2 /\
  key_sorted (buffers (set_buffers pool0 [(200, 192)] 200)).
Proof.
  assert (H4 : largePageEnabled pool2 = false) by reflexivity.
  assert (H5 : unusedBufferSize pool2 <= SIZE_MAX) by (vm_compute; discriminate).
  assert (H6 : 0 <= 95) by lia.
  assert (H7 : 95 + 95 / 8 <= SIZE_MAX) by (vm_compute; discriminate).
  assert (H8 : allocBuffer pool2 os2 95 = Ok (64, set_buffers pool0 [(200, 192)] 200, os2))
    by (vm_compute; reflexivity).
  split; [exact linux64_os_fresh|]. split; [exact pool2_consistent|].
  split; [exact pool2_sorted|]. split; [exact H8|].
  exact (allocBuffer_has_room pool2 os2 95 64 (set_buffers pool0 [(200, 192)] 200) os2
           linux64_os_fresh pool2_consistent pool2_sorted H4 H5 H6 H7 H8).
Defined.

Lemma pool_released_when_idle_witness :
  pool_consistent pool2 os2 /\ used pool2 = 0 /\
  exists m' os',
    signalFree pool2 os2 = Ok (m', os') /\ deleted m' = true /\
    (forall e, In e (buffers pool2) -> blocks os' !! snd e = None) /\
    (forall q, ~ In q (map snd (buffers pool2)) -> blocks os' !! q = blocks os2 !! q) /\
    length (calls os') = (length (calls os2) + length (buffers pool2))%nat.
Proof.
  split; [exact pool2_consistent|]. split; [reflexivity|].
  exact (proj1 (pool_released_when_idle pool2 os2 pool2_consistent) eq_refl).
Defined.

(** The two freed blocks of [pool2] go back with two calls. *)
Example signalFree_run :
  match signalFree pool2 os2 with
  | Ok (m', os') =>
      deleted m' = true /\ blocks os' = ∅ /\
      skipn 2 (calls os') = [CallAlignedFree 32; CallAlignedFree 192]
  | _ => False
  end.
Proof. vm_compute. repeat split; reflexivity. Qed.

Lemma pool_alive_without_signalFree_witness :
  ~ In call_signalFree calls2 /\
  pool_run calls2 (MemoryUse_new 0, os0) = Ok (pool2, os2) /\
  freeOnZero pool2 = false /\ deleted pool2 = false.
Proof.
  assert (H1 : ~ In call_signalFree calls2).
  { intros [H|[H|[H|[H|[]]]]]; discriminate. }
  split; [exact H1|]. split; [exact pool2_run|].
  exact (pool_alive_without_signalFree 0 os0 calls2 pool2 os2 H1 pool2_run).
Defined.

Lemma zero_size_plane_release_witness :
  guardSpace = 0 /\ VSPlaneData_new world0 0 = Ok (O, world_plane0) /\
  (exists pd, planes world_plane0 !! O = Some pd /\ pd_size pd = 0 /\
              blocks (os world_plane0) !! (pd_data pd - alignment)
                = Some (mkBlockHeader 0 false)) /\
  release world_plane0 O = Fatal "Memory corruption detected. Windows bug?".
Proof.
  assert (H1 : guardSpace = 0) by reflexivity.
  assert (H2 : largePageEnabled (memory world0) = false) by reflexivity.
  assert (H3 : forall e, In e (buffers (memory world0)) -> 0 < fst e) by (intros e []).
  assert (H4 : VSPlaneData_new world0 0 = Ok (O, world_plane0)) by (vm_compute; reflexivity).
  split; [exact H1|]. split; [exact H4|].
  exact (zero_size_plane_release world0 O world_plane0 H1 H2 H3 H4).
Defined.

(** A YUV 4:2:0 frame of one column: the chroma planes are 0 bytes wide,
    and the frame cannot be destroyed. *)
Example narrow_frame_run :
  match VSFrameRef_video yuv420p8 1 2 world0 with
  | Ok (fr, w) =>
      stride fr = [32; 0; 0] /\
      VSFrameRef_delete fr w = Fatal "Memory corruption detected. Windows bug?"
  | _ => False
  end.
Proof. vm_compute. split; reflexivity. Qed.

Lemma world0_consistent : pool_consistent (memory world0) (os world0).
Proof. split; [reflexivity|]. split; [constructor|intros e []]. Qed.

Lemma plane_new_release_witness :
  os_fresh /\ pool_consistent (memory world0) (os world0) /\
  exists d w1 w2,
    VSPlaneData_new world0 4096 = Ok (d, w1) /\
    planes world0 !! d = None /\
    used (memory w1) = used (memory world0) + (4096 + 2 * guardSpace) /\
    release w1 d = Ok w2 /\
    planes w2 = planes world0 /\
    used (memory w2) = used (memory world0) /\
    pool_consistent (memory w2) (os w2) /\ key_sorted (buffers (memory w2)).
Proof.
  assert (H3 : key_sorted (buffers (memory world0))) by constructor.
  assert (H4 : largePageEnabled (memory world0) = false) by reflexivity.
  assert (H5 : freeOnZero (memory world0) = false) by reflexivity.
  assert (H6 : 0 <= guardSpace) by (vm_compute; discriminate).
  assert (H7 : 0 <= 4096) by lia.
  assert (H8 : 0 < 4096 + 4 * guardSpace) by reflexivity.
  assert (H9 : 0 <= used (memory world0)) by (vm_compute; discriminate).
  assert (H10 : let bytes := 4096 + 4 * guardSpace in
                used (memory world0) + unusedBufferSize (memory world0)
                + 2 * bytes + bytes / 8 <= SIZE_MAX) by (vm_compute; discriminate).
  split; [exact linux64_os_fresh|]. split; [exact world0_consistent|].
  destruct (plane_new_release world0 4096 linux64_os_fresh world0_consistent
              H3 H4 H5 H6 H7 H8 H9 H10) as [(msg & Hfatal & _)|Hok]; [|exact Hok].
  exfalso. vm_compute in Hfatal. discriminate Hfatal.
Defined.

Lemma video_frame_strides_witness :
  alignment = 2 ^ 5 /\ VSFrameRef_video gray8 64 64 world0 = Ok (frame1, world1) /\
  exists s0 s12,
    stride frame1 = [s0; s12; s12] /\
    (alignment | s0) /\
    64 * vf_bytesPerSample gray8 <= s0 < 64 * vf_bytesPerSample gray8 + alignment /\
    (vf_numPlanes gray8 = 3 ->
     (alignment | s12) /\
     Z.shiftr 64 (subSamplingW gray8) * vf_bytesPerSample gray8 <= s12
       < Z.shiftr 64 (subSamplingW gray8) * vf_bytesPerSample gray8 + alignment) /\
    (vf_numPlanes gray8 <> 3 -> s12 = 0) /\
    (0 < vf_numPlanes gray8 -> getStride frame1 0 = Ok s0) /\
    (vf_numPlanes gray8 = 3 -> getStride frame1 1 = Ok s12 /\ getStride frame1 2 = Ok s12).
Proof.
  assert (H1 : 0 <= 5) by lia.
  assert (H2 : alignment = 2 ^ 5) by reflexivity.
  assert (H3 : 0 <= vf_bytesPerSample gray8) by (vm_compute; discriminate).
  assert (H4 : 0 <= subSamplingW gray8) by (vm_compute; discriminate).
  assert (H5 : 64 * vf_bytesPerSample gray8 + alignment - 1 <= INT_MAX)
    by (vm_compute; discriminate).
  split; [exact H2|]. split; [exact frame1_built|].
  exact (video_frame_strides gray8 64 64 world0 frame1 world1 5 H1 H2 H3 H4 H5 frame1_built).
Defined.

Lemma frame1_planes_alive :
  forall d, In d (frame_ids frame1) ->
            exists pd, planes world1 !! d = Some pd /\ 1 <= pd_refcount pd.
Proof.
  intros d [<-|[]]. exists (mkVSPlaneData 1 4096 64). split; [reflexivity|simpl; lia].
Qed.

Lemma frame_copy_delete_witness :
  frame_valid frame1 /\
  (forall d, In d (frame_ids frame1) ->
             exists pd, planes world1 !! d = Some pd /\ 1 <= pd_refcount pd) /\
  exists g w1,
    VSFrameRef_copy frame1 world1 = Ok (g, w1) /\
    data g = data frame1 /\
    memory w1 = memory world1 /\ os w1 = os world1 /\
    VSFrameRef_delete g w1 = Ok world1.
Proof.
  split; [exact frame1_valid|]. split; [exact frame1_planes_alive|].
  exact (frame_copy_delete frame1 world1 frame1_valid frame1_planes_alive).
Defined.

Lemma audio_frame_channels_witness :
  VSFrameRef_audio stereo16_format 3072 world0 = Ok (audio_frame1, world_audio1) /\
  exists d pd,
    data audio_frame1 = [Some d; None; None] /\ planes world_audio1 !! d = Some pd /\
    pd_size pd = bytesPerSample stereo16_format * 3072 * numChannels stereo16_format
                 + 2 * guardSpace /\
    forall p, 0 <= p < numChannels stereo16_format ->
      let base := pd_data pd + guardSpace in
      getReadPtr audio_frame1 p world_audio1
        = Ok (base + p * (bytesPerSample stereo16_format * 3072)) /\
      base + p * (bytesPerSample stereo16_format * 3072)
        + 3072 * bytesPerSample stereo16_format
        <= base + (p + 1) * (bytesPerSample stereo16_format * 3072) /\
      base + (p + 1) * (bytesPerSample stereo16_format * 3072)
        <= base + bytesPerSample stereo16_format * 3072 * numChannels stereo16_format.
Proof.
  assert (H1 : 0 <= guardSpace) by (vm_compute; discriminate).
  assert (H2 : 0 < bytesPerSample stereo16_format) by reflexivity.
  assert (H3 : bytesPerSample stereo16_format * 3072 <= INT_MAX)
    by (vm_compute; discriminate).
  assert (H4 : 0 <= numChannels stereo16_format) by (vm_compute; discriminate).
  assert (H5 : bytesPerSample stereo16_format * 3072 * numChannels stereo16_format
               + 2 * guardSpace <= SIZE_MAX) by (vm_compute; discriminate).
  assert (H6 : 3072 <= 3072) by lia.
  assert (H7 : VSFrameRef_audio stereo16_format 3072 world0
               = Ok (audio_frame1, world_audio1)) by (vm_compute; reflexivity).
  split; [exact H7|].
  exact (audio_frame_channels stereo16_format 3072 world0 audio_frame1 world_audio1
           H1 H2 H3 H4 H5 H6 H7).
Defined.

Lemma undefined_format_witness :
  cfUndefined = 0 /\ stInteger = 0 /\
  queryVideoFormat cfUndefined 1 7 9 9 = Ok (true, VSVideoFormat_zero) /\
  isValidVideoFormat 0 0 0 0 0 = false /\
  queryVideoFormatID 0 0 0 0 0 = 0 /\
  getVideoFormatName VSVideoFormat_zero "old" = (false, "old") /\
  queryVideoFormatByID table0 0 = Ok (true, VSVideoFormat_zero).
Proof.
  split; [reflexivity|]. split; [reflexivity|].
  exact (undefined_format table0 1 7 9 9 "old" eq_refl eq_refl).
Defined.

Lemma format_names_fit_witness :
  isValidVideoFormat (colorFamily yuv420p8) (vf_sampleType yuv420p8)
    (vf_bitsPerSample yuv420p8) (subSamplingW yuv420p8) (subSamplingH yuv420p8) = true /\
  colorFamily yuv420p8 <> cfUndefined /\
  (exists name, getVideoFormatName yuv420p8 "" = (true, name) /\
                (String.length name <= 15)%nat) /\
  isValidAudioFormat (sampleType stereo16_format) (bitsPerSample stereo16_format)
    (channelLayout stereo16_format) = true /\
  exists name, getAudioFormatName stereo16_format "" = (true, name) /\
               (String.length name <= 16)%nat.
Proof.
  assert (H1 : isValidVideoFormat (colorFamily yuv420p8) (vf_sampleType yuv420p8)
                 (vf_bitsPerSample yuv420p8) (subSamplingW yuv420p8)
                 (subSamplingH yuv420p8) = true) by reflexivity.
  assert (H2 : colorFamily yuv420p8 <> cfUndefined) by discriminate.
  assert (H3 : isValidAudioFormat (sampleType stereo16_format)
                 (bitsPerSample stereo16_format) (channelLayout stereo16_format) = true)
    by reflexivity.
  assert (H4 : 0 <= numChannels stereo16_format <= 64) by (simpl; lia).
  split; [exact H1|]. split; [exact H2|].
  split; [exact (proj1 format_names_fit yuv420p8 "" H1 H2)|].
  split; [exact H3|].
  exact (proj2 format_names_fit stereo16_format "" H3 H4).
Defined.

Example format_names_run :
  getVideoFormatName yuv420p8 "" = (true, "YUV420P8") /\
  getVideoFormatName (mkVSVideoFormat 3 1 32 4 3 4 3) "" = (true, "YUVssw3ssh4PS32") /\
  getVideoFormatName (mkVSVideoFormat 2 0 10 2 0 0 3) "" = (true, "RGB30") /\
  getAudioFormatName stereo16_format "" = (true, "Audio16 (2 CH)").
Proof. vm_compute. repeat split; reflexivity. Qed.

Lemma core_lifetime_witness :
  Z.of_nat (length events1) < INT_MAX /\ instances_after events1 0 = Some 0 /\
  match core_run events1 VSCoreLife_new with
  | Ok c =>
      coreFreed c = existsb is_freeCore events1 /\
      numFilterInstances c = 0 + (if coreFreed c then 0 else 1) /\
      core_deleted c = coreFreed c && (0 =? 0)
  | Fatal msg => msg = "Double free of core"
  | Undefined => True
  | OutOfFuel => False
  end.
Proof.
  assert (H1 : Z.of_nat (length events1) < INT_MAX) by reflexivity.
  assert (H2 : instances_after events1 0 = Some 0) by reflexivity.
  split; [exact H1|]. split; [exact H2|].
  exact (core_lifetime events1 0 H1 H2).
Defined.

(** The core of [events1] is deleted by the last event; freed before the
    filter is made it is deleted at once, and the filter then works on a
    core that is gone. *)
Example core_run_example :
  core_run events1 VSCoreLife_new = Ok (mkVSCoreLife true 0 1 true) /\
  core_run [ev_freeCore 0] VSCoreLife_new = Ok (mkVSCoreLife true 0 0 true) /\
  core_run [ev_freeCore 0; ev_created] VSCoreLife_new = Undefined /\
  core_run [ev_created; ev_freeCore 0; ev_freeCore 0] VSCoreLife_new
    = Fatal "Double free of core".
Proof. vm_compute. repeat split; reflexivity. Qed.





(** The legacy format of YUV420P8 is made once: the second call finds
    the format that the first call has filed. *)
Example legacy_format_run :
  match VideoFormatToV3 table0 yuv420p8 with
  | Ok (Some p, t1) =>
      p = 3001000 /\ option_map v3_name (FormatMap_find (videoFormats t1) p) = Some "YUV420P8" /\
      VideoFormatToV3 t1 yuv420p8 = Ok (Some p, t1)
  | _ => False
  end.
Proof. vm_compute. repeat split; reflexivity. Qed.

End FurtherInstances.
